(* ===== verification/_CoqProject ===== *)
-Q . S2P
Prelude.v
GoBytes.v
Sha256.v
GoFloat.v
Strconv.v
Json.v
Meta.v
Path.v
Fs.v
Cas.v
CasRace.v
Auth.v
Http.v
Dataplane.v
Wire.v
Assembler.v
Chunker.v
Merkle.v
Control.v
ControlClient.v
Scheduler.v
Discovery.v
Orchestrator.v
Watcher.v
Quiet.v
Clock.v
Daemon.v
Node.v
Cluster.v
Wired.v
Main.v
