(* ===== verification/Prelude.v ===== *)
(** * NuSync: a verification library

    NuSync ([src/], Go) is a daemon that keeps a directory in sync among peers.
    A change of a watched file is cut into chunks by content, the chunks go to
    a content-addressed store, a record (Merkle root, chunk list, size, Lamport
    timestamp) goes to an index, and the change is announced by gossip.  A node
    that hears of a version it should have, by gossip, by comparing catalogs
    (anti-entropy) or through its local API, pulls the file: it asks a peer for
    the missing chunks and the record, learns which peers hold which chunk,
    fetches the rarest first, assembles the file from its store, saves the
    record and announces it in turn.

    ** Files

    Foundations, for the language and its standard library:
    - [Prelude]: Go results ([result], [error]), the state-and-error monad
      [stM], list lemmas, the hint database [nusync].
    - [GoBytes]: bytes, [[32]byte], machine integers with their wrap-around,
      the order of strings, hexadecimal; [Sha256]: an executable SHA-256 and
      HMAC; [GoFloat]: float64 and durations; [Strconv]: numbers as text;
      [Json]: the part of encoding/json that is used, with its UTF-8 repair;
      [Path]: path/filepath on Unix; [Http]: the part of net/url and net/http
      that is used, from the URL a client builds to the request a handler gets.
    - [Fs]: the calls of package os.  The files are a map from path to content;
      every call takes the next outcome from a list ([os_io]), which may be a
      failure or a partial write, so a theorem about all lists is one about all
      patterns of I/O failure; the empty list means that nothing fails.

    Components, one Module each, named after the Go package:
    - [Cas] ([internal/store/cas.go]): [Put], [GetFile], [Get]; [CasRace] runs
      any number of [Put]s of one hash with their system calls interleaved.
    - [Meta] ([internal/store/meta.go]): records and catalog; bbolt is the
      class [Bolt] with the laws [BoltLaws], instantiated by [map_bolt].
    - [Auth] ([internal/auth]): the signers and verifiers of HTTP requests and
      gRPC calls, with base64.
    - [Dataplane] ([internal/dataplane]): the HTTP server with its limit on
      streams (the semaphore is the class [Semaphore] with [SemaphoreLaws],
      instantiated by [counting_sem]; overlapping streams are a step relation)
      and the client; [Wire] connects a client to servers, request line by
      request line.
    - [Chunker] ([internal/chunker]): [ChunkFile]; the fastcdc library is the
      class [FastCDC] with its contract [FastCDCLaws], instantiated by
      [fixed_cdc].  The loop has fuel, one more than the file has bytes, which
      [ChunkFile_reassembles] shows to be enough, every chunk being non-empty.
    - [Merkle] ([internal/merkle]): [ComputeRoot]; the fuel of its loop is the
      number of hashes, which shrinks with every level ([ComputeRoot_tree]).
    - [Assembler] ([internal/assembler]): [SparseFile] and [Assemble].
    - [Control] ([internal/control/service.go]): the gRPC service;
      [ControlClient] ([client.go]): its client, with gRPC as the class
      [GrpcDelivers], instantiated by [direct_grpc].
    - [Scheduler] ([internal/scheduler]): health tracker, backoff, rarest-first
      order; [sort.Slice] is the class [SortSlice] with [SortSliceLaws],
      instantiated by [insertion_sort].
    - [Discovery] ([internal/discovery]): announcements, ports, peers.
    - [Orchestrator] ([internal/orchestrator]): [Pull].  Everything the network
      answers is an arbitrary environment ([PeerNet]); the goroutine that
      fetches a chunk is one step, and the steps come in an arbitrary order.
    - [Watcher] ([internal/watcher]): the walk over the directory tree; the
      loop, its timers and the goroutines they start as a step relation.
    - [Quiet] and [Clock] ([internal/daemon/quiet.go] and the Lamport clock of
      [daemon.go]); [Clock] also has the clock's atomic operations as a step
      relation.
    - [Daemon] ([internal/daemon/daemon.go], [api.go]): the state of a node as
      a record, one definition per handler.
    - [Node]: everything that can happen to one node as a step relation.
    - [Cluster]: nodes that answer each other.  What a [Pull] needs of its
      network is the class [HonestNet].
    - [Wired]: the network that [NewDaemon] builds from the control plane and
      the data plane, as an instance of [HonestNet].
    - [Main] ([cmd/nusyncd/main.go]): from the flags to a serving node.

    The Modules whose names end in [Examples] hold concrete nodes and the
    instances of the theorems at them.

    ** Theorems

    - End to end ([Wired], [Cluster]): an edit on one node followed by a sync on
      another, through signed calls and requests, gives the same file and
      record; so does the next anti-entropy round when the announcement was
      lost; a [Pull] among healthy nodes succeeds.
      Collision-freeness of SHA-256 is never assumed in general: where needed
      it is a hypothesis on the byte strings that occur, or a collision among
      strings actually hashed is the other case of the conclusion.
    - Safety of a node ([Node], [Orchestrator], [Cas], [Main]): the store stays
      sound through every run with any inputs and I/O failures; files outside
      the two directories are not touched; numbers stay within 64 bits; a
      failing [Pull] leaves the index alone; a synced file is not taken for a
      local change; with the default data directory the two directories are
      apart and the store is not watched.
    - Concurrency ([CasRace], [Clock], [Dataplane], [Watcher]): [Put]s of the
      same data agree, each returns, and one by itself is the sequential [Put];
      the clock is linearizable; streams are bounded and drain; the watcher
      calls back only for a cause, after the quiet period, and loses no change.
    - Versions ([Daemon], [Clock]): last-writer-wins is a strict total order
      and independent of arrival; two nodes at rest agree on every file; the
      clock's timestamps increase.
    - Authentication and transfer ([Auth], [Dataplane], [Wire],
      [ControlClient]): signed requests and calls are accepted by every node
      with the secret, for the allowed time and for nothing else; a request
      that is refused learns nothing; records, catalogs and chunks arrive as
      they are in the peer's index and store.
    - Functional behaviour of the handlers and components, errors included:
      [HandleFileChange], [handleAnnouncement], [reconcileWithPeer], the API,
      chunking, diffing, availability, rarity, backoff, cooldown, assembly; and
      round trips of records, announcements, ports and objects.
    - Behaviour that is probably not intended, stated as it is: edits lost after
      a restart ([stale_clock_loses]), going back in time
      ([Pull_can_regress]), leaving the sync directory
      ([traversal_destination]), ties decided by the holder
      ([tie_decided_by_holder]), ambiguous roots ([ComputeRoot_ambiguous]),
      repeated chunks ([duplicates_inflate]), wrap-around of the clock
      ([largest_timestamp_wraps]), objects of wrong content after a race
      ([race_corrupts]), names that do not survive the URL
      ([FetchMeta_unescaped]), files too large for one gRPC message
      ([large_file_refused]), directories that are never watched
      ([late_directory_unwatched]), a timer that fires early
      ([stray_timer_fires_early]), a sync directory inside the store
      ([objects_synced]).

    ** Not modelled

    Parsing of the flags, signals, listening sockets and timeouts; memberlist
    (its member list and messages are inputs), fsnotify (its events are
    inputs) and the code protoc generates (its messages are records of
    [Control] and [ControlClient], with their sizes).  Directories, permissions
    and descriptors of the file system outside [CasRace]; logging; the exact
    text of errors; range and precondition headers of HTTP requests; panics
    other than that of [GetActivePeers] (a chunk hash of less than four bytes
    in a peer's answer, which the code slices for an error message, is one).
    Goroutines of a node are single steps of [Node]: overlapping syncs of
    different files are not interleaved further, and [Put] is one step there,
    which [CasRace] justifies for callers with the right data and shows to be
    wrong for others.

    Planned next: the goroutines of one [Pull] and of overlapping syncs as
    steps of their own, and anti-entropy rounds over several nodes. *)

From stdpp Require Export base list list_numbers gmap sets strings sorting.
From Stdlib Require Export ZArith Lia.
From Stdlib Require Import Strings.Byte.

#[global] Set Default Goal Selector "!".
#[global] Set Warnings "-clear-no-such-hyp".

(** ** Results: Go's [(T, error)] pairs *)

(** A Go error value.  [EOS] is the [*PathError] of an [os] call, [EMsg] an
    [errors.New]/[fmt.Errorf] value (the text is the literal part of the
    format), [EWrap] an [fmt.Errorf] whose format has a [%w]. *)
Inductive error :=
  | EOS (op path : string)
  | EMsg (text : string)
  | EWrap (text : string) (inner : error).

#[global] Instance error_eq_dec : EqDecision error.
Proof. solve_decision. Defined.

(** [Ok a] is [(a, nil)]; [Err e] is a zero value with a non-nil error. *)
Inductive result (A : Type) :=
  | Ok (a : A)
  | Err (e : error).
Arguments Ok {A} a.
Arguments Err {A} e.

Definition is_ok {A} (r : result A) : bool :=
  match r with Ok _ => true | Err _ => false end.

(** ** A state-and-error monad *)

(** The effectful functions of the program thread a state [S] and may return
    an error; an error does not undo the effects made before it. *)
Definition stM (S A : Type) : Type := S → result A * S.

#[global] Instance stM_ret {S} : MRet (stM S) := λ A a s, (Ok a, s).
#[global] Instance stM_bind {S} : MBind (stM S) := λ A B k m s,
  match m s with
  | (Ok a, s') => k a s'
  | (Err e, s') => (Err e, s')
  end.

Lemma ran_ok {S} (x : result unit * S) : is_ok x.1 = true → x = (Ok tt, x.2).
Proof. by destruct x as [[[]|] ?]. Qed.

Lemma ran_err {S} (x : result unit * S) : is_ok x.1 = false → ∃ err, x = (Err err, x.2).
Proof. destruct x as [[[]|err] ?]; [done|by exists err]. Qed.

(** ** Lists *)

Lemma filter_one {A} `{EqDecision A} (l : list A) x :
  NoDup l → x ∈ l → length (filter (λ y, y = x) l) = 1.
Proof.
  induction 1 as [|y l Hy Hnd IH]; [by intros ?%elem_of_nil|].
  intros [->|Hx]%elem_of_cons; rewrite filter_cons.
  - rewrite decide_True by done. simpl. f_equal. apply length_zero_iff_nil.
    apply elem_of_nil_inv. intros z [-> ?]%list_elem_of_filter. done.
  - rewrite decide_False by (by intros ->). by apply IH.
Qed.

Lemma length_ne_0 {A} (l : list A) : length l ≠ 0 ↔ ∃ x, x ∈ l.
Proof.
  destruct l as [|x l]; simpl; [split; [done|intros [x Hx]; by apply elem_of_nil in Hx]|].
  split; [intros _; exists x; apply list_elem_of_here|done].
Qed.

Lemma app_eq_prefix {A} (a b x y : list A) : a ++ x = b ++ y → a `prefix_of` b ∨ b `prefix_of` a.
Proof.
  revert b. induction a as [|e a IH]; intros b H; [left; apply prefix_nil|].
  destruct b as [|f b]; [right; apply prefix_nil|]. injection H as -> H.
  destruct (IH _ H); [left|right]; by apply prefix_cons.
Qed.

Lemma Forall2_same {A D} (Q Q' : A → D → Prop) l k k' :
  Forall2 Q l k → Forall2 Q' l k' → (∀ a x y, Q a x → Q' a y → x = y) → k = k'.
Proof.
  intros H. revert k'. induction H as [|a x l k Hx H IH]; intros k' H' Heq; inversion H' as [|? y ? k2];
    subst; [done|]. f_equal; [by eapply Heq|by apply IH].
Qed.

(** ** Automation *)

(** Facts that are chained along sequences of operations: invariants kept by
    single steps, resolved with [eauto with nusync]. *)
Create HintDb nusync.

(** A statement about concrete paths that evaluates to a clash. *)
Ltac clash E := vm_compute in E; discriminate E.

(** [¬ l `prefix_of` k] for concrete [l] and [k]. *)
Ltac not_prefix := let k := fresh in let E := fresh in intros [k E]; clash E.
