(* ===== verification/GoBytes.v ===== *)
(** * Go values the program is written with

    Bytes and [[]byte] slices ([list byte]), the fixed array type [[32]byte]
    ([array32], whose length is part of the type), machine integers kept at
    their width ([u64], [i64], [u32], [u8] as [Z] with an explicit wrap),
    strings as byte sequences with Go's byte-wise comparison, and the
    [encoding/hex] functions used for object names and request parameters. *)

From Stdlib Require Import Strings.Byte Strings.Ascii Eqdep_dec.
From S2P Require Import Prelude.

Abbreviation byte := Byte.byte.

(** ** Bytes *)

#[global] Instance byte_eq_dec : EqDecision byte := Byte.byte_eq_dec.

#[global] Program Instance byte_countable : Countable byte :=
  inj_countable Byte.to_N Byte.of_N _.
Next Obligation. intros b. apply Byte.of_to_N. Qed.

Definition byte_Z (b : byte) : Z := Z.of_N (Byte.to_N b).

(** Go's conversion [byte(z)]: the low eight bits. *)
Definition Z_byte (z : Z) : byte :=
  match Byte.of_N (Z.to_N (z mod 256)) with Some b => b | None => x00 end.

Lemma byte_Z_range b : (0 ≤ byte_Z b < 256)%Z.
Proof. unfold byte_Z. pose proof (Byte.to_N_bounded b). lia. Qed.

Lemma Z_byte_Z b : Z_byte (byte_Z b) = b.
Proof.
  unfold Z_byte, byte_Z. pose proof (Byte.to_N_bounded b).
  rewrite Z.mod_small by lia. rewrite N2Z.id. by rewrite Byte.of_to_N.
Qed.

Lemma byte_Z_byte z : byte_Z (Z_byte z) = (z mod 256)%Z.
Proof.
  unfold Z_byte, byte_Z. pose proof (Z.mod_pos_bound z 256 ltac:(lia)).
  destruct (Byte.of_N _) as [b|] eqn:E.
  - apply Byte.to_of_N in E. rewrite E. lia.
  - apply Byte.of_N_None_iff in E. lia.
Qed.

#[global] Instance byte_Z_inj : Inj (=) (=) byte_Z.
Proof. intros a b H. by rewrite <- (Z_byte_Z a), H, Z_byte_Z. Qed.

(** A boolean property of bytes is proved by evaluating it on all 256. *)
Definition all_bytes : list byte := (λ n, Z_byte (Z.of_nat n)) <$> seq 0 256.

Lemma forall_byte (P : byte → bool) : forallb P all_bytes = true → ∀ b, P b = true.
Proof.
  intros H b. rewrite forallb_forall in H. apply H.
  apply in_map_iff. exists (Z.to_nat (byte_Z b)). pose proof (byte_Z_range b).
  split; [|apply in_seq; lia]. rewrite Z2Nat.id by lia. apply Z_byte_Z.
Qed.

(** ** Machine integers *)

(** [uint64], [int64], [uint32], [uint8] arithmetic: the result of the
    operation on [Z], wrapped to the width. *)
Definition u64 (z : Z) : Z := (z mod 2 ^ 64)%Z.
Definition u32 (z : Z) : Z := (z mod 2 ^ 32)%Z.
Definition i64 (z : Z) : Z := ((z + 2 ^ 63) mod 2 ^ 64 - 2 ^ 63)%Z.

Definition is_u64 (z : Z) : Prop := (0 ≤ z < 2 ^ 64)%Z.
Definition is_i64 (z : Z) : Prop := (- 2 ^ 63 ≤ z < 2 ^ 63)%Z.

Lemma u64_range z : is_u64 (u64 z).
Proof. unfold is_u64, u64. apply Z.mod_pos_bound. lia. Qed.

Lemma u64_small z : is_u64 z → u64 z = z.
Proof. unfold is_u64, u64. intros. by apply Z.mod_small. Qed.

Lemma u64_add_l a b : u64 (u64 a + b) = u64 (a + b).
Proof. unfold u64. by rewrite Zplus_mod_idemp_l. Qed.

Lemma u32_small z : (0 ≤ z < 2 ^ 32)%Z → u32 z = z.
Proof. unfold u32. intros. by apply Z.mod_small. Qed.

Lemma i64_small z : is_i64 z → i64 z = z.
Proof. unfold is_i64, i64. intros. rewrite Z.mod_small; lia. Qed.

Lemma i64_range z : is_i64 (i64 z).
Proof.
  unfold is_i64, i64.
  pose proof (Z.mod_pos_bound (z + 2 ^ 63) (2 ^ 64) ltac:(lia)). lia.
Qed.

(** ** [[32]byte] *)

(** An array has value semantics in Go and its length is in its type; the
    boolean equation makes the proof component unique. *)
Record array32 := Array32 {
  a32_bytes : list byte;
  a32_len : Nat.eqb (length a32_bytes) 32 = true;
}.

Lemma array32_eq (a b : array32) : a32_bytes a = a32_bytes b → a = b.
Proof.
  destruct a as [l H], b as [l' H']; simpl; intros ->.
  by rewrite (UIP_dec Bool.bool_dec H H').
Qed.

#[global] Instance a32_bytes_inj : Inj (=) (=) a32_bytes := array32_eq.

#[global] Instance array32_eq_dec : EqDecision array32.
Proof.
  intros a b. destruct (decide (a32_bytes a = a32_bytes b)) as [E|E].
  - left. by apply array32_eq.
  - right. by intros ->.
Defined.

Lemma length_a32 a : length (a32_bytes a) = 32.
Proof. apply Nat.eqb_eq, a32_len. Qed.

(** The zero value [[32]byte{}]. *)
Definition zero32 : array32 := Array32 (replicate 32 x00) eq_refl.

(** The array holding [l] when [l] has 32 bytes. *)
Definition array32_of (l : list byte) : option array32 :=
  (if Nat.eqb (length l) 32 as b return Nat.eqb (length l) 32 = b → option array32
   then λ H, Some (Array32 l H) else λ _, None) eq_refl.

(** [var h [32]byte; copy(h[:], l)]: the first 32 bytes of [l], the rest of
    the array left zero. *)
Definition copy32 (l : list byte) : array32 :=
  default zero32 (array32_of (take 32 (l ++ replicate 32 x00))).

Lemma array32_of_Some l a : array32_of l = Some a ↔ a32_bytes a = l.
Proof.
  unfold array32_of. split.
  - generalize (eq_refl (Nat.eqb (length l) 32)).
    destruct (Nat.eqb _ _) at 2 3; intros H E; by simplify_eq/=.
  - intros <-. destruct a as [l' H]; simpl.
    generalize (eq_refl (Nat.eqb (length l') 32)).
    destruct (Nat.eqb (length l') 32) at 2 3; [|congruence].
    intros H'. f_equal. by apply array32_eq.
Qed.

Lemma copy32_bytes l : a32_bytes (copy32 l) = take 32 (l ++ replicate 32 x00).
Proof.
  unfold copy32. destruct (array32_of _) as [a|] eqn:E; simpl.
  - by apply array32_of_Some.
  - exfalso. revert E. unfold array32_of.
    generalize (eq_refl (Nat.eqb (length (take 32 (l ++ replicate 32 x00))) 32)).
    destruct (Nat.eqb _ _) eqn:H at 2 3; [done|].
    apply Nat.eqb_neq in H. rewrite length_take, length_app, length_replicate in H. lia.
Qed.

Lemma copy32_exact l : length l = 32 → a32_bytes (copy32 l) = l.
Proof. intros H. rewrite copy32_bytes, take_app_le, firstn_all2 by lia. done. Qed.

Lemma copy32_id a : copy32 (a32_bytes a) = a.
Proof. apply array32_eq, copy32_exact, length_a32. Qed.

#[global] Program Instance array32_countable : Countable array32 :=
  inj_countable a32_bytes array32_of _.
Next Obligation. intros a. by apply array32_of_Some. Qed.

(** ** Strings *)

(** [[]byte(s)] and [string(b)]. *)
Definition bytes_of (s : string) : list byte := String.list_byte_of_string s.
Definition string_of (b : list byte) : string := String.string_of_list_byte b.

Lemma string_of_bytes_of s : string_of (bytes_of s) = s.
Proof. apply String.string_of_list_byte_of_string. Qed.

Lemma bytes_of_string_of b : bytes_of (string_of b) = b.
Proof. apply String.list_byte_of_string_of_list_byte. Qed.

Lemma length_bytes_of s : length (bytes_of s) = String.length s.
Proof.
  induction s as [|c s IH]; [done|].
  change (Datatypes.S (length (bytes_of s)) = Datatypes.S (String.length s)). by rewrite IH.
Qed.

(** Go compares strings byte by byte: [s > t]. *)
Definition str_gt (s t : string) : bool := negb (String.leb s t).

Lemma str_gt_irrefl s : str_gt s s = false.
Proof. unfold str_gt. by destruct (String.leb_total s s) as [-> | ->]. Qed.

Lemma str_gt_asym s t : str_gt s t = true → str_gt t s = false.
Proof.
  unfold str_gt. destruct (String.leb_total s t) as [-> | ->]; [done|].
  by destruct (String.leb s t).
Qed.

Lemma str_gt_total s t : s ≠ t → str_gt s t = false → str_gt t s = true.
Proof.
  unfold str_gt. intros Hne H1. destruct (String.leb t s) eqn:E; [|done].
  destruct Hne. apply String.leb_antisym; [|done].
  by destruct (String.leb s t).
Qed.

Lemma str_gt_trans s t u : str_gt s t = true → str_gt t u = true → str_gt s u = true.
Proof.
  intros H1 H2. pose proof (str_gt_asym _ _ H1) as H1'.
  unfold str_gt in *. destruct (String.leb s u) eqn:E; [|done].
  assert (String.le t s) as Hts by (unfold String.le; by destruct (String.leb t s)).
  assert (String.le t u) as Htu by (etrans; [exact Hts|]; unfold String.le; by rewrite E).
  unfold String.le in Htu. by destruct (String.leb t u).
Qed.

(** ** [encoding/hex] *)

Definition hex_digit (n : Z) : ascii :=
  nth (Z.to_nat n) (String.list_ascii_of_string "0123456789abcdef") "0"%char.

(** [hex.EncodeToString] *)
Fixpoint hex_EncodeToString (l : list byte) : string :=
  match l with
  | [] => EmptyString
  | b :: l =>
      String (hex_digit (Z.shiftr (byte_Z b) 4))
        (String (hex_digit (Z.land (byte_Z b) 15)) (hex_EncodeToString l))
  end.

(** [fromHexChar] accepts digits and both letter cases. *)
Definition hex_value (c : ascii) : option Z :=
  let n := Z.of_nat (nat_of_ascii c) in
  if (48 <=? n)%Z && (n <=? 57)%Z then Some (n - 48)%Z
  else if (97 <=? n)%Z && (n <=? 102)%Z then Some (n - 87)%Z
  else if (65 <=? n)%Z && (n <=? 70)%Z then Some (n - 55)%Z
  else None.

(** [hex.DecodeString]: an error on a bad digit or an odd length. *)
Fixpoint hex_DecodeString (s : string) : result (list byte) :=
  match s with
  | EmptyString => Ok []
  | String _ EmptyString => Err (EMsg "encoding/hex: odd length hex string")
  | String c1 (String c2 s) =>
      match hex_value c1, hex_value c2 with
      | Some a, Some b =>
          match hex_DecodeString s with
          | Ok l => Ok (Z_byte (Z.lor (Z.shiftl a 4) b) :: l)
          | Err e => Err e
          end
      | _, _ => Err (EMsg "encoding/hex: invalid byte")
      end
  end.

Lemma hex_byte_roundtrip b :
  ∃ x y, hex_value (hex_digit (Z.shiftr (byte_Z b) 4)) = Some x
       ∧ hex_value (hex_digit (Z.land (byte_Z b) 15)) = Some y
       ∧ Z_byte (Z.lor (Z.shiftl x 4) y) = b.
Proof.
  pose proof (forall_byte (λ b,
    match hex_value (hex_digit (Z.shiftr (byte_Z b) 4)),
          hex_value (hex_digit (Z.land (byte_Z b) 15)) with
    | Some x, Some y => bool_decide (Z_byte (Z.lor (Z.shiftl x 4) y) = b)
    | _, _ => false
    end)) as H.
  specialize (H ltac:(vm_compute; reflexivity) b). simpl in H.
  destruct (hex_value (hex_digit (Z.shiftr _ _))) as [x|]; [|done].
  destruct (hex_value _) as [y|]; [|done].
  exists x, y. by rewrite bool_decide_eq_true in H.
Qed.

Lemma hex_DecodeString_Encode l : hex_DecodeString (hex_EncodeToString l) = Ok l.
Proof.
  induction l as [|b l IH]; [done|]. cbn [hex_EncodeToString hex_DecodeString].
  destruct (hex_byte_roundtrip b) as (x & y & -> & -> & ->). by rewrite IH.
Qed.

#[global] Instance hex_EncodeToString_inj : Inj (=) (=) hex_EncodeToString.
Proof.
  intros l l' H. pose proof (hex_DecodeString_Encode l) as E.
  rewrite H, hex_DecodeString_Encode in E. by simplify_eq.
Qed.

Lemma length_hex_EncodeToString l :
  String.length (hex_EncodeToString l) = 2 * length l.
Proof. induction l as [|b l IH]; simpl; [done|]. rewrite IH. lia. Qed.
