(* ===== verification/Sha256.v ===== *)
(** * [crypto/sha256] and [crypto/hmac]

    SHA-256 (FIPS 180-4) and HMAC-SHA-256 (RFC 2104) as executable functions
    on byte lists, the two primitives the chunker, the Merkle tree, the object
    store and the request signatures are built from.  The examples at the end
    are published test vectors.  No later proof unfolds [Sum256]: what is
    proved of the program holds for its hash function as a black box, and
    collisions, where they matter, appear explicitly in the statements. *)

From Stdlib Require Import Strings.Byte.
From S2P Require Import Prelude GoBytes.

Module Sha256.

Local Open Scope Z_scope.

Definition add32 (a b : Z) : Z := (a + b) mod 2 ^ 32.
Definition not32 (a : Z) : Z := Z.lxor a (2 ^ 32 - 1).
Definition rotr (n x : Z) : Z :=
  Z.lor (Z.shiftr x n) (Z.land (Z.shiftl x (32 - n)) (2 ^ 32 - 1)).

Definition Ch (x y z : Z) : Z := Z.lxor (Z.land x y) (Z.land (not32 x) z).
Definition Maj (x y z : Z) : Z :=
  Z.lxor (Z.lxor (Z.land x y) (Z.land x z)) (Z.land y z).
Definition Sigma0 (x : Z) : Z := Z.lxor (Z.lxor (rotr 2 x) (rotr 13 x)) (rotr 22 x).
Definition Sigma1 (x : Z) : Z := Z.lxor (Z.lxor (rotr 6 x) (rotr 11 x)) (rotr 25 x).
Definition sigma0 (x : Z) : Z := Z.lxor (Z.lxor (rotr 7 x) (rotr 18 x)) (Z.shiftr x 3).
Definition sigma1 (x : Z) : Z := Z.lxor (Z.lxor (rotr 17 x) (rotr 19 x)) (Z.shiftr x 10).

(** The constants as the standard defines them: the first 32 bits of the
    fractional parts of the cube roots of the first 64 primes and of the square
    roots of the first eight. *)
Definition divides_none (n : Z) (ps : list Z) : bool := forallb (λ p, negb (n mod p =? 0)) ps.

Fixpoint primes_up_to (fuel : nat) (n : Z) (ps : list Z) : list Z :=
  match fuel with
  | O => ps
  | S fuel => primes_up_to fuel (n + 1) (if divides_none n ps then ps ++ [n] else ps)
  end.

(** The largest [r + x] below [2 ^ bits] above [r] whose cube is at most [n]. *)
Fixpoint cbrt_bits (bits : nat) (n r : Z) : Z :=
  match bits with
  | O => r
  | S b =>
      let r' := r + 2 ^ Z.of_nat b in
      cbrt_bits b n (if r' * r' * r' <=? n then r' else r)
  end.

Definition first_primes : list Z := Eval vm_compute in take 64 (primes_up_to 320 2 []).

Definition K : list Z :=
  Eval vm_compute in (λ p, cbrt_bits 36 (p * 2 ^ 96) 0 mod 2 ^ 32) <$> first_primes.

Definition H0 : list Z :=
  Eval vm_compute in (λ p, Z.sqrt (p * 2 ^ 64) mod 2 ^ 32) <$> take 8 first_primes.

(** The message schedule, newest word first. *)
Fixpoint schedule (n : nat) (w : list Z) : list Z :=
  match n with
  | O => w
  | S n =>
      let t := add32 (add32 (sigma1 (nth 1 w 0)) (nth 6 w 0))
                     (add32 (sigma0 (nth 14 w 0)) (nth 15 w 0)) in
      schedule n (t :: w)
  end.

Definition round (st : list Z) (kw : Z * Z) : list Z :=
  match st with
  | [a; b; c; d; e; f; g; h] =>
      let t1 := add32 (add32 (add32 h (Sigma1 e)) (add32 (Ch e f g) (fst kw))) (snd kw) in
      let t2 := add32 (Sigma0 a) (Maj a b c) in
      [add32 t1 t2; a; b; c; add32 d t1; e; f; g]
  | _ => st
  end.

(** The compression function on one block of sixteen words. *)
Definition compress (h : list Z) (block : list Z) : list Z :=
  zip_with add32 h (foldl round h (zip K (rev (schedule 48 (rev block))))).

(** Big-endian words of a byte list whose length is a multiple of four. *)
Fixpoint words (l : list byte) : list Z :=
  match l with
  | a :: b :: c :: d :: l =>
      (Z.shiftl (byte_Z a) 24 + Z.shiftl (byte_Z b) 16 + Z.shiftl (byte_Z c) 8 + byte_Z d)
        :: words l
  | _ => []
  end.

(** The [n] big-endian bytes of [z]. *)
Fixpoint be_bytes (n : nat) (z : Z) : list byte :=
  match n with
  | O => []
  | S n => Z_byte (Z.shiftr z (8 * Z.of_nat n)) :: be_bytes n z
  end.

Definition pad (data : list byte) : list byte :=
  let len := Z.of_nat (length data) in
  data ++ [x80] ++ replicate (Z.to_nat ((55 - len) mod 64)) x00 ++ be_bytes 8 (len * 8).

Fixpoint blocks (fuel : nat) (w : list Z) (h : list Z) : list Z :=
  match fuel with
  | O => h
  | S fuel =>
      match w with
      | [] => h
      | _ => blocks fuel (drop 16 w) (compress h (take 16 w))
      end
  end.

Definition digest (data : list byte) : list byte :=
  let w := words (pad data) in
  mjoin (be_bytes 4 <$> blocks (length w) w H0).

End Sha256.

(** [sha256.Sum256] *)
Definition Sum256 (data : list byte) : array32 := copy32 (Sha256.digest data).

Arguments Sum256 : simpl never.

(** [hmac.New(sha256.New, key)], [Write(msg)], [Sum(nil)] *)
Definition hmac_sha256 (key msg : list byte) : list byte :=
  let key := if (64 <? Z.of_nat (length key))%Z then a32_bytes (Sum256 key) else key in
  let key := key ++ replicate (64 - length key) x00 in
  let xor_pad (p : Z) := (λ b, Z_byte (Z.lxor (byte_Z b) p)) <$> key in
  a32_bytes (Sum256 (xor_pad 0x5c%Z ++ a32_bytes (Sum256 (xor_pad 0x36%Z ++ msg)))).

Arguments hmac_sha256 : simpl never.

Lemma length_hmac_sha256 key msg : length (hmac_sha256 key msg) = 32.
Proof. apply length_a32. Qed.

(** ** Test vectors *)

Example Sum256_empty :
  hex_EncodeToString (a32_bytes (Sum256 [])) =
  "e3b0c44298fc1c149afbf4c8996fb92427ae41e4649b934ca495991b7852b855".
Proof. vm_compute. reflexivity. Qed.

Example Sum256_abc :
  hex_EncodeToString (a32_bytes (Sum256 (bytes_of "abc"))) =
  "ba7816bf8f01cfea414140de5dae2223b00361a396177a9cb410ff61f20015ad".
Proof. vm_compute. reflexivity. Qed.

Example Sum256_two_blocks :
  hex_EncodeToString (a32_bytes (Sum256
    (bytes_of "abcdbcdecdefdefgefghfghighijhijkijkljklmklmnlmnomnopnopq"))) =
  "248d6a61d20638b8e5c026930c3e6039a33ce45964ff2167f6ecedd419db06c1".
Proof. vm_compute. reflexivity. Qed.

Example hmac_rfc4231_2 :
  hex_EncodeToString (hmac_sha256 (bytes_of "Jefe") (bytes_of "what do ya want for nothing?")) =
  "5bdcc146bf60754e6a042426089575c75a003f089d2739839dec58b964ec3843".
Proof. vm_compute. reflexivity. Qed.
