(* ===== verification/GoFloat.v ===== *)
(** * [float64]

    IEEE 754 binary64 arithmetic, from the executable specification in
    [SpecFloat], with Go's conversions from and to integers.  Durations are
    [int64] nanoseconds. *)

From Stdlib Require Import SpecFloat.
From S2P Require Import Prelude GoBytes.

Local Open Scope Z_scope.

Definition float64 := spec_float.

(** [float64(n)], rounded to nearest even. *)
Definition float_of_Z (n : Z) : float64 := binary_normalize 53 1024 n 0 false.

Definition fmul : float64 → float64 → float64 := SFmul 53 1024.
Definition fadd : float64 → float64 → float64 := SFadd 53 1024.
Definition fsub : float64 → float64 → float64 := SFsub 53 1024.
Definition fdiv : float64 → float64 → float64 := SFdiv 53 1024.

(** Truncation toward zero; what a NaN, an infinity or a value out of range
    gives is implementation-defined (this is the value on amd64). *)
Definition Z_of_float (f : float64) : Z :=
  match f with
  | S754_zero _ => 0
  | S754_finite s m e =>
      let a := if 0 <=? e then Zpos m * 2 ^ e else Zpos m / 2 ^ (- e) in
      if s then - a else a
  | _ => - 2 ^ 63
  end.

Definition int64_of_float (f : float64) : Z :=
  let z := Z_of_float f in
  if (- 2 ^ 63 <=? z) && (z <? 2 ^ 63) then z else - 2 ^ 63.

Definition uint64_of_float (f : float64) : Z :=
  let z := Z_of_float f in
  if (0 <=? z) && (z <? 2 ^ 64) then z else 2 ^ 63.

(** The constants 0.25 and 2.0. *)
Definition f_quarter : float64 := fdiv (float_of_Z 1) (float_of_Z 4).
Definition f_two : float64 := float_of_Z 2.

(** ** Durations *)

Definition Nanosecond : Z := 1.
Definition Millisecond : Z := 1000000.
Definition Second : Z := 1000000000.

(** [Duration.Seconds] *)
Definition duration_Seconds (d : Z) : float64 :=
  let sec := Z.quot d Second in
  let nsec := Z.rem d Second in
  fadd (float_of_Z sec) (fdiv (float_of_Z nsec) (float_of_Z Second)).

(** [Time.Sub] on times given in nanoseconds saturates. *)
Definition time_Sub (t u : Z) : Z := Z.max (- 2 ^ 63) (Z.min (2 ^ 63 - 1) (t - u)).

Lemma int64_of_float_range f : is_i64 (int64_of_float f).
Proof. unfold int64_of_float, is_i64. case_match eqn:E; lia. Qed.

Example float_examples :
  (Z_of_float (fmul (float_of_Z 1000000000) f_quarter),
   uint64_of_float (duration_Seconds 90061999999999))
  = (250000000, 90061).
Proof. vm_compute. reflexivity. Qed.
