(* ===== verification/Strconv.v ===== *)
(** * [strconv]: decimal numbers

    [FormatUint]/[FormatInt] and [ParseUint]/[ParseInt]/[Atoi] in base ten, on
    byte lists, with the round trip the JSON codec and the request timestamps
    rest on. *)

From Stdlib Require Import Strings.Byte.
From S2P Require Import Prelude GoBytes.

Local Open Scope Z_scope.

Definition digit_byte (d : Z) : byte := Z_byte (48 + d).

Definition byte_digit (b : byte) : option Z :=
  let n := byte_Z b in
  if (48 <=? n) && (n <=? 57) then Some (n - 48) else None.

Definition is_digit (b : byte) : bool := bool_decide (is_Some (byte_digit b)).

(** Digits of [n], most significant first; [fuel] bounds their number. *)
Fixpoint format_go (fuel : nat) (n : Z) (acc : list byte) : list byte :=
  match fuel with
  | O => acc
  | S fuel =>
      let acc := digit_byte (n mod 10) :: acc in
      if n <? 10 then acc else format_go fuel (n / 10) acc
  end.

(** [strconv.FormatUint(n, 10)]; a number has no more digits than bits. *)
Definition FormatUint (n : Z) : list byte := format_go (S (Z.to_nat (Z.log2 n))) n [].

Definition FormatInt (n : Z) : list byte :=
  if n <? 0 then x2d :: FormatUint (- n) else FormatUint n.

Fixpoint parse_go (acc : Z) (l : list byte) : option Z :=
  match l with
  | [] => Some acc
  | b :: l => d ← byte_digit b; parse_go (acc * 10 + d) l
  end.

(** [strconv.ParseUint(s, 10, bits)] *)
Definition ParseUint (bits : Z) (s : list byte) : option Z :=
  match s with
  | [] => None
  | _ => n ← parse_go 0 s; if n <? 2 ^ bits then Some n else None
  end.

(** [strconv.ParseInt(s, 10, 64)]: an optional sign, then digits. *)
Definition ParseInt (s : list byte) : option Z :=
  let '(neg, ds) :=
    match s with
    | b :: r =>
        if decide (b = x2d) then (true, r) else if decide (b = x2b) then (false, r) else (false, s)
    | [] => (false, s)
    end in
  n ← ParseUint 64 ds;
  if neg then (if n <=? 2 ^ 63 then Some (- n) else None)
  else (if n <? 2 ^ 63 then Some n else None).

(** [strconv.Atoi] on a 64-bit platform. *)
Definition Atoi (s : list byte) : option Z := ParseInt s.

(** ** Round trips *)

Lemma byte_digit_digit d : 0 ≤ d < 10 → byte_digit (digit_byte d) = Some d.
Proof.
  intros H. unfold byte_digit, digit_byte. rewrite byte_Z_byte, Z.mod_small by lia.
  replace (48 <=? 48 + d) with true by lia. replace (48 + d <=? 57) with true by lia.
  simpl. f_equal. lia.
Qed.

Lemma parse_go_app acc l l' :
  parse_go acc (l ++ l') = a ← parse_go acc l; parse_go a l'.
Proof.
  revert acc. induction l as [|b l IH]; intros acc; [done|]. simpl.
  destruct (byte_digit b); simpl; [apply IH|done].
Qed.

(** Reading what [format_go] put in front of [acc] continues with the number
    itself. *)
Lemma parse_format_go fuel n acc :
  0 ≤ n < 2 ^ Z.of_nat fuel →
  parse_go 0 (format_go fuel n acc) = parse_go n acc.
Proof.
  revert n acc. induction fuel as [|fuel IH]; intros n acc Hn.
  { by replace n with 0 by lia. }
  cbn [format_go]. pose proof (Z.mod_pos_bound n 10 ltac:(lia)).
  case_match eqn:E.
  - apply Z.ltb_lt in E. cbn [parse_go]. rewrite byte_digit_digit by lia.
    cbn. f_equal. rewrite Z.mod_small; lia.
  - apply Z.ltb_ge in E. rewrite IH.
    + cbn [parse_go]. rewrite byte_digit_digit by lia. cbn. f_equal.
      pose proof (Z.div_mod n 10). lia.
    + rewrite Nat2Z.inj_succ, Z.pow_succ_r in Hn by lia.
      pose proof (Z.div_mod n 10). lia.
Qed.

Lemma format_go_ne fuel n acc : fuel ≠ O → format_go fuel n acc ≠ [].
Proof.
  intros Hf. destruct fuel as [|fuel]; [done|]. clear Hf. revert n acc.
  induction fuel as [|fuel IH]; intros n acc; cbn; [by case_match|].
  case_match; [done|]. apply IH.
Qed.

Lemma format_bound n : 0 ≤ n → n < 2 ^ Z.of_nat (S (Z.to_nat (Z.log2 n))).
Proof.
  intros Hn. destruct (decide (n = 0)) as [->|]; [cbn; lia|].
  pose proof (Z.log2_spec n ltac:(lia)). pose proof (Z.log2_nonneg n).
  rewrite Nat2Z.inj_succ, Z2Nat.id by lia. lia.
Qed.

Lemma parse_go_nonneg acc l n : 0 ≤ acc → parse_go acc l = Some n → 0 ≤ n.
Proof.
  revert acc. induction l as [|b l IH]; intros acc Ha; cbn [parse_go]; [by intros; simplify_eq|].
  unfold byte_digit. case_match; cbn [mbind option_bind]; [|done]. apply IH. lia.
Qed.

Lemma ParseUint_range bits s n : ParseUint bits s = Some n → 0 ≤ n < 2 ^ bits.
Proof.
  unfold ParseUint. destruct s as [|b s]; [done|].
  destruct (parse_go 0 (b :: s)) as [m|] eqn:E; cbn [mbind option_bind]; [|done].
  apply parse_go_nonneg in E; [|lia]. case_match; intros; simplify_eq. lia.
Qed.

Lemma ParseUint_FormatUint bits n :
  0 ≤ n < 2 ^ bits → ParseUint bits (FormatUint n) = Some n.
Proof.
  intros Hn. unfold ParseUint, FormatUint.
  pose proof (parse_format_go (S (Z.to_nat (Z.log2 n))) n [] ltac:(split; [lia|apply format_bound; lia])) as H.
  pose proof (format_go_ne (S (Z.to_nat (Z.log2 n))) n [] ltac:(done)).
  destruct (format_go _ _ _) eqn:E; [done|]. rewrite H. cbn.
  by replace (n <? 2 ^ bits) with true by lia.
Qed.

Lemma is_digit_digit_byte d : 0 ≤ d < 10 → is_digit (digit_byte d) = true.
Proof. intros. unfold is_digit. rewrite byte_digit_digit by lia. done. Qed.

Lemma format_go_digits fuel n acc :
  0 ≤ n → Forall (λ b, is_digit b = true) acc →
  Forall (λ b, is_digit b = true) (format_go fuel n acc).
Proof.
  revert n acc. induction fuel as [|fuel IH]; intros n acc Hn Ha; [done|]. cbn.
  pose proof (Z.mod_pos_bound n 10 ltac:(lia)).
  case_match; [|apply IH; [apply Z.div_pos; lia|]];
    (constructor; [by apply is_digit_digit_byte|done]).
Qed.

Lemma FormatUint_digits n : 0 ≤ n → Forall (λ b, is_digit b = true) (FormatUint n).
Proof. intros. apply format_go_digits; [done|constructor]. Qed.

Lemma FormatUint_ne n : FormatUint n ≠ [].
Proof. by apply format_go_ne. Qed.

Lemma is_digit_sign b : is_digit b = true → b ≠ x2d ∧ b ≠ x2b.
Proof. intros H. split; intros ->; by vm_compute in H. Qed.

Lemma ParseInt_FormatInt n : is_i64 n → ParseInt (FormatInt n) = Some n.
Proof.
  unfold is_i64. intros Hn. unfold FormatInt. case_match eqn:E.
  - apply Z.ltb_lt in E. unfold ParseInt. rewrite decide_True by done.
    rewrite ParseUint_FormatUint by lia. cbn [mbind option_bind].
    replace (- n <=? 2 ^ 63) with true by lia. f_equal. lia.
  - apply Z.ltb_ge in E. unfold ParseInt.
    pose proof (FormatUint_digits n E) as Hd. pose proof (FormatUint_ne n).
    assert (ParseUint 64 (FormatUint n) = Some n) as Hp by (apply ParseUint_FormatUint; lia).
    destruct (FormatUint n) as [|b r] eqn:Ef; [done|]. inversion_clear Hd as [|?? Hb _].
    apply is_digit_sign in Hb as [??]. rewrite !decide_False by done.
    rewrite Hp. cbn [mbind option_bind]. by replace (n <? 2 ^ 63) with true by lia.
Qed.

(** Only zero is written with a leading zero. *)
Lemma format_go_head fuel n acc :
  0 < n < 2 ^ Z.of_nat fuel →
  ∃ d ds, format_go fuel n acc = digit_byte d :: ds ∧ 1 ≤ d < 10.
Proof.
  revert n acc. induction fuel as [|fuel IH]; intros n acc Hn; [cbn in Hn; lia|].
  cbn [format_go]. case_match eqn:E.
  - apply Z.ltb_lt in E. eexists _, _. split; [done|]. rewrite Z.mod_small; lia.
  - apply Z.ltb_ge in E. apply IH.
    rewrite Nat2Z.inj_succ, Z.pow_succ_r in Hn by lia.
    pose proof (Z.div_mod n 10). pose proof (Z.mod_pos_bound n 10 ltac:(lia)). lia.
Qed.

Lemma FormatUint_head n :
  0 ≤ n → FormatUint n = [x30] ∨ ∃ d ds, FormatUint n = d :: ds ∧ d ≠ x30.
Proof.
  intros Hn. destruct (decide (n = 0)) as [->|]; [by left|right].
  destruct (format_go_head (S (Z.to_nat (Z.log2 n))) n []) as (d & ds & E & Hd).
  { split; [lia|apply format_bound; lia]. }
  exists (digit_byte d), ds. split; [done|]. intros Ez.
  apply (f_equal byte_digit) in Ez. rewrite byte_digit_digit in Ez by lia.
  vm_compute in Ez. simplify_eq. lia.
Qed.
