(* ===== verification/Json.v ===== *)
(** * [encoding/json]

    The values, the writer and the reader of package [encoding/json] as far as
    the program uses them: objects, arrays, unsigned numbers, strings with
    Go's escaping (HTML-safe, invalid UTF-8 replaced by U+FFFD), a parser for
    arbitrary JSON text, and the rules by which an object is decoded into a
    struct (exact or case-folded field names, [null] leaves a field alone,
    unknown fields are skipped, a value of the wrong type is an error).  Not
    modelled: the limit of 10000 nested levels. *)

From Stdlib Require Import Strings.Byte.
From S2P Require Import Prelude GoBytes Strconv.

Module Json.

#[warnings="-register-all"]
Inductive value :=
  | JNull
  | JBool (b : bool)
  | JNum (lit : list byte)
  | JStr (s : list byte)
  | JArr (vs : list value)
  | JObj (kvs : list (list byte * value)).

(** Induction that reaches the elements of arrays and objects. *)
Lemma value_rect' (P : value → Prop) :
  P JNull → (∀ b, P (JBool b)) → (∀ l, P (JNum l)) → (∀ s, P (JStr s)) →
  (∀ vs, Forall P vs → P (JArr vs)) →
  (∀ kvs, Forall (λ kv, P (snd kv)) kvs → P (JObj kvs)) → ∀ v, P v.
Proof.
  intros H1 H2 H3 H4 H5 H6. fix IH 1. intros [|b|l|s|vs|kvs].
  - exact H1.
  - apply H2.
  - apply H3.
  - apply H4.
  - apply H5. induction vs as [|v vs IHvs]; constructor; [apply IH|exact IHvs].
  - apply H6. induction kvs as [|[k v] kvs IHk]; constructor; [apply IH|exact IHk].
Qed.

(** ** UTF-8 *)

Definition in_rng (lo hi : Z) (b : byte) : bool := ((lo <=? byte_Z b) && (byte_Z b <=? hi))%Z.

Definition cont (b : byte) : bool := in_rng 0x80 0xBF b.

Definition seq2 (b b1 : byte) : bool := in_rng 0xC2 0xDF b && cont b1.

Definition seq3 (b b1 b2 : byte) : bool :=
  (in_rng 0xE0 0xE0 b && in_rng 0xA0 0xBF b1 || in_rng 0xE1 0xEC b && cont b1
   || in_rng 0xED 0xED b && in_rng 0x80 0x9F b1 || in_rng 0xEE 0xEF b && cont b1) && cont b2.

Definition seq4 (b b1 b2 b3 : byte) : bool :=
  (in_rng 0xF0 0xF0 b && in_rng 0x90 0xBF b1 || in_rng 0xF1 0xF3 b && cont b1
   || in_rng 0xF4 0xF4 b && in_rng 0x80 0x8F b1) && cont b2 && cont b3.

(** What ranging over a string yields: an ASCII byte, a well-formed longer
    sequence, or one byte that is not part of any. *)
Inductive rune :=
  | RAscii (b : byte)
  | RSeq (bs : list byte)
  | RBad (b : byte).

Fixpoint runes (l : list byte) : list rune :=
  match l with
  | [] => []
  | b :: r =>
      if in_rng 0 0x7F b then RAscii b :: runes r else
      match r with
      | b1 :: r1 =>
          if seq2 b b1 then RSeq [b; b1] :: runes r1 else
          match r1 with
          | b2 :: r2 =>
              if seq3 b b1 b2 then RSeq [b; b1; b2] :: runes r2 else
              match r2 with
              | b3 :: r3 =>
                  if seq4 b b1 b2 b3 then RSeq [b; b1; b2; b3] :: runes r3
                  else RBad b :: runes r
              | [] => RBad b :: runes r
              end
          | [] => RBad b :: runes r
          end
      | [] => RBad b :: runes r
      end
  end.

(** U+FFFD *)
Definition repl : list byte := [xef; xbf; xbd].

Definition clean_rune (r : rune) : list byte :=
  match r with RAscii b => [b] | RSeq bs => bs | RBad _ => repl end.

(** The string with every ill-formed byte replaced: what survives a trip
    through JSON. *)
Definition sanitize (l : list byte) : list byte := mjoin (clean_rune <$> runes l).

Definition good_rune (r : rune) : bool := match r with RBad _ => false | _ => true end.

(** [utf8.Valid] *)
Definition valid_utf8 (l : list byte) : bool := forallb good_rune (runes l).

(** [utf8.AppendRune] *)
Definition utf8_enc (u : Z) : list byte :=
  if (u <? 0x80)%Z then [Z_byte u]
  else if (u <? 0x800)%Z then [Z_byte (0xC0 + u / 64); Z_byte (0x80 + u mod 64)]
  else if (u <? 0x10000)%Z then
    [Z_byte (0xE0 + u / 4096); Z_byte (0x80 + u / 64 mod 64); Z_byte (0x80 + u mod 64)]
  else [Z_byte (0xF0 + u / 262144); Z_byte (0x80 + u / 4096 mod 64);
        Z_byte (0x80 + u / 64 mod 64); Z_byte (0x80 + u mod 64)].

(** ** Writing *)

Definition hex_byte (n : Z) : byte :=
  if (n <? 10)%Z then Z_byte (48 + n) else Z_byte (87 + n).

(** [appendString] with HTML escaping, for one byte below 0x80. *)
Definition esc (b : byte) : list byte :=
  if decide (b = x5c ∨ b = x22) then [x5c; b]
  else if decide (b = x08) then [x5c; x62]
  else if decide (b = x0c) then [x5c; x66]
  else if decide (b = x0a) then [x5c; x6e]
  else if decide (b = x0d) then [x5c; x72]
  else if decide (b = x09) then [x5c; x74]
  else if in_rng 0 0x1F b || bool_decide (b = x3c ∨ b = x3e ∨ b = x26)
  then [x5c; x75; x30; x30; hex_byte (byte_Z b / 16); hex_byte (byte_Z b mod 16)]
  else [b].

Definition quote_rune (r : rune) : list byte :=
  match r with
  | RAscii b => esc b
  | RSeq bs =>
      if decide (bs = [xe2; x80; xa8]) then [x5c; x75; x32; x30; x32; x38]
      else if decide (bs = [xe2; x80; xa9]) then [x5c; x75; x32; x30; x32; x39]
      else bs
  | RBad _ => [x5c; x75; x66; x66; x66; x64]
  end.

Definition quote (l : list byte) : list byte := x22 :: mjoin (quote_rune <$> runes l) ++ [x22].

(** Elements separated by commas. *)
Fixpoint commas (ls : list (list byte)) : list byte :=
  match ls with
  | [] => []
  | [l] => l
  | l :: ls => l ++ x2c :: commas ls
  end.

Fixpoint print (v : value) : list byte :=
  match v with
  | JNull => [x6e; x75; x6c; x6c]
  | JBool true => [x74; x72; x75; x65]
  | JBool false => [x66; x61; x6c; x73; x65]
  | JNum lit => lit
  | JStr s => quote s
  | JArr vs => x5b :: commas (print <$> vs) ++ [x5d]
  | JObj kvs =>
      x7b :: commas ((λ kv, quote (fst kv) ++ x3a :: print (snd kv)) <$> kvs) ++ [x7d]
  end.

(** ** Reading *)

Definition is_space (b : byte) : bool :=
  bool_decide (b = x20 ∨ b = x09 ∨ b = x0d ∨ b = x0a).

Fixpoint skip_space (l : list byte) : list byte :=
  match l with
  | b :: r => if is_space b then skip_space r else l
  | [] => []
  end.

Definition hex_val (b : byte) : option Z :=
  if in_rng 48 57 b then Some (byte_Z b - 48)%Z
  else if in_rng 97 102 b then Some (byte_Z b - 87)%Z
  else if in_rng 65 70 b then Some (byte_Z b - 55)%Z
  else None.

Definition hex4 (a b c d : byte) : option Z :=
  a ← hex_val a; b ← hex_val b; c ← hex_val c; d ← hex_val d;
  Some (((a * 16 + b) * 16 + c) * 16 + d)%Z.

Definition simple_escape (e : byte) : option byte :=
  if decide (e = x22 ∨ e = x5c ∨ e = x2f) then Some e
  else if decide (e = x62) then Some x08
  else if decide (e = x66) then Some x0c
  else if decide (e = x6e) then Some x0a
  else if decide (e = x72) then Some x0d
  else if decide (e = x74) then Some x09
  else None.

Definition prepend (p : list byte) (o : option (list byte * list byte)) :
    option (list byte * list byte) :=
  '(s, r) ← o; Some (p ++ s, r).

(** [utf16.DecodeRune] on a pair of surrogates. *)
Definition surrogate_pair (u v : Z) : option Z :=
  if ((0xD800 <=? u) && (u <? 0xDC00) && (0xDC00 <=? v) && (v <? 0xE000))%Z
  then Some (0x10000 + (u - 0xD800) * 1024 + (v - 0xDC00))%Z else None.

(** The rest of a string literal after its opening quote: the decoded bytes
    and what follows the closing quote ([unquoteBytes]). *)
Fixpoint parse_str (l : list byte) : option (list byte * list byte) :=
  match l with
  | [] => None
  | b :: r =>
      if decide (b = x22) then Some ([], r) else
      if decide (b = x5c) then
        match r with
        | [] => None
        | e :: r =>
            match simple_escape e with
            | Some c => prepend [c] (parse_str r)
            | None =>
                if decide (e = x75) then
                  match r with
                  | h1 :: h2 :: h3 :: h4 :: r4 =>
                      match hex4 h1 h2 h3 h4 with
                      | None => None
                      | Some u =>
                          if ((0xD800 <=? u) && (u <? 0xE000))%Z then
                            match r4 with
                            | s1 :: s2 :: g1 :: g2 :: g3 :: g4 :: r5 =>
                                match (if decide (s1 = x5c ∧ s2 = x75)
                                       then v ← hex4 g1 g2 g3 g4; surrogate_pair u v else None) with
                                | Some w => prepend (utf8_enc w) (parse_str r5)
                                | None => prepend repl (parse_str r4)
                                end
                            | _ => prepend repl (parse_str r4)
                            end
                          else prepend (utf8_enc u) (parse_str r4)
                      end
                  | _ => None
                  end
                else None
            end
        end
      else if in_rng 0 0x1F b then None
      else if in_rng 0 0x7F b then prepend [b] (parse_str r)
      else
        match r with
        | b1 :: r1 =>
            if seq2 b b1 then prepend [b; b1] (parse_str r1) else
            match r1 with
            | b2 :: r2 =>
                if seq3 b b1 b2 then prepend [b; b1; b2] (parse_str r2) else
                match r2 with
                | b3 :: r3 =>
                    if seq4 b b1 b2 b3 then prepend [b; b1; b2; b3] (parse_str r3)
                    else prepend repl (parse_str r)
                | [] => prepend repl (parse_str r)
                end
            | [] => prepend repl (parse_str r)
            end
        | [] => prepend repl (parse_str r)
        end
  end.

Fixpoint take_digits (l : list byte) : list byte * list byte :=
  match l with
  | b :: r => if is_digit b then let '(d, r) := take_digits r in (b :: d, r) else ([], l)
  | [] => ([], [])
  end.

(** One or more digits. *)
Definition digits1 (l : list byte) : option (list byte * list byte) :=
  match take_digits l with ([], _) => None | dr => Some dr end.

Definition parse_int (l : list byte) : option (list byte * list byte) :=
  match l with
  | b :: r => if decide (b = x30) then Some ([x30], r) else digits1 l
  | [] => None
  end.

Definition parse_frac (l : list byte) : option (list byte * list byte) :=
  match l with
  | b :: r => if decide (b = x2e) then prepend [b] (digits1 r) else Some ([], l)
  | [] => Some ([], l)
  end.

Definition parse_exp (l : list byte) : option (list byte * list byte) :=
  match l with
  | b :: r =>
      if decide (b = x65 ∨ b = x45) then
        match r with
        | s :: r' =>
            if decide (s = x2b ∨ s = x2d) then prepend [b; s] (digits1 r')
            else prepend [b] (digits1 r)
        | [] => None
        end
      else Some ([], l)
  | [] => Some ([], l)
  end.

(** A number literal, kept as text. *)
Definition parse_num (l : list byte) : option (list byte * list byte) :=
  let '(sign, l) := match l with
                    | b :: r => if decide (b = x2d) then ([b], r) else ([], l)
                    | [] => ([], l) end in
  '(i, l) ← parse_int l;
  '(f, l) ← parse_frac l;
  '(e, l) ← parse_exp l;
  Some (sign ++ i ++ f ++ e, l).

Fixpoint strip_prefix (p l : list byte) : option (list byte) :=
  match p, l with
  | [], _ => Some l
  | a :: p, b :: l => if decide (a = b) then strip_prefix p l else None
  | _, _ => None
  end.

(** A value, the elements of an array up to and including [']'], the members
    of an object up to and including ['}'].  Every step consumes text, so
    twice its length is enough fuel. *)
Fixpoint parse_value (fuel : nat) (l : list byte) : option (value * list byte) :=
  match fuel with
  | O => None
  | S fuel =>
      match skip_space l with
      | [] => None
      | b :: r =>
          if decide (b = x22) then '(s, r) ← parse_str r; Some (JStr s, r)
          else if decide (b = x5b) then
            match skip_space r with
            | c :: r' =>
                if decide (c = x5d) then Some (JArr [], r')
                else '(vs, r) ← parse_elems fuel r; Some (JArr vs, r)
            | [] => None
            end
          else if decide (b = x7b) then
            match skip_space r with
            | c :: r' =>
                if decide (c = x7d) then Some (JObj [], r')
                else '(kvs, r) ← parse_members fuel r; Some (JObj kvs, r)
            | [] => None
            end
          else if decide (b = x6e) then r ← strip_prefix [x75; x6c; x6c] r; Some (JNull, r)
          else if decide (b = x74) then r ← strip_prefix [x72; x75; x65] r; Some (JBool true, r)
          else if decide (b = x66) then r ← strip_prefix [x61; x6c; x73; x65] r; Some (JBool false, r)
          else '(lit, r) ← parse_num (b :: r); Some (JNum lit, r)
      end
  end
with parse_elems (fuel : nat) (l : list byte) : option (list value * list byte) :=
  match fuel with
  | O => None
  | S fuel =>
      '(v, r) ← parse_value fuel l;
      match skip_space r with
      | b :: r =>
          if decide (b = x5d) then Some ([v], r)
          else if decide (b = x2c) then '(vs, r) ← parse_elems fuel r; Some (v :: vs, r)
          else None
      | [] => None
      end
  end
with parse_members (fuel : nat) (l : list byte) : option (list (list byte * value) * list byte) :=
  match fuel with
  | O => None
  | S fuel =>
      match skip_space l with
      | q :: r =>
          if decide (q = x22) then
            '(k, r) ← parse_str r;
            match skip_space r with
            | c :: r =>
                if decide (c = x3a) then
                  '(v, r) ← parse_value fuel r;
                  match skip_space r with
                  | b :: r =>
                      if decide (b = x7d) then Some ([(k, v)], r)
                      else if decide (b = x2c) then
                        '(kvs, r) ← parse_members fuel r; Some ((k, v) :: kvs, r)
                      else None
                  | [] => None
                  end
                else None
            | [] => None
            end
          else None
      | [] => None
      end
  end.

(** The first value of a text ([Decoder.Decode]) and the only one
    ([json.Unmarshal]). *)
Definition decode_text (l : list byte) : option (value * list byte) :=
  parse_value (2 * length l + 2) l.

Definition parse_text (l : list byte) : option value :=
  '(v, r) ← decode_text l;
  match skip_space r with [] => Some v | _ => None end.

(** ** Round trip of strings *)

Definition wf_rune (r : rune) : Prop :=
  match r with
  | RAscii b => in_rng 0 0x7F b = true
  | RSeq bs =>
      (∃ b b1, bs = [b; b1] ∧ seq2 b b1 = true)
      ∨ (∃ b b1 b2, bs = [b; b1; b2] ∧ seq3 b b1 b2 = true)
      ∨ (∃ b b1 b2 b3, bs = [b; b1; b2; b3] ∧ seq4 b b1 b2 b3 = true)
  | RBad _ => True
  end.

Lemma runes_wf l : Forall wf_rune (runes l).
Proof.
  remember (length l) as n eqn:Hn. revert l Hn.
  induction n as [n IH] using lt_wf_ind. intros l Hn.
  destruct l as [|b r]; [constructor|]. cbn [runes].
  assert (∀ l', length l' < length (b :: r) → Forall wf_rune (runes l')) as IH'
    by (intros l' Hl'; eapply IH; [|done]; lia).
  assert (Forall wf_rune (RBad b :: runes r)) as Hbad
    by (constructor; [done|apply IH'; simpl; lia]).
  case_match eqn:E0; [constructor; [done|apply IH'; simpl; lia]|].
  destruct r as [|b1 r1]; [exact Hbad|].
  case_match eqn:E1; [constructor; [left; eauto|apply IH'; simpl; lia]|].
  destruct r1 as [|b2 r2]; [exact Hbad|].
  case_match eqn:E2; [constructor; [right; left; eauto 10|apply IH'; simpl; lia]|].
  destruct r2 as [|b3 r3]; [exact Hbad|].
  case_match eqn:E3; [constructor; [right; right; eauto 10|apply IH'; simpl; lia]|].
  exact Hbad.
Qed.

Lemma in_rng_spec lo hi b : in_rng lo hi b = true ↔ (lo ≤ byte_Z b ≤ hi)%Z.
Proof. unfold in_rng. rewrite andb_true_iff, !Z.leb_le. done. Qed.

Lemma in_rng_false lo hi b : ¬ (lo ≤ byte_Z b ≤ hi)%Z → in_rng lo hi b = false.
Proof. intros H. apply not_true_is_false. by rewrite in_rng_spec. Qed.

Lemma seq2_head b b1 : seq2 b b1 = true → (0xC2 ≤ byte_Z b ≤ 0xDF)%Z.
Proof. unfold seq2. rewrite andb_true_iff, in_rng_spec. tauto. Qed.

Lemma seq3_head b b1 b2 : seq3 b b1 b2 = true → (0xE0 ≤ byte_Z b ≤ 0xEF)%Z.
Proof. unfold seq3, cont. rewrite !andb_true_iff, !orb_true_iff, !andb_true_iff, !in_rng_spec. lia. Qed.

Lemma seq4_head b b1 b2 b3 : seq4 b b1 b2 b3 = true → (0xF0 ≤ byte_Z b ≤ 0xF4)%Z.
Proof. unfold seq4, cont. rewrite !andb_true_iff, !orb_true_iff, !andb_true_iff, !in_rng_spec. lia. Qed.

Lemma seq2_false b b1 : (0xE0 ≤ byte_Z b)%Z → seq2 b b1 = false.
Proof. intros H. apply not_true_is_false. intros ?%seq2_head. lia. Qed.

Lemma seq3_false b b1 b2 : (0xF0 ≤ byte_Z b)%Z → seq3 b b1 b2 = false.
Proof. intros H. apply not_true_is_false. intros ?%seq3_head. lia. Qed.

Lemma byte_ne b (c : byte) : byte_Z b ≠ byte_Z c → b ≠ c.
Proof. congruence. Qed.

(** A string literal at a byte that starts a longer sequence. *)
Lemma parse_str_seq bs t :
  wf_rune (RSeq bs) → parse_str (bs ++ t) = prepend bs (parse_str t).
Proof.
  assert (∀ b, (0x80 ≤ byte_Z b)%Z → b ≠ x22 ∧ b ≠ x5c ∧ in_rng 0 0x1F b = false
    ∧ in_rng 0 0x7F b = false) as Hhi.
  { intros b Hb. split_and!; [apply byte_ne; vm_compute (byte_Z x22); lia
      |apply byte_ne; vm_compute (byte_Z x5c); lia|apply in_rng_false; lia..]. }
  intros [(b & b1 & -> & H) | [(b & b1 & b2 & -> & H) | (b & b1 & b2 & b3 & -> & H)]].
  - pose proof (seq2_head _ _ H). destruct (Hhi b) as (? & ? & E1 & E2); [lia|].
    cbn [parse_str app]. by rewrite !decide_False, E1, E2, H by done.
  - pose proof (seq3_head _ _ _ H). destruct (Hhi b) as (? & ? & E1 & E2); [lia|].
    cbn [parse_str app]. by rewrite !decide_False, E1, E2, seq2_false, H by (done || lia).
  - pose proof (seq4_head _ _ _ _ H). destruct (Hhi b) as (? & ? & E1 & E2); [lia|].
    cbn [parse_str app].
    by rewrite !decide_False, E1, E2, seq2_false, seq3_false, H by (done || lia).
Qed.

Lemma parse_str_u h1 h2 h3 h4 u t :
  hex4 h1 h2 h3 h4 = Some u → ¬ (0xD800 ≤ u < 0xE000)%Z →
  parse_str (x5c :: x75 :: h1 :: h2 :: h3 :: h4 :: t) = prepend (utf8_enc u) (parse_str t).
Proof.
  intros Hh Hu. cbn [parse_str]. rewrite decide_False, decide_True by done.
  replace (simple_escape x75) with (@None byte) by done.
  rewrite decide_True, Hh by done.
  by replace ((0xD800 <=? u) && (u <? 0xE000))%Z with false by lia.
Qed.

(** The three shapes of an escaped ASCII byte, checked on every byte. *)
Definition esc_ok (b : byte) : bool :=
  negb (in_rng 0 0x7F b) ||
  match esc b with
  | [c] => bool_decide (c = b ∧ b ≠ x22 ∧ b ≠ x5c) && negb (in_rng 0 0x1F b)
  | [c; e] => bool_decide (c = x5c ∧ simple_escape e = Some b)
  | [c; u; h1; h2; h3; h4] =>
      bool_decide (c = x5c ∧ u = x75 ∧ hex4 h1 h2 h3 h4 = Some (byte_Z b)
        ∧ utf8_enc (byte_Z b) = [b])
  | _ => false
  end.

Lemma parse_str_esc b t :
  in_rng 0 0x7F b = true → parse_str (esc b ++ t) = prepend [b] (parse_str t).
Proof.
  intros Hb. pose proof (forall_byte esc_ok ltac:(vm_compute; reflexivity) b) as H.
  unfold esc_ok in H. rewrite Hb in H. simpl in H.
  pose proof Hb as Hb'. apply in_rng_spec in Hb'.
  destruct (esc b) as [|c [|e [|h1 [|h2 [|h3 [|h4 [|]]]]]]] eqn:E; try done; cbn [app].
  - apply andb_true_iff in H as [(-> & ? & ?)%bool_decide_eq_true Hc%negb_true_iff].
    cbn [parse_str]. by rewrite !decide_False, Hc, Hb by done.
  - apply bool_decide_eq_true in H as [-> He].
    cbn [parse_str]. by rewrite decide_False, decide_True, He by done.
  - apply bool_decide_eq_true in H as (-> & -> & Hh & Hu).
    rewrite (parse_str_u _ _ _ _ _ _ Hh) by lia. by rewrite Hu.
Qed.

Lemma parse_str_rune r t :
  wf_rune r → parse_str (quote_rune r ++ t) = prepend (clean_rune r) (parse_str t).
Proof.
  destruct r as [b|bs|b]; intros Hw; cbn [quote_rune clean_rune].
  - by apply parse_str_esc.
  - case_decide as E; [subst; cbn [app]; by rewrite (parse_str_u _ _ _ _ 0x2028) by (done || lia)|].
    case_decide as E'; [subst; cbn [app]; by rewrite (parse_str_u _ _ _ _ 0x2029) by (done || lia)|].
    by apply parse_str_seq.
  - cbn [app]. by rewrite (parse_str_u _ _ _ _ 0xFFFD) by (done || lia).
Qed.

(** Reading a quoted string gives the string back, with ill-formed bytes
    replaced. *)
Lemma parse_str_quote l rest :
  parse_str (mjoin (quote_rune <$> runes l) ++ x22 :: rest) = Some (sanitize l, rest).
Proof.
  unfold sanitize. pose proof (runes_wf l) as H. revert H. generalize (runes l).
  intros rs H. induction H as [|r rs Hr H IH]; [done|]. csimpl.
  by rewrite <- app_assoc, parse_str_rune, IH.
Qed.

Lemma sanitize_valid l : valid_utf8 l = true → sanitize l = l.
Proof.
  unfold valid_utf8, sanitize.
  remember (length l) as n eqn:Hn. revert l Hn.
  induction n as [n IH] using lt_wf_ind. intros l Hn.
  assert (∀ p l', l = p ++ l' → p ≠ [] → forallb good_rune (runes l') = true →
    p ++ mjoin (clean_rune <$> runes l') = l) as IH'.
  { intros p l' -> Hp H. f_equal. eapply IH; [|done|done]. subst n.
    rewrite length_app. destruct p; simpl; [done|lia]. }
  destruct l as [|b r]; [done|]. cbn [runes].
  case_match eqn:E0; [intros; by apply (IH' [b])|].
  destruct r as [|b1 r1]; [done|].
  case_match eqn:E1; [intros; by apply (IH' [b; b1])|].
  destruct r1 as [|b2 r2]; [done|].
  case_match eqn:E2; [intros; by apply (IH' [b; b1; b2])|].
  destruct r2 as [|b3 r3]; [done|].
  case_match eqn:E3; [intros; by apply (IH' [b; b1; b2; b3])|]. done.
Qed.

(** ** Round trip of values *)

(** Literals without sign, fraction or superfluous zero: what [FormatUint]
    writes. *)
Definition canon_lit (lit : list byte) : Prop :=
  lit = [x30] ∨
  ∃ d ds, lit = d :: ds ∧ d ≠ x30 ∧ Forall (λ b, is_digit b = true) (d :: ds).

Fixpoint wf_value (v : value) : Prop :=
  match v with
  | JNum lit => canon_lit lit
  | JArr vs => foldr (λ v P, wf_value v ∧ P) True vs
  | JObj kvs => foldr (λ kv P, wf_value (snd kv) ∧ P) True kvs
  | _ => True
  end.

(** The value with every string sanitized. *)
Fixpoint clean_value (v : value) : value :=
  match v with
  | JStr s => JStr (sanitize s)
  | JArr vs => JArr (clean_value <$> vs)
  | JObj kvs => JObj ((λ kv, (sanitize (fst kv), clean_value (snd kv))) <$> kvs)
  | _ => v
  end.

(** A text at which a number literal ends. *)
Definition num_stop (l : list byte) : Prop :=
  match l with
  | [] => True
  | b :: _ => is_digit b = false ∧ b ≠ x2e ∧ b ≠ x65 ∧ b ≠ x45
  end.

Lemma take_digits_app ds rest :
  Forall (λ b, is_digit b = true) ds → num_stop rest → take_digits (ds ++ rest) = (ds, rest).
Proof.
  intros Hd Hr. induction Hd as [|d ds Hd _ IH]; simpl.
  - destruct rest as [|b r]; [done|]. destruct Hr as [Hb _]. simpl. by rewrite Hb.
  - by rewrite Hd, IH.
Qed.

Lemma digit_not_minus b : is_digit b = true → b ≠ x2d.
Proof. intros H ->. by vm_compute in H. Qed.

Lemma parse_num_canon lit rest :
  canon_lit lit → num_stop rest → parse_num (lit ++ rest) = Some (lit, rest).
Proof.
  intros Hl Hr. assert (parse_int (lit ++ rest) = Some (lit, rest)) as Hi.
  { destruct Hl as [-> | (d & ds & -> & Hd & Hds)]; [done|].
    cbn [parse_int app]. rewrite decide_False by done.
    unfold digits1. rewrite (take_digits_app (d :: ds) rest Hds Hr : take_digits (d :: ds ++ rest) = _). done. }
  assert (∃ b r, lit = b :: r ∧ b ≠ x2d) as (b & r & -> & Hb).
  { destruct Hl as [-> | (d & ds & -> & _ & Hds)]; [by eexists _, _|].
    inversion_clear Hds. eauto using digit_not_minus. }
  unfold parse_num. cbn [app]. rewrite decide_False by done.
  rewrite (Hi : parse_int (b :: r ++ rest) = _). cbn [mbind option_bind].
  assert (parse_frac rest = Some ([], rest)) as ->.
  { destruct rest as [|c rest]; [done|]. destruct Hr as (_ & ? & _). cbn [parse_frac].
    by rewrite decide_False. }
  cbn [mbind option_bind].
  assert (parse_exp rest = Some ([], rest)) as ->.
  { destruct rest as [|c rest]; [done|]. destruct Hr as (_ & _ & ? & ?). cbn [parse_exp].
    by rewrite decide_False by tauto. }
  cbn [mbind option_bind app]. by rewrite app_nil_r.
Qed.

(** The first byte of a printed value. *)
Lemma print_head v :
  wf_value v → ∃ b r, print v = b :: r ∧ is_space b = false ∧ b ≠ x5d ∧ b ≠ x7d.
Proof.
  destruct v as [|[]|lit|s|vs|kvs]; intros Hw; simpl; try by eexists _, _.
  assert (∃ b r, lit = b :: r ∧ is_digit b = true) as (b & r & -> & Hb).
  { destruct Hw as [-> | (d & ds & -> & _ & Hd)]; [by eexists _, _|].
    inversion_clear Hd. eauto. }
  exists b, r. split; [done|]. unfold is_space.
  split_and!; [apply bool_decide_eq_false; intros [-> | [-> | [-> | ->]]]| intros -> | intros ->];
    by vm_compute in Hb.
Qed.

Lemma skip_space_head b r : is_space b = false → skip_space (b :: r) = b :: r.
Proof. simpl. by intros ->. Qed.

Lemma skip_space_print v rest :
  wf_value v → skip_space (print v ++ rest) = print v ++ rest.
Proof. intros (b & r & -> & Hb & _)%print_head. simpl. by rewrite Hb. Qed.

Lemma commas_cons l ls : ls ≠ [] → commas (l :: ls) = l ++ x2c :: commas ls.
Proof. by destruct ls. Qed.

(** What is proved of each value. *)
Definition reads_back (v : value) : Prop :=
  wf_value v → ∀ fuel rest, 2 * length (print v) < fuel → num_stop rest →
  parse_value fuel (print v ++ rest) = Some (clean_value v, rest).

Lemma stop_comma r : num_stop (x2c :: r).
Proof. by split_and!. Qed.
Lemma stop_bracket r : num_stop (x5d :: r).
Proof. by split_and!. Qed.
Lemma stop_brace r : num_stop (x7d :: r).
Proof. by split_and!. Qed.

Lemma parse_elems_print vs :
  Forall reads_back vs → vs ≠ [] → wf_value (JArr vs) → ∀ fuel rest,
  2 * length (commas (print <$> vs)) + 1 < fuel →
  parse_elems fuel (commas (print <$> vs) ++ x5d :: rest) = Some (clean_value <$> vs, rest).
Proof.
  intros H. induction H as [|v vs Hv H IH]; [done|]. intros _ [Hw Hws] fuel rest Hf.
  destruct fuel as [|fuel]; [lia|]. cbn [parse_elems]. destruct vs as [|v' vs].
  - simpl commas in *. rewrite (Hv Hw) by (apply stop_bracket || lia). done.
  - set (vs' := v' :: vs) in *.
    rewrite fmap_cons, commas_cons, length_app in Hf by done. cbn [length] in Hf.
    rewrite fmap_cons, commas_cons, <- app_assoc by done. cbn [app].
    rewrite (Hv Hw) by (apply stop_comma || lia). cbn [mbind option_bind].
    rewrite skip_space_head, decide_False, decide_True by done.
    rewrite IH by (done || lia). done.
Qed.

Definition member_text (kv : list byte * value) : list byte :=
  quote (fst kv) ++ x3a :: print (snd kv).

Lemma parse_members_print kvs :
  Forall (λ kv, reads_back (snd kv)) kvs → kvs ≠ [] → wf_value (JObj kvs) → ∀ fuel rest,
  2 * length (commas (member_text <$> kvs)) + 1 < fuel →
  parse_members fuel (commas (member_text <$> kvs) ++ x7d :: rest)
  = Some ((λ kv, (sanitize (fst kv), clean_value (snd kv))) <$> kvs, rest).
Proof.
  intros H. induction H as [|[k v] kvs Hv H IH]; [done|]. intros _ [Hw Hws] fuel rest Hf.
  simpl fst in *. simpl snd in *.
  destruct fuel as [|fuel]; [lia|].
  assert (∀ t, skip_space (member_text (k, v) ++ t) = x22 ::
    mjoin (quote_rune <$> runes k) ++ x22 :: x3a :: print v ++ t) as Ht.
  { intros t. unfold member_text, quote. cbn. by rewrite <- !app_assoc. }
  assert (length (print v) < length (member_text (k, v))) as Hl.
  { unfold member_text. rewrite length_app. simpl. lia. }
  cbn [parse_members]. destruct kvs as [|kv' kvs].
  - simpl commas in *. rewrite Ht. rewrite decide_True by done. rewrite parse_str_quote.
    cbn [mbind option_bind]. rewrite skip_space_head, decide_True by done.
    rewrite (Hv Hw) by (apply stop_brace || lia). done.
  - set (kvs' := kv' :: kvs) in *.
    rewrite fmap_cons, commas_cons, length_app in Hf by done. cbn [length] in Hf.
    rewrite fmap_cons, commas_cons, <- app_assoc by done. cbn [app].
    rewrite Ht. rewrite decide_True by done. rewrite parse_str_quote.
    cbn [mbind option_bind]. rewrite skip_space_head, decide_True by done.
    rewrite (Hv Hw) by (apply stop_comma || lia). cbn [mbind option_bind].
    rewrite skip_space_head, decide_False, decide_True by done.
    rewrite IH by (done || lia). done.
Qed.

Lemma parse_value_print v : reads_back v.
Proof.
  induction v as [|b|lit|s|vs IH|kvs IH] using value_rect'; intros Hw fuel rest Hf Hr;
    (destruct fuel as [|fuel]; [lia|]).
  - done.
  - by destruct b.
  - assert (∃ b r, lit = b :: r ∧ is_digit b = true) as (b & r & -> & Hb).
    { destruct Hw as [-> | (d & ds & -> & _ & Hd)]; [by eexists _, _|].
      inversion_clear Hd. eauto. }
    assert (∀ c, is_digit c = false → b ≠ c) as Hne by (intros c Hc ->; congruence).
    destruct (print_head _ Hw) as (b' & r' & E & Hsp & _). cbn [print] in *. simplify_eq.
    cbn [parse_value app]. rewrite skip_space_head by done.
    rewrite !decide_False by (by apply Hne).
    by rewrite (parse_num_canon _ _ Hw Hr : parse_num (b' :: r' ++ rest) = _).
  - cbn [parse_value print]. unfold quote. cbn [app].
    rewrite skip_space_head, decide_True by done.
    by rewrite <- app_assoc, (parse_str_quote s rest : parse_str (_ ++ [x22] ++ rest) = _).
  - cbn [parse_value print]. cbn [app]. rewrite skip_space_head, decide_False, decide_True by done.
    rewrite <- app_assoc. cbn [app]. destruct vs as [|v vs]; [done|].
    destruct (print_head v) as (b & r & E & Hsp & Hb & _); [apply Hw|].
    assert (∃ t, commas (print <$> v :: vs) ++ x5d :: rest = b :: t) as [t Et].
    { rewrite fmap_cons. destruct vs; [|rewrite commas_cons by done];
        cbn [commas]; rewrite E; by eexists. }
    rewrite Et, skip_space_head, decide_False, <- Et by done.
    rewrite parse_elems_print; [done..|]. cbn [print] in Hf.
    rewrite length_cons, length_app in Hf. lia.
  - cbn [parse_value print]. cbn [app]. rewrite skip_space_head, !decide_False, decide_True by done.
    rewrite <- app_assoc. cbn [app]. destruct kvs as [|kv kvs]; [done|].
    change (λ kv : list byte * value, quote kv.1 ++ x3a :: print kv.2) with member_text in *.
    assert (∃ t, commas (member_text <$> kv :: kvs) ++ x7d :: rest = x22 :: t) as [t Et].
    { rewrite fmap_cons. destruct kvs; [|rewrite commas_cons by done]; by eexists. }
    rewrite Et, skip_space_head, decide_False, <- Et by done.
    rewrite parse_members_print; [done..|]. cbn [print] in Hf.
    change (λ kv : list byte * value, quote kv.1 ++ x3a :: print kv.2) with member_text in Hf.
    rewrite length_cons, length_app in Hf. lia.
Qed.

Lemma parse_text_print v : wf_value v → parse_text (print v) = Some (clean_value v).
Proof.
  intros Hw. unfold parse_text, decode_text.
  rewrite <- (app_nil_r (print v)) at 2.
  rewrite (parse_value_print v Hw) by (done || lia). done.
Qed.

(** A decoder stops behind the first value. *)
Lemma decode_text_print v rest :
  wf_value v → num_stop rest → decode_text (print v ++ rest) = Some (clean_value v, rest).
Proof.
  intros Hw Hr. unfold decode_text. apply (parse_value_print v Hw); [|done].
  rewrite length_app. lia.
Qed.

(** ** Go values as JSON *)

Definition enc_uint (n : Z) : value := JNum (FormatUint n).
Definition enc_string (s : string) : value := JStr (bytes_of s).

(** A [[32]byte] is written as an array of numbers (only slices of bytes are
    written in base64). *)
Definition enc_array32 (a : array32) : value :=
  JArr ((λ b, enc_uint (byte_Z b)) <$> a32_bytes a).

(** A nil slice is written as [null]; the program never encodes an empty
    non-nil one. *)
Definition enc_hashes (hs : list array32) : value :=
  match hs with [] => JNull | _ => JArr (enc_array32 <$> hs) end.

(** Decoding into a variable that holds [cur]; [None] is an
    [UnmarshalTypeError]. *)
Definition dec_uint (bits : Z) (v : value) (cur : Z) : option Z :=
  match v with
  | JNull => Some cur
  | JNum lit => ParseUint bits lit
  | _ => None
  end.

Definition dec_string (v : value) (cur : string) : option string :=
  match v with
  | JNull => Some cur
  | JStr s => Some (string_of s)
  | _ => None
  end.

(** Elements in excess are dropped, missing ones are zeroed. *)
Fixpoint dec_bytes (vs : list value) (cur : list byte) : option (list byte) :=
  match cur with
  | [] => Some []
  | c :: cur =>
      match vs with
      | [] => Some (replicate (S (length cur)) x00)
      | v :: vs => n ← dec_uint 8 v (byte_Z c); r ← dec_bytes vs cur; Some (Z_byte n :: r)
      end
  end.

Definition dec_array32 (v : value) (cur : array32) : option array32 :=
  match v with
  | JNull => Some cur
  | JArr vs => copy32 <$> dec_bytes vs (a32_bytes cur)
  | _ => None
  end.

Fixpoint dec_elems (vs : list value) (cur : list array32) : option (list array32) :=
  match vs with
  | [] => Some []
  | v :: vs =>
      a ← dec_array32 v (default zero32 (head cur));
      r ← dec_elems vs (tail cur);
      Some (a :: r)
  end.

Definition dec_hashes (v : value) (cur : list array32) : option (list array32) :=
  match v with
  | JNull => Some []
  | JArr vs => dec_elems vs cur
  | _ => None
  end.

(** Letter case, and the two non-ASCII letters that fold to ASCII ones, do not
    matter in a field name unless another field matches exactly. *)
Fixpoint fold_name (l : list byte) : list byte :=
  match l with
  | xc5 :: xbf :: r => x73 :: fold_name r
  | xe2 :: x84 :: xaa :: r => x6b :: fold_name r
  | b :: r => (if in_rng 65 90 b then Z_byte (byte_Z b + 32) else b) :: fold_name r
  | [] => []
  end.

Fixpoint find_first {A} (p : A → bool) (l : list A) : option A :=
  match l with
  | [] => None
  | x :: l => if p x then Some x else find_first p l
  end.

(** A struct is decoded field by field, in the order of the text. *)
Definition field (T : Type) : Type := string * (value → T → option T).

Definition find_field {T} (fs : list (field T)) (key : list byte) : option (field T) :=
  match find_first (λ f, bool_decide (bytes_of f.1 = key)) fs with
  | Some f => Some f
  | None => find_first (λ f, bool_decide (fold_name (bytes_of f.1) = fold_name key)) fs
  end.

Fixpoint dec_members {T} (fs : list (field T)) (kvs : list (list byte * value)) (t : T) : option T :=
  match kvs with
  | [] => Some t
  | (k, v) :: kvs =>
      t ← match find_field fs k with Some f => f.2 v t | None => Some t end;
      dec_members fs kvs t
  end.

Definition dec_struct {T} (fs : list (field T)) (v : value) (t : T) : option T :=
  match v with
  | JNull => Some t
  | JObj kvs => dec_members fs kvs t
  | _ => None
  end.

Lemma dec_members_field {T} (fs : list (field T)) k f v kvs (t t' : T) :
  find_field fs k = Some f → f.2 v t = Some t' →
  dec_members fs ((k, v) :: kvs) t = dec_members fs kvs t'.
Proof. cbn [dec_members]. intros -> H. by rewrite H. Qed.

(** What every field decoder keeps, decoding the struct keeps. *)
Lemma dec_struct_inv {T} (P : T → Prop) (fs : list (field T)) v t t' :
  Forall (λ f, ∀ v t t', P t → f.2 v t = Some t' → P t') fs →
  P t → dec_struct fs v t = Some t' → P t'.
Proof.
  intros Hfs Ht. destruct v as [| | | | |kvs]; cbn [dec_struct]; try done; [by intros; simplify_eq|].
  revert t Ht. induction kvs as [|[k v] kvs IH]; intros t Ht; cbn [dec_members]; [by intros; simplify_eq|].
  destruct (find_field fs k) as [f|] eqn:Ef; cbn [mbind option_bind]; [|by apply IH].
  destruct (f.2 v t) as [t1|] eqn:E; cbn [mbind option_bind]; [|done]. apply IH.
  assert (f ∈ fs) as Hin.
  { assert (∀ p (l : list (field T)), find_first p l = Some f → f ∈ l) as Hff.
    { intros p l. induction l as [|x l IHl]; cbn [find_first]; [done|].
      case_match; intros; simplify_eq; [apply list_elem_of_here|by apply list_elem_of_further, IHl]. }
    unfold find_field in Ef. case_match eqn:E1; simplify_eq; by eapply Hff. }
  rewrite Forall_forall in Hfs. by eapply Hfs.
Qed.

Lemma dec_uint_range bits v cur n :
  (0 ≤ cur < 2 ^ bits)%Z → dec_uint bits v cur = Some n → (0 ≤ n < 2 ^ bits)%Z.
Proof.
  intros Hc. destruct v as [| |lit| | |]; cbn [dec_uint]; try done; [by intros; simplify_eq|].
  apply ParseUint_range.
Qed.

(** Proves that decoding into the listed fields keeps their ranges: each field
    either leaves a number alone or decodes it. *)
Ltac dec_range fields :=
  apply Forall_forall; let f := fresh in let Hf := fresh in let H := fresh in
  intros f Hf ? ? ? ? H; unfold fields in Hf;
  repeat apply elem_of_cons in Hf as [->|Hf]; [..|by apply elem_of_nil in Hf];
  apply bind_Some in H as (? & ? & ?); simplify_eq; cbn;
  repeat match goal with H : _ ∧ _ |- _ => destruct H | |- _ ∧ _ => split end;
  (assumption || (eapply dec_uint_range; [|eassumption]; assumption)).

(** ** Round trips of the Go values *)

Lemma canon_FormatUint n : (0 ≤ n)%Z → canon_lit (FormatUint n).
Proof.
  intros Hn. destruct (FormatUint_head n Hn) as [E | (d & ds & E & Hd)]; [by left|right].
  exists d, ds. split_and!; [done..|]. rewrite <- E. by apply FormatUint_digits.
Qed.

Lemma wf_enc_array32 a : wf_value (enc_array32 a).
Proof.
  unfold enc_array32. cbn [wf_value]. induction (a32_bytes a) as [|b l IH]; csimpl; [done|].
  split; [|done]. apply canon_FormatUint. pose proof (byte_Z_range b). lia.
Qed.

Lemma wf_enc_hashes hs : wf_value (enc_hashes hs).
Proof.
  unfold enc_hashes. destruct hs as [|h hs]; [done|]. cbn [wf_value].
  induction (h :: hs) as [|a l IH]; csimpl; [done|]. split; [apply wf_enc_array32|done].
Qed.

Lemma clean_enc_uint n : clean_value (enc_uint n) = enc_uint n.
Proof. done. Qed.

Lemma clean_enc_array32 a : clean_value (enc_array32 a) = enc_array32 a.
Proof.
  unfold enc_array32. cbn [clean_value]. f_equal.
  induction (a32_bytes a) as [|b l IH]; csimpl; [done|]. by rewrite IH.
Qed.

Lemma clean_enc_hashes hs : clean_value (enc_hashes hs) = enc_hashes hs.
Proof.
  unfold enc_hashes. destruct hs as [|h hs]; [done|]. cbn [clean_value]. f_equal.
  induction (h :: hs) as [|a l IH]; [done|]. by rewrite !fmap_cons, IH, clean_enc_array32.
Qed.

Lemma dec_enc_uint bits n cur : (0 ≤ n < 2 ^ bits)%Z → dec_uint bits (enc_uint n) cur = Some n.
Proof. apply ParseUint_FormatUint. Qed.

Lemma dec_enc_bytes l cur :
  length l = length cur → dec_bytes ((λ b, enc_uint (byte_Z b)) <$> l) cur = Some l.
Proof.
  revert cur. induction l as [|b l IH]; intros [|c cur]; try done. intros [=H].
  rewrite fmap_cons. cbn [dec_bytes]. rewrite dec_enc_uint by apply byte_Z_range. cbn [mbind option_bind].
  rewrite IH by done. cbn. by rewrite Z_byte_Z.
Qed.

Lemma dec_enc_array32 a cur : dec_array32 (enc_array32 a) cur = Some a.
Proof.
  unfold dec_array32, enc_array32. rewrite dec_enc_bytes by (by rewrite !length_a32).
  cbn. by rewrite copy32_id.
Qed.

Lemma dec_enc_hashes hs cur : dec_hashes (enc_hashes hs) cur = Some hs.
Proof.
  unfold dec_hashes, enc_hashes. destruct hs as [|h hs]; [done|].
  revert cur. induction (h :: hs) as [|a l IH]; intros cur; [done|].
  rewrite fmap_cons. cbn [dec_elems]. rewrite dec_enc_array32. cbn [mbind option_bind].
  by rewrite IH.
Qed.

Lemma dec_enc_string s cur :
  valid_utf8 (bytes_of s) = true → dec_string (clean_value (enc_string s)) cur = Some s.
Proof. intros H. cbn. by rewrite sanitize_valid, string_of_bytes_of. Qed.

End Json.
