(* ===== verification/Meta.v ===== *)
(** * The metadata index ([internal/store/meta.go])

    One JSON record per file in a [go.etcd.io/bbolt] bucket, keyed by the file
    identifier.  bbolt is a parameter ([Bolt]) with its documented behaviour
    ([BoltLaws]): a successful update is seen by later reads of that key and
    of no other, a failing one is rolled back, and [ForEach] visits every
    binding once.  A finite map is an instance. *)

From Stdlib Require Import Strings.Byte.
From S2P Require Import Prelude GoBytes Strconv Json.

(** ** The database's interface *)

Class Bolt := {
  bucket : Type;
  bkt_empty : bucket;
  bkt_get : bucket → string → option (list byte);
  (** [db.Update] with one [bucket.Put]; [None] when it returns an error. *)
  bkt_put : bucket → string → list byte → option bucket;
  (** The pairs in the order [ForEach] visits them. *)
  bkt_pairs : bucket → list (string * list byte);
}.

Class BoltLaws (B : Bolt) : Prop := {
  bkt_get_empty k : bkt_get bkt_empty k = None;
  bkt_get_put b k v b' k' :
    bkt_put b k v = Some b' → bkt_get b' k' = if decide (k = k') then Some v else bkt_get b k';
  bkt_pairs_get b k v : (k, v) ∈ bkt_pairs b ↔ bkt_get b k = Some v;
  bkt_pairs_nodup b : NoDup (fst <$> bkt_pairs b);
}.

Module Meta.

(** ** Data *)

Record FileMeta := MkFileMeta {
  FileID : string;
  MerkleRoot : array32;
  LamportTS : Z;
  ChunkHashes : list array32;
  SizeBytes : Z;
}.

#[global] Instance FileMeta_eq_dec : EqDecision FileMeta.
Proof. solve_decision. Defined.

Definition zero_FileMeta : FileMeta := MkFileMeta "" zero32 0 [] 0.

(** The per-file summary served to peers. *)
Record CatalogEntry := MkCatalogEntry {
  ce_FileID : string;
  ce_MerkleRoot : array32;
  ce_LamportTS : Z;
}.

(** ** JSON *)

Definition meta_value (m : FileMeta) : Json.value :=
  Json.JObj [
    (bytes_of "FileID", Json.enc_string (FileID m));
    (bytes_of "MerkleRoot", Json.enc_array32 (MerkleRoot m));
    (bytes_of "LamportTS", Json.enc_uint (LamportTS m));
    (bytes_of "ChunkHashes", Json.enc_hashes (ChunkHashes m));
    (bytes_of "SizeBytes", Json.enc_uint (SizeBytes m))].

(** [json.Marshal(meta)]; it has no error case for this type. *)
Definition marshal_meta (m : FileMeta) : list byte := Json.print (meta_value m).

Definition meta_fields : list (Json.field FileMeta) := [
  ("FileID", λ v m, x ← Json.dec_string v (FileID m);
     Some (MkFileMeta x (MerkleRoot m) (LamportTS m) (ChunkHashes m) (SizeBytes m)));
  ("MerkleRoot", λ v m, x ← Json.dec_array32 v (MerkleRoot m);
     Some (MkFileMeta (FileID m) x (LamportTS m) (ChunkHashes m) (SizeBytes m)));
  ("LamportTS", λ v m, x ← Json.dec_uint 64 v (LamportTS m);
     Some (MkFileMeta (FileID m) (MerkleRoot m) x (ChunkHashes m) (SizeBytes m)));
  ("ChunkHashes", λ v m, x ← Json.dec_hashes v (ChunkHashes m);
     Some (MkFileMeta (FileID m) (MerkleRoot m) (LamportTS m) x (SizeBytes m)));
  ("SizeBytes", λ v m, x ← Json.dec_uint 64 v (SizeBytes m);
     Some (MkFileMeta (FileID m) (MerkleRoot m) (LamportTS m) (ChunkHashes m) x))].

(** [var meta FileMeta; json.Unmarshal(data, &meta)] *)
Definition unmarshal_meta (data : list byte) : option FileMeta :=
  v ← Json.parse_text data; Json.dec_struct meta_fields v zero_FileMeta.

(** ** Operations *)

Section with_bolt.
Context `{B : Bolt}.

(** [opened] is what [bbolt.Open] finds: an error, or a database with or
    without the bucket; [update] is the outcome of the transaction that makes
    the bucket when it is not there. *)
Definition NewBoltMetaStore (opened : result (option bucket)) (update : result unit) : result bucket :=
  match opened with
  | Err e => Err e
  | Ok files => match update with Err e => Err e | Ok _ => Ok (default bkt_empty files) end
  end.

Definition PutFileMeta (m : FileMeta) : stM bucket unit := λ b,
  match bkt_put b (FileID m) (marshal_meta m) with
  | Some b' => (Ok tt, b')
  | None => (Err (EMsg "bbolt"), b)
  end.

Definition GetFileMeta (b : bucket) (fileID : string) : result FileMeta :=
  match bkt_get b fileID with
  | None => Err (EMsg "file not found")
  | Some data =>
      match unmarshal_meta data with
      | Some m => Ok m
      | None => Err (EMsg "json")
      end
  end.

Definition catalog_entry (m : FileMeta) : CatalogEntry :=
  MkCatalogEntry (FileID m) (MerkleRoot m) (LamportTS m).

(** Records that do not decode are skipped. *)
Definition ListCatalog (b : bucket) : list CatalogEntry :=
  omap (λ kv, catalog_entry <$> unmarshal_meta kv.2) (bkt_pairs b).

(** ** Properties *)

(** What a record looks like after a trip through JSON: ill-formed bytes of
    the name are replaced by U+FFFD. *)
Definition json_image (m : FileMeta) : FileMeta :=
  MkFileMeta (string_of (Json.sanitize (bytes_of (FileID m)))) (MerkleRoot m) (LamportTS m)
    (ChunkHashes m) (SizeBytes m).

(** The 64-bit fields hold 64-bit values: true of every Go value. *)
Definition meta_range (m : FileMeta) : Prop := is_u64 (LamportTS m) ∧ is_u64 (SizeBytes m).

Lemma json_image_valid m :
  Json.valid_utf8 (bytes_of (FileID m)) = true → json_image m = m.
Proof.
  intros H. destruct m. unfold json_image. simpl in *.
  by rewrite Json.sanitize_valid, string_of_bytes_of.
Qed.

Lemma meta_value_wf m : meta_range m → Json.wf_value (meta_value m).
Proof.
  intros [H1 H2]. unfold is_u64 in *. cbn.
  split_and!; [done|apply Json.wf_enc_array32|apply Json.canon_FormatUint; lia
    |apply Json.wf_enc_hashes|apply Json.canon_FormatUint; lia|done].
Qed.

Lemma dec_meta_value m :
  meta_range m →
  Json.dec_struct meta_fields (Json.clean_value (meta_value m)) zero_FileMeta = Some (json_image m).
Proof.
  intros [H1 H2].
  unfold meta_value. cbn [Json.clean_value]. rewrite !fmap_cons. cbn [fst snd].
  rewrite Json.clean_enc_array32, Json.clean_enc_hashes, !Json.clean_enc_uint.
  repeat match goal with
  | |- context [Json.sanitize (bytes_of ?s)] =>
      lazymatch s with FileID _ => fail | _ =>
      replace (Json.sanitize (bytes_of s)) with (bytes_of s) by (vm_compute; reflexivity) end
  end.
  cbn [Json.dec_struct].
  erewrite Json.dec_members_field; [|reflexivity|reflexivity].
  erewrite Json.dec_members_field; [|reflexivity|cbn [snd]; rewrite Json.dec_enc_array32; reflexivity].
  erewrite Json.dec_members_field;
    [|reflexivity|cbn [snd]; rewrite (Json.dec_enc_uint 64) by done; reflexivity].
  erewrite Json.dec_members_field;
    [|reflexivity|cbn [snd]; rewrite Json.dec_enc_hashes; reflexivity].
  erewrite Json.dec_members_field;
    [|reflexivity|cbn [snd]; rewrite (Json.dec_enc_uint 64) by done; reflexivity].
  done.
Qed.

Lemma unmarshal_marshal m : meta_range m → unmarshal_meta (marshal_meta m) = Some (json_image m).
Proof.
  intros Hr. unfold unmarshal_meta, marshal_meta.
  rewrite Json.parse_text_print by (by apply meta_value_wf). by apply dec_meta_value.
Qed.

Lemma unmarshal_range data m : unmarshal_meta data = Some m → meta_range m.
Proof.
  unfold unmarshal_meta. destruct (Json.parse_text data) as [v|]; [|done]. cbn [mbind option_bind].
  apply Json.dec_struct_inv; [|by split; vm_compute].
  unfold meta_range. Json.dec_range meta_fields.
Qed.

(** Whatever is read has 64-bit fields. *)
Lemma GetFileMeta_range b k m : GetFileMeta b k = Ok m → meta_range m.
Proof.
  unfold GetFileMeta. destruct (bkt_get b k) as [data|]; [|done].
  destruct (unmarshal_meta data) eqn:E; [|done]. intros; simplify_eq. by eapply unmarshal_range.
Qed.

Lemma ListCatalog_range b : Forall (λ e, is_u64 (ce_LamportTS e)) (ListCatalog b).
Proof.
  apply Forall_forall. intros e (kv & _ & He)%list_elem_of_omap.
  destruct (unmarshal_meta kv.2) as [m|] eqn:E; simplify_eq/=. by apply unmarshal_range in E as [? _].
Qed.

Context `{!BoltLaws B}.

(** What is read back after a successful write. *)
Lemma Get_after_Put m b b' :
  meta_range m → PutFileMeta m b = (Ok tt, b') →
  GetFileMeta b' (FileID m) = Ok (json_image m).
Proof.
  intros Hr. unfold PutFileMeta, GetFileMeta.
  destruct (bkt_put _ _ _) as [b''|] eqn:E; intros; simplify_eq.
  rewrite (bkt_get_put _ _ _ _ _ E), decide_True by done. by rewrite unmarshal_marshal.
Qed.

Lemma Get_after_Put_ne m b r b' k :
  PutFileMeta m b = (r, b') → k ≠ FileID m → GetFileMeta b' k = GetFileMeta b k.
Proof.
  unfold PutFileMeta, GetFileMeta.
  destruct (bkt_put _ _ _) as [b''|] eqn:E; intros; simplify_eq; [|done].
  by rewrite (bkt_get_put _ _ _ _ _ E), decide_False by done.
Qed.

(** A failing write changes nothing. *)
Lemma Put_err m b e b' : PutFileMeta m b = (Err e, b') → b' = b.
Proof. unfold PutFileMeta. destruct (bkt_put _ _ _); intros; by simplify_eq. Qed.

(** The catalog lists exactly the readable records. *)
Lemma ListCatalog_spec b e :
  e ∈ ListCatalog b ↔ ∃ k m, GetFileMeta b k = Ok m ∧ e = catalog_entry m.
Proof.
  unfold ListCatalog, GetFileMeta. rewrite list_elem_of_omap. split.
  - intros ([k data] & Hin & Hm). simpl in Hm. apply bkt_pairs_get in Hin.
    destruct (unmarshal_meta data) as [m|] eqn:Em; simplify_eq/=.
    exists k, m. by rewrite Hin, Em.
  - intros (k & m & Hm & ->). case_match eqn:Hk; [|done]. case_match eqn:Em; [|done].
    simplify_eq. exists (k, l). split; [by apply bkt_pairs_get|]. simpl. by rewrite Em.
Qed.

(** Every record is filed under its own identifier. *)
Definition meta_inv (b : bucket) : Prop :=
  ∀ k m, GetFileMeta b k = Ok m → FileID m = k ∧ meta_range m.

Lemma Put_meta_inv m b r b' :
  PutFileMeta m b = (r, b') → meta_range m → Json.valid_utf8 (bytes_of (FileID m)) = true →
  meta_inv b → meta_inv b'.
Proof.
  intros HP Hr Hv Hinv k m' Hk. destruct r as [[]|e].
  - destruct (decide (k = FileID m)) as [->|Hne].
    + rewrite (Get_after_Put _ _ _ Hr HP), json_image_valid in Hk by done. by simplify_eq.
    + apply Hinv. by rewrite <- (Get_after_Put_ne _ _ _ _ _ HP Hne).
  - apply Put_err in HP as ->. by apply Hinv.
Qed.

Lemma meta_inv_empty : meta_inv bkt_empty.
Proof. intros k m. unfold GetFileMeta. by rewrite bkt_get_empty. Qed.

(** ** The index's contract *)

(** C28. A successful [PutFileMeta] is read back by [GetFileMeta] as the record
    with ill-formed UTF-8 of its name replaced, hence unchanged when the name
    is valid UTF-8; a failing one changes nothing; no other key is affected. *)
Theorem meta_roundtrip m b r b' :
  meta_range m → PutFileMeta m b = (r, b') →
  match r with
  | Ok _ => GetFileMeta b' (FileID m) = Ok (json_image m)
            ∧ (Json.valid_utf8 (bytes_of (FileID m)) = true → json_image m = m)
  | Err _ => b' = b
  end
  ∧ ∀ k, k ≠ FileID m → GetFileMeta b' k = GetFileMeta b k.
Proof.
  intros Hr HP. split; [|intros k; by eapply Get_after_Put_ne].
  destruct r as [[]|]; [|by eapply Put_err].
  split; [by eapply Get_after_Put|apply json_image_valid].
Qed.

Lemma catalog_keys (kvs : list (string * list byte)) :
  (∀ k v m, (k, v) ∈ kvs → unmarshal_meta v = Some m → FileID m = k) →
  sublist (ce_FileID <$> omap (λ kv, catalog_entry <$> unmarshal_meta kv.2) kvs) (fst <$> kvs).
Proof.
  induction kvs as [|[k v] kvs IH]; intros H; csimpl; [constructor|].
  assert (sublist (ce_FileID <$> omap (λ kv, catalog_entry <$> unmarshal_meta kv.2) kvs) (fst <$> kvs))
    as IH' by (apply IH; intros k' v' m Hin; apply H; by apply list_elem_of_further).
  destruct (unmarshal_meta v) as [m|] eqn:Em; csimpl; [|by constructor].
  rewrite (H k v m) by (try apply list_elem_of_here; done). by constructor.
Qed.

(** When every record is filed under its own name, the catalog has one
    entry per readable record and nothing else. *)
Theorem catalog_exact b :
  meta_inv b →
  NoDup (ce_FileID <$> ListCatalog b)
  ∧ ∀ e, e ∈ ListCatalog b ↔ ∃ m, GetFileMeta b (ce_FileID e) = Ok m ∧ e = catalog_entry m.
Proof.
  intros Hinv. split.
  - eapply sublist_NoDup; [apply (bkt_pairs_nodup b)|]. apply catalog_keys.
    intros k v m Hin Hm. apply bkt_pairs_get in Hin. apply (Hinv k m).
    unfold GetFileMeta. by rewrite Hin, Hm.
  - intros e. rewrite ListCatalog_spec. split.
    + intros (k & m & Hm & ->). exists m. split; [|done]. simpl. by rewrite (proj1 (Hinv _ _ Hm)).
    + intros (m & Hm & ->). eauto.
Qed.

End with_bolt.
End Meta.

(** ** An instance of the interface *)

(** bbolt refuses empty keys and keys of more than 32768 bytes. *)
Definition map_bolt : Bolt := {|
  bucket := gmap string (list byte);
  bkt_empty := ∅;
  bkt_get b k := b !! k;
  bkt_put b k v :=
    if decide (k = "" ∨ (32768 < Z.of_nat (String.length k))%Z) then None else Some (<[k := v]> b);
  bkt_pairs b := merge_sort (λ x y, String.le x.1 y.1) (map_to_list b);
|}.

Lemma map_bolt_laws : BoltLaws map_bolt.
Proof.
  constructor; simpl.
  - intros k. apply lookup_empty.
  - intros b k v b' k'. case_decide; [done|]. intros; simplify_eq. apply lookup_insert.
  - intros b k v. rewrite merge_sort_Permutation. apply elem_of_map_to_list.
  - intros b. rewrite merge_sort_Permutation. apply NoDup_fst_map_to_list.
Qed.

(** ** Witnesses *)

Definition ex_meta : Meta.FileMeta := Meta.MkFileMeta "docs/a.txt" zero32 7 [zero32] 11.

Lemma meta_roundtrip_witness :
  Meta.GetFileMeta (B := map_bolt) (Meta.PutFileMeta (B := map_bolt) ex_meta ∅).2 "docs/a.txt"
  = Ok ex_meta.
Proof.
  destruct (Meta.PutFileMeta (B := map_bolt) ex_meta ∅) as [r b'] eqn:E.
  assert (r = Ok tt) as -> by (vm_compute in E; by injection E).
  pose proof (@Meta.meta_roundtrip map_bolt map_bolt_laws ex_meta ∅ (Ok tt) b') as H.
  destruct H as [[H1 H2] _]; [split; vm_compute; split; congruence|exact E|].
  rewrite H2 in H1 by reflexivity. exact H1.
Defined.

Lemma catalog_exact_witness :
  NoDup (Meta.ce_FileID <$> Meta.ListCatalog (B := map_bolt)
    (Meta.PutFileMeta (B := map_bolt) ex_meta ∅).2).
Proof.
  refine (proj1 (@Meta.catalog_exact map_bolt map_bolt_laws _ _)).
  eapply (@Meta.Put_meta_inv map_bolt map_bolt_laws ex_meta ∅); [apply surjective_pairing| |reflexivity|].
  - split; vm_compute; split; congruence.
  - apply (@Meta.meta_inv_empty map_bolt map_bolt_laws).
Defined.
