(* ===== verification/Path.v ===== *)
(** * [path/filepath] on Unix, lexically

    [Clean], [Join], [Rel], [Abs], [Dir], [Ext] as the program uses them, on
    strings.  [ToSlash] and [FromSlash] are the identity on Unix.  The theory
    below relates a path to its list of elements; it is what connects the
    place where a pulled file is written ([Join(BaseDir, fileID)]) to the file
    identifier a later change of it is given ([Rel(BaseDir, path)]). *)

From Stdlib Require Import Strings.Ascii.
From S2P Require Import Prelude GoBytes.

(** ** Strings and separators *)

Definition slash : ascii := "/"%char.

(** [strings.Split(s, "/")] *)
Fixpoint split_slash (s : string) : list string :=
  match s with
  | EmptyString => [EmptyString]
  | String c s =>
      if decide (c = slash) then EmptyString :: split_slash s
      else match split_slash s with
           | e :: es => String c e :: es
           | [] => [String c EmptyString]
           end
  end.

(** [strings.Join(es, "/")] *)
Fixpoint join_slash (es : list string) : string :=
  match es with
  | [] => EmptyString
  | [e] => e
  | e :: es => e +:+ String slash (join_slash es)
  end.

Definition rooted (p : string) : bool :=
  match p with String c _ => bool_decide (c = slash) | _ => false end.

(** ** The functions *)

(** One element of [Clean]'s scan; the output so far is kept as a stack. *)
Definition clean_step (r : bool) (st : list string) (e : string) : list string :=
  if decide (e = "" ∨ e = ".") then st
  else if decide (e = "..") then
    match st with
    | [] => if r then [] else [".."]
    | t :: st' => if decide (t = "..") then ".." :: st else st'
    end
  else e :: st.

Definition clean_elems (r : bool) (es : list string) : list string :=
  rev (foldl (clean_step r) [] es).

(** The path with the given elements. *)
Definition render (r : bool) (es : list string) : string :=
  if r then String slash (join_slash es)
  else match es with [] => "." | _ => join_slash es end.

Definition elems (p : string) : list string := clean_elems (rooted p) (split_slash p).

Definition Clean (p : string) : string := render (rooted p) (elems p).

(** [Join] drops leading empty elements, then joins and cleans. *)
Fixpoint Join (es : list string) : string :=
  match es with
  | [] => ""
  | e :: es' => if decide (e = "") then Join es' else Clean (join_slash es)
  end.

Fixpoint strip_common (b t : list string) : list string * list string :=
  match b, t with
  | x :: b', y :: t' => if decide (x = y) then strip_common b' t' else (b, t)
  | _, _ => (b, t)
  end.

(** The elements [Rel] walks over: those of an already clean path. *)
Definition rel_elems (p : string) : list string :=
  match p with
  | EmptyString => []
  | String c q =>
      if decide (c = slash) then match q with EmptyString => [] | _ => split_slash q end
      else split_slash p
  end.

Definition Rel (basepath targpath : string) : result string :=
  let base := Clean basepath in
  let targ := Clean targpath in
  if decide (targ = base) then Ok "." else
  let base := if decide (base = ".") then "" else base in
  if negb (eqb (rooted base) (rooted targ))
  then Err (EMsg "Rel: can't make targpath relative to basepath") else
  let '(b, t) := strip_common (rel_elems base) (rel_elems targ) in
  if decide (head b = Some "..")
  then Err (EMsg "Rel: can't make targpath relative to basepath")
  else Ok (join_slash (replicate (length b) ".." ++ t)).

(** [Abs], given the result of [os.Getwd]. *)
Definition Abs (cwd : result string) (p : string) : result string :=
  if rooted p then Ok (Clean p) else
  match cwd with
  | Ok wd => Ok (Join [wd; p])
  | Err e => Err e
  end.

(** Everything up to and including the last separator. *)
Fixpoint dir_prefix (s : string) : string :=
  match s with
  | EmptyString => EmptyString
  | String c s' =>
      match dir_prefix s' with
      | EmptyString => if decide (c = slash) then String c EmptyString else EmptyString
      | d => String c d
      end
  end.

Definition Dir (p : string) : string := Clean (dir_prefix p).

(** The suffix from the last dot of the last element. *)
Fixpoint ext_go (s acc : string) : string :=
  match s with
  | EmptyString => acc
  | String c s' =>
      if decide (c = slash) then ext_go s' ""
      else if decide (c = "."%char) then ext_go s' s
      else ext_go s' acc
  end.

Definition Ext (p : string) : string := ext_go p "".

(** The last element; the program only calls it for logging and as a fall-back. *)
Definition Base (p : string) : string :=
  match rev (filter (λ e, e ≠ "") (split_slash p)) with
  | e :: _ => e
  | [] => match p with EmptyString => "." | _ => String slash EmptyString end
  end.

Definition ToSlash (p : string) : string := p.
Definition FromSlash (p : string) : string := p.

Example Clean_examples :
  (Clean "", Clean "a//b/./c/..", Clean "/../a", Clean "../../x/..", Clean "/", Clean "a/..")
  = (".", "a/b", "/a", "../..", "/", ".").
Proof. vm_compute. reflexivity. Qed.

Example Rel_examples :
  (Rel "/a" "/a/b/c", Rel "a/b" "a/c", Rel "." "x", Rel "/" "/x/y", Rel "/x" "/x/",
   is_ok (Rel ".." "a"), is_ok (Rel "/a" "b"))
  = (Ok "b/c", Ok "../c", Ok "x", Ok "x/y", Ok ".", false, false).
Proof. vm_compute. reflexivity. Qed.

Example Ext_examples :
  (Ext "meta.db", Ext "a.b/c", Ext "x.tar.gz", Ext "/d/.db") = (".db", "", ".gz", ".db").
Proof. vm_compute. reflexivity. Qed.

(** ** Theory *)

(** An element that stands for itself: not empty, not a dot element, and
    without a separator. *)
Fixpoint no_slash (s : string) : bool :=
  match s with
  | EmptyString => true
  | String c s => bool_decide (c ≠ slash) && no_slash s
  end.

Definition plain (e : string) : bool :=
  bool_decide (e ≠ "") && bool_decide (e ≠ ".") && bool_decide (e ≠ "..") && no_slash e.

Lemma plain_spec e : plain e = true ↔ e ≠ "" ∧ e ≠ "." ∧ e ≠ ".." ∧ no_slash e = true.
Proof. unfold plain. rewrite !andb_true_iff, !bool_decide_eq_true. tauto. Qed.

Lemma split_slash_ne s : split_slash s ≠ [].
Proof. destruct s; simpl; [done|]. repeat case_match; done. Qed.

Lemma split_no_slash e : no_slash e = true → split_slash e = [e].
Proof.
  induction e as [|c e IH]; simpl; [done|].
  intros [H1%bool_decide_eq_true H2]%andb_true_iff.
  rewrite decide_False by done. by rewrite IH.
Qed.

Lemma split_app_slash a b :
  split_slash (a +:+ String slash b) = split_slash a ++ split_slash b.
Proof.
  induction a as [|c a IH]; simpl; [done|].
  case_decide; [by rewrite IH|]. rewrite IH.
  pose proof (split_slash_ne a). by destruct (split_slash a).
Qed.

Lemma split_join es :
  es ≠ [] → Forall (λ e, no_slash e = true) es → split_slash (join_slash es) = es.
Proof.
  intros Hne H. induction H as [|e [|e' es] He H IH]; [done| |].
  - by apply split_no_slash.
  - change (split_slash (e +:+ String slash (join_slash (e' :: es))) = e :: e' :: es).
    rewrite split_app_slash, split_no_slash by done. by rewrite IH.
Qed.

Lemma split_slash_no_slash s : Forall (λ e, no_slash e = true) (split_slash s).
Proof.
  induction s as [|c s IH]; simpl; [by repeat constructor|].
  case_decide as Hc; [by constructor|].
  destruct IH as [|e es He H]; repeat constructor; simpl;
    rewrite ?bool_decide_eq_true_2 by done; done.
Qed.

Lemma append_assoc (a b c : string) : a +:+ b +:+ c = (a +:+ b) +:+ c.
Proof.
  induction a as [|x a IH]; [done|].
  change (String x (a +:+ b +:+ c) = String x ((a +:+ b) +:+ c)). by rewrite IH.
Qed.

Lemma join_app_slash es es' :
  es ≠ [] → es' ≠ [] → join_slash (es ++ es') = join_slash es +:+ String slash (join_slash es').
Proof.
  intros H1 H2. induction es as [|e [|e' es] IH]; [done| |].
  - simpl. destruct es'; [done|]. done.
  - change (e +:+ String slash (join_slash ((e' :: es) ++ es'))
      = (e +:+ String slash (join_slash (e' :: es))) +:+ String slash (join_slash es')).
    rewrite IH by done.
    by rewrite <- append_assoc.
Qed.

Lemma clean_step_plain r st e : plain e = true → clean_step r st e = e :: st.
Proof.
  intros (?&?&?&_)%plain_spec. unfold clean_step.
  rewrite decide_False by tauto. by rewrite decide_False by done.
Qed.

Lemma foldl_clean_plain r st es :
  Forall (λ e, plain e = true) es → foldl (clean_step r) st es = rev es ++ st.
Proof.
  intros H. revert st. induction H as [|e es He H IH]; intros st; [done|].
  simpl. rewrite clean_step_plain, IH by done. by rewrite <- app_assoc.
Qed.

Lemma clean_elems_app r es es' :
  Forall (λ e, plain e = true) es' → clean_elems r (es ++ es') = clean_elems r es ++ es'.
Proof.
  intros H. unfold clean_elems. rewrite foldl_app, foldl_clean_plain by done.
  by rewrite rev_app_distr, rev_involutive.
Qed.

(** What [Clean] leaves: some [..] elements (none in a rooted path) before
    plain ones. *)
Definition normal (r : bool) (es : list string) : Prop :=
  ∃ k ps, es = replicate k ".." ++ ps ∧ Forall (λ e, plain e = true) ps ∧ (r = true → k = 0).

Lemma normal_plain r es : Forall (λ e, plain e = true) es → normal r es.
Proof. intros H. by exists 0, es. Qed.

Lemma normal_rooted es : normal true es → Forall (λ e, plain e = true) es.
Proof. intros (k & ps & -> & H & Hk). by rewrite (Hk eq_refl). Qed.

Lemma normal_app r es es' :
  normal r es → Forall (λ e, plain e = true) es' → normal r (es ++ es').
Proof.
  intros (k & ps & -> & H & Hk) H'. exists k, (ps ++ es').
  rewrite <- app_assoc. split_and!; [done|by apply Forall_app|done].
Qed.

Lemma normal_no_slash r es : normal r es → Forall (λ e, no_slash e = true) es.
Proof.
  intros (k & ps & -> & H & _). apply Forall_app. split; [by apply Forall_replicate|].
  eapply Forall_impl; [done|]. intros e He. apply plain_spec in He. tauto.
Qed.

Lemma clean_step_normal r st e :
  no_slash e = true → normal r (rev st) → normal r (rev (clean_step r st e)).
Proof.
  intros Hs (k & ps & E & H & Hk). unfold clean_step.
  case_decide; [by exists k, ps|]. case_decide as Hdd.
  - destruct st as [|t st].
    { destruct r; [by apply normal_plain|]. exists 1, []. by split_and!. }
    simpl in E. destruct ps as [|p ps _] using rev_ind.
    + rewrite app_nil_r in E. destruct k as [|k]; [by destruct (rev st)|].
      destruct r; [by specialize (Hk eq_refl)|].
      rewrite <- Nat.add_1_r, replicate_add in E. apply app_inj_tail in E as [E ->].
      rewrite decide_True by done. exists (S (S k)), []. split_and!; [|done..].
      simpl rev. rewrite E, app_nil_r. replace (S (S k)) with (k + 1 + 1) by lia.
      by rewrite !replicate_add.
    + rewrite app_assoc in E. apply app_inj_tail in E as [E ->].
      apply Forall_app in H as [H Hp]. inversion_clear Hp as [|?? Hp' _].
      apply plain_spec in Hp' as (_ & _ & ? & _). rewrite decide_False by done.
      by exists k, ps.
  - simpl. rewrite E. rewrite <- app_assoc. exists k, (ps ++ [e]).
    split_and!; [done| |done]. apply Forall_app; split; [done|].
    constructor; [|done]. apply plain_spec. tauto.
Qed.

Lemma elems_normal p : normal (rooted p) (elems p).
Proof.
  unfold elems, clean_elems. generalize (rooted p). intros r.
  pose proof (split_slash_no_slash p) as H. revert H. generalize (split_slash p). intros es.
  assert (normal r (rev [])) as Hn by (by apply normal_plain).
  revert Hn. generalize (@nil string). induction es as [|e es IH]; intros st Hn H; [done|].
  inversion_clear H. simpl. apply IH; [|done]. by apply clean_step_normal.
Qed.

Lemma join_split s : join_slash (split_slash s) = s.
Proof.
  induction s as [|c s IH]; [done|]. simpl. pose proof (split_slash_ne s).
  destruct (split_slash s) as [|e es] eqn:E; [done|].
  case_decide as Hc; [subst c|destruct es]; cbn -[join_slash] in *;
    [change (String slash (join_slash (e :: es)) = String slash s)|..]; by rewrite <- IH.
Qed.

Lemma no_slash_not_rooted e es :
  no_slash e = true → e ≠ "" → rooted (join_slash (e :: es)) = false.
Proof.
  destruct e as [|c e]; [done|]. simpl. intros [H _]%andb_true_iff _.
  apply bool_decide_eq_true in H. destruct es; simpl; by apply bool_decide_eq_false.
Qed.

Lemma normal_head_ne r e es : normal r (e :: es) → e ≠ "".
Proof.
  intros ([|k] & ps & E & H & _); simpl in E; simplify_eq; [|done].
  inversion_clear H as [|?? H' _]. apply plain_spec in H'; tauto.
Qed.

Lemma rooted_render r es : normal r es → rooted (render r es) = r.
Proof.
  intros Hn. destruct r; [by apply bool_decide_eq_true|].
  destruct es as [|e es]; [done|]. unfold render.
  apply no_slash_not_rooted; [|by eapply normal_head_ne].
  apply normal_no_slash in Hn. by inversion_clear Hn.
Qed.

Lemma join_slash_ne e es : e ≠ "" → join_slash (e :: es) ≠ "".
Proof. by destruct e, es. Qed.

Lemma rel_elems_render r es :
  normal r es → (r = false → es ≠ []) → rel_elems (render r es) = es.
Proof.
  intros Hn He. destruct es as [|e es]; [by destruct r; [|destruct (He eq_refl)]|].
  pose proof (rooted_render _ _ Hn) as Hr.
  pose proof (normal_no_slash _ _ Hn) as Hs.
  pose proof (split_join (e :: es) ltac:(done) Hs) as Hj.
  pose proof (join_slash_ne e es (normal_head_ne _ _ _ Hn)).
  destruct r; unfold render in *.
  - unfold rel_elems. rewrite decide_True by done.
    destruct (join_slash (e :: es)); [done|exact Hj].
  - unfold rel_elems. destruct (join_slash (e :: es)) as [|c q]; [done|].
    simpl in Hr. apply bool_decide_eq_false in Hr. by rewrite decide_False by done.
Qed.

Lemma render_dot r es : normal r es → render r es = "." → r = false ∧ es = [].
Proof.
  intros Hn. destruct r; [done|]. intros E. split; [done|].
  destruct es as [|e es]; [done|].
  pose proof (rel_elems_render false (e :: es) Hn ltac:(done)) as H.
  rewrite E in H. change (["."] = e :: es) in H. simplify_eq.
  destruct Hn as ([|k] & ps & E' & H & _); simplify_eq/=.
  inversion_clear H as [|?? H' _]. by apply plain_spec in H' as (_ & ? & _).
Qed.

(** A file identifier that names a file below the base directory: every
    element is plain. *)
Definition local_id (id : string) : bool := forallb plain (split_slash id).

Lemma local_id_plain id : local_id id = true → Forall (λ e, plain e = true) (split_slash id).
Proof. unfold local_id. intros H. apply Forall_forall. intros e He.
  rewrite forallb_forall in H. apply H. by apply list_elem_of_In. Qed.

Lemma local_id_ne id : local_id id = true → id ≠ "".
Proof. intros H ->. done. Qed.

Lemma local_id_not_rooted id : local_id id = true → rooted id = false.
Proof.
  destruct id as [|c id]; [done|]. intros H. simpl. apply bool_decide_eq_false. intros ->.
  by vm_compute in H.
Qed.

(** The elements of [Join(base, id)] are those of [base] followed by those of
    [id]. *)
Lemma Join_elems base id :
  local_id id = true →
  Join [base; id] = render (rooted base) (elems base ++ split_slash id).
Proof.
  intros Hid. pose proof (local_id_plain _ Hid) as Hp.
  pose proof (local_id_ne _ Hid). simpl. case_decide as Hb.
  - subst base. rewrite decide_False by done. unfold Clean, elems.
    rewrite (local_id_not_rooted _ Hid). f_equal.
    exact (clean_elems_app false [] (split_slash id) Hp).
  - unfold Clean, elems.
    assert (rooted (base +:+ String slash id) = rooted base) as -> by (by destruct base).
    by rewrite split_app_slash, clean_elems_app.
Qed.

Lemma strip_common_app es t : strip_common es (es ++ t) = ([], t).
Proof. induction es as [|e es IH]; simpl; [by destruct t|]. by rewrite decide_True. Qed.

Lemma clean_dotdots k : clean_elems false (replicate k "..") = replicate k "..".
Proof.
  unfold clean_elems.
  assert (∀ j, foldl (clean_step false) (replicate j "..") (replicate k "..")
    = replicate (k + j) "..") as H.
  { induction k as [|k IH]; intros j; [done|]. simpl.
    assert (clean_step false (replicate j "..") ".." = replicate (S j) "..") as ->
      by (by destruct j).
    by rewrite IH, Nat.add_succ_r. }
  change (@nil string) with (replicate 0 ".."). rewrite H, Nat.add_0_r. clear H.
  induction k as [|k IH]; [done|]. simpl. rewrite IH.
  by rewrite <- replicate_cons_app.
Qed.

Lemma clean_elems_normal r es : normal r es → clean_elems r es = es.
Proof.
  intros (k & ps & -> & H & Hk). rewrite clean_elems_app by done. f_equal.
  destruct r; [by rewrite (Hk eq_refl)|apply clean_dotdots].
Qed.

Lemma elems_render r es : normal r es → elems (render r es) = es.
Proof.
  intros Hn. unfold elems. rewrite rooted_render by done.
  pose proof (normal_no_slash _ _ Hn) as Hs.
  destruct es as [|e es]; [by destruct r|]. destruct r; unfold render.
  - change (clean_elems true ("" :: split_slash (join_slash (e :: es))) = e :: es).
    rewrite split_join by done. by apply (clean_elems_normal true (e :: es)).
  - rewrite split_join by done. by apply clean_elems_normal.
Qed.

Lemma Clean_render r es : normal r es → Clean (render r es) = render r es.
Proof. intros Hn. unfold Clean. by rewrite rooted_render, elems_render. Qed.

Lemma Clean_idemp p : Clean (Clean p) = Clean p.
Proof. apply Clean_render, elems_normal. Qed.

(** [Rel] between two paths of the same kind, on their elements. *)
Lemma Rel_render r b t :
  normal r b → normal r t → (r = false → t ≠ []) →
  Rel (render r b) (render r t) =
  if decide (t = b) then Ok "." else
  let '(b', t') := strip_common b t in
  if decide (head b' = Some "..")
  then Err (EMsg "Rel: can't make targpath relative to basepath")
  else Ok (join_slash (replicate (length b') ".." ++ t')).
Proof.
  intros Hb Ht Hne. unfold Rel. rewrite !Clean_render by done.
  destruct (decide (t = b)) as [->|Hd]; [by rewrite decide_True|].
  rewrite decide_False.
  2:{ intros E. apply (f_equal elems) in E. by rewrite !elems_render in E. }
  assert (rel_elems (if decide (render r b = ".") then "" else render r b) = b
    ∧ rooted (if decide (render r b = ".") then "" else render r b) = r) as [-> ->].
  { case_decide as E.
    - by apply render_dot in E as [-> ->].
    - rewrite rooted_render by done. split; [|done]. apply rel_elems_render; [done|].
      by intros -> ->. }
  rewrite rooted_render, Bool.eqb_reflx, rel_elems_render by done. done.
Qed.

(** Going to a file below the base directory and asking for its path relative
    to the base directory gives the identifier back. *)
Lemma Rel_Join base id :
  local_id id = true → Rel base (Join [base; id]) = Ok id.
Proof.
  intros Hid. pose proof (local_id_plain _ Hid) as Hp.
  pose proof (split_slash_ne id) as Hne. rewrite Join_elems by done.
  set (ids := split_slash id) in *.
  assert (Rel base (render (rooted base) (elems base ++ ids))
    = Rel (render (rooted base) (elems base)) (render (rooted base) (elems base ++ ids))) as ->.
  { unfold Rel. by rewrite (Clean_render _ (elems base)) by apply elems_normal. }
  rewrite Rel_render; [|apply elems_normal|apply normal_app; [apply elems_normal|done]|].
  - rewrite decide_False.
    2:{ intros E. destruct Hne. rewrite <- (app_nil_r (elems base)) in E at 2.
        by apply app_inv_head in E. }
    rewrite strip_common_app. simpl. f_equal. apply join_split.
  - intros _. by destruct (elems base).
Qed.

(** [Join] with a plain middle element is [Join] with a longer identifier. *)
Lemma Join3 base a b :
  plain a = true → Join [base; a; b] = Join [base; a +:+ String slash b].
Proof.
  intros (Ha & _ & _ & Hs)%plain_spec. simpl.
  case_decide as Hb; [|done]. rewrite decide_False by done.
  by rewrite decide_False by (by destruct a).
Qed.

Lemma local_id_two a b :
  plain a = true → plain b = true → local_id (a +:+ String slash b) = true.
Proof.
  intros Ha Hb. unfold local_id. rewrite split_app_slash.
  apply plain_spec in Ha as Ha'. apply plain_spec in Hb as Hb'.
  rewrite !split_no_slash by tauto. simpl. by rewrite Ha, Hb.
Qed.

Lemma Join3_elems base a b :
  plain a = true → plain b = true →
  elems (Join [base; a; b]) = elems base ++ [a; b].
Proof.
  intros Ha Hb. rewrite Join3, Join_elems by eauto using local_id_two.
  rewrite elems_render.
  - rewrite split_app_slash. apply plain_spec in Ha, Hb.
    by rewrite !split_no_slash by tauto.
  - apply normal_app; [apply elems_normal|]. apply local_id_plain. by apply local_id_two.
Qed.

(** A path below the base directory. *)
Lemma Join_elems_local base id :
  local_id id = true → elems (Join [base; id]) = elems base ++ split_slash id.
Proof.
  intros Hid. rewrite Join_elems by done. apply elems_render.
  apply normal_app; [apply elems_normal|by apply local_id_plain].
Qed.

(** Nothing but a longer last element changes when a name is extended. *)
Lemma join_extend es e suf : join_slash (es ++ [e]) +:+ suf = join_slash (es ++ [e +:+ suf]).
Proof.
  destruct es as [|x es]; [done|]. rewrite !join_app_slash by done. by rewrite <- append_assoc.
Qed.

(** [Clean] leaves neither empty elements nor dots. *)
Lemma clean_stack r st es :
  Forall (λ e, e ≠ "" ∧ e ≠ ".") st → Forall (λ e, e ≠ "" ∧ e ≠ ".") (foldl (clean_step r) st es).
Proof.
  revert st. induction es as [|e es IH]; intros st H; [done|]. cbn [foldl]. apply IH.
  unfold clean_step. case_decide; [done|]. case_decide as Hd.
  - assert (".." ≠ "" ∧ ".." ≠ ".") by done.
    destruct H as [|t st Ht H]; [destruct r; auto|]. case_decide; auto.
  - constructor; [tauto|done].
Qed.

(** Going along a path is going along its cleaned elements. *)
Lemma clean_relative st es :
  foldl (clean_step true) st (clean_elems false es) = foldl (clean_step true) st es.
Proof.
  unfold clean_elems. induction es as [|e es IH] using rev_ind; [done|].
  rewrite !foldl_app. cbn [foldl]. rewrite <- IH.
  assert (Forall (λ e, e ≠ "" ∧ e ≠ ".") (foldl (clean_step false) [] es)) as Hu by (by apply clean_stack).
  set (u := foldl (clean_step false) [] es) in *. clearbody u. clear IH.
  assert (∀ e, foldl (clean_step true) st (rev (e :: u)) = clean_step true (foldl (clean_step true) st (rev u)) e)
    as Hpush by (intros x; cbn [rev]; by rewrite foldl_app).
  unfold clean_step at 2. case_decide as He.
  { unfold clean_step at 2. by rewrite decide_True. }
  case_decide as Hd; [subst e|by rewrite Hpush].
  destruct u as [|t u]; [done|]. case_decide as Ht; [by rewrite Hpush|].
  inversion_clear Hu as [|? ? [Hn1 Hn2] _]. cbn [rev]. rewrite foldl_app. cbn [foldl].
  set (X := foldl (clean_step true) st (rev u)).
  assert (clean_step true X t = t :: X) as ->
    by (unfold clean_step; rewrite decide_False by tauto; by rewrite decide_False by done).
  unfold clean_step. rewrite decide_False by (by intros [?|?]). rewrite decide_True by done.
  by rewrite decide_False by done.
Qed.

(** The elements of an absolute path: from the root or from the working
    directory along the elements of the path. *)
Lemma Abs_elems wd p :
  rooted wd = true →
  ∃ q, Abs (Ok wd) p = Ok q ∧ rooted q = true
    ∧ elems q = rev (foldl (clean_step true) (if rooted p then [] else rev (elems wd)) (elems p)).
Proof.
  intros Hwd. unfold Abs. pose proof (elems_normal p) as Hn. destruct (rooted p) eqn:Hp.
  - exists (Clean p). unfold Clean. rewrite Hp, rooted_render, elems_render by done. split_and!; [done..|].
    symmetry. by apply (clean_elems_normal true).
  - assert (rooted (wd +:+ String slash p) = true) as Hr by (by destruct wd).
    simpl Join. rewrite decide_False by (by intros ->). eexists. split; [done|].
    pose proof (elems_normal (wd +:+ String slash p)) as Hq. rewrite Hr in Hq.
    unfold Clean. rewrite Hr, rooted_render, elems_render by done. split; [done|].
    unfold elems at 1. rewrite Hr, split_app_slash. unfold clean_elems at 1. rewrite foldl_app.
    assert (foldl (clean_step true) [] (split_slash wd) = rev (elems wd)) as ->
      by (unfold elems, clean_elems; by rewrite Hwd, rev_involutive).
    unfold elems. by rewrite Hp, clean_relative.
Qed.
