(* ===== verification/Fs.v ===== *)
(** * The part of package [os] the program uses

    A file system is a map from the path handed to the call to the content of
    the file there.  Every call may fail for reasons the program does not
    control (permissions, full disk, a missing directory): the outcomes of the
    coming calls are listed in [os_io], and a failing write may have written a
    prefix of its data.  Theorems quantify over that list, so they hold for
    every pattern of failures; the empty list means that nothing fails except
    for what the map itself says (opening or renaming a missing file).  Calls
    that change no file and whose result the program drops (closing a
    descriptor that was only read, or in a [defer]) take no outcome. *)

From Stdlib Require Import Strings.Byte.
From S2P Require Import Prelude GoBytes.

(** What happens to one call: it succeeds, fails without effect, or fails
    after [k] bytes. *)
Inductive io_outcome :=
  | IoOk
  | IoFail
  | IoPartial (k : nat).

Record os := Os {
  os_files : gmap string (list byte);
  os_io : list io_outcome;
}.

Definition os_next (s : os) : io_outcome * os :=
  match os_io s with
  | [] => (IoOk, s)
  | o :: r => (o, Os (os_files s) r)
  end.

Definition os_set (p : string) (c : list byte) (s : os) : os :=
  Os (<[p := c]> (os_files s)) (os_io s).

(** ** Contents *)

Definition zeros (n : nat) : list byte := replicate n x00.

(** [ftruncate]: cut, or extend with zero bytes. *)
Definition resize (n : nat) (c : list byte) : list byte := take n (c ++ zeros (n - length c)).

(** [pwrite] of [data] at [off]: a gap is zero-filled; writing nothing does
    not extend the file. *)
Definition splice (off : nat) (data c : list byte) : list byte :=
  match data with
  | [] => c
  | _ => take off (c ++ zeros (off - length c)) ++ data ++ drop (off + length data) c
  end.

(** ** Calls *)

Definition os_Stat (p : string) : stM os unit := λ s,
  let '(o, s) := os_next s in
  match o, os_files s !! p with
  | IoOk, Some _ => (Ok tt, s)
  | _, _ => (Err (EOS "stat" p), s)
  end.

(** [os.Open]; the value is what reading the descriptor to its end yields. *)
Definition os_Open (p : string) : stM os (list byte) := λ s,
  let '(o, s) := os_next s in
  match o, os_files s !! p with
  | IoOk, Some c => (Ok c, s)
  | _, _ => (Err (EOS "open" p), s)
  end.

(** [io.ReadAll] on a descriptor with content [c]. *)
Definition io_ReadAll (c : list byte) : stM os (list byte) := λ s,
  let '(o, s) := os_next s in
  match o with
  | IoOk => (Ok c, s)
  | _ => (Err (EMsg "read"), s)
  end.

Definition os_WriteFile (p : string) (data : list byte) : stM os unit := λ s,
  let '(o, s) := os_next s in
  match o with
  | IoOk => (Ok tt, os_set p data s)
  | IoFail => (Err (EOS "open" p), s)
  | IoPartial k => (Err (EOS "write" p), os_set p (take k data) s)
  end.

Definition os_Remove (p : string) : stM os unit := λ s,
  let '(o, s) := os_next s in
  match o, os_files s !! p with
  | IoOk, Some _ => (Ok tt, Os (delete p (os_files s)) (os_io s))
  | _, _ => (Err (EOS "remove" p), s)
  end.

Definition os_Rename (p q : string) : stM os unit := λ s,
  let '(o, s) := os_next s in
  match o, os_files s !! p with
  | IoOk, Some c => (Ok tt, Os (<[q := c]> (delete p (os_files s))) (os_io s))
  | _, _ => (Err (EOS "rename" p), s)
  end.

(** [os.Create]: open with truncation.  The descriptor is named by its path. *)
Definition os_Create (p : string) : stM os unit := λ s,
  let '(o, s) := os_next s in
  match o with
  | IoOk => (Ok tt, os_set p [] s)
  | _ => (Err (EOS "open" p), s)
  end.

Definition file_Truncate (p : string) (size : Z) : stM os unit := λ s,
  let '(o, s) := os_next s in
  match o, os_files s !! p with
  | IoOk, Some c =>
      if (size <? 0)%Z then (Err (EOS "truncate" p), s)
      else (Ok tt, os_set p (resize (Z.to_nat size) c) s)
  | _, _ => (Err (EOS "truncate" p), s)
  end.

Definition file_WriteAt (p : string) (data : list byte) (off : Z) : stM os unit := λ s,
  let '(o, s) := os_next s in
  match os_files s !! p with
  | None => (Err (EOS "write" p), s)
  | Some c =>
      if (off <? 0)%Z then (Err (EOS "writeat" p), s) else
      match o with
      | IoOk => (Ok tt, os_set p (splice (Z.to_nat off) data c) s)
      | IoFail => (Err (EOS "write" p), s)
      | IoPartial k =>
          (Err (EOS "write" p), os_set p (splice (Z.to_nat off) (take k data) c) s)
      end
  end.

(** Appending to an open file, as [io.Copy] does. *)
Definition file_Append (p : string) (data : list byte) : stM os unit := λ s,
  let '(o, s) := os_next s in
  match os_files s !! p with
  | None => (Err (EOS "write" p), s)
  | Some c =>
      match o with
      | IoOk => (Ok tt, os_set p (c ++ data) s)
      | IoFail => (Err (EOS "write" p), s)
      | IoPartial k => (Err (EOS "write" p), os_set p (c ++ take k data) s)
      end
  end.

Definition file_Close (p : string) : stM os unit := λ s,
  let '(o, s) := os_next s in
  match o with
  | IoOk => (Ok tt, s)
  | _ => (Err (EOS "close" p), s)
  end.

(** Directories are not part of the map; [os.MkdirAll] only succeeds or fails. *)
Definition os_MkdirAll (p : string) : stM os unit := λ s,
  let '(o, s) := os_next s in
  match o with
  | IoOk => (Ok tt, s)
  | _ => (Err (EOS "mkdir" p), s)
  end.

(** ** Lemmas *)

Lemma os_next_files s o s' : os_next s = (o, s') → os_files s' = os_files s.
Proof. unfold os_next. destruct (os_io s); intros; by simplify_eq/=. Qed.

Lemma os_next_quiet s : os_io s = [] → os_next s = (IoOk, s).
Proof. unfold os_next. by intros ->. Qed.

Lemma length_zeros n : length (zeros n) = n.
Proof. apply length_replicate. Qed.

Lemma resize_nil n : resize n [] = zeros n.
Proof.
  unfold resize, zeros. simpl. rewrite Nat.sub_0_r.
  apply firstn_all2. rewrite length_replicate. lia.
Qed.

(** Writing right behind what is already written: the part overwritten by
    [data] disappears from the tail. *)
Lemma splice_at_end pre data tail :
  splice (length pre) data (pre ++ tail) = pre ++ data ++ drop (length data) tail.
Proof.
  unfold splice. destruct data as [|b data]; [done|].
  rewrite take_app_le by (rewrite length_app; lia).
  rewrite take_app_length, drop_app_ge by lia. do 3 f_equal. lia.
Qed.

(** Case analysis on the outcome of the next call. *)
Ltac os_case :=
  match goal with
  | H : context [os_next ?s] |- _ =>
      let o := fresh "o" in let s' := fresh "s" in let E := fresh "Hio" in
      destruct (os_next s) as [o s'] eqn:E; apply os_next_files in E; destruct o
  end.

(** What each call does to the files, whatever its outcome. *)
Ltac os_spec :=
  intros H; repeat (os_case || case_match); simplify_eq/=;
  repeat match goal with E : os_files _ = os_files _ |- _ => rewrite E in *; clear E end;
  eauto 10; try (split; [done|naive_solver]).

Lemma os_Stat_spec p s r s' :
  os_Stat p s = (r, s') →
  os_files s' = os_files s ∧ (r = Ok tt → is_Some (os_files s !! p)).
Proof. unfold os_Stat. os_spec. Qed.

Lemma os_Open_spec p s r s' :
  os_Open p s = (r, s') →
  os_files s' = os_files s ∧ (∀ c, r = Ok c → os_files s !! p = Some c).
Proof. unfold os_Open. os_spec. Qed.

Lemma io_ReadAll_spec c s r s' :
  io_ReadAll c s = (r, s') → os_files s' = os_files s ∧ (∀ d, r = Ok d → d = c).
Proof. unfold io_ReadAll. os_spec. Qed.

Lemma os_WriteFile_spec p data s r s' :
  os_WriteFile p data s = (r, s') →
  (r = Ok tt ∧ os_files s' = <[p := data]> (os_files s))
  ∨ (∃ e, r = Err e ∧ (os_files s' = os_files s ∨ ∃ c, os_files s' = <[p := c]> (os_files s))).
Proof. unfold os_WriteFile. os_spec. Qed.

Lemma os_Remove_spec p s r s' :
  os_Remove p s = (r, s') →
  os_files s' = os_files s ∨ os_files s' = delete p (os_files s).
Proof. unfold os_Remove. os_spec. Qed.

Lemma os_Rename_spec p q s r s' :
  os_Rename p q s = (r, s') →
  (r = Ok tt ∧ ∃ c, os_files s !! p = Some c
     ∧ os_files s' = <[q := c]> (delete p (os_files s)))
  ∨ (∃ e, r = Err e ∧ os_files s' = os_files s).
Proof. unfold os_Rename. os_spec. Qed.

Lemma os_Create_spec p s r s' :
  os_Create p s = (r, s') →
  (r = Ok tt ∧ os_files s' = <[p := []]> (os_files s))
  ∨ (∃ e, r = Err e ∧ os_files s' = os_files s).
Proof. unfold os_Create. os_spec. Qed.

Lemma file_Truncate_spec p n s r s' :
  file_Truncate p n s = (r, s') →
  (r = Ok tt ∧ (0 ≤ n)%Z ∧ ∃ c, os_files s !! p = Some c
     ∧ os_files s' = <[p := resize (Z.to_nat n) c]> (os_files s))
  ∨ (∃ e, r = Err e ∧ os_files s' = os_files s).
Proof.
  unfold file_Truncate. os_spec. left. split_and!; [done|by apply Z.ltb_ge|eauto].
Qed.

Lemma file_WriteAt_spec p data off s r s' :
  file_WriteAt p data off s = (r, s') →
  (r = Ok tt ∧ (0 ≤ off)%Z ∧ ∃ c, os_files s !! p = Some c
     ∧ os_files s' = <[p := splice (Z.to_nat off) data c]> (os_files s))
  ∨ (∃ e, r = Err e ∧ (os_files s' = os_files s ∨ ∃ c, os_files s' = <[p := c]> (os_files s))).
Proof.
  unfold file_WriteAt. os_spec. left. split_and!; [done|by apply Z.ltb_ge|eauto].
Qed.

Lemma file_Append_spec p data s r s' :
  file_Append p data s = (r, s') →
  (r = Ok tt ∧ ∃ c, os_files s !! p = Some c
     ∧ os_files s' = <[p := c ++ data]> (os_files s))
  ∨ (∃ e, r = Err e ∧ (os_files s' = os_files s ∨ ∃ c, os_files s' = <[p := c]> (os_files s))).
Proof. unfold file_Append. os_spec. Qed.

Lemma file_Close_spec p s r s' :
  file_Close p s = (r, s') → os_files s' = os_files s.
Proof. unfold file_Close. os_spec. Qed.

Lemma os_MkdirAll_spec p s r s' :
  os_MkdirAll p s = (r, s') → os_files s' = os_files s.
Proof. unfold os_MkdirAll. os_spec. Qed.
