(* ===== verification/Cas.v ===== *)
(** * The content-addressed store ([internal/store/cas.go])

    An object is a file [objects/<hex of its SHA-256>] of the data directory.
    [Put] writes a temporary file, compares the hash of the data with the name
    it is to be stored under and renames; [GetFile] and [Get] open and read.
    The invariant is that every object hashes to its name; it survives any
    pattern of I/O failures. *)

From Stdlib Require Import Strings.Ascii Strings.Byte.
From S2P Require Import Prelude GoBytes Sha256 Path Fs.

Module Cas.

Record CASBlobStore := MkCAS { baseDir : string }.

Definition object_name (hash : array32) : string := hex_EncodeToString (a32_bytes hash).

Definition object_path (s : CASBlobStore) (hash : array32) : string :=
  Join [baseDir s; "objects"; object_name hash].

Definition tmp_path (s : CASBlobStore) (hash : array32) : string :=
  Join [baseDir s; "tmp"; object_name hash +:+ ".tmp"].

Definition NewCASBlobStore (base : string) : stM os CASBlobStore :=
  _ ← os_MkdirAll (Join [base; "objects"]);
  _ ← os_MkdirAll (Join [base; "tmp"]);
  mret (MkCAS base).

(** [Put].  The deferred [os.Remove(tmp)] runs after the hash check and the
    rename, and its error is dropped. *)
Definition Put (s : CASBlobStore) (hash : array32) (data : list byte) : stM os unit := λ w,
  let path := object_path s hash in
  match os_Stat path w with
  | (Ok _, w) => (Ok tt, w)
  | (Err _, w) =>
      let tmp := tmp_path s hash in
      match os_WriteFile tmp data w with
      | (Err e, w) => (Err e, w)
      | (Ok _, w) =>
          let '(r, w) :=
            if decide (Sum256 data = hash) then os_Rename tmp path w
            else (Err (EMsg "hash mismatch: expected %x, got %x"), w) in
          let '(_, w) := os_Remove tmp w in
          (r, w)
      end
  end.

Definition GetFile (s : CASBlobStore) (hash : array32) : stM os (list byte) :=
  os_Open (object_path s hash).

Definition Get (s : CASBlobStore) (hash : array32) : stM os (list byte) :=
  f ← GetFile s hash; io_ReadAll f.

(** ** Object paths *)

Lemma hex_digit_not_slash n : hex_digit n ≠ slash.
Proof.
  unfold hex_digit. destruct (nth_in_or_default (Z.to_nat n)
    (String.list_ascii_of_string "0123456789abcdef") "0"%char) as [H| ->]; [|done].
  intros E. rewrite E in H. simpl in H. repeat destruct H as [H|H]; done.
Qed.

Lemma no_slash_hex l : no_slash (hex_EncodeToString l) = true.
Proof.
  induction l as [|b l IH]; [done|]. cbn [hex_EncodeToString no_slash].
  by rewrite !bool_decide_eq_true_2, IH by apply hex_digit_not_slash.
Qed.

Lemma no_slash_app a b : no_slash (a +:+ b) = no_slash a && no_slash b.
Proof.
  induction a as [|c a IH]; [done|].
  change (bool_decide (c ≠ slash) && no_slash (a +:+ b) = no_slash (String c a) && no_slash b).
  rewrite IH. by rewrite andb_assoc.
Qed.

Lemma plain_long e : no_slash e = true → 2 < String.length e → plain e = true.
Proof. intros Hs Hl. apply plain_spec. split_and!; [..|done]; intros ->; simpl in Hl; lia. Qed.

Lemma plain_object_name h : plain (object_name h) = true.
Proof.
  apply plain_long; [apply no_slash_hex|]. unfold object_name.
  rewrite length_hex_EncodeToString, length_a32. lia.
Qed.

Lemma length_string_app a b : String.length (a +:+ b) = String.length a + String.length b.
Proof.
  induction a as [|c a IH]; [done|].
  change (S (String.length (a +:+ b)) = S (String.length a) + String.length b). by rewrite IH.
Qed.

Lemma plain_tmp_name h : plain (object_name h +:+ ".tmp") = true.
Proof.
  apply plain_long; [by rewrite no_slash_app; unfold object_name; rewrite no_slash_hex|].
  rewrite length_string_app. simpl. lia.
Qed.

Lemma object_path_elems s h : elems (object_path s h) = elems (baseDir s) ++ ["objects"; object_name h].
Proof. apply Join3_elems; [done|apply plain_object_name]. Qed.

Lemma tmp_path_elems s h : elems (tmp_path s h) = elems (baseDir s) ++ ["tmp"; object_name h +:+ ".tmp"].
Proof. apply Join3_elems; [done|apply plain_tmp_name]. Qed.

#[global] Instance object_path_inj s : Inj (=) (=) (object_path s).
Proof.
  intros h h' E. apply (f_equal elems) in E. rewrite !object_path_elems in E.
  apply app_inv_head in E. simplify_eq. by apply array32_eq, hex_EncodeToString_inj.
Qed.

Lemma object_path_not_tmp s h h' : object_path s h ≠ tmp_path s h'.
Proof.
  intros E. apply (f_equal elems) in E. rewrite object_path_elems, tmp_path_elems in E.
  apply app_inv_head in E. simplify_eq.
Qed.

(** ** The invariant *)

(** Every object hashes to the name it is stored under. *)
Definition cas_inv (s : CASBlobStore) (w : os) : Prop :=
  ∀ h data, os_files w !! object_path s h = Some data → Sum256 data = h.

Definition has_object (s : CASBlobStore) (w : os) (h : array32) : Prop :=
  is_Some (os_files w !! object_path s h).

#[global] Instance has_object_dec s w h : Decision (has_object s w h) := is_Some_dec _.

(** The effect of [Put] on the files, on every path through it: only the
    object and its temporary file are touched, and the object only by storing
    data that has the right hash. *)
Lemma Put_files s hash data w r w' :
  Put s hash data w = (r, w') →
  (∀ p, p ≠ object_path s hash → p ≠ tmp_path s hash → os_files w' !! p = os_files w !! p)
  ∧ (os_files w' !! object_path s hash = os_files w !! object_path s hash
     ∨ os_files w' !! object_path s hash = Some data ∧ Sum256 data = hash).
Proof.
  pose proof (object_path_not_tmp s hash hash) as Hne.
  unfold Put. intros H.
  destruct (os_Stat _ w) as [[]  w1] eqn:E1; apply os_Stat_spec in E1 as [E1 _]; simplify_eq.
  { rewrite E1. auto. }
  destruct (os_WriteFile _ _ w1) as [r2 w2] eqn:E2;
    apply os_WriteFile_spec in E2 as [[-> E2] | (? & -> & E2)].
  2:{ simplify_eq. destruct E2 as [E2|[c E2]]; rewrite E2, E1; [by auto|].
      split; [intros; by simplify_map_eq|left; by simplify_map_eq]. }
  assert (∀ w3 r3 w4, (os_files w3 = os_files w2 ∨ Sum256 data = hash
      ∧ os_files w3 = <[object_path s hash := data]> (delete (tmp_path s hash) (os_files w2))) →
    os_Remove (tmp_path s hash) w3 = (r3, w4) →
    (∀ p, p ≠ object_path s hash → p ≠ tmp_path s hash → os_files w4 !! p = os_files w !! p)
    ∧ (os_files w4 !! object_path s hash = os_files w !! object_path s hash
     ∨ os_files w4 !! object_path s hash = Some data ∧ Sum256 data = hash)) as Hrm.
  { intros w3 r3 w4 Hw3 [E4|E4]%os_Remove_spec; rewrite E4; clear E4;
      (destruct Hw3 as [E3|[Hh E3]]; rewrite E3, E2, E1; (split; [intros p ??; by simplify_map_eq|]);
      [left|right]; by simplify_map_eq). }
  case_decide as Hh.
  - destruct (os_Rename _ _ w2) as [r3 w3] eqn:E3. destruct (os_Remove _ w3) as [r4 w4] eqn:E4.
    simplify_eq. eapply Hrm; [|done].
    apply os_Rename_spec in E3 as [(-> & c & Hc & E3) | (? & -> & E3)]; [right|by left].
    rewrite E2, lookup_insert_eq in Hc. by simplify_eq.
  - destruct (os_Remove _ w2) as [r4 w4] eqn:E4. simplify_eq. eapply Hrm; [|done]. by left.
Qed.

(** [Put] never breaks the store. *)
Lemma Put_inv s hash data w r w' :
  Put s hash data w = (r, w') → cas_inv s w → cas_inv s w'.
Proof.
  intros [Hf Ho]%Put_files Hinv h d Hd.
  destruct (decide (h = hash)) as [->|Hne].
  - destruct Ho as [Ho|[Ho <-]]; rewrite Ho in Hd; [by apply Hinv|by simplify_eq].
  - rewrite Hf in Hd; [by apply Hinv| |by apply object_path_not_tmp].
    intros E. by apply (inj (object_path s)) in E.
Qed.

(** A property of all objects, by hash and content. *)
Definition all_objects (P : array32 → list byte → Prop) (s : CASBlobStore) (w : os) : Prop :=
  ∀ h data, os_files w !! object_path s h = Some data → P h data.

Lemma Put_all_objects P s hash data w r w' :
  Put s hash data w = (r, w') → P hash data → all_objects P s w → all_objects P s w'.
Proof.
  intros [Hf Ho]%Put_files HP Hall h d Hd. destruct (decide (h = hash)) as [->|Hne].
  - destruct Ho as [Ho|[Ho _]]; rewrite Ho in Hd; [by apply Hall|by simplify_eq].
  - rewrite Hf in Hd; [by apply Hall| |by apply object_path_not_tmp].
    intros E. by apply (inj (object_path s)) in E.
Qed.

(** An object stays, with a content of the same hash. *)
Lemma Put_keeps s hash data w r w' h :
  Put s hash data w = (r, w') → has_object s w h → has_object s w' h.
Proof.
  intros [Hf Ho]%Put_files [d Hd]. unfold has_object.
  destruct (decide (h = hash)) as [->|Hne].
  - destruct Ho as [Ho|[Ho _]]; rewrite Ho; eauto.
  - rewrite Hf; [eauto| |by apply object_path_not_tmp].
    intros E. by apply (inj (object_path s)) in E.
Qed.

(** Data with the wrong hash is refused and changes no object. *)
Lemma Put_mismatch_objects s hash data w r w' h :
  Put s hash data w = (r, w') → Sum256 data ≠ hash →
  os_files w' !! object_path s h = os_files w !! object_path s h.
Proof.
  intros [Hf Ho]%Put_files Hh. destruct (decide (h = hash)) as [->|Hne].
  - by destruct Ho as [Ho|[_ ?]].
  - apply Hf; [|by apply object_path_not_tmp].
    intros E. by apply (inj (object_path s)) in E.
Qed.

Lemma Put_mismatch_err s hash data w r w' :
  Put s hash data w = (r, w') → Sum256 data ≠ hash → ¬ has_object s w hash → is_ok r = false.
Proof.
  unfold Put. intros H Hh Hno.
  destruct (os_Stat _ w) as [[] w1] eqn:E1; apply os_Stat_spec in E1 as [E1 Hs].
  { destruct Hno. apply Hs. by destruct a. }
  destruct (os_WriteFile _ _ w1) as [[] w2]; [|by simplify_eq].
  rewrite decide_False in H by done. destruct (os_Remove _ w2). by simplify_eq.
Qed.

(** A successful [Put] leaves the object there. *)
Lemma Put_ok s hash data w w' : Put s hash data w = (Ok tt, w') → has_object s w' hash.
Proof.
  pose proof (object_path_not_tmp s hash hash) as Hne.
  unfold Put, has_object. intros H.
  destruct (os_Stat _ w) as [[] w1] eqn:E1; apply os_Stat_spec in E1 as [E1 Hs]; simplify_eq.
  { rewrite E1. apply Hs. by destruct a. }
  destruct (os_WriteFile _ _ w1) as [[] w2]; [|done].
  case_decide as Hh; [|by destruct (os_Remove _ w2)].
  destruct (os_Rename _ _ w2) as [r3 w3] eqn:E3. destruct (os_Remove _ w3) as [r4 w4] eqn:E4.
  simplify_eq. apply os_Rename_spec in E3 as [(_ & c & _ & E3) | (? & ? & _)]; [|done].
  apply os_Remove_spec in E4 as [E4|E4]; rewrite E4, E3; simplify_map_eq; eauto.
Qed.

(** When nothing fails, storing data under its own hash succeeds, consumes no
    outcome, and keeps everything but the object. *)
Lemma Put_quiet s data w :
  os_io w = [] →
  ∃ w', Put s (Sum256 data) data w = (Ok tt, w') ∧ os_io w' = [].
Proof.
  intros Hio. unfold Put, os_Stat. rewrite os_next_quiet by done.
  destruct (os_files w !! _) as [d|]; [by eauto|].
  unfold os_WriteFile. rewrite os_next_quiet, decide_True by done.
  unfold os_Rename, os_Remove. simpl. unfold os_next. simpl. rewrite Hio. simpl.
  rewrite lookup_insert_eq. simpl. rewrite Hio.
  destruct (_ !! _); simpl; eauto.
Qed.

(** Reading an object gives content that hashes to the name asked for. *)
Lemma Get_spec s h w d w' :
  Get s h w = (Ok d, w') → os_files w !! object_path s h = Some d ∧ os_files w' = os_files w.
Proof.
  unfold Get, GetFile, mbind, stM_bind. intros H.
  destruct (os_Open _ w) as [[] w1] eqn:E1; apply os_Open_spec in E1 as [E1 Ho]; [|done].
  apply io_ReadAll_spec in H as [E2 Hd]. rewrite (Hd _ eq_refl). split; [by apply Ho|congruence].
Qed.

Lemma Get_files s h w r w' : Get s h w = (r, w') → os_files w' = os_files w.
Proof.
  unfold Get, GetFile, mbind, stM_bind. intros H.
  destruct (os_Open _ w) as [[] w1] eqn:E1; apply os_Open_spec in E1 as [E1 Ho]; [|by simplify_eq].
  apply io_ReadAll_spec in H as [E2 Hd]. congruence.
Qed.

Lemma Get_quiet s h w d :
  os_io w = [] → os_files w !! object_path s h = Some d → Get s h w = (Ok d, w).
Proof.
  intros Hio Hd. unfold Get, GetFile, mbind, stM_bind, os_Open, io_ReadAll.
  rewrite os_next_quiet, Hd by done. by rewrite os_next_quiet.
Qed.

Lemma cas_inv_files s w w' : os_files w' = os_files w → cas_inv s w → cas_inv s w'.
Proof. unfold cas_inv. by intros ->. Qed.

(** ** The store's contract *)

(** C10. Whatever data is offered and whichever I/O calls fail, [Put] keeps the
    store sound and loses no object; data that does not hash to the name is
    refused and leaves every object as it was. *)
Theorem Put_safe s hash data w r w' :
  Put s hash data w = (r, w') →
  (cas_inv s w → cas_inv s w')
  ∧ (∀ h, has_object s w h → has_object s w' h)
  ∧ (r = Ok tt → has_object s w' hash)
  ∧ (Sum256 data ≠ hash →
       (∀ h, os_files w' !! object_path s h = os_files w !! object_path s h)
       ∧ (¬ has_object s w hash → is_ok r = false)).
Proof.
  intros H. split_and!; [by eapply Put_inv|intros h; by eapply Put_keeps| |].
  - intros ->. by eapply Put_ok.
  - intros Hne. split; [intros h; by eapply Put_mismatch_objects|by eapply Put_mismatch_err].
Qed.

(** Without I/O failures, storing data under its hash and reading that hash
    back gives data with that hash, and the very data if it was not there
    before. *)
Theorem Put_Get s data w :
  os_io w = [] → cas_inv s w →
  ∃ w' d, Put s (Sum256 data) data w = (Ok tt, w') ∧ Get s (Sum256 data) w' = (Ok d, w')
    ∧ Sum256 d = Sum256 data ∧ (¬ has_object s w (Sum256 data) → d = data).
Proof.
  intros Hio Hinv. destruct (Put_quiet s data w Hio) as (w' & EP & Hio').
  destruct (Put_ok _ _ _ _ _ EP) as [d Hd]. exists w', d.
  split_and!; [done|by apply Get_quiet|by apply (Put_inv _ _ _ _ _ _ EP Hinv)|].
  intros Hno. apply Put_files in EP as [_ [Ho|[Ho _]]]; rewrite Ho in Hd; [|by simplify_eq].
  destruct Hno. by exists d.
Qed.

Lemma Put_safe_witness :
  cas_inv (MkCAS "/d") (Put (MkCAS "/d") zero32 [] (Os ∅ [IoOk; IoPartial 0])).2.
Proof.
  destruct (Put (MkCAS "/d") zero32 [] (Os ∅ [IoOk; IoPartial 0])) as [r w'] eqn:E.
  apply (proj1 (Put_safe _ _ _ _ _ _ E)). intros h d Hd. discriminate Hd.
Defined.

Lemma Put_Get_witness :
  ∃ w' d, Put (MkCAS "/d") (Sum256 [x00]) [x00] (Os ∅ []) = (Ok tt, w')
    ∧ Get (MkCAS "/d") (Sum256 [x00]) w' = (Ok d, w')
    ∧ Sum256 d = Sum256 [x00] ∧ (¬ has_object (MkCAS "/d") (Os ∅ []) (Sum256 [x00]) → d = [x00]).
Proof. apply Put_Get; [reflexivity|]. intros h d Hd. discriminate Hd. Defined.

End Cas.

#[export] Hint Resolve Cas.Put_inv Cas.Put_keeps Cas.Put_all_objects : nusync.
