(* ===== verification/CasRace.v ===== *)
(** * Concurrent calls of [Put] for one object ([internal/store/cas.go])

    Nothing in the store excludes two goroutines that put the same hash at the
    same time: two syncs can share a chunk, and a sync can run beside a local
    change.  Both then use the same temporary file.  This file runs any number
    of calls with their system calls interleaved, on the level where the
    difference shows: names point to inodes, a descriptor keeps writing to the
    inode it was opened on, at its own offset, and renaming moves the name only.
    No system call fails here except for a missing name. *)

From Stdlib Require Import Strings.Byte.
From S2P Require Import Prelude GoBytes Sha256 Path Fs Cas.

Module CasRace.

(** ** The files of one object *)

Record files := MkFiles {
  inodes : list (list byte);
  tmp : option nat;
  obj : option nat;
}.

Definition content (f : files) (name : option nat) : option (list byte) :=
  ino ← name; inodes f !! ino.

(** ** Calls *)

(** Where a call is; [data] is what it was given. *)
Inductive pc :=
  | Stat (data : list byte)
  | Open (data : list byte)
  | Writing (data : list byte) (ino off : nat)
  | Check (data : list byte)
  | Rename (data : list byte)
  | Remove (r : result unit)              (** the deferred call *)
  | Returned (r : result unit).

Section calls.
Variable hash : array32.

(** One system call of one goroutine.  A write may be cut short; [WriteFile]
    then goes on with the rest. *)
Inductive pstep : files → pc → files → pc → Prop :=
  | step_hit f data : obj f ≠ None → pstep f (Stat data) f (Returned (Ok tt))
  | step_miss f data : obj f = None → pstep f (Stat data) f (Open data)
  | step_create l o data :
      pstep (MkFiles l None o) (Open data) (MkFiles (l ++ [[]]) (Some (length l)) o) (Writing data (length l) 0)
  | step_truncate l ino o data :
      pstep (MkFiles l (Some ino) o) (Open data) (MkFiles (<[ino := []]> l) (Some ino) o) (Writing data ino 0)
  | step_write l t o data ino off k c :
      l !! ino = Some c → 0 < k → off + k ≤ length data →
      pstep (MkFiles l t o) (Writing data ino off)
        (MkFiles (<[ino := splice off (take k (drop off data)) c]> l) t o) (Writing data ino (off + k))
  | step_close f data ino : pstep f (Writing data ino (length data)) f (Check data)
  | step_match f data : Sum256 data = hash → pstep f (Check data) f (Rename data)
  | step_mismatch f data :
      Sum256 data ≠ hash →
      pstep f (Check data) f (Remove (Err (EMsg "hash mismatch: expected %x, got %x")))
  | step_rename l ino o data :
      pstep (MkFiles l (Some ino) o) (Rename data) (MkFiles l None (Some ino)) (Remove (Ok tt))
  | step_rename_gone l o data :
      pstep (MkFiles l None o) (Rename data) (MkFiles l None o) (Remove (Err (EOS "rename" "tmp")))
  | step_remove l t o r : pstep (MkFiles l t o) (Remove r) (MkFiles l None o) (Returned r).

(** ** Any number of them *)

Record conf := Conf { c_files : files; c_calls : list pc }.

(** The data that callers may come with. *)
Variable given : list byte → Prop.

Inductive step : conf → conf → Prop :=
  | step_call f l data : given data → step (Conf f l) (Conf f (l ++ [Stat data]))
  | step_some f l i p f' p' :
      l !! i = Some p → pstep f p f' p' → step (Conf f l) (Conf f' (<[i := p']> l)).

Definition start : conf := Conf (MkFiles [] None None) [].

Definition returned (p : pc) : Prop := ∃ r, p = Returned r.

End calls.

(** ** What a write changes *)

Lemma splice_lookup off data c i :
  data ≠ [] →
  splice off data c !! i =
    if decide (i < off) then (c ++ zeros (off - length c)) !! i
    else if decide (i < off + length data) then data !! (i - off) else c !! i.
Proof.
  intros Hne. unfold splice. destruct data as [|b data]; [done|]. set (d := b :: data).
  assert (length (take off (c ++ zeros (off - length c))) = off) as Hl
    by (rewrite length_take, length_app, length_zeros; lia).
  case_decide as H1; [|case_decide as H2].
  - rewrite lookup_app_l by lia. by apply lookup_take_lt.
  - rewrite lookup_app_r by lia. rewrite lookup_app_l by lia. by rewrite Hl.
  - rewrite lookup_app_r by lia. rewrite lookup_app_r by lia. rewrite lookup_drop, Hl. f_equal. lia.
Qed.

Lemma splice_length off data c :
  data ≠ [] → length (splice off data c) = max (length c) (off + length data).
Proof.
  intros Hne. unfold splice. destruct data as [|b data]; [done|]. set (d := b :: data).
  rewrite !length_app, length_take, length_app, length_zeros, length_drop. lia.
Qed.

(** ** Callers that agree *)

Section agree.
Variables (hash : array32) (data : list byte).
Hypothesis Hdata : Sum256 data = hash.

(** A call that works on [data]. *)
Definition honest (f : files) (p : pc) : Prop :=
  match p with
  | Stat d | Open d | Check d | Rename d => d = data
  | Writing d ino off => d = data ∧ off ≤ length data ∧ ino < length (inodes f)
  | Remove r | Returned r => r = Ok tt → obj f ≠ None
  end.

(** Each byte of an inode is right, or a descriptor open on it will still write
    it. *)
Definition settling (calls : list pc) (ino : nat) (c : list byte) : Prop :=
  length c ≤ length data ∧
  ∀ i, i < length data → c !! i = data !! i ∨ ∃ off, Writing data ino off ∈ calls ∧ off ≤ i.

Record inv (c : conf) : Prop := {
  inv_honest : Forall (honest (c_files c)) (c_calls c);
  inv_tmp ino : tmp (c_files c) = Some ino → ino < length (inodes (c_files c));
  inv_obj ino : obj (c_files c) = Some ino → ino < length (inodes (c_files c));
  inv_settling ino ct : inodes (c_files c) !! ino = Some ct → settling (c_calls c) ino ct;
}.

Lemma settling_mono calls calls' ino c :
  (∀ off, off < length data → Writing data ino off ∈ calls → Writing data ino off ∈ calls') →
  settling calls ino c → settling calls' ino c.
Proof using.
  intros Hsub [Hl H]. split; [done|]. intros i Hi. destruct (H i Hi) as [?|(off & Hin & Hle)]; [by left|].
  right. exists off. split; [|done]. apply Hsub; [lia|done].
Qed.

(** Replacing a call keeps the other descriptors. *)
Lemma writing_insert (l : list pc) i p p' ino off :
  l !! i = Some p → p ≠ Writing data ino off →
  Writing data ino off ∈ l → Writing data ino off ∈ <[i := p']> l.
Proof using.
  intros Hi Hne [j Hj]%list_elem_of_lookup. apply list_elem_of_lookup. exists j.
  rewrite list_lookup_insert_ne; [done|]. intros ->. by simplify_eq.
Qed.

Lemma writing_inserted (l : list pc) i p p' : l !! i = Some p → p' ∈ <[i := p']> l.
Proof using.
  intros Hi. apply list_elem_of_lookup. exists i. apply list_lookup_insert_eq. by eapply lookup_lt_Some.
Qed.

(** The names and inodes of a state only grow. *)
Lemma honest_grow f f' p :
  length (inodes f) ≤ length (inodes f') → (obj f ≠ None → obj f' ≠ None) → honest f p → honest f' p.
Proof using. intros Hl Ho. destruct p; cbn [honest]; try done; [intros (?&?&?); split_and!; [done..|lia]|auto..]. Qed.

(** A fresh descriptor will write everything. *)
Lemma settling_fresh calls ino : Writing data ino 0 ∈ calls → settling calls ino [].
Proof using. intros H. split; [simpl; lia|]. intros i Hi. right. exists 0. split; [done|lia]. Qed.

(** A descriptor that writes some more. *)
Lemma settling_write l i ino off k c :
  l !! i = Some (Writing data ino off) → 0 < k → off + k ≤ length data → settling l ino c →
  settling (<[i := Writing data ino (off + k)]> l) ino (splice off (take k (drop off data)) c).
Proof using.
  intros Hi Hk Hle [Hl H].
  assert (length (take k (drop off data)) = k) as Hlen by (rewrite length_take, length_drop; lia).
  assert (take k (drop off data) ≠ []) as Hne by (intros E; rewrite E in Hlen; simpl in Hlen; lia).
  split; [rewrite splice_length, Hlen by done; lia|]. intros j Hj. rewrite splice_lookup, Hlen by done.
  assert (c !! j = data !! j ∨ (∃ off', Writing data ino off' ∈ <[i := Writing data ino (off + k)]> l ∧ off' ≤ j)
    ∨ off ≤ j) as Hcase.
  { destruct (H j Hj) as [?|(off' & Hin & Hle')]; [by left|right].
    destruct (decide (off' = off)) as [->|Hoff]; [by right|left]. exists off'. split; [|done].
    eapply writing_insert; [done| |done]. by intros [=]. }
  case_decide as H1; [|case_decide as H2].
  - destruct Hcase as [E|[?|?]]; [left|by right|lia]. rewrite lookup_app_l; [done|].
    apply lookup_lt_is_Some. rewrite E. by apply lookup_lt_is_Some.
  - left. rewrite lookup_take_lt, lookup_drop by lia. f_equal. lia.
  - destruct Hcase as [E|[?|?]]; [by left|by right|right]. exists (off + k). split; [|lia].
    by eapply writing_inserted.
Qed.

Lemma start_inv : inv start.
Proof using. by split. Qed.

(** When the inodes stay and the call is not in the middle of writing. *)
Lemma keep_inv f l i p f' p' :
  inv (Conf f l) → l !! i = Some p → (∀ ino off, p = Writing data ino off → length data ≤ off) →
  inodes f' = inodes f → (obj f ≠ None → obj f' ≠ None) → honest f' p' →
  (∀ ino, tmp f' = Some ino ∨ obj f' = Some ino → tmp f = Some ino ∨ obj f = Some ino) →
  inv (Conf f' (<[i := p']> l)).
Proof using.
  intros [Hh Ht Ho Hs] Hi Hp Hino Hobj Hp' Hn. cbn [c_files c_calls] in *. constructor; cbn [c_files c_calls].
  - apply Forall_insert; [|done]. eapply Forall_impl; [done|]. intros q. apply honest_grow; [by rewrite Hino|done].
  - intros ino E. rewrite Hino. destruct (Hn ino (or_introl E)); auto.
  - intros ino E. rewrite Hino. destruct (Hn ino (or_intror E)); auto.
  - intros ino ct. rewrite Hino. intros Hct. eapply settling_mono; [|by apply Hs].
    intros off Hlt Hin. eapply writing_insert; [done| |done]. intros E. specialize (Hp _ _ E). lia.
Qed.

Lemma race_step_inv c c' : step hash (λ d, d = data) c c' → inv c → inv c'.
Proof using Hdata.
  intros [f l d ->|f l i p f' p' Hi Hp] Hinv.
  - destruct Hinv as [Hh Ht Ho Hs]. constructor; cbn [c_files c_calls] in *; [|done|done|].
    + apply Forall_app. split; [done|]. by apply Forall_singleton.
    + intros ino ct Hct. eapply settling_mono; [|by apply Hs]. intros off _ Hin. apply elem_of_app. by left.
  - pose proof (Forall_lookup_1 _ _ _ _ (inv_honest _ Hinv) Hi) as Hhp. cbn [c_files] in Hhp.
    destruct Hp as [f d Ho|f d Ho|ls o d|ls ino o d|ls t o d ino off k c0 Hc Hk Hle|f d ino|f d Hm|f d Hm
      |ls ino o d|ls o d|ls t o r]; cbn [honest] in Hhp.
    3:{ subst d. destruct Hinv as [Hh Ht Ho Hs]. constructor; cbn [c_files c_calls inodes tmp obj] in *.
        - apply Forall_insert; [|cbn [honest inodes]; rewrite length_app; cbn [length]; split_and!; [done|lia|lia]]. eapply Forall_impl; [done|].
          intros q. apply honest_grow; [|done]. cbn [inodes]. rewrite length_app. lia.
        - intros ino [= <-]. rewrite length_app. simpl. lia.
        - intros ino E. rewrite length_app. specialize (Ho _ E). lia.
        - intros ino ct. rewrite lookup_snoc_Some. intros [[_ Hct]|[-> <-]].
          + eapply settling_mono; [|by apply Hs]. intros off _ Hin. by eapply writing_insert.
          + apply settling_fresh. by eapply writing_inserted. }
    3:{ subst d. destruct Hinv as [Hh Ht Ho Hs]. constructor; cbn [c_files c_calls inodes tmp obj] in *.
        - apply Forall_insert; [|cbn [honest inodes]; rewrite length_insert; split_and!; [done|lia|by apply Ht]].
          eapply Forall_impl; [done|]. intros q. apply honest_grow; [|done]. cbn [inodes]. by rewrite length_insert.
        - intros j. rewrite length_insert. auto.
        - intros j. rewrite length_insert. auto.
        - intros j ct. rewrite list_lookup_insert_Some. intros [(-> & <- & _)|[_ Hct]].
          + apply settling_fresh. by eapply writing_inserted.
          + eapply settling_mono; [|by apply Hs]. intros off _ Hin. by eapply writing_insert. }
    3:{ destruct Hhp as (-> & Hoff & Hino). destruct Hinv as [Hh Ht Ho Hs].
        constructor; cbn [c_files c_calls inodes tmp obj] in *.
        - apply Forall_insert; [|cbn [honest inodes]; rewrite length_insert; split_and!; [done|lia|done]].
          eapply Forall_impl; [done|]. intros q. apply honest_grow; [|done]. cbn [inodes]. by rewrite length_insert.
        - intros j. rewrite length_insert. auto.
        - intros j. rewrite length_insert. auto.
        - intros j ct. rewrite list_lookup_insert_Some. intros [(-> & <- & _)|[Hne Hct]].
          + apply settling_write; auto.
          + eapply settling_mono; [|by apply Hs]. intros off' _ Hin. eapply writing_insert; [done| |done].
            by intros [= ->]. }
    all: eapply keep_inv; [done|done|..]; cbn [honest inodes tmp obj]; try done; try naive_solver.
    all: try (destruct Hhp as (-> & _ & _); intros ? ? [= _ <-]; done).
Qed.

Lemma race_run_inv c : rtc (step hash (λ d, d = data)) start c → inv c.
Proof using Hdata.
  intros Hrun. assert (∀ c0, rtc (step hash (λ d, d = data)) c0 c → inv c0 → inv c) as H.
  { intros c0. induction 1 as [|? ? ? Hs _ IH]; [done|]. intros. by eapply IH, race_step_inv. }
  by apply (H start), start_inv.
Qed.

(** C12. Calls of [Put] that carry the right data do no harm to one another,
    however their system calls are interleaved: once no call is writing, the
    object, if it is there, has that data, and it is there as soon as one call
    has returned without an error. *)
Theorem puts_agree c :
  rtc (step hash (λ d, d = data)) start c →
  ((∀ d ino off, Writing d ino off ∉ c_calls c) → ∀ ct, content (c_files c) (obj (c_files c)) = Some ct → ct = data)
  ∧ (Returned (Ok tt) ∈ c_calls c → ∃ ct, content (c_files c) (obj (c_files c)) = Some ct).
Proof using Hdata.
  intros [Hh Ht Ho Hs]%race_run_inv. unfold content. split.
  - intros Hno ct Hct. destruct (obj (c_files c)) as [ino|]; [|done]. cbn in Hct.
    destruct (Hs _ _ Hct) as [Hl H]. apply list_eq. intros i.
    destruct (decide (i < length data)) as [Hi|Hi].
    + destruct (H i Hi) as [?|(off & Hin & _)]; [done|]. by destruct (Hno _ _ _ Hin).
    + rewrite !lookup_ge_None_2 by lia. done.
  - intros Hin. rewrite Forall_forall in Hh. specialize (Hh _ Hin eq_refl).
    destruct (obj (c_files c)) as [ino|]; [|done]. by apply lookup_lt_is_Some, Ho.
Qed.

End agree.
(** ** One call by itself *)

Section alone.
Variables (hash : array32) (data : list byte) (f0 : files).
Hypothesis Htmp : ∀ ino, tmp f0 = Some ino → ino < length (inodes f0).

Definition alone : files * pc → files * pc → Prop := λ '(f, p) '(f', p'), pstep hash f p f' p'.

Lemma alone_l f p f' p' c : pstep hash f p f' p' → rtc alone (f', p') c → rtc alone (f, p) c.
Proof using. intros H1 H2. by eapply rtc_l; [|exact H2]. Qed.

(** The ways a call ends. *)
Definition tried (f : files) (r : result unit) : Prop :=
  (obj f0 = None ∧ Sum256 data = hash ∧ content f (obj f) = Some data ∧ r = Ok tt)
  ∨ (obj f0 = None ∧ Sum256 data ≠ hash ∧ obj f = None ∧ is_ok r = false).

Definition so_far (f : files) (p : pc) : Prop :=
  match p with
  | Stat d => f = f0 ∧ d = data
  | Open d => f = f0 ∧ d = data ∧ obj f0 = None
  | Writing d ino off =>
      d = data ∧ obj f0 = None ∧ obj f = None ∧ tmp f = Some ino ∧ inodes f !! ino = Some (take off data)
  | Check d => d = data ∧ obj f0 = None ∧ obj f = None ∧ content f (tmp f) = Some data
  | Rename d => d = data ∧ obj f0 = None ∧ content f (tmp f) = Some data ∧ Sum256 data = hash
  | Remove r => tried f r
  | Returned r => (obj f0 ≠ None ∧ f = f0 ∧ r = Ok tt) ∨ tried f r
  end.

Lemma alone_step f p f' p' : so_far f p → pstep hash f p f' p' → so_far f' p'.
Proof using Htmp.
  intros H Hp. destruct Hp as [f d Ho|f d Ho|ls o d|ls ino o d|ls t o d ino off k c Hc Hk Hle|f d ino|f d Hm|f d Hm
    |ls ino o d|ls o d|ls t o r]; cbn [so_far] in *.
  - destruct H as [-> _]. by left.
  - by destruct H as [-> ->].
  - destruct H as (E & -> & Ho). rewrite <- E in Ho. cbn in *. split_and!; [done|by rewrite <- E|done..|].
    by rewrite lookup_app_r, Nat.sub_diag by lia.
  - destruct H as (E & -> & Ho). rewrite <- E in Ho. cbn in *. split_and!; [done|by rewrite <- E|done..|].
    apply list_lookup_insert_eq. rewrite <- E in Htmp. by apply Htmp.
  - cbn [inodes tmp obj] in *. destruct H as (-> & Ho & Ho' & Ht & Hin). split_and!; [done..|].
    rewrite list_lookup_insert_eq by (by eapply lookup_lt_Some). f_equal. rewrite Hin in Hc. injection Hc as <-.
    pose proof (splice_at_end (take off data) (take k (drop off data)) []) as E.
    rewrite length_take, Nat.min_l, app_nil_r in E by lia. rewrite E, drop_nil, app_nil_r. apply take_take_drop.
  - destruct H as (-> & Ho & Ho' & Ht & Hin). split_and!; [done..|]. unfold content. rewrite Ht. cbn.
    by rewrite Hin, firstn_all.
  - naive_solver.
  - destruct H as (-> & Ho & Ho' & _). by right.
  - destruct H as (-> & Ho & Hc & Hm). by left.
  - by destruct H as (_ & _ & ? & _).
  - by right.
Qed.

(** C34. A call that is not disturbed does what the sequential [Put] does: it
    succeeds exactly when that does and leaves the same object. *)
Theorem put_alone s w f r :
  rtc alone (f0, Stat data) (f, Returned r) → (∀ ino, obj f0 = Some ino → ino < length (inodes f0)) →
  os_io w = [] → os_files w !! Cas.object_path s hash = content f0 (obj f0) →
  let '(r', w') := Cas.Put s hash data w in
  is_ok r = is_ok r' ∧ content f (obj f) = os_files w' !! Cas.object_path s hash.
Proof using Htmp.
  intros Hrun Hobj Hio Hw.
  assert (so_far f (Returned r)) as H.
  { remember (f0, Stat data) as c0 eqn:E0. remember (f, Returned r) as c1 eqn:E1.
    assert (so_far c0.1 c0.2) as H by (by subst c0). clear E0.
    enough (so_far c1.1 c1.2) as H1 by (by subst c1). clear E1.
    induction Hrun as [c|[f1 p1] [f2 p2] c Hs _ IH]; [done|]. apply IH. by eapply alone_step. }
  destruct (Cas.Put s hash data w) as [r' w'] eqn:EP.
  assert (obj f0 = None → ¬ Cas.has_object s w hash) as Hno.
  { intros E [d Hd]. rewrite Hw, E in Hd. done. }
  destruct H as [(H1 & -> & ->)|[(H1 & H2 & H3 & ->)|(H1 & H2 & H3 & H4)]].
  - destruct (obj f0) as [ino|] eqn:E; [|done].
    destruct (lookup_lt_is_Some_2 (inodes f0) ino) as [c Hc]; [by apply Hobj|].
    unfold content in *. cbn [mbind option_bind] in *. unfold Cas.Put, os_Stat in EP.
    rewrite os_next_quiet, Hw, Hc in EP by done. simplify_eq. by rewrite Hw.
  - destruct (Cas.Put_quiet s data w Hio) as (w1 & E & _). rewrite H2, EP in E. injection E as -> ->.
    split; [done|]. rewrite H3. destruct (Cas.Put_ok _ _ _ _ _ EP) as [d Hd].
    destruct (Cas.Put_files _ _ _ _ _ _ EP) as [_ [Ho|[Ho _]]]; [|done].
    destruct (Hno H1). unfold Cas.has_object. by rewrite <- Ho, Hd.
  - rewrite H4, (Cas.Put_mismatch_err _ _ _ _ _ _ EP) by auto. split; [done|].
    rewrite (Cas.Put_mismatch_objects _ _ _ _ _ _ _ EP), Hw by done. unfold content. by rewrite H1, H3.
Qed.

End alone.

(** ** Every call returns *)

(** How many system calls are left at most. *)
Definition remaining (p : pc) : nat :=
  match p with
  | Stat data => length data + 6
  | Open data => length data + 5
  | Writing data _ off => (length data - off) + 4
  | Check _ => 3
  | Rename _ => 2
  | Remove _ => 1
  | Returned _ => 0
  end.

Lemma remaining_step hash f p f' p' : pstep hash f p f' p' → remaining p' < remaining p.
Proof. destruct 1; cbn [remaining]; lia. Qed.

(** Descriptors and the temporary name point to inodes. *)
Definition opened (f : files) (p : pc) : Prop :=
  match p with Writing data ino off => ino < length (inodes f) ∧ off ≤ length data | _ => True end.

Definition in_range (c : conf) : Prop :=
  Forall (opened (c_files c)) (c_calls c) ∧ ∀ ino, tmp (c_files c) = Some ino → ino < length (inodes (c_files c)).

Lemma pstep_range hash f p f' p' :
  pstep hash f p f' p' → opened f p → (∀ ino, tmp f = Some ino → ino < length (inodes f)) →
  opened f' p' ∧ length (inodes f) ≤ length (inodes f') ∧ ∀ ino, tmp f' = Some ino → ino < length (inodes f').
Proof.
  intros Hp Ho Ht.
  destruct Hp; cbn [opened inodes tmp] in *; rewrite ?length_insert, ?length_app; cbn [length];
    split_and!; try done; try lia; try (by apply Ht); intros ? [= <-]; lia.
Qed.

Lemma step_range hash given c c' : step hash given c c' → in_range c → in_range c'.
Proof.
  intros [f l d Hd|f l i p f' p' Hi Hp] [Ho Ht]; cbn [c_files c_calls] in *.
  - split; [|done]. apply Forall_app. split; [done|]. by apply Forall_singleton.
  - destruct (pstep_range _ _ _ _ _ Hp (Forall_lookup_1 _ _ _ _ Ho Hi) Ht) as (H1 & H2 & H3).
    split; [|done]. apply Forall_insert; [|done]. eapply Forall_impl; [done|].
    intros q Hq. destruct q; try done. cbn in *. lia.
Qed.

Lemma progress hash f p : opened f p → (∃ r, p = Returned r) ∨ ∃ f' p', pstep hash f p f' p'.
Proof.
  destruct f as [l t o]. destruct p as [d|d|d ino off|d|d|r|r]; cbn [opened inodes]; intros Ho.
  - right. destruct o; [eexists _, _; by apply step_hit|eexists _, _; by apply step_miss].
  - right. destruct t; eexists _, _; constructor.
  - right. destruct Ho as [[c Hc]%lookup_lt_is_Some Hoff]. destruct (decide (off = length d)) as [->|Hne].
    + eexists _, _. apply step_close.
    + eexists _, _. apply (step_write _ _ _ _ _ _ _ (length d - off) c); [done|lia|lia].
  - right. destruct (decide (Sum256 d = hash)); eexists _, _; by constructor.
  - right. destruct t; eexists _, _; constructor.
  - right. eexists _, _. constructor.
  - left. eauto.
Qed.


(** ** Callers that do not agree *)

Lemma splice_whole d : d ≠ [] → splice 0 (take (length d) (drop 0 d)) [] = d.
Proof.
  intros Hne. rewrite drop_0, firstn_all. pose proof (splice_at_end [] d []) as H. cbn [length app] in H.
  by rewrite H, drop_nil, app_nil_r.
Qed.

Ltac call i s := eapply rtc_l; [eapply (step_some _ _ _ _ i); [reflexivity|s]|cbn [insert list_insert app]].

(** C38. The check of the hash does not protect the object from a second caller:
    a call with the right data and a call with other data for the same hash,
    whose system calls interleave, can both return, the first without an error,
    and leave the other data under that hash. *)
Theorem race_corrupts good bad :
  good ≠ [] → bad ≠ [] → Sum256 bad ≠ Sum256 good →
  ∃ c, rtc (step (Sum256 good) (λ d, d = good ∨ d = bad)) start c
    ∧ c_calls c = [Returned (Ok tt); Returned (Err (EMsg "hash mismatch: expected %x, got %x"))]
    ∧ content (c_files c) (obj (c_files c)) = Some bad.
Proof.
  intros Hg Hb Hne. eexists. split.
  - unfold start.
    eapply rtc_l; [apply (step_call _ _ _ _ good); by left|].
    eapply rtc_l; [apply (step_call _ _ _ _ bad); by right|cbn [app]].
    call 0 ltac:(by apply step_miss). call 1 ltac:(by apply step_miss).
    call 0 ltac:(apply step_create). cbn [length app].
    call 0 ltac:(apply (step_write _ _ _ _ _ _ _ (length good) []); [done|by destruct good; simpl; [|lia]|done]).
    rewrite splice_whole by done. cbn [insert list_insert].
    call 0 ltac:(apply step_close). call 0 ltac:(by apply step_match).
    call 1 ltac:(apply step_truncate). cbn [insert list_insert].
    call 1 ltac:(apply (step_write _ _ _ _ _ _ _ (length bad) []); [done|by destruct bad; simpl; [|lia]|done]).
    rewrite splice_whole by done. cbn [insert list_insert].
    call 1 ltac:(apply step_close). call 1 ltac:(by apply step_mismatch).
    call 0 ltac:(apply step_rename). call 0 ltac:(apply step_remove). call 1 ltac:(apply step_remove).
    apply rtc_refl.
  - done.
Qed.

End CasRace.

(** ** Two callers with the same byte *)

Module CasRaceExamples.
Import CasRace.

Definition ex_data : list byte := [x01].

(** The second caller truncates the file after the first has written it, and
    finds the name gone when it wants to rename. *)
Definition ex_end : conf :=
  Conf (MkFiles [ex_data] None (Some 0)) [Returned (Ok tt); Returned (Err (EOS "rename" "tmp"))].

Lemma ex_race_run : rtc (step (Sum256 ex_data) (λ d, d = ex_data)) start ex_end.
Proof.
  unfold start.
  do 2 (eapply rtc_l; [by apply (step_call _ _ _ _ ex_data)|]). cbn [app].
  call 0 ltac:(by apply step_miss). call 1 ltac:(by apply step_miss).
  call 0 ltac:(apply step_create). cbn [length app].
  call 0 ltac:(apply (step_write _ _ _ _ _ _ _ 1 []); [done|lia|done]).
  call 0 ltac:(apply step_close). call 0 ltac:(by apply step_match).
  call 1 ltac:(apply step_truncate). call 0 ltac:(apply step_rename).
  call 1 ltac:(apply (step_write _ _ _ _ _ _ _ 1 []); [done|lia|done]).
  call 0 ltac:(apply step_remove). call 1 ltac:(apply step_close). call 1 ltac:(by apply step_match).
  call 1 ltac:(apply step_rename_gone). call 1 ltac:(apply step_remove). apply rtc_refl.
Qed.

Lemma puts_agree_witness : content (c_files ex_end) (obj (c_files ex_end)) = Some ex_data.
Proof.
  destruct (puts_agree (Sum256 ex_data) ex_data eq_refl ex_end ex_race_run) as [H1 H2].
  destruct H2 as [ct Hct]; [apply list_elem_of_here|]. rewrite Hct. f_equal. apply H1; [|exact Hct].
  intros d ino off [H|[H|H%elem_of_nil]%elem_of_cons]%elem_of_cons; [discriminate H|discriminate H|exact H].
Defined.

Lemma put_alone_witness :
  let '(r', w') := Cas.Put (Cas.MkCAS "/d") (Sum256 ex_data) ex_data (Os ∅ []) in
  is_ok (Ok tt) = is_ok r' ∧ Some ex_data = os_files w' !! Cas.object_path (Cas.MkCAS "/d") (Sum256 ex_data).
Proof.
  apply (put_alone (Sum256 ex_data) ex_data (MkFiles [] None None) ltac:(discriminate)
    (Cas.MkCAS "/d") (Os ∅ []) (MkFiles [ex_data] None (Some 0)) (Ok tt)); [|discriminate|reflexivity|reflexivity].
  eapply alone_l; [by apply step_miss|]. eapply alone_l; [apply step_create|]. cbn [length app].
  eapply alone_l; [apply (step_write _ _ _ _ _ _ _ 1 []); [reflexivity|lia|reflexivity]|].
  eapply alone_l; [apply step_close|]. eapply alone_l; [by apply step_match|].
  eapply alone_l; [apply step_rename|]. eapply alone_l; [apply step_remove|]. apply rtc_refl.
Defined.


Lemma race_corrupts_witness :
  ∃ c, rtc (step (Sum256 [x01]) (λ d, d = [x01] ∨ d = [x02])) start c
    ∧ c_calls c = [Returned (Ok tt); Returned (Err (EMsg "hash mismatch: expected %x, got %x"))]
    ∧ content (c_files c) (obj (c_files c)) = Some [x02].
Proof.
  apply (race_corrupts [x01] [x02]); [discriminate|discriminate|].
  intros E. apply (f_equal a32_bytes) in E. vm_compute in E. discriminate E.
Defined.

End CasRaceExamples.
