(* ===== verification/Auth.v ===== *)
(** * Request authentication ([internal/auth])

    Every request of the data plane ([hmac.go]) and of the control plane
    ([grpc_interceptor.go]) carries a timestamp and an HMAC over its method,
    its target and that timestamp under a secret all nodes share.  The module
    has base64, the two signers and the two verifiers.  Texts are byte lists;
    [now] is the wall clock in nanoseconds. *)

From Stdlib Require Import Strings.Byte.
From S2P Require Import Prelude GoBytes GoFloat Sha256 Strconv.

Module Auth.

Local Open Scope Z_scope.

(** ** [encoding/base64], standard alphabet with padding *)

Definition b64_alphabet : list byte :=
  bytes_of "ABCDEFGHIJKLMNOPQRSTUVWXYZabcdefghijklmnopqrstuvwxyz0123456789+/".

Definition b64_char (n : Z) : byte := nth (Z.to_nat n) b64_alphabet x00.

Definition b64_value (b : byte) : option Z :=
  '(i, _) ← list_find (λ c, c = b) b64_alphabet; Some (Z.of_nat i).

Definition pad : byte := x3d.

Fixpoint b64_encode (l : list byte) : list byte :=
  match l with
  | [] => []
  | [a] => [b64_char (byte_Z a / 4); b64_char (byte_Z a mod 4 * 16); pad; pad]
  | [a; b] =>
      [b64_char (byte_Z a / 4); b64_char (byte_Z a mod 4 * 16 + byte_Z b / 16);
       b64_char (byte_Z b mod 16 * 4); pad]
  | a :: b :: c :: l =>
      b64_char (byte_Z a / 4) :: b64_char (byte_Z a mod 4 * 16 + byte_Z b / 16)
      :: b64_char (byte_Z b mod 16 * 4 + byte_Z c / 64) :: b64_char (byte_Z c mod 64)
      :: b64_encode l
  end.

(** Four characters at a time; padding only at the very end; bits beyond the
    last byte are not looked at. *)
Fixpoint b64_quanta (l : list byte) : option (list byte) :=
  match l with
  | [] => Some []
  | a :: b :: c :: d :: l =>
      x ← b64_value a;
      y ← b64_value b;
      let b1 := Z_byte (x * 4 + y / 16) in
      if decide (c = pad) then
        if decide (d = pad ∧ l = []) then Some [b1] else None
      else
        z ← b64_value c;
        let b2 := Z_byte (y mod 16 * 16 + z / 4) in
        if decide (d = pad) then if decide (l = []) then Some [b1; b2] else None
        else
          w ← b64_value d;
          rest ← b64_quanta l;
          Some (b1 :: b2 :: Z_byte (z mod 4 * 64 + w) :: rest)
  | _ => None
  end.

(** Line breaks are skipped. *)
Definition b64_decode (l : list byte) : option (list byte) :=
  b64_quanta (filter (λ b, b ≠ x0a ∧ b ≠ x0d) l).

(** ** Shared pieces *)

Definition MaxClockSkew : Z := 30 * Second.

(** [fmt.Sprintf("%s\n%s\n%s", a, b, c)] *)
Definition canonical (a b c : list byte) : list byte := a ++ x0a :: b ++ x0a :: c.

(** [Duration.Abs] *)
Definition duration_Abs (d : Z) : Z := if d =? - 2 ^ 63 then 2 ^ 63 - 1 else Z.abs d.

(** [time.Since(time.Unix(t, 0)).Abs() > 30*time.Second]; [Since] saturates. *)
Definition expired (now t : Z) : bool := MaxClockSkew <? duration_Abs (time_Sub now (t * Second)).

(** [time.Now().Unix()] *)
Definition unix (now : Z) : Z := now / Second.

Definition hmac_prefix : list byte := bytes_of "HMAC ".

(** [strings.HasPrefix] and [strings.TrimPrefix] in one. *)
Fixpoint cut_prefix (p l : list byte) : option (list byte) :=
  match p, l with
  | [], _ => Some l
  | x :: p, y :: l => if decide (x = y) then cut_prefix p l else None
  | _ :: _, [] => None
  end.

(** ** HTTP *)

Record Request := MkRequest {
  rq_Method : list byte;
  rq_URI : list byte;                     (** [req.URL.RequestURI()] *)
  rq_Header : gmap string (list byte);    (** by canonical name, first value *)
}.

Record hmacAuth := MkAuth { secret : list byte; nodeID : list byte }.

Definition NewAuth (secret nodeID : list byte) : hmacAuth := MkAuth secret nodeID.

(** [textproto.CanonicalMIMEHeaderKey] on a valid name: a capital at the start
    and after each hyphen, small letters elsewhere. *)
Definition to_upper (c : Ascii.ascii) : Ascii.ascii :=
  let n := Ascii.nat_of_ascii c in
  if ((97 <=? n) && (n <=? 122))%nat then Ascii.ascii_of_nat (n - 32) else c.

Definition to_lower (c : Ascii.ascii) : Ascii.ascii :=
  let n := Ascii.nat_of_ascii c in
  if ((65 <=? n) && (n <=? 90))%nat then Ascii.ascii_of_nat (n + 32) else c.

Fixpoint canonical_from (upper : bool) (k : string) : string :=
  match k with
  | EmptyString => EmptyString
  | String c k =>
      String (if upper then to_upper c else to_lower c) (canonical_from (Ascii.eqb c (Ascii.ascii_of_nat 45)) k)
  end.

Definition CanonicalHeaderKey (k : string) : string := canonical_from true k.

Definition header_Get (r : Request) (k : string) : list byte :=
  default [] (rq_Header r !! CanonicalHeaderKey k).

Definition header_Set (k : string) (v : list byte) (r : Request) : Request :=
  MkRequest (rq_Method r) (rq_URI r) (<[CanonicalHeaderKey k := v]> (rq_Header r)).

Definition SignHTTP (a : hmacAuth) (now : Z) (req : Request) : Request :=
  let ts := FormatInt (unix now) in
  let text := canonical (rq_Method req) (rq_URI req) ts in
  let sig := b64_encode (hmac_sha256 (secret a) text) in
  let req := header_Set "Authorization" (hmac_prefix ++ sig) req in
  let req := header_Set "X-NuSync-Timestamp" ts req in
  header_Set "X-NuSync-NodeID" (nodeID a) req.

Definition VerifyHTTP (a : hmacAuth) (now : Z) (req : Request) : result unit :=
  match cut_prefix hmac_prefix (header_Get req "Authorization") with
  | None => Err (EMsg "missing or invalid authorization header")
  | Some sigText =>
      match b64_decode sigText with
      | None => Err (EWrap "invalid signature: %w" (EMsg "base64"))
      | Some sig =>
          let ts := header_Get req "X-NuSync-Timestamp" in
          match ParseInt ts with
          | None => Err (EWrap "invalid timestamp: %w" (EMsg "strconv"))
          | Some t =>
              if expired now t
              then Err (EMsg "request timestamp expired or from the future")
              else
                let text := canonical (rq_Method req) (rq_URI req) ts in
                let expected := hmac_sha256 (secret a) text in
                if decide (expected = sig) then Ok tt else Err (EMsg "HMAC signature mismatch")
          end
      end
  end.

(** ** gRPC *)

Definition Metadata := gmap string (list (list byte)).

Definition md_Get (md : Metadata) (k : string) : list (list byte) := default [] (md !! k).

Definition md_Append (k : string) (v : list byte) (md : Metadata) : Metadata :=
  <[k := md_Get md k ++ [v]]> md.

Definition grpc_tag : list byte := bytes_of "GRPC".

(** [UnaryClientInterceptor]: [invoker] makes the call with the extended
    outgoing metadata. *)
Definition UnaryClientInterceptor {Reply} (secret nodeID : list byte) (now : Z) (method : list byte)
    (md : Metadata) (invoker : Metadata → result Reply) : result Reply :=
  let ts := FormatInt (unix now) in
  let sig := b64_encode (hmac_sha256 secret (canonical grpc_tag method ts)) in
  invoker
    (md_Append "x-nusync-nodeid" nodeID
       (md_Append "x-nusync-timestamp" ts
          (md_Append "authorization" (hmac_prefix ++ sig) md))).

(** [fmt.Sscanf(s, "HMAC %s", &v)] on printable ASCII: the letters, at least one
    space, then everything up to the next space; on a mismatch [v] stays nil. *)
Fixpoint skip_spaces (l : list byte) : list byte :=
  match l with b :: l' => if decide (b = x20) then skip_spaces l' else l | [] => [] end.

Fixpoint token (l : list byte) : list byte :=
  match l with b :: l' => if decide (b = x20) then [] else b :: token l' | [] => [] end.

Definition sscanf_hmac (s : list byte) : list byte :=
  match cut_prefix hmac_prefix s with
  | Some rest => token (skip_spaces rest)
  | None => []
  end.

(** [status.Error] *)
Definition Unauthenticated (msg : string) : error :=
  EWrap "rpc error: code = Unauthenticated desc = %w" (EMsg msg).
Definition PermissionDenied (msg : string) : error :=
  EWrap "rpc error: code = PermissionDenied desc = %w" (EMsg msg).

(** [UnaryServerInterceptor]: [handler] answers the call; [md] is [None] when
    the context carries no metadata. *)
Definition UnaryServerInterceptor {Reply} (secret : list byte) (now : Z) (fullMethod : list byte)
    (md : option Metadata) (handler : result Reply) : result Reply :=
  match md with
  | None => Err (Unauthenticated "missing metadata")
  | Some md =>
      match md_Get md "authorization", md_Get md "x-nusync-timestamp" with
      | authVal :: _, tsVal :: _ =>
          match ParseInt tsVal with
          | None => Err (Unauthenticated "timestamp expired or invalid")
          | Some ts =>
              if expired now ts then Err (Unauthenticated "timestamp expired or invalid") else
              let expectedSig := hmac_sha256 secret (canonical grpc_tag fullMethod tsVal) in
              match b64_decode (sscanf_hmac authVal) with
              | None => Err (PermissionDenied "HMAC signature mismatch")
              | Some sig =>
                  if decide (expectedSig = sig) then handler
                  else Err (PermissionDenied "HMAC signature mismatch")
              end
          end
      | _, _ => Err (Unauthenticated "missing authorization metadata")
      end
  end.

(** ** base64 round trip *)

Lemma b64_value_char n : 0 ≤ n < 64 → b64_value (b64_char n) = Some n.
Proof.
  intros Hn.
  assert (forallb (λ k, bool_decide (b64_value (b64_char (Z.of_nat k)) = Some (Z.of_nat k))) (seq 0 64) = true)
    as H by (vm_compute; reflexivity).
  rewrite forallb_forall in H. specialize (H (Z.to_nat n)).
  rewrite Z2Nat.id in H by lia. rewrite bool_decide_eq_true in H. apply H, in_seq. lia.
Qed.

(** Visible ASCII characters. *)
Definition graphic (b : byte) : bool := (33 <=? byte_Z b) && (byte_Z b <? 127).

Lemma graphic_ne b c : graphic b = true → graphic c = false → b ≠ c.
Proof. congruence. Qed.

Lemma b64_char_plain n : 0 ≤ n < 64 → b64_char n ≠ pad ∧ graphic (b64_char n) = true.
Proof.
  intros Hn.
  assert (forallb (λ k, bool_decide (b64_char (Z.of_nat k) ≠ pad) && graphic (b64_char (Z.of_nat k))) (seq 0 64)
    = true) as H by (vm_compute; reflexivity).
  rewrite forallb_forall in H. specialize (H (Z.to_nat n)).
  rewrite Z2Nat.id in H by lia. rewrite andb_true_iff, bool_decide_eq_true in H. apply H, in_seq. lia.
Qed.

Lemma byte_bits a b c :
  let A := byte_Z a in let B := byte_Z b in let C := byte_Z c in
  (0 ≤ A / 4 < 64 ∧ 0 ≤ A mod 4 * 16 + B / 16 < 64 ∧ 0 ≤ B mod 16 * 4 + C / 64 < 64 ∧ 0 ≤ C mod 64 < 64)
  ∧ A / 4 * 4 + (A mod 4 * 16 + B / 16) / 16 = A
  ∧ (A mod 4 * 16 + B / 16) mod 16 * 16 + (B mod 16 * 4 + C / 64) / 4 = B
  ∧ (B mod 16 * 4 + C / 64) mod 4 * 64 + C mod 64 = C.
Proof.
  pose proof (byte_Z_range a). pose proof (byte_Z_range b). pose proof (byte_Z_range c).
  cbv zeta. split_and!; Z.to_euclidean_division_equations; lia.
Qed.

(** Induction in steps of three. *)
Lemma triple_ind {A} (P : list A → Prop) :
  P [] → (∀ x, P [x]) → (∀ x y, P [x; y]) → (∀ x y z l, P l → P (x :: y :: z :: l)) → ∀ l, P l.
Proof.
  intros H0 H1 H2 H3. fix IH 1. intros [|x [|y [|z l]]]; [exact H0|apply H1|apply H2|].
  apply H3, IH.
Qed.

Lemma b64_quanta_encode l : b64_quanta (b64_encode l) = Some l.
Proof.
  induction l as [|a|a b|a b c l IH] using triple_ind; cbn [b64_encode]; [done|..].
  - destruct (byte_bits a x00 x00) as ((H1 & H2 & _) & E1 & _).
    change (byte_Z x00 / 16) with 0 in *. rewrite Z.add_0_r in *.
    cbn [b64_quanta]. rewrite !b64_value_char by done. cbn [mbind option_bind].
    rewrite decide_True, decide_True by done. by rewrite E1, Z_byte_Z.
  - destruct (byte_bits a b x00) as ((H1 & H2 & H3 & _) & E1 & E2 & _).
    change (byte_Z x00 / 64) with 0 in *. rewrite (Z.add_0_r (byte_Z b mod 16 * 4)) in *.
    cbn [b64_quanta]. rewrite !b64_value_char by done. cbn [mbind option_bind].
    rewrite decide_False by (by apply b64_char_plain). cbn [mbind option_bind].
    rewrite !decide_True by done. by rewrite E1, E2, !Z_byte_Z.
  - destruct (byte_bits a b c) as ((H1 & H2 & H3 & H4) & E1 & E2 & E3).
    cbn [b64_quanta]. rewrite !b64_value_char by done. cbn [mbind option_bind].
    rewrite !decide_False by (by apply b64_char_plain). cbn [mbind option_bind].
    rewrite IH. cbn [mbind option_bind]. by rewrite E1, E2, E3, !Z_byte_Z.
Qed.

Lemma b64_encode_graphic l : Forall (λ b, graphic b = true) (b64_encode l).
Proof.
  assert (∀ n, 0 ≤ n < 64 → graphic (b64_char n) = true) as Hc by (intros n Hn; by apply b64_char_plain).
  induction l as [|a|a b|a b c l IH] using triple_ind; cbn [b64_encode]; [constructor|..].
  - destruct (byte_bits a x00 x00) as ((H1 & H2 & _) & _).
    change (byte_Z x00 / 16) with 0 in *. rewrite Z.add_0_r in *. repeat constructor; by (done || apply Hc).
  - destruct (byte_bits a b x00) as ((H1 & H2 & H3 & _) & _).
    change (byte_Z x00 / 64) with 0 in *. rewrite (Z.add_0_r (byte_Z b mod 16 * 4)) in *.
    repeat constructor; by (done || apply Hc).
  - destruct (byte_bits a b c) as ((H1 & H2 & H3 & H4) & _).
    repeat (apply Forall_cons; split; [by apply Hc|]). done.
Qed.

Lemma FormatInt_graphic n : Forall (λ b, graphic b = true) (FormatInt n).
Proof.
  assert (∀ b, is_digit b = true → graphic b = true) as Hd.
  { intros b. pose proof (forall_byte (λ b, negb (is_digit b) || graphic b)) as H.
    specialize (H ltac:(vm_compute; reflexivity) b). simpl in H. intros E. by rewrite E in H. }
  unfold FormatInt. case_match; [constructor; [done|]|];
    (eapply Forall_impl; [apply FormatUint_digits; lia|exact Hd]).
Qed.

Lemma filter_all {A} (P : A → Prop) `{∀ x, Decision (P x)} l : Forall P l → filter P l = l.
Proof. induction 1 as [|x l Hx _ IH]; [done|]. by rewrite filter_cons_True, IH. Qed.

Lemma b64_decode_encode l : b64_decode (b64_encode l) = Some l.
Proof.
  unfold b64_decode. rewrite filter_all; [apply b64_quanta_encode|].
  eapply Forall_impl; [apply b64_encode_graphic|]. intros b Hb. by split; apply (graphic_ne b _ Hb).
Qed.

Lemma cut_prefix_app p l : cut_prefix p (p ++ l) = Some l.
Proof. induction p as [|x p IH]; [done|]. simpl. by rewrite decide_True. Qed.

Lemma cut_prefix_Some p l r : cut_prefix p l = Some r → l = p ++ r.
Proof.
  revert l. induction p as [|x p IH]; intros l H; simpl in *; [by simplify_eq|].
  destruct l as [|y l]; [done|]. case_decide; [subst|done]. f_equal. by apply IH.
Qed.

(** The text that is signed determines its parts. *)
Lemma canonical_inj a b c a' b' c' :
  x0a ∉ a → x0a ∉ b → x0a ∉ a' → x0a ∉ b' →
  canonical a b c = canonical a' b' c' → a = a' ∧ b = b' ∧ c = c'.
Proof.
  assert (∀ p q r s : list byte, x0a ∉ p → x0a ∉ q → p ++ x0a :: r = q ++ x0a :: s → p = q ∧ r = s) as Hcut.
  { intros p. induction p as [|x p IH]; intros [|y q] r s Hp Hq E; simplify_eq/=; [done|..].
    - set_solver.
    - set_solver.
    - destruct (IH q r s) as [-> ->]; set_solver. }
  intros Ha Hb Ha' Hb' E. apply Hcut in E as [-> E]; [|done..].
  apply Hcut in E as [-> ->]; [done..|done].
Qed.

(** ** The signature's contract *)

(** The saturating arithmetic decides what it is meant to: at most thirty
    seconds between the clock and the timestamp, either way. *)
Lemma expired_spec now t : expired now t = false ↔ Z.abs (now - t * Second) ≤ MaxClockSkew.
Proof.
  unfold expired, duration_Abs, time_Sub, MaxClockSkew, Second.
  rewrite Z.ltb_ge. case_match; lia.
Qed.

Lemma unix_i64 now : is_i64 now → is_i64 (unix now).
Proof. unfold is_i64, unix, Second. intros H. Z.to_euclidean_division_equations. lia. Qed.

Lemma header_Get_Set k v r k' :
  header_Get (header_Set k v r) k'
  = if decide (CanonicalHeaderKey k = CanonicalHeaderKey k') then v else header_Get r k'.
Proof.
  unfold header_Get, header_Set. cbn [rq_Header]. case_decide as E.
  - by rewrite E, lookup_insert_eq.
  - by rewrite lookup_insert_ne.
Qed.

Lemma SignHTTP_headers a now req :
  header_Get (SignHTTP a now req) "Authorization"
  = hmac_prefix ++ b64_encode (hmac_sha256 (secret a)
      (canonical (rq_Method req) (rq_URI req) (FormatInt (unix now))))
  ∧ header_Get (SignHTTP a now req) "X-NuSync-Timestamp" = FormatInt (unix now).
Proof. unfold SignHTTP. by rewrite !header_Get_Set. Qed.

Lemma VerifyHTTP_signed a b now now' req :
  secret b = secret a → is_i64 now →
  VerifyHTTP b now' (SignHTTP a now req)
  = if expired now' (unix now) then Err (EMsg "request timestamp expired or from the future") else Ok tt.
Proof.
  intros Hs Hnow. destruct (SignHTTP_headers a now req) as [E1 E2].
  unfold VerifyHTTP. rewrite E1, E2, cut_prefix_app, b64_decode_encode.
  rewrite ParseInt_FormatInt by (by apply unix_i64).
  destruct (expired now' (unix now)); [done|]. by rewrite Hs, decide_True.
Qed.

Lemma SignHTTP_accepted a b now now' req :
  secret b = secret a → is_i64 now → expired now' (unix now) = false →
  VerifyHTTP b now' (SignHTTP a now req) = Ok tt.
Proof. intros Hs Hn Hf. by rewrite VerifyHTTP_signed, Hf. Qed.

(** C21. A request signed by one node is accepted by every node with the same
    secret within the allowed clock skew, and rejected as expired outside of
    it. *)
Theorem VerifyHTTP_SignHTTP a b now now' req :
  secret b = secret a → is_i64 now →
  VerifyHTTP b now' (SignHTTP a now req)
  = if decide (Z.abs (now' - unix now * Second) ≤ MaxClockSkew) then Ok tt
    else Err (EMsg "request timestamp expired or from the future").
Proof.
  intros Hs Hn. rewrite VerifyHTTP_signed by done. destruct (expired now' (unix now)) eqn:E.
  - rewrite decide_False; [done|]. rewrite <- expired_spec. congruence.
  - rewrite decide_True; [done|]. by apply expired_spec.
Qed.

(** A request is accepted exactly when its timestamp is within the allowed
    skew and its authorization header carries the HMAC of its method, its
    target and that timestamp under the secret. *)
Theorem VerifyHTTP_sound a now req :
  VerifyHTTP a now req = Ok tt ↔
  ∃ sigText t,
    header_Get req "Authorization" = hmac_prefix ++ sigText
    ∧ ParseInt (header_Get req "X-NuSync-Timestamp") = Some t ∧ expired now t = false
    ∧ b64_decode sigText
      = Some (hmac_sha256 (secret a)
               (canonical (rq_Method req) (rq_URI req) (header_Get req "X-NuSync-Timestamp"))).
Proof.
  unfold VerifyHTTP. set (text := canonical _ _ _). split.
  - destruct (cut_prefix _ _) as [sigText|] eqn:E1; [|done]. apply cut_prefix_Some in E1.
    destruct (b64_decode sigText) as [sig|] eqn:E2; [|done].
    destruct (ParseInt _) as [t|] eqn:E3; [|done].
    destruct (expired now t) eqn:E4; [done|]. case_decide as Hd; [|done]. subst sig. eauto 10.
  - intros (sigText & t & H1 & H2 & H3 & H4). rewrite H1, cut_prefix_app, H4, H2, H3.
    by rewrite decide_True.
Qed.

(** C22. A signature cannot be moved to another request: when a request that
    carries the authorization header made for [req] is accepted, it has the
    method, the target and the timestamp of [req], or HMAC maps two different
    texts, the two that were signed and checked, to the same value. *)
Theorem signature_not_transferable a now now' req req' :
  x0a ∉ rq_Method req → x0a ∉ rq_URI req → x0a ∉ rq_Method req' → x0a ∉ rq_URI req' →
  header_Get req' "Authorization" = header_Get (SignHTTP a now req) "Authorization" →
  VerifyHTTP a now' req' = Ok tt →
  let text := canonical (rq_Method req) (rq_URI req) (FormatInt (unix now)) in
  let text' := canonical (rq_Method req') (rq_URI req') (header_Get req' "X-NuSync-Timestamp") in
  (rq_Method req' = rq_Method req ∧ rq_URI req' = rq_URI req
   ∧ header_Get req' "X-NuSync-Timestamp" = FormatInt (unix now))
  ∨ (text ≠ text' ∧ hmac_sha256 (secret a) text = hmac_sha256 (secret a) text').
Proof.
  intros Hm Hu Hm' Hu' Hauth Hv text text'.
  unfold VerifyHTTP in Hv. rewrite Hauth, (proj1 (SignHTTP_headers a now req)) in Hv.
  rewrite cut_prefix_app, b64_decode_encode in Hv.
  destruct (ParseInt _) as [t|]; [|done]. destruct (expired now' t); [done|].
  case_decide as Hh; [|done]. fold text text' in Hh.
  destruct (decide (text = text')) as [E|Hne]; [left|right; by split].
  apply canonical_inj in E as (-> & -> & ->); done.
Qed.

Lemma md_Get_Append k v md k' :
  md_Get (md_Append k v md) k' = if decide (k = k') then md_Get md k ++ [v] else md_Get md k'.
Proof.
  unfold md_Append, md_Get, Metadata in *. case_decide as E; [subst|].
  - by rewrite lookup_insert_eq.
  - by rewrite lookup_insert_ne.
Qed.

Lemma skip_spaces_plain l : Forall (λ b, b ≠ x20) l → skip_spaces l = l.
Proof. intros [|b l' Hb _]; [done|]. simpl. by rewrite decide_False. Qed.

Lemma token_plain l : Forall (λ b, b ≠ x20) l → token l = l.
Proof. induction 1 as [|b l Hb _ IH]; [done|]. simpl. by rewrite decide_False, IH. Qed.

Lemma sscanf_hmac_encode l : sscanf_hmac (hmac_prefix ++ b64_encode l) = b64_encode l.
Proof.
  assert (Forall (λ b, b ≠ x20) (b64_encode l)) as Hp.
  { eapply Forall_impl; [apply b64_encode_graphic|]. intros b Hb. by apply (graphic_ne b _ Hb). }
  unfold sscanf_hmac. by rewrite cut_prefix_app, skip_spaces_plain, token_plain.
Qed.

(** The metadata the client interceptor sends. *)
Lemma client_metadata secret nodeID now method :
  ∃ md, (∀ Reply (invoker : Metadata → result Reply),
      UnaryClientInterceptor secret nodeID now method ∅ invoker = invoker md)
    ∧ md_Get md "authorization"
      = [hmac_prefix ++ b64_encode (hmac_sha256 secret (canonical grpc_tag method (FormatInt (unix now))))]
    ∧ md_Get md "x-nusync-timestamp" = [FormatInt (unix now)]
    ∧ md = <["x-nusync-nodeid" := [nodeID]]> (<["x-nusync-timestamp" := [FormatInt (unix now)]]>
        (<["authorization" := [hmac_prefix ++ b64_encode (hmac_sha256 secret
            (canonical grpc_tag method (FormatInt (unix now))))]]> ∅)).
Proof.
  eexists. split; [by intros|]. split; [|split].
  - rewrite !md_Get_Append. rewrite !decide_False by done. by rewrite decide_True.
  - rewrite md_Get_Append, decide_False, md_Get_Append, decide_True by done.
    by rewrite md_Get_Append, decide_False.
  - done.
Qed.

(** The server looks only at two keys. *)
Lemma server_accepts {Reply} secret now now' method md (handler : result Reply) :
  is_i64 now →
  md_Get md "authorization"
  = [hmac_prefix ++ b64_encode (hmac_sha256 secret (canonical grpc_tag method (FormatInt (unix now))))] →
  md_Get md "x-nusync-timestamp" = [FormatInt (unix now)] →
  UnaryServerInterceptor secret now' method (Some md) handler
  = if expired now' (unix now) then Err (Unauthenticated "timestamp expired or invalid") else handler.
Proof.
  intros Hnow H1 H2. unfold UnaryServerInterceptor. rewrite H1, H2.
  rewrite ParseInt_FormatInt by (by apply unix_i64). destruct (expired now' (unix now)); [done|].
  rewrite sscanf_hmac_encode, b64_decode_encode. by rewrite decide_True.
Qed.

(** C23. The control plane's interceptors agree: a call that goes out through the
    client interceptor of one node and comes in through the server interceptor
    of another reaches the handler when both have the same secret and the call
    is within the allowed clock skew, and fails as unauthenticated outside of
    it. *)
Theorem interceptors_agree {Reply} secret nodeID now now' method (handler : result Reply) :
  is_i64 now →
  UnaryClientInterceptor secret nodeID now method ∅
    (λ md, UnaryServerInterceptor secret now' method (Some md) handler)
  = if decide (Z.abs (now' - unix now * Second) ≤ MaxClockSkew) then handler
    else Err (Unauthenticated "timestamp expired or invalid").
Proof.
  intros Hnow. destruct (client_metadata secret nodeID now method) as (md & Hmd & H1 & H2 & _).
  rewrite Hmd, (server_accepts secret now) by done.
  destruct (expired now' (unix now)) eqn:E.
  - rewrite decide_False; [done|]. rewrite <- expired_spec. congruence.
  - rewrite decide_True; [done|]. by apply expired_spec.
Qed.

(** Two nodes that share a secret, one clock ten seconds ahead. *)
Definition alice : hmacAuth := NewAuth (bytes_of "s3cret") (bytes_of "alice").
Definition bob : hmacAuth := NewAuth (bytes_of "s3cret") (bytes_of "bob").
Definition get_chunk : Request := MkRequest (bytes_of "GET") (bytes_of "/chunk/00ff") ∅.

Lemma VerifyHTTP_SignHTTP_witness :
  VerifyHTTP bob (1700000010 * Second) (SignHTTP alice (1700000000 * Second) get_chunk) = Ok tt.
Proof.
  rewrite VerifyHTTP_SignHTTP; [reflexivity|reflexivity|].
  unfold is_i64, Second. lia.
Defined.

Lemma signature_not_transferable_witness :
  let req' := SignHTTP alice (1700000000 * Second) get_chunk in
  let text := canonical (rq_Method get_chunk) (rq_URI get_chunk) (FormatInt (unix (1700000000 * Second))) in
  let text' := canonical (rq_Method req') (rq_URI req') (header_Get req' "X-NuSync-Timestamp") in
  (rq_Method req' = rq_Method get_chunk ∧ rq_URI req' = rq_URI get_chunk
   ∧ header_Get req' "X-NuSync-Timestamp" = FormatInt (unix (1700000000 * Second)))
  ∨ (text ≠ text' ∧ hmac_sha256 (secret alice) text = hmac_sha256 (secret alice) text').
Proof.
  intros req'. eapply (signature_not_transferable alice _ (1700000010 * Second) get_chunk req').
  1-4: apply (bool_decide_unpack _); vm_compute; exact I.
  - reflexivity.
  - vm_compute. reflexivity.
Defined.

Lemma interceptors_agree_witness :
  UnaryClientInterceptor (secret alice) (nodeID alice) (1700000000 * Second) (bytes_of "/control.ControlService/DiffMerkleTree") ∅
    (λ md, UnaryServerInterceptor (secret bob) (1700000010 * Second)
             (bytes_of "/control.ControlService/DiffMerkleTree") (Some md) (Ok 5%Z)) = Ok 5%Z.
Proof.
  rewrite (interceptors_agree (secret alice)); [reflexivity|].
  unfold is_i64, Second. lia.
Defined.

End Auth.
