(* ===== verification/Http.v ===== *)
(** * The part of [net/url] and [net/http] the data plane uses

    Parsing a URL and its query, the request line on the wire, header values,
    responses.  A URL is modelled from its path on: the authority is the peer's
    address, and the paths are constants that need no escaping. *)

From Stdlib Require Import Strings.Byte.
From S2P Require Import Prelude GoBytes Strconv Json Path Auth.

Module Http.
Import Auth.

Local Open Scope Z_scope.

(** ** [net/url] *)

(** [strings.Cut] at a byte: before, and after if it occurs. *)
Fixpoint cut (sep : byte) (l : list byte) : list byte * option (list byte) :=
  match l with
  | [] => ([], None)
  | b :: l =>
      if decide (b = sep) then ([], Some l)
      else let '(x, y) := cut sep l in (b :: x, y)
  end.

(** [strings.Split] at a byte. *)
Fixpoint split_on (sep : byte) (l : list byte) : list (list byte) :=
  match l with
  | [] => [[]]
  | b :: l =>
      if decide (b = sep) then [] :: split_on sep l
      else match split_on sep l with
           | p :: ps => (b :: p) :: ps
           | [] => [[b]]
           end
  end.

(** [stringContainsCTLByte] *)
Definition is_ctl (b : byte) : bool := (byte_Z b <? 32) || (byte_Z b =? 127).

(** [unescape]; in a query component a plus sign stands for a space. *)
Fixpoint unescape (query : bool) (l : list byte) : option (list byte) :=
  match l with
  | [] => Some []
  | b :: l' =>
      if decide (b = x25) then
        match l' with
        | h1 :: h2 :: l'' =>
            x ← Json.hex_val h1; y ← Json.hex_val h2; r ← unescape query l'';
            Some (Z_byte (x * 16 + y) :: r)
        | _ => None
        end
      else
        r ← unescape query l';
        Some ((if query && bool_decide (b = x2b) then x20 else b) :: r)
  end.

(** [ParseQuery] on one piece between ampersands; what is wrong is dropped. *)
Definition query_pair (piece : list byte) : option (list byte * list byte) :=
  if decide (x3b ∈ piece ∨ piece = []) then None else
  let '(key, value) := cut x3d piece in
  k ← unescape true key; v ← unescape true (default [] value); Some (k, v).

Definition ParseQuery (raw : list byte) : list (list byte * list byte) :=
  omap query_pair (split_on x26 raw).

(** [url.Query().Get(key)]: the first value, or the empty string. *)
Definition query_Get (raw key : list byte) : list byte :=
  match list_find (λ kv, kv.1 = key) (ParseQuery raw) with
  | Some (_, (_, v)) => v
  | None => []
  end.

(** The path as it is written, and the query if there is a question mark. *)
Record URL := MkURL { u_Path : list byte; u_RawQuery : option (list byte) }.

(** [parse] without scheme and authority. *)
Definition parse_rest (rest : list byte) : option URL :=
  if existsb is_ctl rest then None else
  let '(path, query) := cut x3f rest in
  _ ← unescape false path; Some (MkURL path query).

(** [url.Parse]: the fragment is cut off first. *)
Definition url_Parse (target : list byte) : option URL :=
  let '(u, frag) := cut x23 target in
  _ ← unescape false (default [] frag); parse_rest u.

(** [URL.RequestURI] *)
Definition RequestURI (u : URL) : list byte :=
  u_Path u ++ match u_RawQuery u with Some q => x3f :: q | None => [] end.

(** ** The wire *)

Definition http11 : list byte := bytes_of "HTTP/1.1".

(** The line [Request.Write] sends, less its line end. *)
Definition request_line (method uri : list byte) : list byte :=
  method ++ x20 :: uri ++ x20 :: http11.

(** [ParseHTTPVersion]: [HTTP/d.d]. *)
Definition ParseHTTPVersion (l : list byte) : option (Z * Z) :=
  r ← cut_prefix (bytes_of "HTTP/") l;
  match r with
  | [major; dot; minor] =>
      if decide (dot = x2e) then
        x ← byte_digit major; y ← byte_digit minor; Some (x, y)
      else None
  | _ => None
  end.

(** [validMethod]: a token of RFC 7230. *)
Definition is_token_byte (b : byte) : bool :=
  bool_decide (b ∈ bytes_of
    "!#$%&'*+-.^_`|~0123456789ABCDEFGHIJKLMNOPQRSTUVWXYZabcdefghijklmnopqrstuvwxyz").

Definition valid_method (m : list byte) : bool :=
  bool_decide (m ≠ []) && forallb is_token_byte m.

(** [textproto.TrimString] on a header value. *)
Fixpoint trim_left (l : list byte) : list byte :=
  match l with
  | b :: l' => if decide (b = x20 ∨ b = x09) then trim_left l' else l
  | [] => []
  end.

Definition trim (l : list byte) : list byte := reverse (trim_left (reverse (trim_left l))).

(** [httpguts.ValidHeaderFieldValue]: no control characters but tabs. *)
Definition valid_header_value (v : list byte) : bool :=
  forallb (λ b, negb (is_ctl b) || bool_decide (b = x09)) v.

Definition headers_ok (r : Request) : bool :=
  bool_decide (map_Forall (λ _ v, valid_header_value v = true) (rq_Header r)).

(** What the server makes of a request line and the headers behind it: a
    request, or the status it answers on its own. *)
Definition ReadRequest (line : list byte) (header : gmap string (list byte)) : Z + Request :=
  match cut x20 line with
  | (method, Some rest) =>
      match cut x20 rest with
      | (uri, Some proto) =>
          if negb (valid_method method) then inl 400 else
          match ParseHTTPVersion proto with
          | None => inl 400
          | Some (major, _) =>
              if negb (major =? 1) then inl 505 else
              match parse_rest uri with
              | None => inl 400
              | Some u => inr (MkRequest method (RequestURI u) (trim <$> header))
              end
          end
      | _ => inl 400
      end
  | _ => inl 400
  end.

(** ** Responses *)

(** [rs_whole]: the body can be read to its end. *)
Record Response := MkResponse {
  StatusCode : Z;
  rs_Header : gmap string (list byte);
  rs_Body : list byte;
  rs_whole : bool;
}.

Definition response_Get (r : Response) (k : string) : list byte :=
  default [] (rs_Header r !! CanonicalHeaderKey k).

Definition set_header (k : string) (v : string) (h : gmap string (list byte)) : gmap string (list byte) :=
  <[CanonicalHeaderKey k := bytes_of v]> h.

(** [http.Error(w, msg, code)] with [h] set on [w] before. *)
Definition http_Error (h : gmap string (list byte)) (msg : string) (code : Z) : Response :=
  MkResponse code
    (set_header "X-Content-Type-Options" "nosniff"
       (set_header "Content-Type" "text/plain; charset=utf-8" h))
    (bytes_of msg ++ [x0a]) true.

Definition StatusOK : Z := 200.
Definition StatusBadRequest : Z := 400.
Definition StatusForbidden : Z := 403.
Definition StatusNotFound : Z := 404.
Definition StatusTooManyRequests : Z := 429.
Definition StatusInternalServerError : Z := 500.

Definition StatusMovedPermanently : Z := 301.

(** ** [http.ServeMux] *)

(** [cleanPath]: rooted, clean, with its trailing slash. *)
Definition cleanPath (p : string) : string :=
  if decide (p = "") then "/" else
  let p := if rooted p then p else String slash p in
  let np := Clean p in
  if bool_decide (last (split_slash p) = Some "") && bool_decide (np ≠ "/") then np +:+ "/" else np.

(** [escape(path, encodePath)]: what may stand in a path stays. *)
Definition path_byte (b : byte) : bool :=
  let n := byte_Z b in
  ((48 <=? n) && (n <=? 57)) || ((65 <=? n) && (n <=? 90)) || ((97 <=? n) && (n <=? 122))
  || bool_decide (b ∈ bytes_of "-_.~$&+,/:;=@").

Definition upper_hex (n : Z) : byte := if n <? 10 then Z_byte (48 + n) else Z_byte (55 + n).

Definition escape_path (l : list byte) : list byte :=
  mjoin ((λ b, if path_byte b then [b]
               else [x25; upper_hex (byte_Z b / 16); upper_hex (byte_Z b mod 16)]) <$> l).

Definition html_escape (l : list byte) : list byte :=
  mjoin ((λ b, if decide (b = x26) then bytes_of "&amp;"
               else if decide (b = x3c) then bytes_of "&lt;"
               else if decide (b = x3e) then bytes_of "&gt;"
               else if decide (b = x22) then bytes_of "&#34;"
               else if decide (b = x27) then bytes_of "&#39;" else [b]) <$> l).

(** [hexEscapeNonASCII] *)
Definition ascii_only (l : list byte) : list byte :=
  mjoin ((λ b, if byte_Z b <? 128 then [b] else x25 :: bytes_of (hex_EncodeToString [b])) <$> l).

(** [RedirectHandler] to a clean path, with the query of the request. *)
Definition redirect (method path : list byte) (query : option (list byte)) : Response :=
  let url := escape_path path ++ match query with Some (b :: q) => x3f :: b :: q | _ => [] end in
  let h := set_header "Location" (string_of (ascii_only url)) ∅ in
  let html := set_header "Content-Type" "text/html; charset=utf-8" h in
  if decide (method = bytes_of "GET") then
    MkResponse StatusMovedPermanently html
      (bytes_of "<a href=" ++ x22 :: html_escape url ++ x22 :: bytes_of ">Moved Permanently</a>." ++ [x0a; x0a]) true
  else if decide (method = bytes_of "HEAD") then MkResponse StatusMovedPermanently html [] true
  else MkResponse StatusMovedPermanently h [] true.

Example cleanPath_examples :
  cleanPath "//a/../chunk" = "/chunk" ∧ cleanPath "/meta/" = "/meta/" ∧ cleanPath "/meta" = "/meta".
Proof. by vm_compute. Qed.

Example redirect_example :
  response_Get (redirect (bytes_of "GET") (bytes_of "/a b") (Some (bytes_of "x=1"))) "Location"
  = bytes_of "/a%20b?x=1".
Proof. by vm_compute. Qed.

(** ** Names that survive a URL *)

(** Bytes that stand for themselves in a query that is not escaped. *)
Definition url_safe (b : byte) : bool :=
  negb (is_ctl b) && bool_decide (b ∉ [x20; x23; x25; x26; x2b; x3b]).

Lemma url_safe_spec b :
  url_safe b = true →
  is_ctl b = false ∧ b ≠ x20 ∧ b ≠ x23 ∧ b ≠ x25 ∧ b ≠ x26 ∧ b ≠ x2b ∧ b ≠ x3b.
Proof.
  unfold url_safe. rewrite andb_true_iff, negb_true_iff, bool_decide_eq_true.
  intros [? H]. split; [done|]. set_solver.
Qed.

Lemma cut_none sep l : sep ∉ l → cut sep l = (l, None).
Proof.
  induction l as [|b l IH]; intros H; [done|]. simpl.
  rewrite decide_False by set_solver. by rewrite IH by set_solver.
Qed.

Lemma cut_app sep p l : sep ∉ p → cut sep (p ++ sep :: l) = (p, Some l).
Proof.
  induction p as [|b p IH]; intros H; simpl; [by rewrite decide_True|].
  rewrite decide_False by set_solver. by rewrite IH by set_solver.
Qed.

Lemma split_none sep l : sep ∉ l → split_on sep l = [l].
Proof.
  induction l as [|b l IH]; intros H; [done|]. simpl.
  rewrite decide_False by set_solver. by rewrite IH by set_solver.
Qed.

Lemma split_app sep p l : sep ∉ p → split_on sep (p ++ sep :: l) = p :: split_on sep l.
Proof.
  induction p as [|b p IH]; intros H; simpl; [by rewrite decide_True|].
  rewrite decide_False by set_solver. by rewrite IH by set_solver.
Qed.

(** A plus sign turns into a space; everything else that is safe stays. *)
Definition plus_to_space (b : byte) : byte := if decide (b = x2b) then x20 else b.

Lemma unescape_plus l : x25 ∉ l → unescape true l = Some (plus_to_space <$> l).
Proof.
  induction l as [|b l IH]; intros H; [done|]. cbn [unescape]. csimpl.
  rewrite decide_False by set_solver. rewrite IH by set_solver. cbn [mbind option_bind].
  unfold plus_to_space. by repeat case_decide || case_bool_decide.
Qed.

Lemma unescape_plain q l : x25 ∉ l → x2b ∉ l → unescape q l = Some l.
Proof.
  induction l as [|b l IH]; intros H H'; [done|]. cbn [unescape].
  rewrite decide_False by set_solver. rewrite IH by set_solver. cbn [mbind option_bind].
  rewrite (bool_decide_eq_false_2 (b = x2b)) by set_solver. by rewrite andb_false_r.
Qed.

(** A query of one pair. *)
Lemma query_Get_one key v :
  x26 ∉ key → x3b ∉ key → x3d ∉ key → x25 ∉ key → x2b ∉ key → x26 ∉ v → x3b ∉ v → x25 ∉ v →
  query_Get (key ++ x3d :: v) key = plus_to_space <$> v.
Proof.
  intros. unfold query_Get, ParseQuery. rewrite split_none by set_solver.
  cbn [omap list_omap]. unfold query_pair.
  rewrite decide_False by (intros [?|E]; [set_solver|by destruct key]).
  rewrite cut_app by done. change (default [] (Some v)) with v.
  rewrite (unescape_plain true key), (unescape_plus v) by done. cbn [mbind option_bind list_find].
  by rewrite decide_True.
Qed.

(** ** A request on its way *)

Lemma parse_rest_plain path q :
  existsb is_ctl (path ++ x3f :: q) = false → x3f ∉ path → x25 ∉ path → x2b ∉ path →
  parse_rest (path ++ x3f :: q) = Some (MkURL path (Some q)).
Proof.
  intros Hc Hq Hp Hp'. unfold parse_rest. rewrite Hc, cut_app by done.
  by rewrite unescape_plain.
Qed.

Lemma url_Parse_plain path q :
  existsb is_ctl (path ++ x3f :: q) = false → x3f ∉ path → x25 ∉ path → x2b ∉ path →
  x23 ∉ path → x23 ∉ q →
  url_Parse (path ++ x3f :: q) = Some (MkURL path (Some q)).
Proof.
  intros. unfold url_Parse. rewrite cut_none by set_solver.
  change (unescape false (default [] None)) with (Some (@nil byte)). cbn [mbind option_bind].
  by apply parse_rest_plain.
Qed.

Lemma ParseHTTPVersion_11 : ParseHTTPVersion http11 = Some (1, 1).
Proof. vm_compute. reflexivity. Qed.

(** A request whose target has no space and no control character arrives as it
    was sent, header values trimmed. *)
Lemma ReadRequest_line method uri u header :
  x20 ∉ method → valid_method method = true → x20 ∉ uri → parse_rest uri = Some u → RequestURI u = uri →
  ReadRequest (request_line method uri) header = inr (MkRequest method uri (trim <$> header)).
Proof.
  intros Hm Hv Hu Hp Hr. unfold ReadRequest, request_line. rewrite cut_app, cut_app by done.
  by rewrite Hv, ParseHTTPVersion_11, Hp, Hr.
Qed.

(** A target with a space makes the line malformed. *)
Lemma ReadRequest_space method uri rest header :
  x20 ∉ method → x20 ∉ uri →
  ReadRequest (request_line method (uri ++ x20 :: rest)) header = inl 400.
Proof.
  intros Hm Hu. unfold ReadRequest, request_line. rewrite cut_app by done.
  rewrite <- app_assoc, <- app_comm_cons, cut_app by done.
  assert (ParseHTTPVersion (rest ++ x20 :: http11) = None) as ->.
  { unfold ParseHTTPVersion. destruct (cut_prefix _ _) as [r|] eqn:E; [|done].
    apply cut_prefix_Some, (f_equal length) in E. rewrite !length_app in E. simpl in E.
    cbn [mbind option_bind].
    destruct r as [|? [|? [|? [|? r]]]]; simpl in E; try done; lia. }
  by destruct (negb (valid_method method)).
Qed.

Lemma trim_plain b l c :
  b ≠ x20 → b ≠ x09 → c ≠ x20 → c ≠ x09 → trim (b :: l ++ [c]) = b :: l ++ [c].
Proof.
  intros. unfold trim. cbn [trim_left]. rewrite decide_False by naive_solver.
  rewrite app_comm_cons, reverse_app, reverse_singleton.
  change ([c] ++ reverse (b :: l)) with (c :: reverse (b :: l)).
  cbn [trim_left]. rewrite decide_False by naive_solver.
  rewrite reverse_cons, reverse_involutive. done.
Qed.

End Http.
