(* ===== verification/Dataplane.v ===== *)
(** * The data plane ([internal/dataplane])

    The HTTP server that hands out chunks, records and the catalog, and the
    client that fetches them.  The semaphore of [golang.org/x/sync] that limits
    the chunk streams is the class [Semaphore] with the laws [SemaphoreLaws];
    how a request reaches a peer is a [Transport].  Requests are plain [GET]s: ranges and conditional headers, which the client never sends, are
    not looked at. *)

From Stdlib Require Import Strings.Byte.
From S2P Require Import Prelude GoBytes GoFloat Sha256 Strconv Json Meta Path Fs Cas Auth Http.

(** ** The semaphore's interface *)

Class Semaphore := {
  sem : Type;
  NewWeighted : Z → sem;
  TryAcquire : Z → sem → bool * sem;
  Release : Z → sem → sem;
  (** What the documentation speaks of: the weight held and the size. *)
  sem_held : sem → Z;
  sem_size : sem → Z;
}.

(** As documented, with no blocked [Acquire] around. *)
Class SemaphoreLaws (W : Semaphore) : Prop := {
  new_held n : sem_held (NewWeighted n) = 0%Z;
  new_size n : sem_size (NewWeighted n) = n;
  try_acquire n s :
    (TryAcquire n s).1 = bool_decide (sem_held s + n ≤ sem_size s)%Z
    ∧ sem_held (TryAcquire n s).2
      = (if (TryAcquire n s).1 then sem_held s + n else sem_held s)%Z
    ∧ sem_size (TryAcquire n s).2 = sem_size s;
  release n s :
    (n ≤ sem_held s)%Z →
    sem_held (Release n s) = (sem_held s - n)%Z ∧ sem_size (Release n s) = sem_size s;
}.

Module Dataplane.
Import Meta Auth Http.

(** ** JSON of the catalog *)

Definition entry_value (e : CatalogEntry) : Json.value :=
  Json.JObj [
    (bytes_of "FileID", Json.enc_string (ce_FileID e));
    (bytes_of "MerkleRoot", Json.enc_array32 (ce_MerkleRoot e));
    (bytes_of "LamportTS", Json.enc_uint (ce_LamportTS e))].

Definition catalog_value (es : list CatalogEntry) : Json.value :=
  match es with [] => Json.JNull | _ => Json.JArr (entry_value <$> es) end.

Definition zero_entry : CatalogEntry := MkCatalogEntry "" zero32 0.

Definition entry_fields : list (Json.field CatalogEntry) := [
  ("FileID", λ v e, x ← Json.dec_string v (ce_FileID e);
     Some (MkCatalogEntry x (ce_MerkleRoot e) (ce_LamportTS e)));
  ("MerkleRoot", λ v e, x ← Json.dec_array32 v (ce_MerkleRoot e);
     Some (MkCatalogEntry (ce_FileID e) x (ce_LamportTS e)));
  ("LamportTS", λ v e, x ← Json.dec_uint 64 v (ce_LamportTS e);
     Some (MkCatalogEntry (ce_FileID e) (ce_MerkleRoot e) x))].

(** Into a nil slice, so every element starts as the zero value. *)
Definition dec_catalog (v : Json.value) : option (list CatalogEntry) :=
  match v with
  | Json.JNull => Some []
  | Json.JArr vs => mapM (λ v, Json.dec_struct entry_fields v zero_entry) vs
  | _ => None
  end.

(** [json.NewEncoder(w).Encode(v)] *)
Definition Encode (v : Json.value) : list byte := Json.print v ++ [x0a].

(** ** Server *)

Section server.
Context `{B : Bolt} `{W : Semaphore}.

Record Server := MkServer {
  s_addr : string;
  verifier : Z → Request → result unit;    (** [auth.Verifier], given the clock *)
  s_cas : Cas.CASBlobStore;
  s_sem : sem;
  maxStreams : Z;
}.

Definition NewServer (addr : string) (verifier : Z → Request → result unit) (cas : Cas.CASBlobStore)
    (maxConcurrentStreams : Z) : Server :=
  MkServer addr verifier cas (NewWeighted maxConcurrentStreams) maxConcurrentStreams.

Definition set_sem (m : sem) (s : Server) : Server :=
  MkServer (s_addr s) (verifier s) (s_cas s) m (maxStreams s).

(** [r.URL.Query().Get(key)] *)
Definition query_param (r : Request) (key : string) : list byte :=
  query_Get (default [] (cut x3f (rq_URI r)).2) (bytes_of key).

Definition file_Stat : stM os unit := λ w,
  let '(o, w) := os_next w in
  match o with IoOk => (Ok tt, w) | _ => (Err (EMsg "stat"), w) end.

(** [http.ServeContent] for a request without range or precondition headers,
    which the client of this program does not send: finding out the size may fail; a failure while the
    content is copied cuts the body short. *)
Definition ServeContent (h : gmap string (list byte)) (content : list byte) : os → Response * os := λ w,
  let '(o, w) := os_next w in
  match o with
  | IoOk => (MkResponse StatusOK h content true, w)
  | IoFail => (http_Error h "seeker can't seek" StatusInternalServerError, w)
  | IoPartial k => (MkResponse StatusOK h (take k content) false, w)
  end.

(** [handleGetChunk] once it holds its permit. *)
Definition chunk_reply (s : Server) (r : Request) : os → Response * os := λ w,
  let hashHex := query_param r "h" in
  if negb (Nat.eqb (length hashHex) 64)
  then (http_Error ∅ "Invalid or missing chunk hash" StatusBadRequest, w) else
  match hex_DecodeString (string_of hashHex) with
  | Err _ => (http_Error ∅ "Malformed chunk hash hex" StatusBadRequest, w)
  | Ok decoded =>
      if negb (Nat.eqb (length decoded) 32)
      then (http_Error ∅ "Malformed chunk hash hex" StatusBadRequest, w) else
      match Cas.GetFile (s_cas s) (copy32 decoded) w with
      | (Err _, w) => (http_Error ∅ "Chunk not found" StatusNotFound, w)
      | (Ok file, w) =>
          match file_Stat w with
          | (Err _, w) => (http_Error ∅ "Internal server error" StatusInternalServerError, w)
          | (Ok _, w) => ServeContent (set_header "X-Content-Type-Options" "nosniff" ∅) file w
          end
      end
  end.

Definition busy_reply : Response :=
  http_Error (set_header "Retry-After" "2" ∅) "Too Many Requests - Server busy" StatusTooManyRequests.

(** The deferred [Release] runs on every way out of [chunk_reply]. *)
Definition handleGetChunk (s : Server) (now : Z) (r : Request) : os → Response * (Server * os) := λ w,
  match verifier s now r with
  | Err _ => (http_Error ∅ "Unauthorized: %v" StatusForbidden, (s, w))
  | Ok _ =>
      let '(ok, m) := TryAcquire 1 (s_sem s) in
      let s := set_sem m s in
      if negb ok then (busy_reply, (s, w)) else
      let '(resp, w) := chunk_reply s r w in
      (resp, (set_sem (Release 1 (s_sem s)) s, w))
  end.

Definition json_header : gmap string (list byte) := set_header "Content-Type" "application/json" ∅.

Definition handleGetMeta (s : Server) (b : bucket) (now : Z) (r : Request) : Response :=
  match verifier s now r with
  | Err _ => http_Error ∅ "Unauthorized" StatusForbidden
  | Ok _ =>
      let fileID := string_of (query_param r "id") in
      match GetFileMeta b fileID with
      | Err _ => http_Error ∅ "Not found" StatusNotFound
      | Ok meta => MkResponse StatusOK json_header (Encode (meta_value meta)) true
      end
  end.

(** Listing an open database has no error. *)
Definition handleGetCatalog (s : Server) (b : bucket) (now : Z) (r : Request) : Response :=
  match verifier s now r with
  | Err _ => http_Error ∅ "Unauthorized" StatusForbidden
  | Ok _ => MkResponse StatusOK json_header (Encode (catalog_value (ListCatalog b))) true
  end.

(** The mux of [Start]: a path that is not clean is redirected before anything
    else; three paths are known, everything else is not found. *)
Definition serve (s : Server) (b : bucket) (now : Z) (r : Request) : os → Response * (Server * os) := λ w,
  let path := default [] (unescape false (cut x3f (rq_URI r)).1) in
  let clean := bytes_of (cleanPath (string_of path)) in
  if decide (rq_Method r ≠ bytes_of "CONNECT" ∧ clean ≠ path)
  then (redirect (rq_Method r) clean (cut x3f (rq_URI r)).2, (s, w))
  else if decide (path = bytes_of "/chunk") then handleGetChunk s now r w
  else if decide (path = bytes_of "/meta") then (handleGetMeta s b now r, (s, w))
  else if decide (path = bytes_of "/catalog") then (handleGetCatalog s b now r, (s, w))
  else (http_Error ∅ "404 page not found" StatusNotFound, (s, w)).

End server.

(** ** Client *)

Definition ErrRateLimited : error := EMsg "peer rate limited (429)".
Definition ErrUnauthorized : error := EMsg "HMAC signature rejected (403)".
Definition ErrChunkNotFound : error := EMsg "chunk not found (404)".

(** What is outside the client: whether [url.Parse] takes the peer's address
    for an authority, and [http.Client.Do]. *)
Record Transport := MkTransport {
  tr_authority : string → bool;
  tr_do : string → Request → result Response;
}.

Record Client := MkClient {
  signer : Z → Request → Request;          (** [auth.Signer], given the clock *)
  c_cas : Cas.CASBlobStore;
}.

Definition NewClient (signer : Z → Request → Request) (cas : Cas.CASBlobStore) : Client :=
  MkClient signer cas.

Section client.
Context (tr : Transport) (c : Client).

(** [http.NewRequest(http.MethodGet, "http://" + peerAddr + target, nil)] *)
Definition NewRequest (peerAddr : string) (target : list byte) : result Request :=
  match url_Parse target with
  | Some u =>
      if tr_authority tr peerAddr then Ok (MkRequest (bytes_of "GET") (RequestURI u) ∅)
      else Err (EMsg "invalid URL")
  | None => Err (EMsg "invalid URL")
  end.

(** [io.ReadAll(resp.Body)] *)
Definition read_body (resp : Response) : result (list byte) :=
  if rs_whole resp then Ok (rs_Body resp) else Err (EMsg "unexpected EOF").

(** The value [json.NewDecoder(resp.Body)] reads.  One that is neither an array
    nor an object is complete only when something or the end follows. *)
Definition Decode (resp : Response) : option Json.value :=
  '(v, rest) ← Json.decode_text (rs_Body resp);
  match v, rest with
  | Json.JArr _, _ | Json.JObj _, _ | _, _ :: _ => Some v
  | _, [] => if rs_whole resp then Some v else None
  end.

Definition chunk_target (hash : array32) : list byte :=
  bytes_of "/chunk?h=" ++ bytes_of (hex_EncodeToString (a32_bytes hash)).

Definition FetchChunk (now : Z) (peerAddr : string) (hash : array32) : result (list byte) :=
  match NewRequest peerAddr (chunk_target hash) with
  | Err e => Err (EWrap "peer unreachable: failed to create request: %w" e)
  | Ok req =>
      match tr_do tr peerAddr (signer c now req) with
      | Err e => Err (EWrap "peer unreachable: %w" e)
      | Ok resp =>
          if StatusCode resp =? StatusOK then read_body resp
          else if StatusCode resp =? StatusTooManyRequests then Err ErrRateLimited
          else if StatusCode resp =? StatusForbidden then Err ErrUnauthorized
          else if StatusCode resp =? StatusNotFound then Err ErrChunkNotFound
          else Err (EMsg "unexpected HTTP status code: %d")
      end
  end%Z.

(** The errors of [FetchSingle]: the one that carries a delay, and others. *)
Inductive fetch_error :=
  | RateLimitError (RetryAfter : Z) (PeerAddr : string)
  | FetchError (e : error).

(** [time.Duration(seconds) * time.Second] on 64 bits *)
Definition seconds_Duration (n : Z) : Z := i64 (n * Second).

Definition retry_secs (value : list byte) : Z :=
  match value with
  | [] => 2
  | _ => default 2%Z (Atoi value)
  end.

Definition FetchSingle (now : Z) (peerAddr : string) (hash : array32) : os → option fetch_error * os := λ w,
  match NewRequest peerAddr (chunk_target hash) with
  | Err e => (Some (FetchError (EWrap "peer unreachable: failed to create request: %w" e)), w)
  | Ok req =>
      match tr_do tr peerAddr (signer c now req) with
      | Err e => (Some (FetchError (EWrap "peer unreachable: %w" e)), w)
      | Ok resp =>
          if StatusCode resp =? StatusOK then
            match read_body resp with
            | Err e => (Some (FetchError (EWrap "failed to read response: %w" e)), w)
            | Ok data =>
                match Cas.Put (c_cas c) hash data w with
                | (Ok _, w) => (None, w)
                | (Err e, w) => (Some (FetchError e), w)
                end
            end
          else if StatusCode resp =? StatusTooManyRequests then
            (Some (RateLimitError (seconds_Duration (retry_secs (response_Get resp "Retry-After"))) peerAddr), w)
          else if StatusCode resp =? StatusForbidden then (Some (FetchError ErrUnauthorized), w)
          else if StatusCode resp =? StatusNotFound then (Some (FetchError ErrChunkNotFound), w)
          else (Some (FetchError (EMsg "unexpected HTTP status code: %d")), w)
      end
  end%Z.

Definition meta_target (fileID : string) : list byte := bytes_of "/meta?id=" ++ bytes_of fileID.

Definition FetchMeta (now : Z) (peerAddr : string) (fileID : string) : result FileMeta :=
  match NewRequest peerAddr (meta_target fileID) with
  | Err e => Err (EWrap "failed to create meta request: %w" e)
  | Ok req =>
      match tr_do tr peerAddr (signer c now req) with
      | Err e => Err (EWrap "peer unreachable: %w" e)
      | Ok resp =>
          if negb (StatusCode resp =? StatusOK) then Err (EMsg "failed to fetch meta: HTTP %d") else
          match v ← Decode resp; Json.dec_struct meta_fields v zero_FileMeta with
          | None => Err (EWrap "invalid meta JSON: %w" (EMsg "json"))
          | Some meta => Ok meta
          end
      end
  end%Z.

Definition FetchCatalog (now : Z) (peerAddr : string) : result (list CatalogEntry) :=
  match NewRequest peerAddr (bytes_of "/catalog") with
  | Err e => Err (EWrap "failed to create catalog request: %w" e)
  | Ok req =>
      match tr_do tr peerAddr (signer c now req) with
      | Err e => Err (EWrap "peer unreachable: %w" e)
      | Ok resp =>
          if negb (StatusCode resp =? StatusOK) then Err (EMsg "failed to fetch catalog: HTTP %d") else
          match v ← Decode resp; dec_catalog v with
          | None => Err (EWrap "invalid catalog JSON: %w" (EMsg "json"))
          | Some entries => Ok entries
          end
      end
  end%Z.

End client.

(** Whatever a peer sends, the timestamps are 64-bit numbers. *)
Lemma FetchCatalog_range tr c now peerAddr es :
  FetchCatalog tr c now peerAddr = Ok es → Forall (λ e, is_u64 (ce_LamportTS e)) es.
Proof.
  unfold FetchCatalog. intros H. repeat case_match; simplify_eq.
  match goal with H : _ ≫= _ = Some _ |- _ => apply bind_Some in H as (v & _ & H) end.
  destruct v as [| | | |vs|]; cbn [dec_catalog] in *; simplify_eq; [constructor|].
  match goal with H : mapM _ _ = Some _ |- _ => apply mapM_Some in H; induction H as [|v e vs es He _ IH] end;
    constructor; [|done].
  revert He. apply (Json.dec_struct_inv (λ e, is_u64 (ce_LamportTS e))); [|by vm_compute].
  Json.dec_range entry_fields.
Qed.

Definition ParseRateLimit (resp : Response) : Z :=
  if negb (StatusCode resp =? StatusTooManyRequests)%Z then 0 else
  match Atoi (response_Get resp "Retry-After") with
  | Some seconds => if (0 <? seconds)%Z then seconds_Duration seconds else 2 * Second
  | None => 2 * Second
  end.

(** ** The server on its own *)

Section handlers.
Context `{B : Bolt} `{W : Semaphore} `{!SemaphoreLaws W}.

(** C24. Nothing is disclosed to a request that the verifier refuses: the answer
    is a 403 or, off the three paths, a redirect or a 404, the same whatever the
    index and the store hold, and neither the server nor the files change. *)
Theorem serve_refuses (s : Server) now r e :
  verifier s now r = Err e →
  ∃ resp, StatusCode resp ∈ [StatusForbidden; StatusNotFound; StatusMovedPermanently]
    ∧ ∀ (b : bucket) w, serve s b now r w = (resp, (s, w)).
Proof.
  intros Hv. unfold serve, handleGetChunk, handleGetMeta, handleGetCatalog. rewrite Hv.
  case_decide as Hc.
  { eexists. split; [|by intros]. unfold redirect. repeat case_decide; cbn; set_solver. }
  clear Hc. repeat case_decide; eexists; (split; [|by intros]); cbn; set_solver.
Qed.

(** *** Streams that overlap *)

(** Requests for chunks are served side by side.  A request is refused, turned
    away, or admitted with a permit; an admitted one is answered later, in any
    order, and gives its permit back. *)
Record Streams := MkStreams {
  st_server : Server;
  st_active : list Request;
  st_os : os;
}.

Inductive stream_event :=
  | Begun (r : Request)
  | Answered (r : Request) (resp : Response).

Inductive stream_step : Streams → stream_event → Streams → Prop :=
  | stream_forbidden s act w now r e :
      verifier s now r = Err e →
      stream_step (MkStreams s act w)
        (Answered r (http_Error ∅ "Unauthorized: %v" StatusForbidden)) (MkStreams s act w)
  | stream_busy s act w now r m :
      verifier s now r = Ok tt → TryAcquire 1 (s_sem s) = (false, m) →
      stream_step (MkStreams s act w) (Answered r busy_reply) (MkStreams (set_sem m s) act w)
  | stream_admit s act w now r m :
      verifier s now r = Ok tt → TryAcquire 1 (s_sem s) = (true, m) →
      stream_step (MkStreams s act w) (Begun r) (MkStreams (set_sem m s) (r :: act) w)
  | stream_done s act act' w r resp w' :
      chunk_reply s r w = (resp, w') →
      stream_step (MkStreams s (act ++ r :: act') w) (Answered r resp)
        (MkStreams (set_sem (Release 1 (s_sem s)) s) (act ++ act') w').

Inductive stream_run : Streams → list stream_event → Streams → Prop :=
  | stream_nil st : stream_run st [] st
  | stream_cons st1 ev st2 evs st3 :
      stream_step st1 ev st2 → stream_run st2 evs st3 → stream_run st1 (ev :: evs) st3.

(** The handler of a request that meets no other is a run of these steps. *)
Lemma handleGetChunk_run s now r w act resp s' w' :
  handleGetChunk s now r w = (resp, (s', w')) →
  ∃ evs, stream_run (MkStreams s act w) (evs ++ [Answered r resp]) (MkStreams s' act w').
Proof.
  unfold handleGetChunk. destruct (verifier s now r) as [[]|e] eqn:Ev.
  - destruct (TryAcquire 1 (s_sem s)) as [[] m] eqn:Et; cbn [negb].
    + destruct (chunk_reply _ r w) as [resp' w1] eqn:Er. intros; simplify_eq.
      exists [Begun r]. econstructor; [by eapply stream_admit|]. econstructor; [|constructor].
      by apply (stream_done (set_sem m s) [] act).
    + intros; simplify_eq. exists []. econstructor; [by eapply stream_busy|constructor].
  - intros; simplify_eq. exists []. econstructor; [by eapply stream_forbidden|constructor].
Qed.

(** Permits are held by the active requests and by nothing else. *)
Definition streams_inv (max : Z) (st : Streams) : Prop :=
  sem_held (s_sem (st_server st)) = Z.of_nat (length (st_active st))
  ∧ sem_size (s_sem (st_server st)) = max
  ∧ (Z.of_nat (length (st_active st)) ≤ max)%Z.

Lemma stream_step_inv max st ev st' : stream_step st ev st' → streams_inv max st → streams_inv max st'.
Proof.
  unfold streams_inv. destruct 1 as [|s act w now r m Hv Ht|s act w now r m Hv Ht|s act act' w r resp w' Hr];
    cbn [st_server st_active set_sem s_sem]; intros (Hh & Hs & Hl); [done|..].
  - destruct (try_acquire 1 (s_sem s)) as (_ & H2 & H3). rewrite Ht in H2, H3. cbn in H2, H3.
    by rewrite H2, H3.
  - destruct (try_acquire 1 (s_sem s)) as (H1 & H2 & H3). rewrite Ht in H1, H2, H3. cbn in H1, H2, H3.
    symmetry in H1. apply bool_decide_eq_true in H1. rewrite length_cons. lia.
  - rewrite length_app, length_cons in *. destruct (release 1 (s_sem s)) as [H1 H2]; [lia|]. lia.
Qed.

Lemma stream_run_inv max st evs st' : stream_run st evs st' → streams_inv max st → streams_inv max st'.
Proof. induction 1; eauto using stream_step_inv. Qed.

Lemma NewServer_inv addr v cas max w :
  (0 ≤ max)%Z → streams_inv max (MkStreams (NewServer addr v cas max) [] w).
Proof. intros. unfold streams_inv. cbn. by rewrite new_held, new_size. Qed.

Lemma step_verifier st ev st' : stream_step st ev st' → verifier (st_server st') = verifier (st_server st).
Proof. by destruct 1. Qed.

Lemma run_verifier st evs st' : stream_run st evs st' → verifier (st_server st') = verifier (st_server st).
Proof. induction 1 as [|???? ? H _ IH]; [done|]. by rewrite IH, (step_verifier _ _ _ H). Qed.

Lemma chunk_reply_status s r w : StatusCode (chunk_reply s r w).1 ≠ StatusTooManyRequests.
Proof.
  unfold chunk_reply, ServeContent. by repeat (case_match; simplify_eq; try done).
Qed.

(** C16. At no time are more than the allowed number of chunk streams active,
    however requests overlap, and a request with a valid signature is turned
    away with a 429 exactly when that many are. *)
Theorem streams_bounded addr v cas max w evs st :
  (0 ≤ max)%Z → stream_run (MkStreams (NewServer addr v cas max) [] w) evs st →
  (Z.of_nat (length (st_active st)) ≤ max)%Z
  ∧ ∀ now r, v now r = Ok tt →
      ((Z.of_nat (length (st_active st)) < max)%Z ↔ ∃ st', stream_step st (Begun r) st')
      ∧ ((Z.of_nat (length (st_active st)) = max)%Z ↔
         StatusCode (handleGetChunk (st_server st) now r (st_os st)).1 = StatusTooManyRequests).
Proof.
  intros Hm Hrun. pose proof (run_verifier _ _ _ Hrun) as Hver. cbn [st_server NewServer verifier] in Hver.
  apply (stream_run_inv max) in Hrun as (Hh & Hs & Hl); [|by apply NewServer_inv].
  split; [done|]. intros now r Hv. destruct st as [s act w1]. cbn [st_server st_active st_os] in *.
  destruct (try_acquire 1 (s_sem s)) as (Ht & _).
  destruct (TryAcquire 1 (s_sem s)) as [ok m] eqn:Et. cbn [fst] in Ht. split.
  - split.
    + intros Hlt. rewrite bool_decide_eq_true_2 in Ht by lia. subst ok.
      eexists. by eapply stream_admit; [rewrite Hver|].
    + intros [st' Hst]. inversion Hst as [| |? ? ? ? ? m' _ Et'|]; subst.
      rewrite Et in Et'. injection Et' as Eok _. apply bool_decide_eq_true in Eok. lia.
  - split.
    + intros Heq. rewrite bool_decide_eq_false_2 in Ht by lia. subst ok.
      unfold handleGetChunk. by rewrite Hver, Hv, Et.
    + unfold handleGetChunk. rewrite Hver, Hv, Et. destruct ok; cbn [negb].
      * pose proof (chunk_reply_status (set_sem m s) r w1) as Hst. by destruct (chunk_reply _ r w1).
      * intros _. symmetry in Ht. apply bool_decide_eq_false in Ht. lia.
Qed.

(** C25. Permits are not lost: from every reachable situation the active
    requests, in as many steps as there are of them, can all be answered, each
    of them is, and then every request with a valid signature is admitted. *)
Theorem streams_drain addr v cas max w evs st :
  (0 < max)%Z → stream_run (MkStreams (NewServer addr v cas max) [] w) evs st →
  ∃ evs' st', stream_run st evs' st' ∧ st_active st' = []
    ∧ Forall2 (λ r ev, ∃ resp, ev = Answered r resp) (st_active st) evs'
    ∧ ∀ now r, v now r = Ok tt → ∃ st'', stream_step st' (Begun r) st''.
Proof.
  intros Hm Hrun. pose proof (run_verifier _ _ _ Hrun) as Hver. cbn [st_server NewServer verifier] in Hver.
  apply (stream_run_inv max) in Hrun; [|by apply NewServer_inv; lia].
  destruct st as [s act w1]. revert s w1 Hver Hrun. cbn [st_active].
  induction act as [|r act IH]; intros s w1 Hver Hinv.
  - exists [], (MkStreams s [] w1). split_and!; [constructor|done|constructor|].
    intros now r Hv. destruct Hinv as (Hh & Hs & _). cbn in Hh, Hs, Hver.
    destruct (try_acquire 1 (s_sem s)) as (Ht & _).
    destruct (TryAcquire 1 (s_sem s)) as [ok m] eqn:Et. cbn [fst] in Ht.
    rewrite bool_decide_eq_true_2 in Ht by lia. subst ok.
    eexists. by eapply stream_admit; [rewrite Hver|].
  - destruct (chunk_reply s r w1) as [resp w2] eqn:Er.
    pose proof (stream_done s [] act w1 r resp w2 Er) as Hstep. cbn [app] in Hstep.
    destruct (IH (set_sem (Release 1 (s_sem s)) s) w2) as (evs' & st' & Hr & Ha & Hf & Hadm).
    + exact Hver.
    + by eapply stream_step_inv.
    + exists (Answered r resp :: evs'), st'. split_and!; [by econstructor|done| |done].
      constructor; [eauto|done].
Qed.

End handlers.

(** ** The client on its own *)

(** C26. Whatever a peer answers and whichever I/O fails, [FetchSingle] keeps
    every object hashing to its name and loses none; without an error the
    chunk is in the store afterwards, and an error from the peer leaves all
    files as they were. *)
Theorem FetchSingle_safe tr c now peerAddr hash w r w' :
  FetchSingle tr c now peerAddr hash w = (r, w') →
  (Cas.cas_inv (c_cas c) w → Cas.cas_inv (c_cas c) w')
  ∧ (∀ k, Cas.has_object (c_cas c) w k → Cas.has_object (c_cas c) w' k)
  ∧ match r with
    | None => Cas.has_object (c_cas c) w' hash
    | Some (RateLimitError _ _) => w' = w
    | Some (FetchError e) =>
        w' = w ∨ ∃ data, Cas.Put (c_cas c) hash data w = (Err e, w')
    end.
Proof.
  assert (w' = w → (Cas.cas_inv (c_cas c) w → Cas.cas_inv (c_cas c) w')
    ∧ ∀ k, Cas.has_object (c_cas c) w k → Cas.has_object (c_cas c) w' k) as Hsame by (by intros ->).
  unfold FetchSingle. destruct (NewRequest tr peerAddr _) as [req|]; [|intros; simplify_eq; naive_solver].
  destruct (tr_do tr peerAddr _) as [resp|]; [|intros; simplify_eq; naive_solver].
  case_match; [|repeat case_match; intros; simplify_eq; naive_solver].
  destruct (read_body resp) as [data|]; [|intros; simplify_eq; naive_solver].
  destruct (Cas.Put (c_cas c) hash data w) as [[[]|e] w1] eqn:EP; intros; simplify_eq;
    (split_and!; [by eapply Cas.Put_inv|intros k; by eapply Cas.Put_keeps|]);
    [by eapply Cas.Put_ok|eauto].
Qed.

(** The delay a busy server of this program asks for. *)
Lemma busy_retry : ParseRateLimit busy_reply = (2 * Second)%Z.
Proof. vm_compute. reflexivity. Qed.

(** The delay taken from a [Retry-After] header: exact for up to
    9223372036 seconds, two seconds when there is no positive number, zero for
    other answers; a larger number of seconds overflows, and 9223372037 gives a
    negative delay. *)
Theorem ParseRateLimit_spec resp :
  (StatusCode resp ≠ StatusTooManyRequests → ParseRateLimit resp = 0)%Z
  ∧ (StatusCode resp = StatusTooManyRequests →
     match Atoi (response_Get resp "Retry-After") with
     | Some n =>
         (n ≤ 0 → ParseRateLimit resp = 2 * Second)
         ∧ (0 < n ≤ 9223372036 → ParseRateLimit resp = n * Second)
         ∧ (n = 9223372037 → ParseRateLimit resp < 0)
     | None => ParseRateLimit resp = 2 * Second
     end)%Z.
Proof.
  unfold ParseRateLimit. split.
  - intros H. by rewrite (proj2 (Z.eqb_neq _ _) H).
  - intros ->. rewrite Z.eqb_refl. cbn [negb].
    destruct (Atoi _) as [n|]; [|done]. split_and!.
    + intros. by rewrite (proj2 (Z.ltb_ge _ _)) by lia.
    + intros. rewrite (proj2 (Z.ltb_lt _ _)) by lia. unfold seconds_Duration.
      apply i64_small. unfold is_i64, Second. lia.
    + intros ->. by vm_compute.
Qed.

End Dataplane.

(** ** An instance of the semaphore *)

(** The weight held and the size. *)
Definition counting_sem : Semaphore := {|
  sem := Z * Z;
  NewWeighted n := (0, n)%Z;
  TryAcquire n s := if (s.1 + n <=? s.2)%Z then (true, (s.1 + n, s.2))%Z else (false, s);
  Release n s := (s.1 - n, s.2)%Z;
  sem_held s := s.1;
  sem_size s := s.2;
|}.

Lemma counting_sem_laws : SemaphoreLaws counting_sem.
Proof.
  constructor; [done..| |done]. intros n [h s]. cbn [TryAcquire sem_held sem_size counting_sem fst snd].
  destruct (Z.leb_spec (h + n) s); cbn [fst snd].
  - by rewrite bool_decide_eq_true_2.
  - by rewrite bool_decide_eq_false_2 by lia.
Qed.

Module DataplaneExamples.
Import Meta Auth Http Dataplane.

#[local] Existing Instance map_bolt.
#[local] Existing Instance counting_sem.
#[local] Existing Instance counting_sem_laws.

(** A server for one stream at a time. *)
Definition ex_server : Server :=
  NewServer "0.0.0.0:9001" (VerifyHTTP bob) (Cas.MkCAS "/d") 1.

Definition ex_unsigned : Request := MkRequest (bytes_of "GET") (bytes_of "/meta?id=a") ∅.

Lemma serve_refuses_witness :
  ∃ resp, StatusCode resp ∈ [StatusForbidden; StatusNotFound; StatusMovedPermanently]
    ∧ ∀ (b : bucket) w, serve ex_server b 0 ex_unsigned w = (resp, (ex_server, w)).
Proof.
  apply (serve_refuses ex_server 0 ex_unsigned (EMsg "missing or invalid authorization header")).
  vm_compute. reflexivity.
Defined.

(** A verifier that takes everything, for runs without computing signatures. *)
Definition ex_open : Server := NewServer "0.0.0.0:9001" (λ _ _, Ok tt) (Cas.MkCAS "/d") 1.

Lemma ex_admitted :
  ∃ st, stream_run (MkStreams ex_open [] (Os ∅ [])) [Begun get_chunk] st ∧ st_active st = [get_chunk].
Proof.
  eexists. split; [econstructor; [by apply (stream_admit _ _ _ 0)|constructor]|done].
Qed.

Lemma streams_bounded_witness :
  ∃ st, stream_run (MkStreams ex_open [] (Os ∅ [])) [Begun get_chunk] st
    ∧ StatusCode (handleGetChunk (st_server st) 0 get_chunk (st_os st)).1 = StatusTooManyRequests.
Proof.
  destruct ex_admitted as (st & Hr & Ha). exists st. split; [exact Hr|].
  apply (streams_bounded "0.0.0.0:9001" (λ _ _, Ok tt) (Cas.MkCAS "/d") 1 (Os ∅ []) [Begun get_chunk] st);
    [lia|exact Hr|reflexivity|]. rewrite Ha. reflexivity.
Defined.

Lemma streams_drain_witness :
  ∃ st evs' st', stream_run (MkStreams ex_open [] (Os ∅ [])) [Begun get_chunk] st
    ∧ stream_run st evs' st' ∧ st_active st' = [].
Proof.
  destruct ex_admitted as (st & Hr & Ha).
  destruct (streams_drain "0.0.0.0:9001" (λ _ _, Ok tt) (Cas.MkCAS "/d") 1 (Os ∅ []) [Begun get_chunk] st)
    as (evs' & st' & H1 & H2 & _); [lia|exact Hr|]. exists st, evs', st'. split; [exact Hr|]. split; assumption.
Defined.

(** A peer that answers every request with the same bytes. *)
Definition ex_liar : Transport :=
  MkTransport (λ _, true) (λ _ _, Ok (MkResponse StatusOK ∅ (bytes_of "junk") true)).

Definition ex_client : Client := NewClient (SignHTTP alice) (Cas.MkCAS "/d").

Lemma FetchSingle_safe_witness :
  Cas.cas_inv (Cas.MkCAS "/d") (FetchSingle ex_liar ex_client 0 "10.0.0.2:9001" zero32 (Os ∅ [])).2.
Proof.
  destruct (FetchSingle ex_liar ex_client 0 "10.0.0.2:9001" zero32 (Os ∅ [])) as [r w'] eqn:E.
  apply (FetchSingle_safe ex_liar ex_client 0 "10.0.0.2:9001" zero32 (Os ∅ []) r w' E).
  intros h data Hd. cbn [os_files] in Hd. rewrite lookup_empty in Hd. discriminate Hd.
Defined.

End DataplaneExamples.
