(* ===== verification/Wire.v ===== *)
(** * The data plane over the wire

    [wire] is the transport that carries a client's request, through the
    request line and the headers, to the server of a host of this development.
    The theorems say that what a client fetches from a peer it shares the secret
    with is what the peer has, and where file names get lost on the way. *)

From Stdlib Require Import Strings.Byte.
From S2P Require Import Prelude GoBytes GoFloat Sha256 Strconv Json Meta Path Fs Cas Auth Http.
From S2P Require Import Dataplane.

Module Wire.
Import Meta Auth Http Dataplane.

Section wire.
Context `{B : Bolt} `{W : Semaphore}.

(** A node as its data plane sees it. *)
Record Host := MkHost { h_server : Server; h_index : bucket; h_os : os }.

(** [http.Client.Do] against a host: the client checks the header values and
    writes the request line, the server reads it and runs the mux. *)
Definition deliver (h : Host) (now : Z) (req : Request) : result Response :=
  if negb (headers_ok req) then Err (EMsg "net/http: invalid header field value") else
  match ReadRequest (request_line (rq_Method req) (rq_URI req)) (rq_Header req) with
  | inl status => Ok (http_Error ∅ "Bad Request" status)
  | inr r => Ok (serve (h_server h) (h_index h) now r (h_os h)).1
  end.

(** The hosts by address; [now] is the clock of the server that is asked. *)
Definition wire (authority : string → bool) (hosts : string → option Host) (now : Z) : Transport :=
  MkTransport authority (λ addr req,
    match hosts addr with
    | None => Err (EMsg "dial")
    | Some h => deliver h now req
    end).

(** *** Header values on their way *)

Lemma graphic_not_ctl b : graphic b = true → is_ctl b = false.
Proof. unfold graphic, is_ctl. lia. Qed.

Lemma graphic_valid l : Forall (λ b, graphic b = true) l → valid_header_value l = true.
Proof.
  intros H. apply forallb_forall. intros b Hb. rewrite Forall_forall in H.
  by rewrite graphic_not_ctl by (by apply H, list_elem_of_In).
Qed.

Lemma trim_graphic p l :
  Forall (λ b, graphic b = true) (take 1 (p ++ l)) → Forall (λ b, graphic b = true) l → l ≠ [] →
  trim (p ++ l) = p ++ l.
Proof.
  intros Hp Hl Hne. destruct l as [|c l _] using rev_ind; [done|].
  apply Forall_app in Hl as [_ Hc]. rewrite Forall_singleton in Hc.
  destruct (p ++ l) as [|b r] eqn:E.
  - apply app_nil in E as [-> ->]. unfold trim. simpl.
    assert (¬ (c = x20 ∨ c = x09)) as Hn by (intros [E|E]; by apply (graphic_ne c _ Hc) in E).
    rewrite decide_False by done. simpl. by rewrite decide_False.
  - rewrite app_assoc, E in Hp |- *. rewrite <- app_comm_cons in *.
    cbn [take] in Hp. rewrite Forall_singleton in Hp.
    apply trim_plain; by apply graphic_ne.
Qed.

Lemma FormatInt_ne n : FormatInt n ≠ [].
Proof. unfold FormatInt. case_match; [done|apply FormatUint_ne]. Qed.

Lemma b64_encode_ne l : l ≠ [] → b64_encode l ≠ [].
Proof. by destruct l as [|a [|b [|c l]]]. Qed.

(** The two headers the verifier reads are not changed by trimming. *)
Lemma SignHTTP_trim a now req :
  header_Get (MkRequest (rq_Method req) (rq_URI req) (trim <$> rq_Header (SignHTTP a now req))) "Authorization"
  = header_Get (SignHTTP a now req) "Authorization"
  ∧ header_Get (MkRequest (rq_Method req) (rq_URI req) (trim <$> rq_Header (SignHTTP a now req))) "X-NuSync-Timestamp"
    = header_Get (SignHTTP a now req) "X-NuSync-Timestamp".
Proof.
  assert (∀ m u h k, header_Get (MkRequest m u (trim <$> h)) k = trim (header_Get (MkRequest m u h) k)) as Ht.
  { intros m u h k. unfold header_Get. cbn [rq_Header]. rewrite lookup_fmap. by destruct (h !! _). }
  rewrite !Ht. destruct (SignHTTP_headers a now req) as [E1 E2].
  change (header_Get (MkRequest _ _ (rq_Header (SignHTTP a now req))))
    with (header_Get (SignHTTP a now req)). rewrite E1, E2. split.
  - apply trim_graphic; [by repeat constructor|apply b64_encode_graphic|].
    apply b64_encode_ne. intros E. apply (f_equal length) in E. by rewrite length_hmac_sha256 in E.
  - apply (trim_graphic []); [|apply FormatInt_graphic|apply FormatInt_ne].
    apply Forall_take, FormatInt_graphic.
Qed.

Lemma SignHTTP_headers_ok a now m u :
  valid_header_value (nodeID a) = true → headers_ok (SignHTTP a now (MkRequest m u ∅)) = true.
Proof.
  intros Hn. apply bool_decide_eq_true. unfold SignHTTP, header_Set. cbn [rq_Header].
  apply map_Forall_insert_2; [done|]. apply map_Forall_insert_2; [apply graphic_valid, FormatInt_graphic|].
  apply map_Forall_insert_2; [|apply map_Forall_empty].
  unfold valid_header_value. rewrite forallb_app.
  by rewrite (graphic_valid (b64_encode _)) by apply b64_encode_graphic.
Qed.

(** *** A request that arrives *)

(** A client with credentials [a] and clock [now], and the host [h] at [addr]
    with credentials [b] and clock [now'], can talk: they share the secret,
    their clocks are close enough, and the client's name can be sent. *)
Record connected (authority : string → bool) (hosts : string → option Host)
    (a b : hmacAuth) (now now' : Z) (addr : string) (h : Host) : Prop := {
  cn_authority : authority addr = true;
  cn_host : hosts addr = Some h;
  cn_verifier : verifier (h_server h) = VerifyHTTP b;
  cn_secret : secret b = secret a;
  cn_clock : is_i64 now;
  cn_fresh : expired now' (unix now) = false;
  cn_name : valid_header_value (nodeID a) = true;
}.

(** The verifier looks at nothing else. *)
Lemma VerifyHTTP_ext a now r r' :
  rq_Method r' = rq_Method r → rq_URI r' = rq_URI r →
  header_Get r' "Authorization" = header_Get r "Authorization" →
  header_Get r' "X-NuSync-Timestamp" = header_Get r "X-NuSync-Timestamp" →
  VerifyHTTP a now r' = VerifyHTTP a now r.
Proof. intros E1 E2 E3 E4. unfold VerifyHTTP. by rewrite E1, E2, E3, E4. Qed.

Section exchange.
Variables (authority : string → bool) (hosts : string → option Host).
Variables (a b : hmacAuth) (now now' : Z) (addr : string) (h : Host).
Hypothesis Hcn : connected authority hosts a b now now' addr h.

Let tr := wire authority hosts now'.

(** What the server's mux sees of a signed [GET]. *)
Definition arrived (uri : list byte) : Request :=
  MkRequest (bytes_of "GET") uri
    (trim <$> rq_Header (SignHTTP a now (MkRequest (bytes_of "GET") uri ∅))).

Lemma arrived_verified uri : verifier (h_server h) now' (arrived uri) = Ok tt.
Proof using Hcn.
  destruct Hcn as [_ _ -> Hs Hc Hf _].
  destruct (SignHTTP_trim a now (MkRequest (bytes_of "GET") uri ∅)) as [E1 E2].
  rewrite <- (SignHTTP_accepted a b now now' (MkRequest (bytes_of "GET") uri ∅) Hs Hc Hf).
  by apply VerifyHTTP_ext.
Qed.

Lemma exchange uri u :
  x20 ∉ uri → parse_rest uri = Some u → RequestURI u = uri →
  tr_do tr addr (SignHTTP a now (MkRequest (bytes_of "GET") uri ∅))
  = Ok (serve (h_server h) (h_index h) now' (arrived uri) (h_os h)).1.
Proof using Hcn.
  intros Hsp Hp Hr. subst tr. cbn [tr_do wire]. rewrite (cn_host _ _ _ _ _ _ _ _ Hcn).
  unfold deliver. rewrite SignHTTP_headers_ok by apply Hcn. cbn [negb].
  change (rq_Method (SignHTTP _ _ _)) with (bytes_of "GET").
  change (rq_URI (SignHTTP _ _ _)) with uri.
  rewrite (ReadRequest_line _ _ u) by (done || (apply (bool_decide_unpack _); vm_compute; exact I)).
  done.
Qed.

(** Paths and keys of the program are made of these. *)
Definition word_byte (c : byte) : bool := url_safe c && bool_decide (c ≠ x3f ∧ c ≠ x3d).

(** Values that are sent as they are: safe bytes, or plus signs. *)
Definition value_byte (c : byte) : bool := url_safe c || bool_decide (c = x2b).

Lemma class_bytes (P : byte → bool) l :
  (∀ c, P c = true → is_ctl c = false) → forallb P l = true →
  existsb is_ctl l = false ∧ ∀ c, P c = false → c ∉ l.
Proof.
  intros HP. induction l as [|c l IH]; [split; [done|intros; apply not_elem_of_nil]|].
  cbn [forallb existsb]. intros [Hc Hl]%andb_true_iff. specialize (IH Hl) as [-> IH].
  split; [by rewrite HP|]. intros d Hd [->|Hin]%elem_of_cons; [congruence|]. by apply (IH d).
Qed.

Lemma word_bytes l :
  forallb word_byte l = true → existsb is_ctl l = false ∧ ∀ c, word_byte c = false → c ∉ l.
Proof.
  apply class_bytes. unfold word_byte. intros c [Hc _]%andb_true_iff. by apply url_safe_spec.
Qed.

Lemma value_bytes l :
  forallb value_byte l = true → existsb is_ctl l = false ∧ ∀ c, value_byte c = false → c ∉ l.
Proof.
  apply class_bytes. unfold value_byte.
  intros c [Hc| ->%bool_decide_eq_true]%orb_true_iff; [by apply url_safe_spec|done].
Qed.

(** A [GET] of one path with one parameter. *)
Lemma exchange_param path key v :
  forallb word_byte path = true → forallb word_byte key = true → forallb value_byte v = true →
  let uri := path ++ x3f :: key ++ x3d :: v in
  NewRequest tr addr uri = Ok (MkRequest (bytes_of "GET") uri ∅)
  ∧ tr_do tr addr (SignHTTP a now (MkRequest (bytes_of "GET") uri ∅))
    = Ok (serve (h_server h) (h_index h) now' (arrived uri) (h_os h)).1
  ∧ (cut x3f uri).1 = path
  ∧ query_Get (default [] (cut x3f uri).2) key = plus_to_space <$> v.
Proof using Hcn.
  intros Hp Hk Hv uri.
  destruct (word_bytes _ Hp) as [Cp Np]. destruct (word_bytes _ Hk) as [Ck Nk].
  destruct (value_bytes _ Hv) as [Cv Nv].
  assert (∀ c, c ≠ x3f → c ≠ x3d → word_byte c = false → value_byte c = false → c ∉ key ++ x3d :: v) as Nq.
  { intros c H1 H2 Hw Hc. rewrite elem_of_app, elem_of_cons. intros [Hi|[Hi|Hi]];
      [exact (Nk c Hw Hi)|done|exact (Nv c Hc Hi)]. }
  assert (existsb is_ctl uri = false) as Cu.
  { unfold uri. rewrite existsb_app. cbn [existsb]. rewrite existsb_app. cbn [existsb].
    by rewrite Cp, Ck, Cv. }
  assert (url_Parse uri = Some (MkURL path (Some (key ++ x3d :: v)))) as Hu.
  { apply url_Parse_plain; [done|..]; try (by apply Np). by apply Nq. }
  split_and!.
  - unfold NewRequest. rewrite Hu. subst tr. cbn [tr_authority wire].
    by rewrite (cn_authority _ _ _ _ _ _ _ _ Hcn).
  - eapply exchange; [|apply parse_rest_plain; [done|by apply Np..]|done].
    unfold uri. rewrite elem_of_app, elem_of_cons. intros [Hi|[Hi|Hi]];
      [exact (Np x20 eq_refl Hi)|discriminate Hi|].
    by apply (Nq x20).
  - unfold uri. by rewrite cut_app by (by apply Np).
  - unfold uri. rewrite cut_app by (by apply Np). cbn [snd].
    apply query_Get_one; (by apply Nk) || (by apply Nv).
Qed.

(** *** Records *)

Lemma Decode_Encode hd v :
  Json.wf_value v → Decode (MkResponse StatusOK hd (Encode v) true) = Some (Json.clean_value v).
Proof.
  intros Hw. unfold Decode, Encode. cbn [rs_Body rs_whole].
  rewrite Json.decode_text_print by done. cbn [mbind option_bind].
  by destruct (Json.clean_value v).
Qed.

(** The name under which the server looks. *)
Definition asked_name (fileID : string) : string := string_of (plus_to_space <$> bytes_of fileID).

Lemma FetchMeta_asks cas fileID :
  forallb value_byte (bytes_of fileID) = true →
  FetchMeta tr (NewClient (SignHTTP a) cas) now addr fileID
  = match GetFileMeta (h_index h) (asked_name fileID) with
    | Ok m => Ok (json_image m)
    | Err _ => Err (EMsg "failed to fetch meta: HTTP %d")
    end.
Proof using Hcn.
  intros Hid.
  destruct (exchange_param (bytes_of "/meta") (bytes_of "id") (bytes_of fileID) eq_refl eq_refl Hid)
    as (H1 & H2 & H3 & H4).
  change (bytes_of "/meta" ++ x3f :: bytes_of "id" ++ x3d :: bytes_of fileID) with (meta_target fileID) in *.
  unfold FetchMeta, NewClient. cbn [signer]. rewrite H1, H2.
  assert ((serve (h_server h) (h_index h) now' (arrived (meta_target fileID)) (h_os h)).1
    = handleGetMeta (h_server h) (h_index h) now' (arrived (meta_target fileID))) as ->.
  { unfold serve. change (rq_URI (arrived (meta_target fileID))) with (meta_target fileID). by rewrite H3. }
  unfold handleGetMeta. rewrite arrived_verified. unfold query_param.
  change (rq_URI (arrived (meta_target fileID))) with (meta_target fileID). rewrite H4.
  fold (asked_name fileID).
  destruct (GetFileMeta (h_index h) (asked_name fileID)) as [m|e] eqn:Em; [|done].
  cbn [StatusCode]. change (negb (StatusOK =? StatusOK)%Z) with false. cbv iota.
  apply GetFileMeta_range in Em.
  rewrite Decode_Encode by (by apply meta_value_wf). cbn [mbind option_bind].
  by rewrite dec_meta_value.
Qed.

(** *** The catalog *)

Definition entry_image (e : CatalogEntry) : CatalogEntry :=
  MkCatalogEntry (string_of (Json.sanitize (bytes_of (ce_FileID e)))) (ce_MerkleRoot e) (ce_LamportTS e).

Lemma entry_value_wf e : is_u64 (ce_LamportTS e) → Json.wf_value (entry_value e).
Proof.
  intros H. unfold is_u64 in H. cbn.
  split_and!; [done|apply Json.wf_enc_array32|apply Json.canon_FormatUint; lia|done].
Qed.

Lemma dec_entry_value e :
  is_u64 (ce_LamportTS e) →
  Json.dec_struct entry_fields (Json.clean_value (entry_value e)) zero_entry = Some (entry_image e).
Proof.
  intros H. unfold entry_value. cbn [Json.clean_value]. rewrite !fmap_cons. cbn [fst snd].
  rewrite Json.clean_enc_array32, !Json.clean_enc_uint.
  repeat match goal with
  | |- context [Json.sanitize (bytes_of ?s)] =>
      lazymatch s with ce_FileID _ => fail | _ =>
      replace (Json.sanitize (bytes_of s)) with (bytes_of s) by (vm_compute; reflexivity) end
  end.
  cbn [Json.dec_struct].
  erewrite Json.dec_members_field; [|reflexivity|reflexivity].
  erewrite Json.dec_members_field; [|reflexivity|cbn [snd]; rewrite Json.dec_enc_array32; reflexivity].
  erewrite Json.dec_members_field;
    [|reflexivity|cbn [snd]; rewrite (Json.dec_enc_uint 64) by done; reflexivity].
  done.
Qed.

Lemma catalog_roundtrip h' es :
  Forall (λ e, is_u64 (ce_LamportTS e)) es →
  (v ← Decode (MkResponse StatusOK h' (Encode (catalog_value es)) true); dec_catalog v)
  = Some (entry_image <$> es).
Proof.
  intros Hes. assert (Json.wf_value (catalog_value es)) as Hw.
  { destruct es as [|e es]; [done|]. unfold catalog_value. revert Hes. generalize (e :: es) as l.
    intros l Hl. cbn. induction Hl; csimpl; [done|]. split; [by apply entry_value_wf|done]. }
  rewrite Decode_Encode by done. cbn [mbind option_bind].
  destruct es as [|e es]; [done|]. unfold catalog_value. revert Hes. generalize (e :: es) as l.
  intros l Hl. cbn [Json.clean_value dec_catalog]. clear Hw.
  induction Hl as [|x l Hx Hl IH]; [done|]. rewrite !fmap_cons. cbn [mapM].
  rewrite dec_entry_value by done. cbn [mbind option_bind]. by rewrite IH.
Qed.

(** The catalog fetched over HTTP is the catalog of the peer's index, one
    entry after the other, ill-formed UTF-8 of the names repaired. *)
Lemma FetchCatalog_served cas :
  FetchCatalog tr (NewClient (SignHTTP a) cas) now addr = Ok (entry_image <$> ListCatalog (h_index h)).
Proof using Hcn.
  unfold FetchCatalog, NewRequest, NewClient. cbn [signer].
  change (url_Parse (bytes_of "/catalog")) with (Some (MkURL (bytes_of "/catalog") None)). cbv iota.
  change (tr_authority tr addr) with (authority addr). rewrite (cn_authority _ _ _ _ _ _ _ _ Hcn).
  change (RequestURI (MkURL (bytes_of "/catalog") None)) with (bytes_of "/catalog").
  rewrite (exchange (bytes_of "/catalog") (MkURL (bytes_of "/catalog") None))
    by (done || (apply (bool_decide_unpack _); vm_compute; exact I)).
  change ((serve (h_server h) (h_index h) now' (arrived (bytes_of "/catalog")) (h_os h)).1)
    with (handleGetCatalog (h_server h) (h_index h) now' (arrived (bytes_of "/catalog"))).
  unfold handleGetCatalog. rewrite arrived_verified. cbn [StatusCode].
  change (negb (StatusOK =? StatusOK)%Z) with false. cbv iota.
  by rewrite catalog_roundtrip by apply ListCatalog_range.
Qed.

(** *** Chunks *)

Lemma url_safe_value l : forallb url_safe l = true → forallb value_byte l = true.
Proof.
  rewrite !forallb_forall. intros H c Hc. unfold value_byte. by rewrite H.
Qed.

Lemma plus_to_space_safe l : forallb url_safe l = true → plus_to_space <$> l = l.
Proof.
  induction l as [|c l IH]; [done|]. cbn [forallb]. intros [Hc Hl]%andb_true_iff. csimpl.
  rewrite IH by done. unfold plus_to_space. rewrite decide_False; [done|].
  by apply url_safe_spec in Hc as (_ & _ & _ & _ & _ & ? & _).
Qed.

Lemma hex_url_safe l : forallb url_safe (bytes_of (hex_EncodeToString l)) = true.
Proof.
  induction l as [|c l IH]; [done|].
  change (forallb url_safe (Ascii.byte_of_ascii (hex_digit (Z.shiftr (byte_Z c) 4))
    :: Ascii.byte_of_ascii (hex_digit (Z.land (byte_Z c) 15)) :: bytes_of (hex_EncodeToString l)) = true).
  cbn [forallb]. rewrite IH, andb_true_r.
  exact (forall_byte (λ c, url_safe (Ascii.byte_of_ascii (hex_digit (Z.shiftr (byte_Z c) 4)))
    && url_safe (Ascii.byte_of_ascii (hex_digit (Z.land (byte_Z c) 15)))) ltac:(vm_compute; reflexivity) c).
Qed.

(** The handler's answer once a permit is there, in terms of the store. *)
Lemma chunk_reply_arrived hash w :
  let s := h_server h in
  chunk_reply s (arrived (chunk_target hash)) w
  = match Cas.GetFile (s_cas s) hash w with
    | (Err _, w) => (http_Error ∅ "Chunk not found" StatusNotFound, w)
    | (Ok file, w) =>
        match file_Stat w with
        | (Err _, w) => (http_Error ∅ "Internal server error" StatusInternalServerError, w)
        | (Ok _, w) => ServeContent (set_header "X-Content-Type-Options" "nosniff" ∅) file w
        end
    end.
Proof using Hcn.
  intros s. pose proof (hex_url_safe (a32_bytes hash)) as Hs.
  destruct (exchange_param (bytes_of "/chunk") (bytes_of "h") _ eq_refl eq_refl (url_safe_value _ Hs))
    as (_ & _ & _ & H4).
  unfold chunk_reply, query_param.
  change (rq_URI (arrived (chunk_target hash))) with
    (bytes_of "/chunk" ++ x3f :: bytes_of "h" ++ x3d :: bytes_of (hex_EncodeToString (a32_bytes hash))).
  rewrite H4, plus_to_space_safe by done.
  rewrite length_bytes_of, length_hex_EncodeToString, length_a32. cbn [Nat.mul Nat.add Nat.eqb negb].
  rewrite string_of_bytes_of, hex_DecodeString_Encode, length_a32. cbn [Nat.eqb negb].
  by rewrite copy32_id.
Qed.

Lemma FetchChunk_asks cas hash :
  let s := h_server h in
  FetchChunk tr (NewClient (SignHTTP a) cas) now addr hash
  = if (TryAcquire 1 (s_sem s)).1 then
      match Cas.GetFile (s_cas s) hash (h_os h) with
      | (Err _, _) => Err ErrChunkNotFound
      | (Ok file, w) =>
          match file_Stat w with
          | (Err _, _) => Err (EMsg "unexpected HTTP status code: %d")
          | (Ok _, w) =>
              match (os_next w).1 with
              | IoOk => Ok file
              | IoFail => Err (EMsg "unexpected HTTP status code: %d")
              | IoPartial _ => Err (EMsg "unexpected EOF")
              end
          end
      end
    else Err ErrRateLimited.
Proof using Hcn.
  intros s. pose proof (hex_url_safe (a32_bytes hash)) as Hs.
  destruct (exchange_param (bytes_of "/chunk") (bytes_of "h") _ eq_refl eq_refl (url_safe_value _ Hs))
    as (H1 & H2 & H3 & _).
  change (bytes_of "/chunk" ++ x3f :: bytes_of "h" ++ x3d :: bytes_of (hex_EncodeToString (a32_bytes hash)))
    with (chunk_target hash) in *.
  unfold FetchChunk, NewClient. cbn [signer]. rewrite H1, H2.
  assert ((serve (h_server h) (h_index h) now' (arrived (chunk_target hash)) (h_os h))
    = handleGetChunk (h_server h) now' (arrived (chunk_target hash)) (h_os h)) as ->.
  { unfold serve. change (rq_URI (arrived (chunk_target hash))) with (chunk_target hash). by rewrite H3. }
  unfold handleGetChunk. rewrite arrived_verified.
  destruct (TryAcquire 1 (s_sem (h_server h))) as [ok m] eqn:Et. subst s. rewrite Et.
  destruct ok; cbn [negb fst]; [|done].
  change (chunk_reply (set_sem m (h_server h))) with (chunk_reply (h_server h)).
  rewrite chunk_reply_arrived.
  destruct (Cas.GetFile _ _ _) as [[file|e] w]; [|done].
  destruct (file_Stat w) as [[[]|e] w']; [|done].
  unfold ServeContent. by destruct (os_next w') as [[]].
Qed.

(** *** Names that do not survive the URL *)

Lemma cut_parts sep l : l = (cut sep l).1 ++ match (cut sep l).2 with Some r => sep :: r | None => [] end.
Proof.
  induction l as [|b' l IH]; [done|]. cbn [cut]. case_decide as E; [by subst|].
  destruct (cut sep l) as [x y]. cbn [fst snd] in *. by rewrite IH at 1.
Qed.

Lemma cut_skip sep p l : sep ∉ p → cut sep (p ++ l) = (p ++ (cut sep l).1, (cut sep l).2).
Proof.
  induction p as [|b' p IH]; intros H; [simpl; by destruct (cut sep l)|]. cbn [app cut].
  rewrite decide_False by set_solver. rewrite IH by set_solver. done.
Qed.

Lemma RequestURI_parse l u : parse_rest l = Some u → RequestURI u = l.
Proof.
  unfold parse_rest. case_match; [done|]. destruct (cut x3f l) as [p q] eqn:E.
  intros (? & _ & Hu)%bind_Some. simplify_eq. unfold RequestURI. cbn [u_Path u_RawQuery].
  rewrite (cut_parts x3f l), E. done.
Qed.

Lemma FetchMeta_space cas pre rest :
  forallb value_byte (bytes_of pre) = true →
  is_ok (FetchMeta tr (NewClient (SignHTTP a) cas) now addr
    (string_of (bytes_of pre ++ x20 :: rest))) = false.
Proof using Hcn.
  intros Hpre. destruct (value_bytes _ Hpre) as [_ Np].
  set (p := bytes_of "/meta?id=" ++ bytes_of pre).
  assert (meta_target (string_of (bytes_of pre ++ x20 :: rest)) = p ++ x20 :: rest) as Et.
  { unfold meta_target. rewrite bytes_of_string_of. unfold p. by rewrite <- app_assoc. }
  assert (∀ c, bool_decide (c ∈ bytes_of "/meta?id=") = false → value_byte c = false → c ∉ p) as Hn.
  { intros c H1%bool_decide_eq_false H2. unfold p. rewrite elem_of_app.
    intros [Hi|Hi]; [done|exact (Np c H2 Hi)]. }
  assert (x23 ∉ p) as P23 by (by apply Hn). assert (x20 ∉ p) as P20 by (by apply Hn).
  unfold FetchMeta, NewRequest, NewClient. cbn [signer]. rewrite Et.
  destruct (url_Parse (p ++ x20 :: rest)) as [u|] eqn:Eu; [|done].
  change (tr_authority tr addr) with (authority addr). rewrite (cn_authority _ _ _ _ _ _ _ _ Hcn).
  assert (∃ rest', RequestURI u = p ++ x20 :: rest') as [rest' Er].
  { unfold url_Parse in Eu. rewrite cut_skip in Eu by done. cbn [cut] in Eu.
    rewrite decide_False in Eu by done. destruct (cut x23 rest) as [r f]. cbn [fst snd] in Eu.
    apply bind_Some in Eu as (? & _ & Eu). apply RequestURI_parse in Eu. eauto. }
  rewrite Er. change (tr_do tr addr) with (λ req, match hosts addr with
    | None => Err (EMsg "dial") | Some h => deliver h now' req end). cbv beta.
  rewrite (cn_host _ _ _ _ _ _ _ _ Hcn). unfold deliver.
  rewrite SignHTTP_headers_ok by apply Hcn. cbn [negb].
  change (rq_Method (SignHTTP _ _ _)) with (bytes_of "GET").
  change (rq_URI (SignHTTP _ _ _)) with (p ++ x20 :: rest').
  rewrite ReadRequest_space; [done| |done].
  apply (bool_decide_unpack _). vm_compute. exact I.
Qed.

(** *** What the client gets *)

(** A record fetched over HTTP is the record of the peer's index: for a
    name whose bytes stand for themselves in a URL, [FetchMeta] through
    signature, request line, mux and JSON gives what [GetFileMeta] gives on the
    peer, ill-formed UTF-8 of the name repaired, and fails exactly when that
    fails. *)
Theorem FetchMeta_served cas fileID :
  forallb url_safe (bytes_of fileID) = true →
  FetchMeta tr (NewClient (SignHTTP a) cas) now addr fileID
  = match GetFileMeta (h_index h) fileID with
    | Ok m => Ok (json_image m)
    | Err _ => Err (EMsg "failed to fetch meta: HTTP %d")
    end.
Proof using Hcn.
  intros Hid. rewrite FetchMeta_asks by (by apply url_safe_value).
  unfold asked_name. by rewrite plus_to_space_safe, string_of_bytes_of.
Qed.

(** C37. File names are put into the URL as they are.  For a name with plus signs
    the client gets the record of the file whose name has spaces instead, and a
    name with a space is never fetched. *)
Theorem FetchMeta_unescaped cas fileID :
  (forallb value_byte (bytes_of fileID) = true →
   FetchMeta tr (NewClient (SignHTTP a) cas) now addr fileID
   = match GetFileMeta (h_index h) (asked_name fileID) with
     | Ok m => Ok (json_image m)
     | Err _ => Err (EMsg "failed to fetch meta: HTTP %d")
     end)
  ∧ ∀ pre rest, forallb value_byte (bytes_of pre) = true →
     fileID = string_of (bytes_of pre ++ x20 :: rest) →
     is_ok (FetchMeta tr (NewClient (SignHTTP a) cas) now addr fileID) = false.
Proof using Hcn.
  split; [apply FetchMeta_asks|]. intros pre rest Hpre ->. by apply FetchMeta_space.
Qed.

(** C17. A chunk fetched over HTTP is the object of the peer's store: whatever
    I/O fails on the peer, data that [FetchChunk] returns is the whole object;
    without failures the object is returned when there is one and a stream is
    free, and the two other cases are told apart. *)
Theorem FetchChunk_served `{!SemaphoreLaws W} cas hash :
  let s := h_server h in
  let object := os_files (h_os h) !! Cas.object_path (s_cas s) hash in
  (∀ data, FetchChunk tr (NewClient (SignHTTP a) cas) now addr hash = Ok data → object = Some data)
  ∧ (os_io (h_os h) = [] →
     FetchChunk tr (NewClient (SignHTTP a) cas) now addr hash
     = if decide (sem_held (s_sem s) < sem_size (s_sem s))%Z
       then match object with Some data => Ok data | None => Err ErrChunkNotFound end
       else Err ErrRateLimited).
Proof using Hcn.
  intros s object. rewrite FetchChunk_asks. fold s. split.
  - intros data. destruct (TryAcquire 1 (s_sem s)).1; [|done].
    unfold Cas.GetFile, os_Open. destruct (os_next (h_os h)) as [o w] eqn:E.
    rewrite (os_next_files _ _ _ E). fold object.
    destruct o, object as [file|]; try done.
    destruct (file_Stat w) as [[[]|] w']; [|done]. destruct (os_next w') as [[]]; intros; by simplify_eq/=.
  - intros Hio. destruct (try_acquire 1 (s_sem s)) as [-> _].
    rewrite (bool_decide_ext _ (sem_held (s_sem s) < sem_size (s_sem s))%Z) by lia.
    case_bool_decide as Hd; [rewrite decide_True by done|by rewrite decide_False].
    unfold Cas.GetFile, os_Open, file_Stat, os_next. rewrite Hio. fold object.
    destruct object; [|done]. by rewrite Hio, Hio.
Qed.

End exchange.
End wire.

End Wire.

Module WireExamples.
Import Meta Auth Http Dataplane DataplaneExamples Wire.

#[local] Existing Instance map_bolt.
#[local] Existing Instance counting_sem.
#[local] Existing Instance counting_sem_laws.

(** A peer with two files, whose names differ in one character. *)
Definition ex_record (name : string) (ts : Z) : FileMeta := MkFileMeta name zero32 ts [zero32] 11.

Definition ex_index : gmap string (list byte) :=
  <["a b.txt" := marshal_meta (ex_record "a b.txt" 3)]>
    (<["docs/a.txt" := marshal_meta (ex_record "docs/a.txt" 7)]> ∅).

Definition ex_host : Host :=
  MkHost ex_server ex_index (Os {[Cas.object_path (Cas.MkCAS "/d") zero32 := bytes_of "data"]} []).

Definition ex_hosts (addr : string) : option Host :=
  if decide (addr = "10.0.0.2:9001") then Some ex_host else None.

Definition ex_now : Z := 1700000000 * Second.

Lemma ex_connected : connected (λ _, true) ex_hosts alice bob ex_now (ex_now + 10 * Second) "10.0.0.2:9001" ex_host.
Proof.
  constructor; try reflexivity. unfold is_i64, ex_now, Second. lia.
Qed.

Definition ex_tr : Transport := wire (λ _, true) ex_hosts (ex_now + 10 * Second).

Lemma FetchMeta_served_witness :
  FetchMeta ex_tr ex_client ex_now "10.0.0.2:9001" "docs/a.txt" = Ok (ex_record "docs/a.txt" 7).
Proof.
  unfold ex_tr, ex_client.
  rewrite (FetchMeta_served _ _ _ _ _ _ _ _ ex_connected (Cas.MkCAS "/d") "docs/a.txt");
    [|vm_compute; reflexivity]. vm_compute. reflexivity.
Defined.

Lemma FetchMeta_unescaped_witness :
  FetchMeta ex_tr ex_client ex_now "10.0.0.2:9001" "a+b.txt" = Ok (ex_record "a b.txt" 3)
  ∧ is_ok (FetchMeta ex_tr ex_client ex_now "10.0.0.2:9001" "a b.txt") = false.
Proof.
  unfold ex_tr, ex_client. split.
  - destruct (FetchMeta_unescaped _ _ _ _ _ _ _ _ ex_connected (Cas.MkCAS "/d") "a+b.txt") as [H _].
    rewrite H; [|vm_compute; reflexivity]. vm_compute. reflexivity.
  - destruct (FetchMeta_unescaped _ _ _ _ _ _ _ _ ex_connected (Cas.MkCAS "/d") "a b.txt") as [_ H].
    apply (H "a" (bytes_of "b.txt")); vm_compute; reflexivity.
Defined.

Lemma FetchCatalog_served_witness :
  FetchCatalog ex_tr ex_client ex_now "10.0.0.2:9001"
  = Ok [MkCatalogEntry "a b.txt" zero32 3; MkCatalogEntry "docs/a.txt" zero32 7].
Proof.
  unfold ex_tr, ex_client.
  rewrite (FetchCatalog_served _ _ _ _ _ _ _ _ ex_connected (Cas.MkCAS "/d")). vm_compute. reflexivity.
Defined.

Lemma FetchChunk_served_witness :
  FetchChunk ex_tr ex_client ex_now "10.0.0.2:9001" zero32 = Ok (bytes_of "data").
Proof.
  unfold ex_tr, ex_client.
  destruct (FetchChunk_served _ _ _ _ _ _ _ _ ex_connected (Cas.MkCAS "/d") zero32) as [_ H].
  rewrite H by reflexivity. vm_compute. reflexivity.
Defined.

End WireExamples.
