(* ===== verification/Assembler.v ===== *)
(** * Assembling files from chunks ([internal/assembler])

    [SparseFile] ([sparse.go]) is the writer the sync engine uses: the file is
    created at its final size, and chunk [i] is written at its offset at most
    once, with a bitmap and a counter of the chunks written.  [Assemble]
    ([assembler.go]) appends the objects one after the other.  The mutex of a
    [SparseFile] makes each of its operations one atomic step. *)

From Stdlib Require Import Strings.Byte.
From S2P Require Import Prelude GoBytes Sha256 Path Fs Cas.

Module Assembler.

Record SparseFile := MkSparse {
  sf_file : string;
  bitmap : list bool;
  chunksDone : nat;
  total : nat;
}.

Definition NewSparseFile (path : string) (totalSize : Z) (totalChunks : nat) :
    stM os SparseFile := λ w,
  match os_Create path w with
  | (Err e, w) => (Err e, w)
  | (Ok _, w) =>
      match file_Truncate path totalSize w with
      | (Err e, w) => (Err e, w)
      | (Ok _, w) => (Ok (MkSparse path (replicate totalChunks false) 0 totalChunks), w)
      end
  end.

Definition WriteChunk (chunkIndex : Z) (offset : Z) (data : list byte) :
    stM (SparseFile * os) unit := λ '(s, w),
  if ((chunkIndex <? 0) || (Z.of_nat (total s) <=? chunkIndex))%Z
  then (Err (EMsg "chunk index out of bounds"), (s, w)) else
  let i := Z.to_nat chunkIndex in
  if default false (bitmap s !! i) then (Ok tt, (s, w)) else
  match file_WriteAt (sf_file s) data offset w with
  | (Err e, w) => (Err e, (s, w))
  | (Ok _, w) =>
      (Ok tt, (MkSparse (sf_file s) (<[i := true]> (bitmap s)) (S (chunksDone s)) (total s), w))
  end.

Definition IsComplete (s : SparseFile) : bool := Nat.eqb (chunksDone s) (total s).

Definition Close (s : SparseFile) : stM os unit := file_Close (sf_file s).

(** [Assemble]: one object after the other is copied to the destination. *)
Fixpoint Assemble_loop (cas : Cas.CASBlobStore) (destPath : string) (chunkHashes : list array32) :
    stM os unit := λ w,
  match chunkHashes with
  | [] => (Ok tt, w)
  | hash :: rest =>
      match Cas.GetFile cas hash w with
      | (Err e, w) => (Err (EWrap "missing chunk %d (%x): %w" e), w)
      | (Ok chunkFile, w) =>
          match file_Append destPath chunkFile w with
          | (Err e, w) => (Err (EWrap "failed to write chunk %d to file: %w" e), w)
          | (Ok _, w) => Assemble_loop cas destPath rest w
          end
      end
  end.

Definition Assemble (cas : Cas.CASBlobStore) (chunkHashes : list array32) (destPath : string) :
    stM os unit := λ w,
  match os_Create destPath w with
  | (Err e, w) => (Err (EWrap "failed to create destination file: %w" e), w)
  | (Ok _, w) => Assemble_loop cas destPath chunkHashes w
  end.

(** ** The bitmap *)

Definition count_true (l : list bool) : nat := length (filter (λ b, b = true) l).

(** The counter counts the set bits. *)
Definition sparse_inv (s : SparseFile) : Prop :=
  length (bitmap s) = total s ∧ chunksDone s = count_true (bitmap s).

Lemma count_true_insert l i :
  l !! i = Some false → count_true (<[i := true]> l) = S (count_true l).
Proof.
  unfold count_true. revert i. induction l as [|b l IH]; intros [|i] H; simplify_eq/=; [done|].
  rewrite !filter_cons. case_decide; simpl; rewrite IH by done; done.
Qed.

Lemma count_true_le l : count_true l ≤ length l.
Proof. apply length_filter. Qed.

Lemma count_true_all l : count_true l = length l ↔ ∀ i, i < length l → l !! i = Some true.
Proof.
  unfold count_true. induction l as [|b l IH]; [split; [intros _ i Hi; simpl in Hi; lia|done]|].
  rewrite filter_cons. pose proof (count_true_le l). unfold count_true in *. case_decide as Hb.
  - subst b. simpl. split.
    + intros [=E]. intros [|i] Hi; [done|]. apply IH; [done|simpl in *; lia].
    + intros Ha. f_equal. apply IH. intros i Hi. apply (Ha (S i)). lia.
  - simpl. split; [lia|]. intros Ha. specialize (Ha 0 ltac:(lia)). simpl in Ha. by simplify_eq.
Qed.

Lemma NewSparseFile_inv path size n w s w' :
  NewSparseFile path size n w = (Ok s, w') → sparse_inv s ∧ total s = n ∧ sf_file s = path.
Proof.
  unfold NewSparseFile. destruct (os_Create _ _) as [[] w1]; [|done].
  destruct (file_Truncate _ _ _) as [[] w2]; [|done]. intros; simplify_eq. split_and!; [|done..].
  split; simpl; [apply length_replicate|].
  unfold count_true. induction n as [|n IH]; [done|]. simpl. rewrite filter_cons_False by done. done.
Qed.

(** The four ways through [WriteChunk]. *)
Lemma WriteChunk_cases i off data s w r s' w' :
  sparse_inv s → WriteChunk i off data (s, w) = (r, (s', w')) →
  (¬ (0 ≤ i < Z.of_nat (total s))%Z ∧ is_ok r = false ∧ s' = s ∧ w' = w)
  ∨ (bitmap s !! Z.to_nat i = Some true ∧ r = Ok tt ∧ s' = s ∧ w' = w)
  ∨ (bitmap s !! Z.to_nat i = Some false ∧ r = Ok tt
     ∧ s' = MkSparse (sf_file s) (<[Z.to_nat i := true]> (bitmap s)) (S (chunksDone s)) (total s)
     ∧ file_WriteAt (sf_file s) data off w = (Ok tt, w'))
  ∨ (∃ e, bitmap s !! Z.to_nat i = Some false ∧ r = Err e ∧ s' = s
     ∧ file_WriteAt (sf_file s) data off w = (Err e, w')).
Proof.
  intros [Hlen _]. unfold WriteChunk. case_match eqn:Hb.
  { intros; simplify_eq. left. split_and!; try done. lia. }
  destruct (lookup_lt_is_Some_2 (bitmap s) (Z.to_nat i)) as [b Hi]; [lia|].
  rewrite Hi. destruct b; simpl; [intros; simplify_eq; tauto|].
  destruct (file_WriteAt _ _ _ _) as [[[]|e] w1] eqn:E; intros; simplify_eq; [by auto 10|].
  right. right. right. eauto.
Qed.

Lemma WriteChunk_inv i off data s w r s' w' :
  sparse_inv s → WriteChunk i off data (s, w) = (r, (s', w')) → sparse_inv s'.
Proof.
  intros Hinv H. pose proof Hinv as [Hlen Hc].
  destruct (WriteChunk_cases _ _ _ _ _ _ _ _ Hinv H)
    as [(_&_&->&_) | [(_&_&->&_) | [(Hi&_&->&_) | (e&_&_&->&_)]]]; try done.
  split; simpl; [by rewrite length_insert|]. rewrite count_true_insert by done. by rewrite Hc.
Qed.

Lemma IsComplete_iff s :
  sparse_inv s → IsComplete s = true ↔ ∀ i, i < total s → bitmap s !! i = Some true.
Proof.
  intros [Hlen Hc]. unfold IsComplete. rewrite Nat.eqb_eq, Hc, <- Hlen. apply count_true_all.
Qed.

(** A chunk that is already there is not written again. *)
Lemma WriteChunk_twice i off data s w s1 w1 off' data' :
  sparse_inv s → WriteChunk i off data (s, w) = (Ok tt, (s1, w1)) →
  WriteChunk i off' data' (s1, w1) = (Ok tt, (s1, w1)).
Proof.
  intros Hinv H. pose proof (WriteChunk_inv _ _ _ _ _ _ _ _ Hinv H) as Hinv1.
  assert (bitmap s1 !! Z.to_nat i = Some true ∧ (0 ≤ i < Z.of_nat (total s1))%Z) as [Hb Hr].
  { pose proof Hinv as [Hlen _]. unfold WriteChunk in H. case_match eqn:Hb; [done|].
    destruct (WriteChunk_cases _ _ _ _ _ _ _ _ Hinv ltac:(unfold WriteChunk; rewrite Hb; exact H))
      as [(?&?&_) | [(Hi&_&->&_) | [(Hi&_&->&_) | (e&_&?&_)]]]; try done.
    - split; [done|lia].
    - simpl. split; [|lia]. apply list_lookup_insert_eq. lia. }
  unfold WriteChunk. replace (_ || _) with false by lia. by rewrite Hb.
Qed.

(** ** The content that is written *)

(** Reading object after object, as the assembly loops do. *)
Definition objects_are (cas : Cas.CASBlobStore) (w : os) (hs : list array32) (ds : list (list byte)) : Prop :=
  Forall2 (λ h d, os_files w !! Cas.object_path cas h = Some d) hs ds.

Lemma objects_are_other cas w w' hs ds dest :
  (∀ h, Cas.object_path cas h ≠ dest) →
  (∀ p, p ≠ dest → os_files w' !! p = os_files w !! p) →
  objects_are cas w hs ds → objects_are cas w' hs ds.
Proof.
  intros Hd Hw H. eapply Forall2_impl; [done|]. simpl. intros h d Hh. by rewrite Hw.
Qed.

Lemma Assemble_loop_content cas dest hs : ∀ w w' pre,
  (∀ h, Cas.object_path cas h ≠ dest) →
  os_files w !! dest = Some pre →
  Assemble_loop cas dest hs w = (Ok tt, w') →
  ∃ ds, objects_are cas w hs ds ∧ os_files w' !! dest = Some (pre ++ mjoin ds)
    ∧ ∀ p, p ≠ dest → os_files w' !! p = os_files w !! p.
Proof.
  induction hs as [|h hs IH]; intros w w' pre Hd Hp H; simpl in H.
  { simplify_eq. exists []. rewrite app_nil_r. split_and!; [constructor|done..]. }
  destruct (Cas.GetFile cas h w) as [[c|] w1] eqn:E1; [|done].
  apply os_Open_spec in E1 as [E1 Ho]. specialize (Ho _ eq_refl).
  destruct (file_Append dest c w1) as [[[]|] w2] eqn:E2; [|done].
  apply file_Append_spec in E2 as [(_ & c' & Hc' & E2) | (? & ? & _)]; [|done].
  rewrite E1 in *. simplify_eq.
  destruct (IH w2 w' (pre ++ c)) as (ds & Hds & Hw & Hoth).
  { done. } { by rewrite E2, lookup_insert_eq. } { done. }
  assert (∀ p, p ≠ dest → os_files w2 !! p = os_files w !! p) as Hw2.
  { intros p Hne. by rewrite E2, lookup_insert_ne. }
  exists (c :: ds). csimpl. rewrite (assoc_L (++)). split_and!; [|done|].
  - constructor; [done|]. eapply objects_are_other; [done| |done]. intros. symmetry. auto.
  - intros p Hne. rewrite Hoth, Hw2 by done. done.
Qed.

(** The destination of a successful [Assemble] is the concatenation of the
    objects. *)
Lemma Assemble_content cas hs dest w w' :
  (∀ h, Cas.object_path cas h ≠ dest) →
  Assemble cas hs dest w = (Ok tt, w') →
  ∃ ds, objects_are cas w hs ds ∧ os_files w' !! dest = Some (mjoin ds).
Proof.
  intros Hd. unfold Assemble.
  destruct (os_Create dest w) as [[[]|] w1] eqn:E1; [|done]. intros H.
  apply os_Create_spec in E1 as [(_ & E1) | (? & ? & _)]; [|done].
  destruct (Assemble_loop_content cas dest hs w1 w' []) as (ds & Hds & Hw & _);
    [done|by rewrite E1, lookup_insert_eq|done|].
  exists ds. split; [|done]. eapply objects_are_other; [done| |done].
  intros p Hne. by rewrite E1, lookup_insert_ne.
Qed.

(** ** Sequences of writes *)

(** Any number of [WriteChunk] calls; the indices of those that succeeded. *)
Fixpoint run_writes (ops : list (Z * Z * list byte)) (st : SparseFile * os) : list Z * (SparseFile * os) :=
  match ops with
  | [] => ([], st)
  | (i, off, data) :: ops =>
      let '(r, st) := WriteChunk i off data st in
      let '(oks, st) := run_writes ops st in
      (if is_ok r then i :: oks else oks, st)
  end.

Lemma WriteChunk_bitmap i off data s w r s' w' j :
  sparse_inv s → WriteChunk i off data (s, w) = (r, (s', w')) →
  total s' = total s ∧
  (bitmap s' !! j = Some true ↔ bitmap s !! j = Some true ∨ is_ok r = true ∧ i = Z.of_nat j).
Proof.
  intros Hinv H. pose proof Hinv as [Hlen _]. assert (∀ k, (0 ≤ i)%Z → i = Z.of_nat k ↔ Z.to_nat i = k) as Hk by lia.
  assert (is_ok r = true → (0 ≤ i < Z.of_nat (total s))%Z) as Hrange.
  { unfold WriteChunk in H. intros Hr. case_match eqn:Hb; [by simplify_eq|]. lia. }
  destruct (WriteChunk_cases _ _ _ _ _ _ _ _ Hinv H)
    as [(_&E&->&_) | [(Hi&->&->&_) | [(Hi&->&->&_) | (e&_&->&->&_)]]]; simpl in *; (split; [done|]).
  - rewrite E. naive_solver.
  - specialize (Hrange eq_refl). split; [tauto|]. intros [?|[_ E]]; [done|]. apply Hk in E; [by subst|lia].
  - specialize (Hrange eq_refl). destruct (decide (Z.to_nat i = j)) as [<-|Hne].
    + rewrite list_lookup_insert_eq by (rewrite Hlen; lia). split; [intros _; right; split; [done|lia]|done].
    + rewrite list_lookup_insert_ne by done. split; [tauto|]. intros [?|[_ ?]]; [done|lia].
  - naive_solver.
Qed.

Lemma run_writes_bitmap ops : ∀ s w oks s' w',
  sparse_inv s → run_writes ops (s, w) = (oks, (s', w')) →
  sparse_inv s' ∧ total s' = total s
  ∧ ∀ j, bitmap s' !! j = Some true ↔ bitmap s !! j = Some true ∨ Z.of_nat j ∈ oks.
Proof.
  induction ops as [|[[i off] data] ops IH]; intros s w oks s' w' Hinv H; cbn [run_writes] in H.
  { simplify_eq. split_and!; [done..|]. intros j. rewrite elem_of_nil. tauto. }
  destruct (WriteChunk _ _ _ _) as [r [s1 w1]] eqn:E1.
  destruct (run_writes ops _) as [oks1 [s2 w2]] eqn:E2.
  pose proof (WriteChunk_inv _ _ _ _ _ _ _ _ Hinv E1) as Hinv1.
  destruct (IH _ _ _ _ _ Hinv1 E2) as (Hinv2 & Ht & Hb). simplify_eq.
  split_and!; [done| |].
  - rewrite Ht. by apply (WriteChunk_bitmap _ _ _ _ _ _ _ _ 0 Hinv E1).
  - intros j. rewrite Hb. destruct (WriteChunk_bitmap _ _ _ _ _ _ _ _ j Hinv E1) as [_ ->].
    destruct (is_ok r); rewrite ?elem_of_cons; naive_solver.
Qed.

(** C30. A [SparseFile] is complete exactly when every chunk index has been
    written successfully at least once, whatever the order, the repetitions,
    the indices out of range and the I/O failures. *)
Theorem sparse_complete path size n w s w' ops oks s' w'' :
  NewSparseFile path size n w = (Ok s, w') → run_writes ops (s, w') = (oks, (s', w'')) →
  IsComplete s' = true ↔ ∀ i, i < n → Z.of_nat i ∈ oks.
Proof.
  intros E1 E2. pose proof (NewSparseFile_inv _ _ _ _ _ _ E1) as (Hinv & Htot & _).
  destruct (run_writes_bitmap _ _ _ _ _ _ Hinv E2) as (Hinv' & Htot' & Hb).
  rewrite IsComplete_iff by done. rewrite Htot', Htot.
  apply forall_proper. intros i. apply forall_proper. intros Hi. rewrite Hb.
  assert (bitmap s !! i = Some false) as ->; [|naive_solver].
  unfold NewSparseFile in E1. destruct (os_Create _ _) as [[] w1]; [|done].
  destruct (file_Truncate _ _ _) as [[] w2]; [|done]. injection E1 as <- _.
  by apply lookup_replicate_2.
Qed.

Lemma sparse_complete_witness :
  IsComplete (run_writes [(1, 1, [x00]); (5, 0, []); (0, 0, [x01]); (1, 1, [x02])]%Z
    (MkSparse "/f" [false; false] 0 2, Os {[ "/f" := [x00; x00] ]} [])).2.1 = true.
Proof.
  destruct (run_writes [(1, 1, [x00]); (5, 0, []); (0, 0, [x01]); (1, 1, [x02])]%Z
    (MkSparse "/f" [false; false] 0 2, Os {[ "/f" := [x00; x00] ]} [])) as [oks [s' w'']] eqn:E.
  refine (proj2 (sparse_complete "/f" 2 2 (Os ∅ []) _ _ _ oks s' w'' _ E) _);
    [vm_compute; reflexivity|].
  vm_compute in E. injection E as <- _ _. intros [|[|i]] Hi; [set_solver..|lia].
Defined.

End Assembler.
