(* ===== verification/Chunker.v ===== *)
(** * Content-defined chunking ([internal/chunker/chunker.go])

    [ChunkFile] drives [github.com/jotfs/fastcdc-go] over an open file and
    turns each part into a [Chunk] with its SHA-256, offset, size and sequence
    number.  The library is a parameter ([FastCDC]); what the program relies
    on is its documented contract ([FastCDCLaws]): the parts are non-empty,
    contiguous, at most [MaxSize] and, but for the last, at least [MinSize] long,
    and together are the whole input.  The
    content of a part is only valid until the next call, which is why the code
    copies it; a value in the model is already a copy. *)

From Stdlib Require Import Strings.Byte.
From S2P Require Import Prelude GoBytes Sha256 Fs.

(** ** The library's interface *)

Record cdc_Options := CdcOptions { AverageSize : Z; MinSize : Z; MaxSize : Z }.

(** What the chunker reads from: the bytes, and the error met after them. *)
Record cdc_reader := CdcReader { rd_content : list byte; rd_err : option error }.

Record cdc_Part := CdcPart { part_Offset : Z; part_Length : Z; part_Data : list byte }.

Inductive cdc_next :=
  | NextPart (p : cdc_Part)
  | NextEOF
  | NextErr (e : error).

Class FastCDC := {
  cdc : Type;
  cdc_NewChunker : cdc_reader → cdc_Options → result cdc;
  cdc_Next : cdc → cdc_next * cdc;
}.

(** Calling [Next] until [io.EOF]. *)
Inductive cdc_run `{F : FastCDC} : cdc → list cdc_Part → Prop :=
  | run_eof s s' : cdc_Next s = (NextEOF, s') → cdc_run s []
  | run_part s s' p ps :
      cdc_Next s = (NextPart p, s') → cdc_run s' ps → cdc_run s (p :: ps).

(** [ps] cut [c] into contiguous non-empty pieces, starting at offset [off]. *)
Fixpoint parts_cover (o : cdc_Options) (off : Z) (c : list byte) (ps : list cdc_Part) : Prop :=
  match ps with
  | [] => c = []
  | p :: ps =>
      part_Data p ≠ [] ∧ part_Offset p = off ∧ part_Length p = Z.of_nat (length (part_Data p))
      ∧ (part_Length p ≤ MaxSize o)%Z
      ∧ ∃ rest, c = part_Data p ++ rest ∧ (rest ≠ [] → (MinSize o ≤ part_Length p)%Z)
        ∧ parts_cover o (off + part_Length p) rest ps
  end.

Class FastCDCLaws (F : FastCDC) : Prop := {
  cdc_splits o c s :
    cdc_NewChunker (CdcReader c None) o = Ok s →
    ∃ ps, cdc_run s ps ∧ parts_cover o 0 c ps;
}.

(** ** The component *)

Module Chunker.
Section with_cdc.
Context `{F : FastCDC}.

Record Chunk := MkChunk {
  Hash : array32;
  Offset : Z;
  Size : Z;
  Sequence : Z;
  Data : list byte;
}.

Definition FastCDCChunker := cdc_Options.

(** Go's integer division truncates toward zero. *)
Definition NewFastCDCChunker (avgSize : Z) : FastCDCChunker :=
  CdcOptions avgSize (Z.quot avgSize 4) (avgSize * 8).

Definition chunk_of (seq : Z) (part : cdc_Part) : Chunk :=
  MkChunk (Sum256 (part_Data part)) (u64 (part_Offset part)) (u32 (part_Length part))
    seq (part_Data part).

(** The [for] loop of [ChunkFile].  The fuel bounds the number of calls to
    [Next]; running out of it is an error of its own, which [ChunkFile_ok]
    shows never to occur. *)
Fixpoint ChunkFile_loop (fuel : nat) (s : cdc) (seq : Z) (chunks : list Chunk) :
    result (list Chunk) :=
  match fuel with
  | O => Err (EMsg "fuel")
  | S fuel =>
      match cdc_Next s with
      | (NextEOF, _) => Ok chunks
      | (NextErr e, _) => Err (EWrap "chunking failed at %d: %w" e)
      | (NextPart part, s') =>
          ChunkFile_loop fuel s' (u32 (seq + 1)) (chunks ++ [chunk_of seq part])
      end
  end.

(** [ChunkFile].  The outcome of reading the descriptor decides what the
    chunker gets to see; every part has at least one byte, so one call more
    than the file has bytes reaches [io.EOF]. *)
Definition ChunkFile (c : FastCDCChunker) (path : string) : stM os (list Chunk) := λ s,
  match os_Open path s with
  | (Err e, s) => (Err (EWrap "could not open file %s: %w" e), s)
  | (Ok file, s) =>
      let '(rd, s) :=
        let '(o, s) := os_next s in
        match o with
        | IoOk => (CdcReader file None, s)
        | IoFail => (CdcReader [] (Some (EOS "read" path)), s)
        | IoPartial k => (CdcReader (take k file) (Some (EOS "read" path)), s)
        end in
      match cdc_NewChunker rd c with
      | Err e => (Err (EWrap "could not create chunker: %w" e), s)
      | Ok cdc => (ChunkFile_loop (S (length (rd_content rd))) cdc 0 [], s)
      end
  end.

(** ** Properties *)

(** The chunks of [c] from offset [off] and sequence number [seq] on: hashes
    are those of the data, offsets and sequence numbers count up, and the data
    together is [c]; sizes are within the options [o]. *)
Fixpoint chunks_of (o : cdc_Options) (off seq : Z) (c : list byte) (chs : list Chunk) : Prop :=
  match chs with
  | [] => c = []
  | ch :: chs =>
      Data ch ≠ [] ∧ Hash ch = Sum256 (Data ch) ∧ Offset ch = u64 off
      ∧ Size ch = u32 (Z.of_nat (length (Data ch))) ∧ Sequence ch = u32 seq
      ∧ (Z.of_nat (length (Data ch)) ≤ MaxSize o)%Z
      ∧ ∃ rest, c = Data ch ++ rest ∧ (rest ≠ [] → MinSize o ≤ Z.of_nat (length (Data ch)))%Z
        ∧ chunks_of o (off + Z.of_nat (length (Data ch))) (seq + 1) rest chs
  end.

Lemma u32_succ z : u32 (u32 z + 1) = u32 (z + 1).
Proof. unfold u32. by rewrite Zplus_mod_idemp_l. Qed.

Lemma ChunkFile_loop_run s ps : cdc_run s ps → ∀ o off c fuel seq acc,
  parts_cover o off c ps → length c < fuel →
  ∃ chs, ChunkFile_loop fuel s (u32 seq) acc = Ok (acc ++ chs) ∧ chunks_of o off seq c chs.
Proof.
  induction 1 as [s s' Hs | s s' p ps Hs Hr IH]; intros o off c fuel seq acc Hc Hf;
    (destruct fuel as [|fuel]; [lia|]); simpl in *; rewrite Hs.
  - exists []. by rewrite app_nil_r.
  - destruct Hc as (Hne & Hoff & Hlen & Hmax & rest & -> & Hmin & Hc).
    rewrite length_app in Hf. rewrite u32_succ.
    assert (length (part_Data p) ≠ 0) by (by intros ?%nil_length_inv).
    destruct (IH o _ rest fuel (seq + 1)%Z (acc ++ [chunk_of (u32 seq) p]) Hc)
      as (chs & -> & Hchs); [lia|].
    exists (chunk_of (u32 seq) p :: chs). rewrite <- (app_assoc acc). split; [done|].
    simpl. rewrite <- Hlen, Hoff. split_and!; [done..|]. exists rest. by split_and!.
Qed.

Lemma chunks_of_data o off seq c chs :
  chunks_of o off seq c chs → mjoin (Data <$> chs) = c.
Proof.
  revert off seq c. induction chs as [|ch chs IH]; intros off seq c; [by intros ->|].
  intros (_ & _ & _ & _ & _ & _ & rest & -> & _ & H). csimpl. f_equal. eauto.
Qed.

Lemma chunks_of_hash o off seq c chs :
  chunks_of o off seq c chs → Forall (λ ch, Hash ch = Sum256 (Data ch)) chs.
Proof.
  revert off seq c. induction chs as [|ch chs IH]; intros off seq c; simpl; [constructor|].
  intros (_ & ? & _ & _ & _ & _ & rest & -> & _ & H). constructor; eauto.
Qed.

Lemma ChunkFile_spec `{!FastCDCLaws F} c path s content cdc :
  os_files s !! path = Some content →
  os_io s = [] →
  cdc_NewChunker (CdcReader content None) c = Ok cdc →
  ∃ chs, ChunkFile c path s = (Ok chs, s) ∧ chunks_of c 0 0 content chs.
Proof.
  intros Hf Hio Hnew. unfold ChunkFile, os_Open.
  rewrite os_next_quiet, Hf by done. rewrite os_next_quiet, Hnew by done.
  destruct (cdc_splits _ _ _ Hnew) as (ps & Hrun & Hc).
  destruct (ChunkFile_loop_run _ _ Hrun _ _ _ (S (length content)) 0 [] Hc) as (chs & E & ?);
    [lia|]. exists chs. simpl in *. rewrite <- E. split; [|done]. done.
Qed.

(** A successful [ChunkFile] leaves the files alone, whatever fails. *)
Lemma ChunkFile_files c path s r s' :
  ChunkFile c path s = (r, s') → os_files s' = os_files s.
Proof.
  unfold ChunkFile, os_Open. intros H.
  repeat (os_case || case_match); simplify_eq/=; congruence.
Qed.

Lemma chunks_of_lookup o off seq c chs i ch :
  chunks_of o off seq c chs → chs !! i = Some ch →
  Data ch ≠ [] ∧ Hash ch = Sum256 (Data ch)
  ∧ Offset ch = u64 (off + Z.of_nat (length (mjoin (Data <$> take i chs))))
  ∧ Size ch = u32 (Z.of_nat (length (Data ch))) ∧ Sequence ch = u32 (seq + Z.of_nat i)
  ∧ (Z.of_nat (length (Data ch)) ≤ MaxSize o)%Z
  ∧ (S i < length chs → (MinSize o ≤ Z.of_nat (length (Data ch)))%Z).
Proof.
  revert off seq c i. induction chs as [|ch' chs IH]; intros off seq c i H Hi; [done|].
  destruct H as (Hne & Hh & Hoff & Hs & Hseq & Hmax & rest & -> & Hmin & H). destruct i as [|i]; csimpl in *.
  - simplify_eq. rewrite !Z.add_0_r. split_and!; [done..|]. intros Hl. apply Hmin. intros ->.
    destruct chs as [|ch' chs]; [simpl in Hl; lia|]. destruct H as (Hne' & _ & _ & _ & _ & _ & r & E & _).
    symmetry in E. by apply app_nil in E as [? _].
  - destruct (IH _ _ _ _ H Hi) as (? & ? & Ho & ? & Hq & ? & Hm). split_and!; [done..| |done| |done|].
    + rewrite Ho, length_app. f_equal. lia.
    + rewrite Hq. f_equal. lia.
    + intros Hl. apply Hm. lia.
Qed.

(** At least the minimal size but for the last chunk, hence not too many. *)
Lemma chunks_of_count o off seq c chs :
  chunks_of o off seq c chs →
  (MinSize o * (Z.of_nat (length chs) - 1) ≤ Z.of_nat (length c) ∨ MinSize o < 0)%Z.
Proof.
  revert off seq c. induction chs as [|ch chs IH]; intros off seq c; cbn [length].
  - intros _. destruct (Z.ltb_spec (MinSize o) 0); [by right|left]. nia.
  - intros (Hne & _ & _ & _ & _ & _ & rest & -> & Hmin & H). rewrite length_app.
    destruct (IH _ _ _ H) as [Hr|]; [left|by right].
    destruct chs as [|ch' chs]; [simpl; lia|].
    assert (rest ≠ []) as Hrest.
    { intros ->. destruct H as (Hne' & _ & _ & _ & _ & _ & r & E & _).
      symmetry in E. by apply app_nil in E as [? _]. }
    specialize (Hmin Hrest). cbn [length] in *. lia.
Qed.

(** C27. [ChunkFile] on a readable file returns its content cut into non-empty
    chunks: together they are the file, and each carries the SHA-256 of its
    data, its offset, its size and its number; no chunk exceeds the maximal size
    and only the last may fall below the minimal one. *)
Theorem ChunkFile_reassembles `{!FastCDCLaws F} c path s content cdc :
  os_files s !! path = Some content → os_io s = [] →
  cdc_NewChunker (CdcReader content None) c = Ok cdc →
  ∃ chs, ChunkFile c path s = (Ok chs, s) ∧ mjoin (Data <$> chs) = content
    ∧ ∀ i ch, chs !! i = Some ch →
        Data ch ≠ [] ∧ Hash ch = Sum256 (Data ch)
        ∧ Offset ch = u64 (Z.of_nat (length (mjoin (Data <$> take i chs))))
        ∧ Size ch = u32 (Z.of_nat (length (Data ch))) ∧ Sequence ch = u32 (Z.of_nat i)
        ∧ (Z.of_nat (length (Data ch)) ≤ MaxSize c)%Z
        ∧ (S i < length chs → (MinSize c ≤ Z.of_nat (length (Data ch)))%Z).
Proof.
  intros Hf Hio Hnew. destruct (ChunkFile_spec c path s content cdc Hf Hio Hnew) as (chs & E & H).
  exists chs. split_and!; [done|by eapply chunks_of_data|].
  intros i ch Hi. apply (chunks_of_lookup _ _ _ _ _ _ _ H Hi).
Qed.

End with_cdc.
End Chunker.

(** ** An instance of the interface *)

(** Cutting every [MaxSize] bytes satisfies the contract. *)
Definition fixed_cdc : FastCDC := {|
  cdc := Z * cdc_reader * nat;
  cdc_NewChunker rd o :=
    if ((MaxSize o <=? 0) || (MaxSize o <? MinSize o))%Z then Err (EMsg "options") else Ok (0%Z, rd, Z.to_nat (MaxSize o));
  cdc_Next s :=
    let '(off, rd, n) := s in
    match rd_content rd with
    | [] => (match rd_err rd with None => NextEOF | Some e => NextErr e end, s)
    | c =>
        let d := take n c in
        (NextPart (CdcPart off (Z.of_nat (length d)) d),
         ((off + Z.of_nat (length d))%Z, CdcReader (drop n c) (rd_err rd), n))
    end;
|}.

Lemma fixed_cdc_run o n : n = Z.to_nat (MaxSize o) → n ≠ 0 → (MinSize o ≤ MaxSize o)%Z → ∀ k c off,
  length c ≤ k →
  ∃ ps, cdc_run (F := fixed_cdc) (off, CdcReader c None, n) ps ∧ parts_cover o off c ps.
Proof.
  intros Hn H0 Hmm k. induction k as [|k IH]; intros c off Hk; (destruct c as [|b c];
    [exists []; split; [by econstructor|done]|]); [simpl in Hk; lia|].
  destruct (IH (drop n (b :: c)) (off + Z.of_nat (length (take n (b :: c))))%Z) as (ps & Hr & Hc).
  { rewrite length_drop. simpl in *. lia. }
  eexists (_ :: ps). split; [by econstructor|]. simpl.
  split_and!; [by destruct n|done|done|rewrite length_take; lia|].
  exists (drop n (b :: c)). rewrite take_drop. split_and!; [done| |done]. intros Hne.
  assert (n < length (b :: c)); [|rewrite length_take; lia].
  destruct (decide (n < length (b :: c))); [done|]. by rewrite drop_ge in Hne by lia.
Qed.

Lemma fixed_cdc_laws : FastCDCLaws fixed_cdc.
Proof.
  constructor. intros o c s. simpl. case_match eqn:E; intros; simplify_eq.
  apply orb_false_iff in E as [E1%Z.leb_gt E2%Z.ltb_ge]. eapply fixed_cdc_run; [done|lia|done|done].
Qed.

(** ** Witness *)

Lemma ChunkFile_reassembles_witness :
  ∃ chs, Chunker.ChunkFile (F := fixed_cdc) (Chunker.NewFastCDCChunker 8192) "/s/x"
      (Os {[ "/s/x" := bytes_of "hi" ]} []) = (Ok chs, Os {[ "/s/x" := bytes_of "hi" ]} [])
    ∧ mjoin (Chunker.Data <$> chs) = bytes_of "hi".
Proof.
  destruct (@Chunker.ChunkFile_reassembles fixed_cdc fixed_cdc_laws (Chunker.NewFastCDCChunker 8192)
    "/s/x" (Os {[ "/s/x" := bytes_of "hi" ]} []) (bytes_of "hi")
    (0%Z, CdcReader (bytes_of "hi") None, Z.to_nat 65536)) as (chs & H1 & H2 & _);
    [reflexivity|reflexivity|reflexivity|].
  exists chs. split; [exact H1|exact H2].
Defined.
