(* ===== verification/Merkle.v ===== *)
(** * The Merkle root over chunk hashes ([internal/merkle/tree.go])

    [ComputeRoot] repeatedly replaces neighbouring hashes by the SHA-256 of
    their concatenation, a last unpaired hash moving up unchanged, until one
    hash is left; no chunks at all give the zero array.  The reference is a
    binary tree whose leaves are the chunk hashes in order. *)

From Stdlib Require Import Strings.Byte.
From S2P Require Import Prelude GoBytes Sha256 Fs Chunker.

Module Merkle.
Import Chunker.

(** The inner loop: one level of the tree from the one below.  [hashes[i][:]]
    is a slice of capacity 32, so [append] allocates and [data] is the
    concatenation. *)
Fixpoint level (hashes : list array32) : list array32 :=
  match hashes with
  | h1 :: h2 :: rest => Sum256 (a32_bytes h1 ++ a32_bytes h2) :: level rest
  | [h] => [h]
  | [] => []
  end.

(** The outer loop [for len(hashes) > 1] and the final [hashes[0]]; a level
    is shorter than the one below, so the length is enough fuel. *)
Fixpoint root_loop (fuel : nat) (hashes : list array32) : array32 :=
  match fuel, hashes with
  | S fuel, _ :: _ :: _ => root_loop fuel (level hashes)
  | _, h :: _ => h
  | _, [] => zero32
  end.

Definition ComputeRoot (chunks : list Chunk) : array32 :=
  match chunks with
  | [] => zero32
  | _ => root_loop (length chunks) (Hash <$> chunks)
  end.

Lemma ComputeRoot_loop chs : ComputeRoot chs = root_loop (length chs) (Hash <$> chs).
Proof. by destruct chs. Qed.

(** Pairwise induction, the recursion scheme of [level]. *)
Lemma pair_ind {A} (P : list A → Prop) :
  P [] → (∀ x, P [x]) → (∀ x y l, P l → P (x :: y :: l)) → ∀ l, P l.
Proof.
  intros H0 H1 H2. fix IH 1. intros [|x [|y l]]; [exact H0|apply H1|].
  apply H2, IH.
Qed.

Lemma length_level hs : length (level hs) = Nat.div2 (S (length hs)).
Proof. induction hs as [| |h1 h2 l IH] using pair_ind; simpl; auto. Qed.

(** ** The tree *)

Inductive mtree :=
  | Leaf (h : array32)
  | Node (l r : mtree).

Fixpoint root (t : mtree) : array32 :=
  match t with
  | Leaf h => h
  | Node l r => Sum256 (a32_bytes (root l) ++ a32_bytes (root r))
  end.

Fixpoint leaves (t : mtree) : list array32 :=
  match t with Leaf h => [h] | Node l r => leaves l ++ leaves r end.

Fixpoint height (t : mtree) : nat :=
  match t with Leaf _ => 0 | Node l r => S (height l `max` height r) end.

Fixpoint tlevel (ts : list mtree) : list mtree :=
  match ts with
  | t1 :: t2 :: rest => Node t1 t2 :: tlevel rest
  | _ => ts
  end.

Lemma level_roots ts : level (root <$> ts) = root <$> tlevel ts.
Proof. induction ts as [| |t1 t2 l IH] using pair_ind; csimpl; [done..|]. by rewrite IH. Qed.

Lemma tlevel_leaves ts : mjoin (leaves <$> tlevel ts) = mjoin (leaves <$> ts).
Proof.
  induction ts as [| |t1 t2 l IH] using pair_ind; csimpl; [done..|].
  by rewrite IH, (assoc_L (++)).
Qed.

Lemma tlevel_height k ts :
  Forall (λ t, height t ≤ k) ts → Forall (λ t, height t ≤ S k) (tlevel ts).
Proof.
  induction ts as [| |t1 t2 l IH] using pair_ind; simpl.
  - constructor.
  - intros H. inversion_clear H. constructor; [lia|constructor].
  - intros H. inversion_clear H as [|?? H1 H2]. inversion_clear H2.
    constructor; [simpl; lia|auto].
Qed.

Lemma length_tlevel ts : length (tlevel ts) = Nat.div2 (S (length ts)).
Proof. induction ts as [| |t1 t2 l IH] using pair_ind; simpl; auto. Qed.

Lemma root_loop_tree fuel ts k m :
  ts ≠ [] → length ts ≤ fuel → length ts ≤ 2 ^ m → Forall (λ t, height t ≤ k) ts →
  ∃ t, leaves t = mjoin (leaves <$> ts) ∧ root t = root_loop fuel (root <$> ts)
     ∧ height t ≤ k + m.
Proof.
  revert ts k m. induction fuel as [|fuel IH]; intros ts k m Hne Hlen Hm Hh.
  { by destruct ts; simpl in *; [|lia]. }
  destruct ts as [|t1 [|t2 ts]]; [done| |].
  { exists t1. csimpl. rewrite app_nil_r. split_and!; [done..|].
    inversion_clear Hh. lia. }
  set (ts' := t1 :: t2 :: ts) in *.
  assert (length (tlevel ts') = (S (length ts')) / 2) as Hl'
    by (by rewrite length_tlevel, Nat.div2_div).
  assert (2 ≤ length ts') by (simpl; lia).
  destruct m as [|m]; [simpl in Hm; lia|]. rewrite Nat.pow_succ_r' in Hm.
  destruct (IH (tlevel ts') (S k) m) as (t & Hl & Hr & Hk).
  - done.
  - rewrite Hl'. apply Nat.lt_succ_r, Nat.Div0.div_lt_upper_bound. lia.
  - rewrite Hl'. apply Nat.lt_succ_r, Nat.Div0.div_lt_upper_bound. lia.
  - by apply tlevel_height.
  - exists t. split_and!; [by rewrite Hl, tlevel_leaves| |lia].
    by rewrite Hr, <- level_roots.
Qed.

Lemma leaves_Leaf (hs : list array32) : mjoin (leaves <$> (Leaf <$> hs)) = hs.
Proof. induction hs as [|h hs IH]; csimpl; [done|]. by rewrite IH. Qed.

Lemma roots_Leaf (hs : list array32) : root <$> (Leaf <$> hs) = hs.
Proof. induction hs as [|h hs IH]; csimpl; [done|]. by rewrite IH. Qed.

(** [ComputeRoot] of a non-empty list is the root of a binary tree over
    exactly the chunk hashes, in order, of at most logarithmic height. *)
Theorem ComputeRoot_tree chs :
  chs ≠ [] →
  ∃ t, leaves t = Hash <$> chs ∧ root t = ComputeRoot chs
     ∧ height t ≤ Nat.log2_up (length chs).
Proof.
  intros Hne. set (ts := Leaf <$> (Hash <$> chs)).
  destruct (root_loop_tree (length chs) ts 0 (Nat.log2_up (length chs)))
    as (t & Hl & Hr & Hk).
  - by destruct chs.
  - subst ts. rewrite !length_fmap. done.
  - subst ts. rewrite !length_fmap. destruct (decide (1 < length chs)).
    + by apply Nat.log2_up_spec.
    + destruct chs as [|? [|? ?]]; simpl in *; [done|by cbv|lia].
  - subst ts. apply Forall_forall. by intros t (? & -> & _)%list_elem_of_fmap.
  - exists t. subst ts. rewrite leaves_Leaf in Hl. rewrite roots_Leaf in Hr.
    split_and!; [done| |done]. by rewrite Hr, ComputeRoot_loop.
Qed.

(** ** Binding *)

(** The byte strings hashed while going up from [hs]. *)
Fixpoint level_inputs (hs : list array32) : list (list byte) :=
  match hs with
  | h1 :: h2 :: rest => (a32_bytes h1 ++ a32_bytes h2) :: level_inputs rest
  | _ => []
  end.

Fixpoint root_inputs (fuel : nat) (hs : list array32) : list (list byte) :=
  match fuel, hs with
  | S fuel, _ :: _ :: _ => level_inputs hs ++ root_inputs fuel (level hs)
  | _, _ => []
  end.

(** Two different inputs, one from each side, with the same SHA-256. *)
Definition collision (X Y : list (list byte)) : Prop :=
  ∃ x y, x ∈ X ∧ y ∈ Y ∧ x ≠ y ∧ Sum256 x = Sum256 y.

Lemma collision_mono X X' Y Y' : collision X Y → X ⊆ X' → Y ⊆ Y' → collision X' Y'.
Proof. intros (x & y & ? & ? & ? & ?) HX HY. exists x, y. auto. Qed.

Lemma collision_app_l X Y Z W : collision X Y → collision (X ++ Z) (Y ++ W).
Proof. intros H. eapply collision_mono; [done|apply list_subseteq_app_l..]; done. Qed.

Lemma collision_app_r X Y Z W : collision X Y → collision (Z ++ X) (W ++ Y).
Proof. intros H. eapply collision_mono; [done|apply list_subseteq_app_r..]; done. Qed.

Lemma collision_cons X Y x y : collision X Y → collision (x :: X) (y :: Y).
Proof. apply (collision_app_r X Y [x] [y]). Qed.

Lemma collision_head X Y x y :
  x ≠ y → Sum256 x = Sum256 y → collision (x :: X) (y :: Y).
Proof. intros. exists x, y. split_and!; [apply list_elem_of_here..|done|done]. Qed.

Lemma app_a32_inj (a b c d : array32) :
  a32_bytes a ++ a32_bytes b = a32_bytes c ++ a32_bytes d → a = c ∧ b = d.
Proof.
  intros H. apply app_inj_1 in H as [H1 H2]; [|by rewrite !length_a32].
  by split; apply array32_eq.
Qed.

Lemma level_binding l l' :
  length l = length l' → level l = level l' →
  l = l' ∨ collision (level_inputs l) (level_inputs l').
Proof.
  revert l'. induction l as [|x|a b l IH] using pair_ind; intros l' Hlen H.
  - by destruct l'; [left|].
  - destruct l' as [|y [|? ?]]; simplify_eq/=. by left.
  - destruct l' as [|c [|d l']]; simplify_eq/=.
    destruct (decide (a32_bytes a ++ a32_bytes b = a32_bytes c ++ a32_bytes d))
      as [[-> ->]%app_a32_inj | Hne].
    + destruct (IH l') as [-> | HC]; [done..|by left|right]. by apply collision_cons.
    + right. by apply collision_head.
Qed.

Lemma root_loop_binding fuel l l' :
  length l = length l' → length l ≤ fuel → root_loop fuel l = root_loop fuel l' →
  l = l' ∨ collision (root_inputs fuel l) (root_inputs fuel l').
Proof.
  revert l l'. induction fuel as [|fuel IH]; intros l l' Hlen Hf H.
  { destruct l, l'; simpl in *; first [by left | lia]. }
  destruct l as [|a [|b l]], l' as [|c [|d l']]; simplify_eq/=; try (by left).
  destruct (IH (level (a :: b :: l)) (level (c :: d :: l'))) as [E | HC].
  - rewrite !length_level. cbn [length]. by rewrite Hlen.
  - rewrite length_level. cbn [length]. rewrite Nat.div2_div.
    apply Nat.lt_succ_r, Nat.Div0.div_lt_upper_bound. simpl in *. lia.
  - done.
  - apply level_binding in E as [E | HC]; [by left|right|by simpl; congruence].
    exact (collision_app_l _ _ (root_inputs fuel (level (a :: b :: l)))
      (root_inputs fuel (level (c :: d :: l'))) HC).
  - right. exact (collision_app_r _ _ (level_inputs (a :: b :: l))
      (level_inputs (c :: d :: l')) HC).
Qed.

(** The hashes of the chunk data themselves. *)
Lemma hashes_binding (chs chs' : list Chunk) :
  Forall (λ ch, Hash ch = Sum256 (Data ch)) chs →
  Forall (λ ch, Hash ch = Sum256 (Data ch)) chs' →
  Hash <$> chs = Hash <$> chs' →
  Data <$> chs = Data <$> chs' ∨ collision (Data <$> chs) (Data <$> chs').
Proof.
  intros H. revert chs'. induction H as [|ch chs Hc H IH]; intros chs' H' E.
  - left. by destruct chs'.
  - destruct chs' as [|ch' chs']; [done|]. csimpl in *. simplify_eq.
    inversion_clear H' as [|?? Hc' Ht].
    destruct (decide (Data ch = Data ch')) as [Hd|Hd].
    + destruct (IH chs') as [Hs|HC]; [done..|left; by rewrite Hd, Hs|right].
      by apply collision_cons.
    + right. apply collision_head; [done|congruence].
Qed.

(** Everything hashed on the way from chunk data to the root. *)
Definition file_inputs (chs : list Chunk) : list (list byte) :=
  (Data <$> chs) ++ root_inputs (length chs) (Hash <$> chs).

(** C6. The root binds the content: two chunk lists of the same length whose
    hashes are those of their data and whose roots agree stand for the same
    bytes, unless two different inputs that were actually hashed for them have
    the same SHA-256. *)
Theorem ComputeRoot_binding (chs chs' : list Chunk) :
  Forall (λ ch, Hash ch = Sum256 (Data ch)) chs →
  Forall (λ ch, Hash ch = Sum256 (Data ch)) chs' →
  length chs = length chs' →
  ComputeRoot chs = ComputeRoot chs' →
  mjoin (Data <$> chs) = mjoin (Data <$> chs')
  ∨ collision (file_inputs chs) (file_inputs chs').
Proof.
  intros Hw Hw' Hlen Hr. rewrite !ComputeRoot_loop, <- Hlen in Hr.
  apply root_loop_binding in Hr as [E | HC]; [| |by rewrite !length_fmap..].
  - apply hashes_binding in E as [-> | HC]; [by left|right|done..].
    by apply collision_app_l.
  - right. unfold file_inputs. rewrite <- Hlen. by apply collision_app_r.
Qed.

(** Leaves and inner nodes are hashed alike: one chunk whose data is the
    two hashes of another file's chunks has that file's root, so a root alone
    does not determine the number of chunks. *)
Theorem ComputeRoot_ambiguous (c1 c2 c : Chunk) :
  Data c = a32_bytes (Hash c1) ++ a32_bytes (Hash c2) →
  Hash c = Sum256 (Data c) →
  ComputeRoot [c] = ComputeRoot [c1; c2].
Proof. intros Hd Hh. unfold ComputeRoot. simpl. by rewrite Hh, Hd. Qed.

(** ** Witnesses *)

Definition ex_chunk (t : string) : Chunk :=
  MkChunk (Sum256 (bytes_of t)) 0 (Z.of_nat (length (bytes_of t))) 0 (bytes_of t).

Definition ex_inner (c1 c2 : Chunk) : Chunk :=
  let d := a32_bytes (Hash c1) ++ a32_bytes (Hash c2) in MkChunk (Sum256 d) 0 64 0 d.

Lemma ex_inner_data c1 c2 : Data (ex_inner c1 c2) = a32_bytes (Hash c1) ++ a32_bytes (Hash c2).
Proof. reflexivity. Qed.

Lemma ex_inner_hash c1 c2 : Hash (ex_inner c1 c2) = Sum256 (Data (ex_inner c1 c2)).
Proof. reflexivity. Qed.

Lemma ComputeRoot_tree_witness :
  ∃ t, leaves t = Hash <$> [ex_chunk "a"; ex_chunk "b"; ex_chunk "c"] ∧ height t ≤ 2.
Proof.
  destruct (ComputeRoot_tree [ex_chunk "a"; ex_chunk "b"; ex_chunk "c"]) as (t & H1 & _ & H3);
    [discriminate|]. exists t. split; [exact H1|exact H3].
Defined.

Lemma ComputeRoot_binding_witness :
  mjoin (Data <$> [ex_chunk "a"; ex_chunk "b"]) = mjoin (Data <$> [ex_chunk "a"; ex_chunk "b"])
  ∨ collision (file_inputs [ex_chunk "a"; ex_chunk "b"]) (file_inputs [ex_chunk "a"; ex_chunk "b"]).
Proof.
  apply ComputeRoot_binding; [by repeat constructor..|reflexivity|reflexivity].
Defined.

Lemma ComputeRoot_ambiguous_witness :
  ComputeRoot [ex_inner (ex_chunk "a") (ex_chunk "b")] = ComputeRoot [ex_chunk "a"; ex_chunk "b"].
Proof.
  exact (ComputeRoot_ambiguous (ex_chunk "a") (ex_chunk "b") (ex_inner (ex_chunk "a") (ex_chunk "b"))
    (ex_inner_data _ _) (ex_inner_hash _ _)).
Defined.

End Merkle.
