(* ===== verification/Control.v ===== *)
(** * The control plane's server ([internal/control/service.go])

    [DiffMerkleTree] answers which chunks of its version of a file a requester
    lacks, [GetChunkAvailability] which of the given chunks are in the local
    store, [Ping] reports liveness.  The messages are those of
    [proto/control.proto]; a missing [bytes] field is the empty list. *)

From Stdlib Require Import Strings.Byte.
From S2P Require Import Prelude GoBytes GoFloat Sha256 Path Fs Cas Json Meta.

Module Control.
Import Meta.

(** ** Messages *)

Record DiffRequest := MkDiffRequest {
  dq_FileId : string;
  LocalMerkleRoot : list byte;
  KnownChunkHashes : list (list byte);
}.

Record DiffResponse := MkDiffResponse {
  dr_FileId : string;
  RemoteMerkleRoot : list byte;
  IsSynced : bool;
  MissingChunkHashes : list (list byte);
}.

Record PingResponse := MkPingResponse {
  pr_NodeId : string;
  FileCount : Z;
  ChunkCount : Z;
  UptimeSecs : Z;
  ActiveStreams : Z;
  MaxStreams : Z;
  DegradedWatchPaths : Z;
}.

(** ** Operations *)

Section with_bolt.
Context `{B : Bolt}.

Record ControlServer := MkControlServer {
  cs_nodeID : string;
  casStore : Cas.CASBlobStore;
  startTime : Z;
}.

Definition NewControlServer (nodeID : string) (cas : Cas.CASBlobStore) (now : Z) : ControlServer :=
  MkControlServer nodeID cas now.

(** [knownSet]: only hashes of 32 bytes count. *)
Definition known_set (raw : list (list byte)) : gset array32 :=
  foldl (λ s r, if Nat.eqb (length r) 32 then {[ copy32 r ]} ∪ s else s) ∅ raw.

Definition DiffMerkleTree (b : bucket) (req : DiffRequest) : DiffResponse :=
  match GetFileMeta b (dq_FileId req) with
  | Err _ => MkDiffResponse (dq_FileId req) [] false []
  | Ok meta =>
      if Nat.eqb (length (LocalMerkleRoot req)) 32
         && bool_decide (a32_bytes (MerkleRoot meta) = LocalMerkleRoot req)
      then MkDiffResponse (dq_FileId req) (a32_bytes (MerkleRoot meta)) true []
      else
        let known := known_set (KnownChunkHashes req) in
        let missing := a32_bytes <$> filter (λ h, h ∉ known) (ChunkHashes meta) in
        MkDiffResponse (dq_FileId req) (a32_bytes (MerkleRoot meta)) false missing
  end.

(** The requested hashes, as sent, whose object can be opened. *)
Fixpoint GetChunkAvailability (s : ControlServer) (chunkHashes : list (list byte)) :
    os → list (list byte) * os := λ w,
  match chunkHashes with
  | [] => ([], w)
  | rawHash :: rest =>
      if negb (Nat.eqb (length rawHash) 32) then GetChunkAvailability s rest w else
      let '(r, w) := Cas.GetFile (casStore s) (copy32 rawHash) w in
      let '(available, w) := GetChunkAvailability s rest w in
      (match r with Ok _ => rawHash :: available | Err _ => available end, w)
  end.

(** Only two of the response's fields are filled in. *)
Definition Ping (s : ControlServer) (now : Z) : PingResponse :=
  MkPingResponse (cs_nodeID s) 0 0
    (uint64_of_float (duration_Seconds (time_Sub now (startTime s)))) 0 0 0.

(** ** Properties *)

Lemma known_set_spec raw h : h ∈ known_set raw ↔ ∃ r, r ∈ raw ∧ length r = 32 ∧ h = copy32 r.
Proof.
  unfold known_set.
  assert (∀ s : gset array32, h ∈ foldl (λ s r, if Nat.eqb (length r) 32 then {[ copy32 r ]} ∪ s else s) s raw
    ↔ h ∈ s ∨ ∃ r, r ∈ raw ∧ length r = 32 ∧ h = copy32 r) as H.
  { induction raw as [|r raw IH]; intros s; simpl; [set_solver|]. rewrite IH.
    case_match eqn:E; [apply Nat.eqb_eq in E|apply Nat.eqb_neq in E]; set_solver. }
  rewrite H. set_solver.
Qed.

(** The hashes a requester that knows [hs] sends. *)
Lemma known_set_hashes hs : known_set (a32_bytes <$> hs) = list_to_set hs.
Proof.
  apply set_eq. intros h. rewrite known_set_spec, elem_of_list_to_set. split.
  - intros (r & (a & -> & Ha)%list_elem_of_fmap & _ & ->). by rewrite copy32_id.
  - intros Hh. exists (a32_bytes h). rewrite copy32_id, length_a32.
    split_and!; [|done..]. apply list_elem_of_fmap. eauto.
Qed.

(** The server never reports a file it does not have, and only then is the
    root field empty. *)
Lemma Diff_unknown b req :
  RemoteMerkleRoot (DiffMerkleTree b req) = [] ↔ is_ok (GetFileMeta b (dq_FileId req)) = false.
Proof.
  unfold DiffMerkleTree. destruct (GetFileMeta _ _) as [m|e]; [|done]. simpl.
  assert (a32_bytes (MerkleRoot m) ≠ []) as Hne.
  { intros E. pose proof (length_a32 (MerkleRoot m)) as Hl. by rewrite E in Hl. }
  by case_match.
Qed.

(** A requester is told that it is in sync exactly when the server has the
    file and the 32-byte root sent is that of its version. *)
Theorem Diff_synced b req :
  IsSynced (DiffMerkleTree b req) = true ↔
  ∃ m, GetFileMeta b (dq_FileId req) = Ok m ∧ LocalMerkleRoot req = a32_bytes (MerkleRoot m).
Proof.
  unfold DiffMerkleTree. destruct (GetFileMeta _ _) as [m|e]; [|split; [done|naive_solver]].
  case_match eqn:E; simpl; split; try done.
  - intros _. apply andb_true_iff in E as [_ E%bool_decide_eq_true]. eauto.
  - intros (m' & ? & Hr). simplify_eq.
    rewrite Hr, length_a32, bool_decide_eq_true_2 in E by done. done.
Qed.

(** The chunks reported missing, for a requester that knows [known]. *)
Lemma Diff_missing b fileID root known m :
  GetFileMeta b fileID = Ok m → root ≠ a32_bytes (MerkleRoot m) →
  DiffMerkleTree b (MkDiffRequest fileID root (a32_bytes <$> known))
  = MkDiffResponse fileID (a32_bytes (MerkleRoot m)) false
      (a32_bytes <$> filter (λ h, h ∉ known) (ChunkHashes m)).
Proof.
  intros Hm Hr. unfold DiffMerkleTree. simpl. rewrite Hm, known_set_hashes.
  rewrite (bool_decide_eq_false_2 (_ = root)) by congruence. rewrite andb_false_r.
  do 2 f_equal. apply list_filter_iff. intros h. by rewrite elem_of_list_to_set.
Qed.

(** Without I/O failures, availability is exactly membership in the store. *)
Lemma GetChunkAvailability_quiet s raws w :
  os_io w = [] →
  GetChunkAvailability s raws w
  = (filter (λ r, length r = 32 ∧ Cas.has_object (casStore s) w (copy32 r)) raws, w).
Proof.
  intros Hio. induction raws as [|r raws IH]; [done|]. cbn [GetChunkAvailability].
  unfold Cas.GetFile, os_Open. rewrite filter_cons.
  destruct (Nat.eqb (length r) 32) eqn:El; simpl negb; cbn iota.
  - apply Nat.eqb_eq in El. rewrite os_next_quiet by done.
    destruct (os_files w !! _) as [c|] eqn:Ec; rewrite IH.
    + by rewrite decide_True by (split; [done|by eexists]).
    + rewrite decide_False; [done|]. intros [_ [? ?]]. congruence.
  - apply Nat.eqb_neq in El. rewrite IH. by rewrite decide_False by tauto.
Qed.

(** Whichever I/O calls fail, [GetChunkAvailability] reports only chunks that
    are in the store, in the order and form they were asked for, and changes no
    file. *)
Theorem GetChunkAvailability_sound s raws w l w' :
  GetChunkAvailability s raws w = (l, w') →
  sublist l raws ∧ os_files w' = os_files w
  ∧ Forall (λ r, length r = 32 ∧ Cas.has_object (casStore s) w (copy32 r)) l.
Proof.
  revert w l w'. induction raws as [|r raws IH]; intros w l w'; cbn [GetChunkAvailability].
  { intros; simplify_eq. split_and!; constructor. }
  destruct (Nat.eqb (length r) 32) eqn:El; simpl negb; cbn iota.
  - apply Nat.eqb_eq in El. destruct (Cas.GetFile _ _ w) as [o w1] eqn:E1.
    destruct (GetChunkAvailability s raws w1) as [l1 w2] eqn:E2. intros; simplify_eq.
    apply os_Open_spec in E1 as [E1 Ho]. apply IH in E2 as (Hs & Hf & Ha).
    unfold Cas.has_object in *. rewrite E1 in *.
    destruct o as [c|e]; (split_and!; [by constructor|done|]); [|done].
    constructor; [|done]. split; [done|]. rewrite (Ho _ eq_refl). eauto.
  - intros H. apply IH in H as (? & ? & ?). split_and!; [by constructor|done..].
Qed.

(** ** The diff's contract *)

(** A requester that knows the chunks [known] gets from [DiffMerkleTree] of
    a different version exactly the chunks it lacks: each chunk of the server's
    version is either known or in the answer, no known chunk is sent again, and
    nothing that is not part of the version is. *)
Theorem Diff_covers b fileID root known m :
  GetFileMeta b fileID = Ok m → root ≠ a32_bytes (MerkleRoot m) →
  let resp := DiffMerkleTree b (MkDiffRequest fileID root (a32_bytes <$> known)) in
  IsSynced resp = false ∧ RemoteMerkleRoot resp = a32_bytes (MerkleRoot m)
  ∧ ∀ h, a32_bytes h ∈ MissingChunkHashes resp ↔ h ∈ ChunkHashes m ∧ h ∉ known.
Proof.
  intros Hm Hr. rewrite (Diff_missing _ _ _ _ _ Hm Hr). simpl. split_and!; [done..|]. intros h.
  rewrite list_elem_of_fmap. split.
  - intros (h' & E & [? ?]%list_elem_of_filter). by apply (inj a32_bytes) in E as ->.
  - intros [? ?]. exists h. by rewrite list_elem_of_filter.
Qed.

End with_bolt.
End Control.

(** ** Witnesses *)

Module ControlExamples.
Import Meta Control.

Lemma Diff_covers_witness :
  a32_bytes zero32 ∈ MissingChunkHashes
    (DiffMerkleTree (B := map_bolt) (PutFileMeta (B := map_bolt) ex_meta ∅).2
       (MkDiffRequest "docs/a.txt" [] (a32_bytes <$> []))).
Proof.
  apply (@Diff_covers map_bolt (PutFileMeta (B := map_bolt) ex_meta ∅).2 "docs/a.txt" [] [] ex_meta).
  - vm_compute. reflexivity.
  - discriminate.
  - split; [apply list_elem_of_here|intros []%elem_of_nil].
Defined.

Lemma GetChunkAvailability_sound_witness :
  sublist (GetChunkAvailability (MkControlServer "n" (Cas.MkCAS "/d") 0)
             [a32_bytes zero32; []] (Os ∅ [IoFail])).1 [a32_bytes zero32; []].
Proof.
  exact (proj1 (GetChunkAvailability_sound _ _ _ _ _
    (surjective_pairing (GetChunkAvailability (MkControlServer "n" (Cas.MkCAS "/d") 0)
      [a32_bytes zero32; []] (Os ∅ [IoFail]))))).
Defined.

End ControlExamples.
