(* ===== verification/ControlClient.v ===== *)
(** * The control plane's client and the way to the server
      ([internal/control/client.go])

    [ControlClient] makes the calls of the control plane with the client
    interceptor installed; the handlers of the service run behind the server
    interceptor.  What lies between is gRPC, a parameter ([GrpcNet]) with its
    documented behaviour ([GrpcDelivers]): a unary call runs the handler with
    the metadata that was sent, provided that metadata values are printable
    ASCII and strings are UTF-8, and that no message exceeds 4 MB. *)

From Stdlib Require Import Strings.Byte.
From S2P Require Import Prelude GoBytes GoFloat Sha256 Strconv Path Fs Cas Json Meta Auth Control.

Module ControlClient.
Import Meta Auth Control.

Local Open Scope Z_scope.

(** ** Messages of the service *)

Inductive call :=
  | CallDiff (req : DiffRequest)
  | CallAvailability (chunkHashes : list (list byte))
  | CallPing (nodeId : string).

Inductive reply :=
  | ReplyDiff (resp : DiffResponse)
  | ReplyAvailability (availableChunkHashes : list (list byte))
  | ReplyPing (resp : PingResponse).

Definition FullMethod (c : call) : list byte :=
  match c with
  | CallDiff _ => bytes_of "/control.ControlService/DiffMerkleTree"
  | CallAvailability _ => bytes_of "/control.ControlService/GetChunkAvailability"
  | CallPing _ => bytes_of "/control.ControlService/Ping"
  end.

(** Sizes on the wire: fields with their zero value are left out, elements of
    a repeated field are not. *)
Definition varint_size (n : Z) : Z := Z.log2 n / 7 + 1.
Definition uint_field (n : Z) : Z := if n =? 0 then 0 else 1 + varint_size n.
Definition len_field (l : list byte) : Z := 1 + varint_size (Z.of_nat (length l)) + Z.of_nat (length l).
Definition bytes_field (l : list byte) : Z := match l with [] => 0 | _ => len_field l end.
Definition repeated_field (ls : list (list byte)) : Z := foldr (λ l n, len_field l + n) 0 ls.

Definition call_size (c : call) : Z :=
  match c with
  | CallDiff q =>
      bytes_field (bytes_of (dq_FileId q)) + bytes_field (LocalMerkleRoot q)
      + repeated_field (KnownChunkHashes q)
  | CallAvailability hs => repeated_field hs
  | CallPing n => bytes_field (bytes_of n)
  end.

Definition reply_size (r : reply) : Z :=
  match r with
  | ReplyDiff d =>
      bytes_field (bytes_of (dr_FileId d)) + bytes_field (RemoteMerkleRoot d)
      + (if IsSynced d then 2 else 0) + repeated_field (MissingChunkHashes d)
  | ReplyAvailability hs => repeated_field hs
  | ReplyPing p =>
      bytes_field (bytes_of (pr_NodeId p)) + uint_field (FileCount p) + uint_field (ChunkCount p)
      + uint_field (UptimeSecs p) + uint_field (ActiveStreams p) + uint_field (MaxStreams p)
      + uint_field (DegradedWatchPaths p)
  end.

Definition call_text (c : call) : string :=
  match c with CallDiff q => dq_FileId q | CallAvailability _ => "" | CallPing n => n end.

Definition reply_text (r : reply) : string :=
  match r with ReplyDiff d => dr_FileId d | ReplyAvailability _ => "" | ReplyPing p => pr_NodeId p end.

(** ** gRPC *)

Record GrpcNet := MkGrpcNet {
  (** [grpc.DialContext], blocking, with its deadline *)
  gn_dial : string → result unit;
  (** [ClientConn.Invoke] behind the interceptor: address, method, metadata *)
  gn_invoke : string → list byte → Metadata → call → result reply;
}.

(** The default limit for a message that is received. *)
Definition maxReceiveMessageSize : Z := 4 * 1024 * 1024.

Definition printable (l : list byte) : bool := forallb (λ b, (32 <=? byte_Z b) && (byte_Z b <=? 126)) l.

(** What gRPC and protobuf ask of a call and of a reply. *)
Definition deliverable (md : Metadata) (c : call) : Prop :=
  map_Forall (λ _ vs, Forall (λ v, printable v = true) vs) md
  ∧ Json.valid_utf8 (bytes_of (call_text c)) = true ∧ call_size c ≤ maxReceiveMessageSize.

Definition returnable (r : reply) : bool :=
  Json.valid_utf8 (bytes_of (reply_text r)) && (reply_size r <=? maxReceiveMessageSize).

(** The server at [addr] runs [serve]: the metadata arrives, among keys that
    gRPC adds; a reply that can be sent comes back, another one is an error. *)
Class GrpcDelivers (gn : GrpcNet) (addr : string)
    (serve : list byte → Metadata → call → result reply) : Prop := {
  gd_dial : gn_dial gn addr = Ok tt;
  gd_invoke method md c :
    deliverable md c →
    ∃ md', (∀ k vs, md !! k = Some vs → md' !! k = Some vs)
      ∧ match serve method md' c with
        | Ok r =>
            if returnable r then gn_invoke gn addr method md c = Ok r
            else is_ok (gn_invoke gn addr method md c) = false
        | Err e => gn_invoke gn addr method md c = Err e
        end;
}.

(** ** Client *)

(** The connection is the address it goes to. *)
Record ControlClient := MkControlClient { conn : string; cl_secret : list byte; cl_nodeID : list byte }.

Section client.
Context (gn : GrpcNet).

Definition NewControlClient (targetAddr : string) (secret nodeID : list byte) : result ControlClient :=
  match gn_dial gn targetAddr with
  | Err e => Err e
  | Ok _ => Ok (MkControlClient targetAddr secret nodeID)
  end.

(** A call of the generated stub on the connection. *)
Definition invoke (c : ControlClient) (now : Z) (m : call) : result reply :=
  UnaryClientInterceptor (cl_secret c) (cl_nodeID c) now (FullMethod m) ∅
    (λ md, gn_invoke gn (conn c) (FullMethod m) md m).

Definition Diff (c : ControlClient) (now : Z) (fileID : string) (localRoot : list byte)
    (knownChunks : list (list byte)) : result DiffResponse :=
  match invoke c now (CallDiff (MkDiffRequest fileID localRoot knownChunks)) with
  | Ok (ReplyDiff r) => Ok r
  | Ok _ => Err (EMsg "rpc error: code = Internal")
  | Err e => Err e
  end.

Definition CheckAvailability (c : ControlClient) (now : Z) (chunks : list (list byte)) :
    result (list (list byte)) :=
  match invoke c now (CallAvailability chunks) with
  | Ok (ReplyAvailability hs) => Ok hs
  | Ok _ => Err (EMsg "rpc error: code = Internal")
  | Err e => Err e
  end.

End client.

(** ** Server *)

Section server.
Context `{B : Bolt}.

(** The registered service behind the interceptor. *)
Definition grpc_serve (secret : list byte) (s : ControlServer) (b : bucket) (w : os) (now : Z)
    (method : list byte) (md : Metadata) (c : call) : result reply :=
  if negb (bool_decide (method = FullMethod c)) then Err (EMsg "rpc error: code = Unimplemented") else
  UnaryServerInterceptor secret now method (Some md)
    (Ok match c with
        | CallDiff req => ReplyDiff (DiffMerkleTree b req)
        | CallAvailability hs => ReplyAvailability (GetChunkAvailability s hs w).1
        | CallPing _ => ReplyPing (Ping s now)
        end).

(** ** Sizes *)

Lemma varint_size_bound n : 0 ≤ n → 1 ≤ varint_size n ≤ n + 1.
Proof.
  intros Hn. unfold varint_size. pose proof (Z.log2_nonneg n).
  assert (Z.log2 n ≤ n) by (destruct (decide (n = 0)) as [->|]; [done|apply Z.log2_le_lin; lia]).
  Z.to_euclidean_division_equations. lia.
Qed.

Lemma bytes_field_bound l : 0 ≤ bytes_field l ≤ 2 * Z.of_nat (length l) + 2.
Proof.
  destruct l as [|x l]; [done|]. unfold bytes_field, len_field.
  pose proof (varint_size_bound (Z.of_nat (length (x :: l))) ltac:(lia)). lia.
Qed.

Lemma repeated_field_32 ls :
  Forall (λ l, length l = 32%nat) ls → repeated_field ls = 34 * Z.of_nat (length ls).
Proof.
  induction 1 as [|l ls Hl _ IH]; [done|]. unfold repeated_field in *. cbn [foldr length].
  rewrite IH. unfold len_field. rewrite Hl. change (varint_size (Z.of_nat 32)) with 1. lia.
Qed.

Lemma repeated_hashes hs : repeated_field (a32_bytes <$> hs) = 34 * Z.of_nat (length hs).
Proof.
  rewrite repeated_field_32, length_fmap; [done|]. apply Forall_fmap, Forall_true. intros h. apply length_a32.
Qed.

(** ** Calls that arrive *)

Section exchange.
Variables (gn : GrpcNet) (addr : string) (secret : list byte) (nodeID : list byte).
Variables (s : ControlServer) (b : bucket) (w : os) (now now' : Z).
Context `{!GrpcDelivers gn addr (grpc_serve secret s b w now')}.
Hypothesis Hclock : is_i64 now.
Hypothesis Hname : printable nodeID = true.

Let c := MkControlClient addr secret nodeID.

Lemma graphic_printable l : Forall (λ x, graphic x = true) l → printable l = true.
Proof.
  intros H. apply forallb_forall. intros x Hx. rewrite Forall_forall in H.
  specialize (H x (proj2 (list_elem_of_In _ _) Hx)). unfold graphic in H. lia.
Qed.

(** The service's answer to a message. *)
Definition service (m : call) : reply :=
  match m with
  | CallDiff req => ReplyDiff (DiffMerkleTree b req)
  | CallAvailability hs => ReplyAvailability (GetChunkAvailability s hs w).1
  | CallPing _ => ReplyPing (Ping s now')
  end.

Lemma invoke_served m :
  Json.valid_utf8 (bytes_of (call_text m)) = true → call_size m ≤ maxReceiveMessageSize →
  if expired now' (unix now) then invoke gn c now m = Err (Unauthenticated "timestamp expired or invalid")
  else if returnable (service m) then invoke gn c now m = Ok (service m)
  else is_ok (invoke gn c now m) = false.
Proof using All.
  intros Hutf Hsize. unfold invoke. cbn [cl_secret cl_nodeID conn].
  destruct (client_metadata secret nodeID now (FullMethod m)) as (md & Hmd & H1 & H2 & Emd).
  rewrite Hmd. destruct (gd_invoke (FullMethod m) md m) as (md' & Hsub & Hserve).
  { split_and!; [|done|done]. rewrite Emd.
    assert (∀ l, printable l = true → Forall (λ v, printable v = true) [l]) as Hone by (intros; by constructor).
    apply map_Forall_insert_2; [by apply Hone|].
    apply map_Forall_insert_2; [by apply Hone, graphic_printable, FormatInt_graphic|].
    apply map_Forall_insert_2; [|apply map_Forall_empty]. apply Hone. unfold printable.
    rewrite forallb_app. apply andb_true_iff. split; [done|].
    apply graphic_printable, b64_encode_graphic. }
  assert (∀ k v, md_Get md k = [v] → md_Get md' k = [v]) as Hget.
  { intros k v. unfold md_Get. destruct (md !! k) as [vs|] eqn:E; [|done]. by rewrite (Hsub k vs E). }
  unfold grpc_serve in Hserve. rewrite bool_decide_eq_true_2 in Hserve by done. cbn [negb] in Hserve.
  rewrite (server_accepts secret now) in Hserve by (done || by apply Hget).
  by destruct (expired now' (unix now)).
Qed.

(** What goes through when the clocks agree and the messages are small. *)
Lemma Diff_ok fileID localRoot knownChunks :
  let req := MkDiffRequest fileID localRoot knownChunks in
  expired now' (unix now) = false → Json.valid_utf8 (bytes_of fileID) = true →
  call_size (CallDiff req) ≤ maxReceiveMessageSize →
  reply_size (ReplyDiff (DiffMerkleTree b req)) ≤ maxReceiveMessageSize →
  Diff gn c now fileID localRoot knownChunks = Ok (DiffMerkleTree b req).
Proof using All.
  intros req Hf Hutf Hsize Hr. pose proof (invoke_served (CallDiff req) Hutf Hsize) as H.
  rewrite Hf in H. unfold returnable in H. cbn [service reply_text] in H.
  assert (dr_FileId (DiffMerkleTree b req) = fileID) as Eid.
  { unfold DiffMerkleTree. by repeat case_match. }
  rewrite Eid, Hutf in H. rewrite (proj2 (Z.leb_le _ _) Hr) in H. unfold Diff. fold req. by rewrite H.
Qed.

Lemma CheckAvailability_ok chunks :
  expired now' (unix now) = false → call_size (CallAvailability chunks) ≤ maxReceiveMessageSize →
  reply_size (ReplyAvailability (GetChunkAvailability s chunks w).1) ≤ maxReceiveMessageSize →
  CheckAvailability gn c now chunks = Ok (GetChunkAvailability s chunks w).1.
Proof using All.
  intros Hf Hsize Hr. pose proof (invoke_served (CallAvailability chunks) eq_refl Hsize) as H.
  rewrite Hf in H. unfold returnable in H. cbn [service reply_text] in H.
  rewrite (proj2 (Z.leb_le _ _) Hr) in H. unfold CheckAvailability. by rewrite H.
Qed.

(** The control plane end to end: with the same secret, a client whose clock
    is within the allowed skew gets the answer of the service when gRPC can
    carry it, and an error when it cannot; outside the skew every call is
    refused as unauthenticated. *)
Theorem Diff_served fileID localRoot knownChunks :
  let req := MkDiffRequest fileID localRoot knownChunks in
  Json.valid_utf8 (bytes_of fileID) = true → call_size (CallDiff req) ≤ maxReceiveMessageSize →
  if expired now' (unix now)
  then Diff gn c now fileID localRoot knownChunks = Err (Unauthenticated "timestamp expired or invalid")
  else if reply_size (ReplyDiff (DiffMerkleTree b req)) <=? maxReceiveMessageSize
  then Diff gn c now fileID localRoot knownChunks = Ok (DiffMerkleTree b req)
  else is_ok (Diff gn c now fileID localRoot knownChunks) = false.
Proof using All.
  intros req Hutf Hsize. pose proof (invoke_served (CallDiff req) Hutf Hsize) as H.
  unfold Diff. fold req. destruct (expired now' (unix now)); [by rewrite H|].
  unfold returnable in H. cbn [service reply_text] in H.
  assert (dr_FileId (DiffMerkleTree b req) = fileID) as Eid.
  { unfold DiffMerkleTree. by repeat case_match. }
  rewrite Eid, Hutf in H. cbn [andb] in H.
  destruct (reply_size _ <=? _); [by rewrite H|]. by destruct (invoke gn c now (CallDiff req)).
Qed.

End exchange.

(** A file of more than 123361 chunks cannot be fetched by a node that has
    none of them: the list of missing chunks exceeds what gRPC receives, so
    [Diff] fails whatever the clocks. *)
Theorem large_file_refused gn addr secret nodeID s (b : bucket) w now now' fileID rm
    `{!GrpcDelivers gn addr (grpc_serve secret s b w now')} :
  is_i64 now → printable nodeID = true → Json.valid_utf8 (bytes_of fileID) = true →
  Z.of_nat (String.length fileID) ≤ 4096 →
  GetFileMeta b fileID = Ok rm → 123361 < Z.of_nat (length (ChunkHashes rm)) →
  is_ok (Diff gn (MkControlClient addr secret nodeID) now fileID [] []) = false.
Proof.
  intros Hclock Hname Hutf Hlen Hrm Hbig. set (req := MkDiffRequest fileID [] []).
  assert (DiffMerkleTree b req
    = MkDiffResponse fileID (a32_bytes (MerkleRoot rm)) false (a32_bytes <$> ChunkHashes rm)) as Ed.
  { pose proof (Diff_missing b fileID [] [] rm Hrm) as H.
    assert (filter (λ h, h ∉ []) (ChunkHashes rm) = ChunkHashes rm) as Ef.
    { apply filter_all, Forall_true. intros h. apply not_elem_of_nil. }
    rewrite Ef in H. apply H. intros E. apply (f_equal length) in E. by rewrite length_a32 in E. }
  pose proof (invoke_served gn addr secret nodeID s b w now now' Hclock Hname (CallDiff req) Hutf) as H.
  assert (call_size (CallDiff req) ≤ maxReceiveMessageSize) as Hsize.
  { cbn [call_size dq_FileId LocalMerkleRoot KnownChunkHashes req bytes_field].
    pose proof (bytes_field_bound (bytes_of fileID)). rewrite length_bytes_of in *.
    unfold maxReceiveMessageSize. cbn [repeated_field foldr]. lia. }
  specialize (H Hsize). unfold Diff. fold req.
  destruct (expired now' (unix now)); [by rewrite H|].
  assert (returnable (service s b w now' (CallDiff req)) = false) as Hr.
  { unfold returnable. cbn [service reply_size reply_text]. rewrite Ed.
    cbn [dr_FileId RemoteMerkleRoot IsSynced MissingChunkHashes]. rewrite repeated_hashes.
    pose proof (bytes_field_bound (bytes_of fileID)).
    pose proof (bytes_field_bound (a32_bytes (MerkleRoot rm))).
    apply andb_false_iff. right. apply Z.leb_gt. unfold maxReceiveMessageSize. lia. }
  rewrite Hr in H. by destruct (invoke _ _ _ _).
Qed.

End server.
End ControlClient.

(** ** An instance of gRPC *)

(** The servers by address; replies that cannot be sent are errors. *)
Definition direct_grpc (servers : string →
    option (list byte → Auth.Metadata → ControlClient.call → result ControlClient.reply)) :
    ControlClient.GrpcNet := {|
  ControlClient.gn_dial a := match servers a with Some _ => Ok tt | None => Err (EMsg "dial") end;
  ControlClient.gn_invoke a method md c :=
    match servers a with
    | None => Err (EMsg "rpc error: code = Unavailable")
    | Some serve =>
        match serve method md c with
        | Ok r =>
            if ControlClient.returnable r then Ok r else Err (EMsg "rpc error: code = ResourceExhausted")
        | Err e => Err e
        end
    end;
|}.

Lemma direct_grpc_delivers servers addr serve :
  servers addr = Some serve → ControlClient.GrpcDelivers (direct_grpc servers) addr serve.
Proof.
  intros Hs. constructor; simpl; rewrite Hs; [done|]. intros method md c _. exists md.
  split; [done|]. destruct (serve method md c) as [r|e]; [|done].
  by destruct (ControlClient.returnable r).
Qed.

Module ControlClientExamples.
Import Meta Auth Control ControlClient.

#[local] Existing Instances map_bolt map_bolt_laws.

Definition ex_service : ControlServer := NewControlServer "bob" (Cas.MkCAS "/d") 0.
Definition ex_clock : Z := 1700000000 * Second.

(** A node that serves index [b], with a clock ten seconds ahead. *)
Definition ex_serve (b : gmap string (list byte)) : list byte → Metadata → call → result reply :=
  grpc_serve (B := map_bolt) (secret bob) ex_service b (Os ∅ []) (ex_clock + 10 * Second).

Definition ex_grpc (b : gmap string (list byte)) : GrpcNet :=
  direct_grpc (λ a, if decide (a = "10.0.0.2:9000") then Some (ex_serve b) else None).

Lemma ex_delivers b : GrpcDelivers (ex_grpc b) "10.0.0.2:9000" (ex_serve b).
Proof. by apply direct_grpc_delivers. Qed.

Definition ex_index : gmap string (list byte) := (PutFileMeta (B := map_bolt) ex_meta ∅).2.

Definition ex_caller : ControlClient := MkControlClient "10.0.0.2:9000" (secret alice) (nodeID alice).

Lemma Diff_served_witness :
  Diff (ex_grpc ex_index) ex_caller ex_clock "docs/a.txt" [] []
  = Ok (MkDiffResponse "docs/a.txt" (a32_bytes zero32) false [a32_bytes zero32]).
Proof.
  pose proof (Diff_served (B := map_bolt) (ex_grpc ex_index) "10.0.0.2:9000" (secret bob) (nodeID alice)
    ex_service ex_index (Os ∅ []) ex_clock (ex_clock + 10 * Second)
    (GrpcDelivers0 := ex_delivers ex_index)) as H.
  specialize (H ltac:(unfold is_i64, ex_clock, Second; lia) eq_refl "docs/a.txt" [] [] eq_refl).
  specialize (H ltac:(vm_compute; discriminate)).
  exact H.
Defined.

(** A record of a gigabyte in chunks of eight kilobytes. *)
Definition ex_large : FileMeta :=
  MkFileMeta "disk.img" zero32 1 (replicate (Z.to_nat 131072) zero32) 1073741824.

Lemma large_file_refused_witness :
  is_ok (Diff (ex_grpc (PutFileMeta (B := map_bolt) ex_large ∅).2) ex_caller ex_clock "disk.img" [] []) = false.
Proof.
  pose proof (Get_after_Put (B := map_bolt) ex_large ∅ (PutFileMeta (B := map_bolt) ex_large ∅).2) as Hget.
  assert (meta_range ex_large) as Hr by (unfold meta_range, is_u64; cbn [LamportTS SizeBytes ex_large]; lia).
  specialize (Hget Hr eq_refl).
  apply (large_file_refused (B := map_bolt) (ex_grpc (PutFileMeta (B := map_bolt) ex_large ∅).2) "10.0.0.2:9000"
    (secret bob) (nodeID alice) ex_service (PutFileMeta (B := map_bolt) ex_large ∅).2 (Os ∅ [])
    ex_clock (ex_clock + 10 * Second) "disk.img" (json_image ex_large)
    (GrpcDelivers0 := ex_delivers _)).
  - unfold is_i64, ex_clock, Second. lia.
  - reflexivity.
  - reflexivity.
  - cbn [String.length]. lia.
  - exact Hget.
  - cbn [json_image ChunkHashes ex_large]. rewrite length_replicate. lia.
Defined.

End ControlClientExamples.
