(* ===== verification/Scheduler.v ===== *)
(** * Scheduling transfers ([internal/scheduler])

    [HealthTracker] ([backoff.go]) remembers which peers are cooling down,
    [CalcJitteredBackoff] computes how long; [BuildRarityMap] ([rarest.go])
    asks every peer which of the missing chunks it has and orders the chunks
    by how many answers name them.  The tracker's mutex makes its operations
    atomic; the goroutines of [BuildRarityMap] enter their critical section in
    some order, a parameter, and [sort.Slice] is a parameter with its
    documented contract (it need not be stable). *)

From Stdlib Require Import Strings.Byte SpecFloat.
From S2P Require Import Prelude GoBytes GoFloat.

(** ** [sort.Slice] *)

(** A strict weak order, which [sort.Slice] requires of its [less]. *)
Record weak_order {A} (less : A → A → bool) : Prop := {
  wo_irrefl x : less x x = false;
  wo_trans x y z : less x y = true → less y z = true → less x z = true;
  wo_incomp x y z : less x y = false → less y z = false → less x z = false;
}.

Class SortSlice := sort_slice : ∀ {A : Type}, (A → A → bool) → list A → list A.

Class SortSliceLaws (S : SortSlice) : Prop := {
  sort_slice_perm {A} (less : A → A → bool) l : sort_slice less l ≡ₚ l;
  sort_slice_sorted {A} (less : A → A → bool) l :
    weak_order less → StronglySorted (λ x y, less y x = false) (sort_slice less l);
}.

Module Scheduler.

Local Open Scope Z_scope.

(** ** [HealthTracker] *)

Record PeerHealth := MkPeerHealth {
  IsHot : bool;
  CooldownUntil : Z;
  FailCount : Z;
}.

Abbreviation HealthTracker := (gmap string PeerHealth).

Definition NewHealthTracker : HealthTracker := ∅.

Definition MarkHot (now : Z) (peerAddr : string) (retryAfter : Z) (h : HealthTracker) : HealthTracker :=
  let p := default (MkPeerHealth false 0 0) (h !! peerAddr) in
  <[peerAddr := MkPeerHealth true (now + retryAfter) (FailCount p + 1)]> h.

Definition IsAvailable (now : Z) (peerAddr : string) (h : HealthTracker) : bool * HealthTracker :=
  match h !! peerAddr with
  | None => (true, h)
  | Some p =>
      if IsHot p then
        if CooldownUntil p <? now
        then (true, <[peerAddr := MkPeerHealth false (CooldownUntil p) 0]> h)
        else (false, h)
      else (true, h)
  end.

(** ** [CalcJitteredBackoff] *)

(** Exponential growth with a cap; [uint(attempt)] of a negative attempt
    shifts everything out, and the product wraps like an [int64]. *)
Definition capped_backoff (attempt base max : Z) : Z :=
  let attempt := if 10 <? attempt then 10 else attempt in
  let multiplier := if attempt <? 0 then 0 else Z.shiftl 1 attempt in
  let backoff := i64 (base * multiplier) in
  if max <? backoff then max else backoff.

(** Jitter of up to a quarter either way; [sample] is the result of
    [rand.Float64()]. *)
Definition jittered (sample : float64) (backoff : Z) : Z :=
  let jitterRange := fmul (float_of_Z backoff) f_quarter in
  let jitter := fsub (fmul (fmul sample f_two) jitterRange) jitterRange in
  int64_of_float (fadd (float_of_Z backoff) jitter).

Definition CalcJitteredBackoff (sample : float64) (attempt base max : Z) : Z :=
  let finalDuration := jittered sample (capped_backoff attempt base max) in
  if max <? finalDuration then max
  else if finalDuration <? Millisecond then Millisecond
  else finalDuration.

(** ** [BuildRarityMap] *)

Record ChunkRarity := MkChunkRarity {
  cr_Hash : list byte;
  Peers : list string;
}.

(** One critical section: the peer is appended once per hash it returned. *)
Definition add_available (peerAddr : string) (available : list (list byte))
    (m : gmap string (list string)) : gmap string (list string) :=
  foldl (λ m hash, let key := hex_EncodeToString hash in
    <[key := default [] (m !! key) ++ [peerAddr]]> m) m available.

(** [query] is what connecting to a peer and asking it gives; [order] is the
    order in which the goroutines get the lock. *)
Definition rarity_map (query : string → result (list (list byte))) (order : list string) :
    gmap string (list string) :=
  foldl (λ m peerAddr,
    match query peerAddr with
    | Err _ => m
    | Ok available => add_available peerAddr available m
    end) ∅ order.

Definition fewer_peers (x y : ChunkRarity) : bool :=
  Nat.ltb (length (Peers x)) (length (Peers y)).

Definition BuildRarityMap `{SortSlice} (query : string → result (list (list byte)))
    (order : list string) (missingChunks : list (list byte)) : list ChunkRarity :=
  let m := rarity_map query order in
  sort_slice fewer_peers
    ((λ hash, MkChunkRarity hash (default [] (m !! hex_EncodeToString hash))) <$> missingChunks).

(** ** Properties of the tracker *)

(** Whether a peer may be used at [now], without the bookkeeping. *)
Definition available (now : Z) (peerAddr : string) (h : HealthTracker) : bool :=
  match h !! peerAddr with
  | Some p => negb (IsHot p) || (CooldownUntil p <? now)
  | None => true
  end.

Lemma IsAvailable_fst now p h : (IsAvailable now p h).1 = available now p h.
Proof.
  unfold IsAvailable, available. destruct (h !! p) as [[hot c f]|]; [|done]. simpl.
  destruct hot; [|done]. by destruct (c <? now).
Qed.

(** The bookkeeping of a query does not change the answer to later ones. *)
Lemma IsAvailable_keeps now p h now' q :
  now ≤ now' → available now' q (IsAvailable now p h).2 = available now' q h.
Proof.
  intros Hle. unfold IsAvailable, available.
  destruct (h !! p) as [[hot c f]|] eqn:E; [|done]. simpl. destruct hot; [|done].
  destruct (c <? now) eqn:Hc; [|done]. simpl.
  destruct (decide (p = q)) as [->|Hne].
  - rewrite lookup_insert_eq, E. simpl. apply Z.ltb_lt in Hc. lia.
  - by rewrite lookup_insert_ne by done.
Qed.

(** After [MarkHot] the peer is unavailable exactly until the cooldown ends;
    other peers are not affected. *)
Lemma MarkHot_available now p d h now' q :
  available now' q (MarkHot now p d h) =
  if decide (q = p) then now + d <? now' else available now' q h.
Proof.
  unfold MarkHot, available. case_decide as Hq.
  - subst q. by rewrite lookup_insert_eq.
  - by rewrite lookup_insert_ne by done.
Qed.

(** A peer marked hot is refused exactly until its cooldown has passed,
    however often it is asked in between, and no other peer is affected. *)
Theorem cooldown_window now p d h queries now' q :
  Forall (λ '(t, _), t ≤ now') queries →
  let h' := foldl (λ h '(t, r), (IsAvailable t r h).2) (MarkHot now p d h) queries in
  (IsAvailable now' q h').1 = if decide (q = p) then now + d <? now' else (IsAvailable now' q h).1.
Proof.
  intros Hq h'. rewrite !IsAvailable_fst. rewrite <- MarkHot_available. subst h'.
  generalize (MarkHot now p d h). clear h. induction Hq as [|[t r] queries Ht Hq IH]; intros h; [done|].
  cbn [foldl]. rewrite IH. by apply IsAvailable_keeps.
Qed.

(** ** Bounds of the backoff *)

Lemma CalcJitteredBackoff_bounds sample attempt base max :
  Millisecond ≤ max → Millisecond ≤ CalcJitteredBackoff sample attempt base max ≤ max.
Proof.
  intros Hm. unfold CalcJitteredBackoff. generalize (jittered sample (capped_backoff attempt base max)).
  intros z. repeat case_match; lia.
Qed.

Lemma capped_backoff_spec attempt base max :
  0 ≤ attempt → 0 ≤ base < 2 ^ 53 →
  capped_backoff attempt base max = Z.min max (base * 2 ^ Z.min attempt 10).
Proof.
  intros Ha Hb. unfold capped_backoff.
  replace (if 10 <? attempt then 10 else attempt) with (Z.min attempt 10) by (case_match; lia).
  replace (Z.min attempt 10 <? 0) with false by lia.
  rewrite Z.shiftl_1_l.
  assert (0 < 2 ^ Z.min attempt 10 ≤ 2 ^ 10) by (split; [apply Z.pow_pos_nonneg; lia|apply Z.pow_le_mono_r; lia]).
  rewrite i64_small by (unfold is_i64; nia). case_match; lia.
Qed.

(** Before the jitter the backoff doubles with every attempt up to the tenth
    and is capped by the maximum, without overflow for a base below 2^53; with
    the jitter, whatever the random sample, it stays between a millisecond and
    the maximum. *)
Theorem backoff_spec sample attempt base max :
  0 ≤ attempt → 0 ≤ base < 2 ^ 53 → Millisecond ≤ max →
  capped_backoff attempt base max = Z.min max (base * 2 ^ Z.min attempt 10)
  ∧ Millisecond ≤ CalcJitteredBackoff sample attempt base max ≤ max.
Proof. intros. split; [by apply capped_backoff_spec|by apply CalcJitteredBackoff_bounds]. Qed.

(** ** The order of the chunks *)

Local Open Scope nat_scope.

(** How often a peer's answer names a chunk. *)
Definition answers (query : string → result (list (list byte))) (hash : list byte) (p : string) : nat :=
  match query p with
  | Ok available => length (filter (λ h, h = hash) available)
  | Err _ => 0
  end.

Lemma add_available_lookup p av m hash :
  default [] (add_available p av m !! hex_EncodeToString hash)
  = default [] (m !! hex_EncodeToString hash) ++ replicate (length (filter (λ h, h = hash) av)) p.
Proof.
  unfold add_available. revert m. induction av as [|h av IH]; intros m; simpl.
  { by rewrite app_nil_r. }
  rewrite IH, filter_cons. case_decide as Hh.
  - subst h. rewrite lookup_insert_eq. simpl. by rewrite <- app_assoc.
  - rewrite lookup_insert_ne; [done|]. intros E. by apply (inj hex_EncodeToString) in E.
Qed.

(** The peers listed for a chunk: each peer as often as it named the chunk, in
    the order the answers came in. *)
Lemma rarity_map_lookup query order hash :
  default [] (rarity_map query order !! hex_EncodeToString hash)
  = mjoin ((λ p, replicate (answers query hash p) p) <$> order).
Proof.
  unfold rarity_map. induction order as [|p order IH] using rev_ind; [done|].
  rewrite foldl_snoc, fmap_app, join_app. csimpl. rewrite app_nil_r. unfold answers at 2.
  destruct (query p) as [av|e].
  - by rewrite add_available_lookup, IH.
  - simpl. by rewrite app_nil_r, IH.
Qed.

Lemma fewer_peers_weak : weak_order fewer_peers.
Proof.
  unfold fewer_peers. constructor; intros *; rewrite ?Nat.ltb_lt, ?Nat.ltb_ge; lia.
Qed.

Section with_sort.
Context `{S : SortSlice} `{!SortSliceLaws S}.

(** Every missing chunk is scheduled exactly once, with the peers that named
    it, and chunks named less often come first. *)
Lemma BuildRarityMap_spec query order missing :
  let res := BuildRarityMap query order missing in
  cr_Hash <$> res ≡ₚ missing
  ∧ Forall (λ c, Peers c = mjoin ((λ p, replicate (answers query (cr_Hash c) p) p) <$> order)) res
  ∧ StronglySorted (λ x y, length (Peers x) ≤ length (Peers y)) res.
Proof.
  unfold BuildRarityMap. set (mk := λ hash, MkChunkRarity hash _).
  pose proof (sort_slice_perm fewer_peers (mk <$> missing)) as Hp. cbv zeta. split_and!.
  - rewrite Hp, <- list_fmap_compose. by rewrite list_fmap_id.
  - rewrite Hp. apply Forall_fmap, Forall_forall. intros h _. simpl. apply rarity_map_lookup.
  - pose proof (sort_slice_sorted fewer_peers (mk <$> missing) fewer_peers_weak) as Hs.
    clear Hp. induction Hs as [|x l Hs IH Hx]; [constructor|constructor; [done|]].
    eapply Forall_impl; [exact Hx|]. simpl. intros y. unfold fewer_peers. rewrite Nat.ltb_ge. done.
Qed.

(** A peer that answers honestly names a chunk as often as it occurs in the
    request, if it has it. *)
Lemma answers_honest (have : gset array32) query p (missing : list array32) h :
  query p = Ok (filter (λ r, copy32 r ∈ have) (a32_bytes <$> missing)) →
  answers query (a32_bytes h) p = if decide (h ∈ have) then length (filter (λ x, x = h) missing) else 0.
Proof.
  intros Hq. unfold answers. rewrite Hq. clear Hq.
  induction missing as [|x missing IH]; [by case_decide|]. csimpl.
  rewrite !filter_cons, copy32_id.
  destruct (decide (x ∈ have)) as [Hx|Hx]; simpl; rewrite ?filter_cons.
  - destruct (decide (x = h)) as [->|Hne].
    + rewrite (decide_True (P := a32_bytes h = a32_bytes h)) by done. simpl. rewrite IH.
      by rewrite !decide_True by done.
    + rewrite decide_False by (by intros ?%(inj a32_bytes)). done.
  - rewrite IH. case_decide as Hh; [|done].
    rewrite (decide_False (P := x = h)) by congruence. done.
Qed.

(** The peers that hold a chunk, in the order their answers came in. *)
Definition holders (has : string → gset array32) (order : list string) (h : array32) : list string :=
  filter (λ p, h ∈ has p) order.

Lemma holders_join (has : string → gset array32) order query (missing : list array32) h :
  (∀ p, p ∈ order → query p = Ok (filter (λ r, copy32 r ∈ has p) (a32_bytes <$> missing))) →
  NoDup missing → h ∈ missing →
  mjoin ((λ p, replicate (answers query (a32_bytes h) p) p) <$> order) = holders has order h.
Proof.
  intros Hq Hnd Hh. unfold holders. induction order as [|p order IH]; [done|]. csimpl.
  rewrite filter_cons, IH by (intros; apply Hq; by apply list_elem_of_further).
  rewrite (answers_honest (has p) query p missing h) by (apply Hq, list_elem_of_here).
  case_decide; [|done]. rewrite (filter_one missing h) by done. done.
Qed.


(** A chunk that occurs several times in the request is listed several
    times, and each time with every holder repeated as often: its peer count is
    the number of holders times the number of occurrences, so a repeated chunk
    is scheduled as if it were common. *)
Theorem duplicates_inflate (has : string → gset array32) order query (missing : list array32) h :
  (∀ p, p ∈ order → query p = Ok (filter (λ r, copy32 r ∈ has p) (a32_bytes <$> missing))) →
  ∀ c, c ∈ BuildRarityMap query order (a32_bytes <$> missing) → cr_Hash c = a32_bytes h →
    length (Peers c) = length (filter (λ x, x = h) missing) * length (holders has order h).
Proof.
  intros Hq c Hc Ec.
  destruct (BuildRarityMap_spec query order (a32_bytes <$> missing)) as (_ & Ha & _).
  rewrite Forall_forall in Ha. rewrite (Ha c Hc), Ec. clear Ha Hc Ec. unfold holders.
  induction order as [|p order IH]; csimpl; [lia|].
  rewrite filter_cons, length_app, IH by (intros; apply Hq; by apply list_elem_of_further).
  rewrite length_replicate, (answers_honest (has p) query p missing h) by (apply Hq, list_elem_of_here).
  case_decide; simpl; lia.
Qed.

End with_sort.
End Scheduler.

(** ** An instance of [sort.Slice] *)

Fixpoint insert_by {A} (less : A → A → bool) (x : A) (l : list A) : list A :=
  match l with
  | [] => [x]
  | y :: l => if less y x then y :: insert_by less x l else x :: y :: l
  end.

Definition insertion_sort : SortSlice := λ A less, foldr (insert_by less) [].

Lemma insert_by_perm {A} (less : A → A → bool) x l : insert_by less x l ≡ₚ x :: l.
Proof.
  induction l as [|y l IH]; simpl; [done|]. case_match; [|done].
  rewrite IH. apply Permutation_swap.
Qed.

Lemma insertion_sort_laws : SortSliceLaws insertion_sort.
Proof.
  constructor; unfold sort_slice, insertion_sort.
  - intros A less l. induction l as [|x l IH]; simpl; [done|]. by rewrite insert_by_perm, IH.
  - intros A less l Hw. induction l as [|x l IH]; simpl; [constructor|].
    revert IH. generalize (foldr (insert_by less) [] l). intros l' IH.
    induction IH as [|y k IHl IHi Hy]; simpl; [by repeat constructor|].
    destruct (less y x) eqn:E.
    + constructor; [done|]. rewrite insert_by_perm. constructor; [|done].
      destruct (less x y) eqn:E'; [|done].
      pose proof (wo_trans _ Hw _ _ _ E E') as Hc. by rewrite (wo_irrefl _ Hw) in Hc.
    + constructor; [by constructor|]. constructor; [done|].
      eapply Forall_impl; [exact Hy|]. simpl. intros z Hz. by eapply (wo_incomp _ Hw).
Qed.

(** ** Witnesses *)

Module SchedulerExamples.
Import Scheduler.
#[local] Existing Instances insertion_sort insertion_sort_laws.

Lemma cooldown_window_witness :
  (IsAvailable 10 "p" (foldl (λ h '(t, r), (IsAvailable t r h).2) (MarkHot 0 "p" 10 ∅)
     [(3%Z, "p"); (10%Z, "q")])).1 = false.
Proof.
  rewrite (cooldown_window 0 "p" 10 ∅ [(3%Z, "p"); (10%Z, "q")] 10 "p"); [reflexivity|].
  repeat constructor; lia.
Defined.

Lemma backoff_spec_witness :
  capped_backoff 3 (500 * Millisecond) (5 * Second) = (4000 * Millisecond)%Z
  ∧ (Millisecond ≤ CalcJitteredBackoff f_quarter 3 (500 * Millisecond) (5 * Second) ≤ 5 * Second)%Z.
Proof.
  exact (backoff_spec f_quarter 3 (500 * Millisecond) (5 * Second) ltac:(lia)
    ltac:(unfold Millisecond; lia) ltac:(unfold Millisecond, Second; lia)).
Defined.

(** Two peers: one has both chunks, the other only the second. *)
Definition ex_h1 : array32 := zero32.
Definition ex_h2 : array32 := copy32 [x01].
Definition ex_has (p : string) : gset array32 := if decide (p = "p") then {[ ex_h1; ex_h2 ]} else {[ ex_h2 ]}.
Definition ex_query (missing : list array32) (p : string) : result (list (list byte)) :=
  Ok (filter (λ r, copy32 r ∈ ex_has p) (a32_bytes <$> missing)).


Lemma duplicates_inflate_witness :
  ∀ c, c ∈ BuildRarityMap (ex_query [ex_h1; ex_h2; ex_h1]) ["p"; "q"] (a32_bytes <$> [ex_h1; ex_h2; ex_h1]) →
    cr_Hash c = a32_bytes ex_h1 → length (Peers c) = 2.
Proof.
  intros c Hc Ec.
  refine (eq_trans (duplicates_inflate ex_has ["p"; "q"] (ex_query [ex_h1; ex_h2; ex_h1])
    [ex_h1; ex_h2; ex_h1] ex_h1 (λ p _, eq_refl) c Hc Ec) _).
  vm_compute. reflexivity.
Defined.

End SchedulerExamples.
