(* ===== verification/Discovery.v ===== *)
(** * Gossip ([internal/discovery/gossip.go])

    What the program does on top of [github.com/hashicorp/memberlist]: file
    announcements as JSON messages, the two ports each node advertises in its
    node metadata, and the list of peers derived from the members.  The
    library is outside: its member list is a field of the state, its broadcast
    queue is the list of the messages handed to it, and delivery of a message
    is a call of [NotifyMsg]. *)

From Stdlib Require Import Strings.Byte.
From S2P Require Import Prelude GoBytes Strconv Json.

Module Discovery.

Local Open Scope Z_scope.

(** ** Data *)

Record FileAnnouncement := MkAnn {
  an_FileID : string;
  an_MerkleRoot : array32;
  an_LamportTS : Z;
  an_SourceNode : string;
}.

#[global] Instance FileAnnouncement_eq_dec : EqDecision FileAnnouncement.
Proof. solve_decision. Defined.

Record PeerInfo := MkPeer {
  pi_Name : string;
  pi_Addr : string;
  HTTPPort : Z;
  GRPCPort : Z;
}.

(** [fmt.Sprintf("%s:%d", addr, port)] *)
Definition addr_port (addr : string) (port : Z) : string :=
  addr +:+ ":" +:+ string_of (FormatInt port).

Definition HTTPAddr (p : PeerInfo) : string := addr_port (pi_Addr p) (HTTPPort p).
Definition GRPCAddr (p : PeerInfo) : string := addr_port (pi_Addr p) (GRPCPort p).

(** A member as the library reports it. *)
Record Member := MkMember {
  mb_Name : string;
  mb_Addr : string;
  mb_Meta : list byte;
}.

Record GossipNode := MkGossip {
  g_list : option (list Member);
  g_port : Z;
  g_name : string;
  g_httpPort : Z;
  g_grpcPort : Z;
  g_queue : option (list (list byte));
  g_onAnnounce : bool;
}.

(** ** Messages *)

Definition ann_value (a : FileAnnouncement) : Json.value :=
  Json.JObj [
    (bytes_of "FileID", Json.enc_string (an_FileID a));
    (bytes_of "MerkleRoot", Json.enc_array32 (an_MerkleRoot a));
    (bytes_of "LamportTS", Json.enc_uint (an_LamportTS a));
    (bytes_of "SourceNode", Json.enc_string (an_SourceNode a))].

Definition marshal_ann (a : FileAnnouncement) : list byte := Json.print (ann_value a).

Definition ann_fields : list (Json.field FileAnnouncement) := [
  ("FileID", λ v a, x ← Json.dec_string v (an_FileID a);
     Some (MkAnn x (an_MerkleRoot a) (an_LamportTS a) (an_SourceNode a)));
  ("MerkleRoot", λ v a, x ← Json.dec_array32 v (an_MerkleRoot a);
     Some (MkAnn (an_FileID a) x (an_LamportTS a) (an_SourceNode a)));
  ("LamportTS", λ v a, x ← Json.dec_uint 64 v (an_LamportTS a);
     Some (MkAnn (an_FileID a) (an_MerkleRoot a) x (an_SourceNode a)));
  ("SourceNode", λ v a, x ← Json.dec_string v (an_SourceNode a);
     Some (MkAnn (an_FileID a) (an_MerkleRoot a) (an_LamportTS a) x))].

Definition unmarshal_ann (msg : list byte) : option FileAnnouncement :=
  v ← Json.parse_text msg; Json.dec_struct ann_fields v (MkAnn "" zero32 0 "").

(** ** Operations *)

Definition NewGossipNode (name : string) (bindPort httpPort grpcPort : Z) : GossipNode :=
  MkGossip None bindPort name httpPort grpcPort None false.

Definition OnAnnouncement (g : GossipNode) : GossipNode :=
  MkGossip (g_list g) (g_port g) (g_name g) (g_httpPort g) (g_grpcPort g) (g_queue g) true.

(** [Start]: the queue is made first; [create] is the outcome of
    [memberlist.Create], [join] that of [Join] on the seeds. *)
Definition Start (seedPeers : list string) (create join : result (list Member)) (g : GossipNode) :
    result unit * GossipNode :=
  let with_list l := MkGossip l (g_port g) (g_name g) (g_httpPort g) (g_grpcPort g)
    (Some []) (g_onAnnounce g) in
  match create with
  | Err e => (Err (EWrap "failed to create memberlist: %w" e), with_list (g_list g))
  | Ok l =>
      match seedPeers with
      | [] => (Ok tt, with_list (Some l))
      | _ =>
          match join with
          | Err e => (Err (EWrap "failed to join cluster: %w" e), with_list (Some l))
          | Ok l' => (Ok tt, with_list (Some l'))
          end
      end
  end.

(** Before [Start] there is no queue and the announcement is dropped. *)
Definition Broadcast (ann : FileAnnouncement) (g : GossipNode) : GossipNode :=
  match g_queue g with
  | None => g
  | Some q =>
      MkGossip (g_list g) (g_port g) (g_name g) (g_httpPort g) (g_grpcPort g)
        (Some (q ++ [marshal_ann ann])) (g_onAnnounce g)
  end.

(** [handleMsg] behind [NotifyMsg]: the announcement passed to the callback,
    if any. *)
Definition handleMsg (g : GossipNode) (msg : list byte) : option FileAnnouncement :=
  if g_onAnnounce g then unmarshal_ann msg else None.

Definition NotifyMsg (g : GossipNode) (msg : list byte) : option FileAnnouncement :=
  match msg with
  | [] => None
  | _ => handleMsg g msg
  end.

(** [binary.BigEndian.PutUint16(buf, uint16(port))] and [Uint16]. *)
Definition put_uint16 (port : Z) : list byte := [Z_byte (port / 256); Z_byte port].

Definition get_uint16 (b : list byte) : Z :=
  match b with [h; l] => byte_Z h * 256 + byte_Z l | _ => 0 end.

Definition NodeMeta (g : GossipNode) : list byte :=
  put_uint16 (g_httpPort g) ++ put_uint16 (g_grpcPort g).

Definition peer_of (m : Member) : PeerInfo :=
  MkPeer (mb_Name m) (mb_Addr m) (get_uint16 (take 2 (mb_Meta m)))
    (get_uint16 (take 2 (drop 2 (mb_Meta m)))).

(** [g.list] is nil before [Start] and after [Stop]; the call then panics. *)
Definition GetActivePeers (g : GossipNode) : result (list PeerInfo) :=
  match g_list g with
  | None => Err (EMsg "panic: nil pointer dereference")
  | Some members =>
      Ok (peer_of <$> filter (λ m, mb_Name m ≠ g_name g ∧ length (mb_Meta m) = 4%nat) members)
  end.

Definition Stop (g : GossipNode) : GossipNode :=
  match g_list g with
  | None => g
  | Some _ => MkGossip None (g_port g) (g_name g) (g_httpPort g) (g_grpcPort g)
      (g_queue g) (g_onAnnounce g)
  end.

(** ** Properties *)

Lemma get_put_uint16 port : get_uint16 (put_uint16 port) = port mod 65536.
Proof.
  cbn [get_uint16 put_uint16]. rewrite !byte_Z_byte.
  pose proof (Z.rem_mul_r port 256 256 ltac:(lia) ltac:(lia)) as H.
  change (256 * 256) with 65536 in H. lia.
Qed.

Lemma NodeMeta_length g : length (NodeMeta g) = 4%nat.
Proof. done. Qed.

(** A node seen through gossip has the ports it advertised. *)
Lemma peer_of_NodeMeta g addr :
  0 ≤ g_httpPort g < 65536 → 0 ≤ g_grpcPort g < 65536 →
  peer_of (MkMember (g_name g) addr (NodeMeta g))
  = MkPeer (g_name g) addr (g_httpPort g) (g_grpcPort g).
Proof.
  intros H1 H2. unfold peer_of. cbn [mb_Name mb_Addr mb_Meta]. unfold NodeMeta.
  change (take 2 (put_uint16 (g_httpPort g) ++ put_uint16 (g_grpcPort g)))
    with (put_uint16 (g_httpPort g)).
  change (take 2 (drop 2 (put_uint16 (g_httpPort g) ++ put_uint16 (g_grpcPort g))))
    with (put_uint16 (g_grpcPort g)).
  by rewrite !get_put_uint16, !Z.mod_small.
Qed.

Lemma unmarshal_ann_range msg a : unmarshal_ann msg = Some a → is_u64 (an_LamportTS a).
Proof.
  unfold unmarshal_ann. destruct (Json.parse_text msg) as [v|]; [|done]. cbn [mbind option_bind].
  apply (Json.dec_struct_inv (λ a, is_u64 (an_LamportTS a))); [|by vm_compute]. Json.dec_range ann_fields.
Qed.

(** Announcements that arrive carry 64-bit timestamps. *)
Lemma NotifyMsg_range g msg a : NotifyMsg g msg = Some a → is_u64 (an_LamportTS a).
Proof. unfold NotifyMsg, handleMsg. repeat case_match; try done. apply unmarshal_ann_range. Qed.

Definition ann_ok (a : FileAnnouncement) : Prop :=
  is_u64 (an_LamportTS a) ∧ Json.valid_utf8 (bytes_of (an_FileID a)) = true
  ∧ Json.valid_utf8 (bytes_of (an_SourceNode a)) = true.

Lemma unmarshal_marshal_ann a : ann_ok a → unmarshal_ann (marshal_ann a) = Some a.
Proof.
  intros (H1 & H2 & H3). unfold is_u64 in *. unfold unmarshal_ann, marshal_ann.
  rewrite Json.parse_text_print.
  2:{ cbn. split_and!; [done|apply Json.wf_enc_array32|apply Json.canon_FormatUint; lia|done..]. }
  unfold ann_value. cbn [mbind option_bind Json.clean_value]. rewrite !fmap_cons. cbn [fst snd].
  rewrite Json.clean_enc_array32, Json.clean_enc_uint.
  repeat match goal with
  | |- context [Json.sanitize (bytes_of ?s)] =>
      replace (Json.sanitize (bytes_of s)) with (bytes_of s) by (vm_compute; reflexivity)
  end.
  cbn [Json.dec_struct].
  erewrite Json.dec_members_field;
    [|reflexivity|cbn [snd]; rewrite Json.dec_enc_string by done; reflexivity].
  erewrite Json.dec_members_field;
    [|reflexivity|cbn [snd]; rewrite Json.dec_enc_array32; reflexivity].
  erewrite Json.dec_members_field;
    [|reflexivity|cbn [snd]; rewrite (Json.dec_enc_uint 64) by done; reflexivity].
  erewrite Json.dec_members_field;
    [|reflexivity|cbn [snd]; rewrite Json.dec_enc_string by done; reflexivity].
  by destruct a.
Qed.

Lemma marshal_ann_ne a : marshal_ann a ≠ [].
Proof. done. Qed.

(** What one node broadcasts is queued as one message, and the callback of
    any node that is handed that message gets the same announcement. *)
Theorem Broadcast_delivered a g g' q :
  ann_ok a → g_queue g = Some q → g_onAnnounce g' = true →
  ∃ msg, g_queue (Broadcast a g) = Some (q ++ [msg]) ∧ NotifyMsg g' msg = Some a.
Proof.
  intros Ha Hq Hg. exists (marshal_ann a). unfold Broadcast. rewrite Hq. split; [done|].
  unfold NotifyMsg, handleMsg. rewrite Hg, unmarshal_marshal_ann by done.
  by destruct (marshal_ann a) eqn:E; [apply marshal_ann_ne in E|].
Qed.

(** How the library reports a node. *)
Definition member_of (ga : GossipNode * string) : Member :=
  MkMember (g_name ga.1) ga.2 (NodeMeta ga.1).

Definition ports_ok (g : GossipNode) : Prop := 0 ≤ g_httpPort g < 65536 ∧ 0 ≤ g_grpcPort g < 65536.

(** When the member list is that of nodes of this program, the active peers
    are all nodes with another name than one's own, each with its address and
    the two ports it was configured with. *)
Theorem active_peers g (others : list (GossipNode * string)) :
  g_list g = Some (member_of <$> others) → Forall (λ ga, ports_ok ga.1) others →
  GetActivePeers g
  = Ok ((λ ga, MkPeer (g_name ga.1) ga.2 (g_httpPort ga.1) (g_grpcPort ga.1))
          <$> filter (λ ga, g_name ga.1 ≠ g_name g) others).
Proof.
  intros Hl Hp. unfold GetActivePeers. rewrite Hl. f_equal. clear Hl.
  induction Hp as [|[g' a] others [H1 H2] _ IH]; [done|]. csimpl. rewrite !filter_cons.
  destruct (decide (g_name g' = g_name g)) as [He|Hne].
  - rewrite !decide_False by (simpl; tauto). exact IH.
  - rewrite (decide_True (P := _ ∧ _)) by (split; [done|apply (NodeMeta_length g')]).
    rewrite decide_True by done. rewrite !fmap_cons, IH.
    change (member_of (g', a)) with (MkMember (g_name g') a (NodeMeta g')).
    by rewrite (peer_of_NodeMeta g' a H1 H2).
Qed.

(** ** Witnesses *)

Definition ex_ann : FileAnnouncement := MkAnn "docs/a.txt" zero32 3 "node-1".

Lemma Broadcast_delivered_witness :
  ∃ msg, g_queue (Broadcast ex_ann (MkGossip (Some []) 7946 "node-1" 9100 9000 (Some []) true))
      = Some [msg]
    ∧ NotifyMsg (OnAnnouncement (NewGossipNode "node-2" 7946 9100 9000)) msg = Some ex_ann.
Proof.
  apply (Broadcast_delivered ex_ann _ _ []); [|reflexivity|reflexivity].
  split_and!; [vm_compute; split; congruence|reflexivity|reflexivity].
Defined.

Lemma active_peers_witness :
  GetActivePeers (MkGossip (Some (member_of <$>
      [(NewGossipNode "n1" 7946 9100 9000, "10.0.0.1"); (NewGossipNode "n2" 7946 65535 258, "10.0.0.2")]))
      7946 "n1" 9100 9000 (Some []) true)
  = Ok [MkPeer "n2" "10.0.0.2" 65535 258].
Proof.
  rewrite (active_peers _ [(NewGossipNode "n1" 7946 9100 9000, "10.0.0.1");
    (NewGossipNode "n2" 7946 65535 258, "10.0.0.2")]); [reflexivity|reflexivity|].
  repeat constructor; simpl; lia.
Defined.

End Discovery.
