(* ===== verification/Orchestrator.v ===== *)
(** * The sync engine ([internal/orchestrator/sync.go])

    [Pull] brings one file to this node: find a peer that has it, ask that
    peer which chunks are missing and for its record of the file, find out
    which peers hold the missing chunks, fetch them rarest first into the
    object store, assemble the file from the store, save the record and
    announce it.

    The network is the environment ([PeerNet]): the answers to the calls the
    client packages make, which may differ from call to call, how long the
    calls take, the samples of [math/rand], and the order in which the
    goroutines get to run.  Each fetching goroutine is one step of that order;
    what they share is the health tracker and the object store, whose
    operations are atomic.  The two callbacks of the engine act on a state of
    the caller's choosing. *)

From Stdlib Require Import Strings.Byte.
From S2P Require Import Prelude GoBytes GoFloat Sha256 Path Fs Cas Json Meta Assembler Control.
From S2P Require Import Scheduler Discovery.

Module Orchestrator.
Import Meta Control Scheduler Discovery.

(** ** The environment *)

(** Calls carry a number, counted up over one [Pull], so that two calls of the
    same kind can be answered differently. *)
Record PeerNet := MkPeerNet {
  (** [control.NewControlClient] *)
  pn_dial : nat → string → result unit;
  (** [ControlClient.Diff] *)
  pn_diff : nat → string → DiffRequest → result DiffResponse;
  (** [ControlClient.CheckAvailability] *)
  pn_avail : nat → string → list (list byte) → result (list (list byte));
  (** [Client.FetchMeta] *)
  pn_meta : nat → string → string → result FileMeta;
  (** [Client.FetchChunk] *)
  pn_chunk : nat → string → array32 → result (list byte);
  (** Time that passes during a call. *)
  pn_elapsed : nat → Z;
  (** [rand.Float64()] *)
  pn_rand : nat → float64;
  (** The order in which goroutines take their turn. *)
  pn_order : ∀ {A}, list A → list A;
  pn_order_perm {A} (l : list A) : pn_order l ≡ₚ l;
}.

Section with_params.
Context `{B : Bolt} `{S : SortSlice} {C : Type}.

(** ** State *)

Record Engine := MkEngine {
  e_NodeID : string;
  e_CAS : Cas.CASBlobStore;
  e_BaseDir : string;
  (** [MarkQuiet(path)]; the callback reads the clock. *)
  MarkQuiet : option (Z → string → C → C);
  Announce : option (string → array32 → Z → C → C);
}.

Record PState := MkPState {
  ps_os : os;
  ps_meta : bucket;
  ps_tracker : HealthTracker;
  ps_now : Z;
  ps_calls : nat;
  ps_cb : C;
}.

Definition set_os (w : os) (s : PState) : PState :=
  MkPState w (ps_meta s) (ps_tracker s) (ps_now s) (ps_calls s) (ps_cb s).
Definition set_meta (b : bucket) (s : PState) : PState :=
  MkPState (ps_os s) b (ps_tracker s) (ps_now s) (ps_calls s) (ps_cb s).
Definition set_tracker (t : HealthTracker) (s : PState) : PState :=
  MkPState (ps_os s) (ps_meta s) t (ps_now s) (ps_calls s) (ps_cb s).
Definition set_cb (c : C) (s : PState) : PState :=
  MkPState (ps_os s) (ps_meta s) (ps_tracker s) (ps_now s) (ps_calls s) c.
Definition sleep (d : Z) (s : PState) : PState :=
  MkPState (ps_os s) (ps_meta s) (ps_tracker s) (ps_now s + d) (ps_calls s) (ps_cb s).

(** One call over the network: its number, and the state after it. *)
Definition call (net : PeerNet) (s : PState) : nat * PState :=
  (ps_calls s,
   MkPState (ps_os s) (ps_meta s) (ps_tracker s) (ps_now s + pn_elapsed net (ps_calls s))
     (Datatypes.S (ps_calls s)) (ps_cb s)).

(** ** Choosing the peer to sync from *)

(** [grpcToHTTP]: a later peer with the same address overwrites. *)
Definition grpc_to_http (peers : list PeerInfo) : gmap string string :=
  foldl (λ m p, <[GRPCAddr p := HTTPAddr p]> m) ∅ peers.

(** The loop over [grpcAddrs]: the first peer that has the file and hands out
    its record, or the last error met. *)
Fixpoint find_source (net : PeerNet) (g2h : gmap string string) (req : DiffRequest)
    (addrs : list string) (lastErr : option error) (s : PState) :
    (option (DiffResponse * FileMeta) * option error) * PState :=
  match addrs with
  | [] => ((None, lastErr), s)
  | grpcAddr :: rest =>
      let '(n, s) := call net s in
      match pn_dial net n grpcAddr with
      | Err e =>
          find_source net g2h req rest
            (Some (EWrap "control plane connection to %s failed: %w" e)) s
      | Ok _ =>
          let '(n, s) := call net s in
          match pn_diff net n grpcAddr req with
          | Err e => find_source net g2h req rest (Some (EWrap "diff with %s failed: %w" e)) s
          | Ok d =>
              match RemoteMerkleRoot d with
              | [] => find_source net g2h req rest lastErr s
              | _ =>
                  let httpPeer := default "" (g2h !! grpcAddr) in
                  let '(n, s) := call net s in
                  match pn_meta net n httpPeer (dq_FileId req) with
                  | Err e =>
                      find_source net g2h req rest
                        (Some (EWrap "failed to fetch remote meta from %s: %w" e)) s
                  | Ok rm => ((Some (d, rm), lastErr), s)
                  end
              end
          end
      end
  end.

(** ** Fetching one chunk *)

(** The [for attempt] loop against one peer: [true] when the chunk was
    received.  The error of [CAS.Put] is not looked at. *)
Fixpoint try_attempts (net : PeerNet) (e : Engine) (httpPeer : string) (chunkHash : array32)
    (attempts : list Z) (s : PState) : bool * PState :=
  match attempts with
  | [] => (false, s)
  | attempt :: rest =>
      let '(n, s) := call net s in
      match pn_chunk net n httpPeer chunkHash with
      | Err _ =>
          if (attempt =? 3)%Z then (false, s) else
          let backoff := CalcJitteredBackoff (pn_rand net n) attempt (500 * Millisecond) (5 * Second) in
          let s := set_tracker (MarkHot (ps_now s) httpPeer backoff (ps_tracker s)) s in
          try_attempts net e httpPeer chunkHash rest (sleep backoff s)
      | Ok data =>
          let '(_, w) := Cas.Put (e_CAS e) chunkHash data (ps_os s) in
          (true, set_os w s)
      end
  end.

(** The loop over the chunk's peers; one that is cooling down is skipped. *)
Fixpoint try_peers (net : PeerNet) (e : Engine) (g2h : gmap string string) (chunkHash : array32)
    (peers : list string) (s : PState) : bool * PState :=
  match peers with
  | [] => (false, s)
  | peerGrpc :: rest =>
      match g2h !! peerGrpc with
      | None => try_peers net e g2h chunkHash rest s
      | Some httpPeer =>
          let '(avail, t) := IsAvailable (ps_now s) httpPeer (ps_tracker s) in
          let s := set_tracker t s in
          if negb avail then try_peers net e g2h chunkHash rest s else
          let '(done, s) := try_attempts net e httpPeer chunkHash [1; 2; 3]%Z s in
          if done then (true, s) else try_peers net e g2h chunkHash rest s
      end
  end.

(** The goroutine for one chunk: the error it sends, if any. *)
Definition fetch_chunk (net : PeerNet) (e : Engine) (g2h : gmap string string) (c : ChunkRarity)
    (s : PState) : option error * PState :=
  let '(done, s) := try_peers net e g2h (copy32 (cr_Hash c)) (Peers c) s in
  (if done then None else Some (EMsg "exhausted all peers for chunk %x"), s).

(** The goroutines, one after the other; the errors are what is in [errChan]
    in the end. *)
Fixpoint fetch_all (net : PeerNet) (e : Engine) (g2h : gmap string string)
    (cs : list ChunkRarity) (s : PState) : list error * PState :=
  match cs with
  | [] => ([], s)
  | c :: cs =>
      let '(o, s) := fetch_chunk net e g2h c s in
      let '(errs, s) := fetch_all net e g2h cs s in
      (match o with Some e => e :: errs | None => errs end, s)
  end.

(** The chunks whose goroutine is started before one without peers is met. *)
Fixpoint launched (cs : list ChunkRarity) : list ChunkRarity * bool :=
  match cs with
  | [] => ([], true)
  | c :: cs =>
      match Peers c with
      | [] => ([], false)
      | _ => let '(l, ok) := launched cs in (c :: l, ok)
      end
  end.

(** The fetch phase.  When a chunk has no peer, [Pull] returns at once and
    the goroutines already started finish on their own. *)
Definition fetch_phase (net : PeerNet) (e : Engine) (g2h : gmap string string)
    (rarityMap : list ChunkRarity) (s : PState) : result unit * PState :=
  let '(started, ok) := launched rarityMap in
  let '(errs, s) := fetch_all net e g2h (pn_order net started) s in
  if negb ok then (Err (EMsg "chunk %x is unavailable in the cluster"), s) else
  match errs with
  | err :: _ => (Err err, s)
  | [] => (Ok tt, s)
  end.

(** ** Assembling *)

(** The loop over [remoteMeta.ChunkHashes]; on an error the file is closed and
    left as it is. *)
Fixpoint assemble_loop (cas : Cas.CASBlobStore) (i : nat) (currentOffset : Z) (hs : list array32)
    (sparse : Assembler.SparseFile) (w : os) : result Assembler.SparseFile * os :=
  match hs with
  | [] => (Ok sparse, w)
  | h :: hs =>
      match Cas.Get cas h w with
      | (Err e, w) =>
          let '(_, w) := Assembler.Close sparse w in
          (Err (EWrap "chunk %x missing from local CAS after transfer: %w" e), w)
      | (Ok data, w) =>
          match Assembler.WriteChunk (Z.of_nat i) currentOffset data (sparse, w) with
          | (Err e, (sparse, w)) =>
              let '(_, w) := Assembler.Close sparse w in
              (Err (EWrap "failed to write chunk %d of %s: %w" e), w)
          | (Ok _, (sparse, w)) =>
              assemble_loop cas (Datatypes.S i) (i64 (currentOffset + Z.of_nat (length data))) hs sparse w
          end
      end
  end.

Definition out_path (e : Engine) (fileID : string) : string :=
  Join [e_BaseDir e; FromSlash fileID].

(** From [os.MkdirAll] to the closed file. *)
Definition assemble (e : Engine) (fileID : string) (remoteMeta : FileMeta) (s : PState) :
    result unit * PState :=
  let outPath := out_path e fileID in
  match os_MkdirAll (Dir outPath) (ps_os s) with
  | (Err err, w) =>
      (Err (EWrap "failed to create parent directory for %s: %w" err), set_os w s)
  | (Ok _, w) =>
      let s := set_os w s in
      let s := match MarkQuiet e with
               | Some f => set_cb (f (ps_now s) outPath (ps_cb s)) s
               | None => s
               end in
      match Assembler.NewSparseFile outPath (i64 (SizeBytes remoteMeta))
              (length (ChunkHashes remoteMeta)) (ps_os s) with
      | (Err err, w) => (Err (EWrap "assembler failed: %w" err), set_os w s)
      | (Ok sparse, w) =>
          match assemble_loop (e_CAS e) 0 0 (ChunkHashes remoteMeta) sparse w with
          | (Err err, w) => (Err err, set_os w s)
          | (Ok sparse, w) =>
              match Assembler.Close sparse w with
              | (Err err, w) => (Err (EWrap "failed to finalize %s: %w" err), set_os w s)
              | (Ok _, w) => (Ok tt, set_os w s)
              end
          end
      end
  end.

(** Saving the record and announcing it, under the record's own name. *)
Definition commit (e : Engine) (remoteMeta : FileMeta) (s : PState) : result unit * PState :=
  match PutFileMeta remoteMeta (ps_meta s) with
  | (Err err, b) => (Err (EWrap "failed to save meta: %w" err), set_meta b s)
  | (Ok _, b) =>
      let s := set_meta b s in
      (Ok tt,
       match Announce e with
       | Some f =>
           set_cb (f (FileID remoteMeta) (MerkleRoot remoteMeta) (LamportTS remoteMeta) (ps_cb s)) s
       | None => s
       end)
  end.

(** ** [Pull] *)

(** The request for the diff: root and chunk list of the local version, both
    empty when there is none. *)
Definition diff_request (b : bucket) (fileID : string) : DiffRequest :=
  match GetFileMeta b fileID with
  | Ok localMeta =>
      MkDiffRequest fileID (a32_bytes (MerkleRoot localMeta)) (a32_bytes <$> ChunkHashes localMeta)
  | Err _ => MkDiffRequest fileID [] []
  end.

(** How [BuildRarityMap] learns what a peer has. *)
Definition query_peer (net : PeerNet) (n : nat) (missing : list (list byte)) (p : string) :
    result (list (list byte)) :=
  match pn_dial net n p with
  | Err e => Err e
  | Ok _ => pn_avail net n p missing
  end.

Definition Pull (net : PeerNet) (e : Engine) (fileID : string) (peers : list PeerInfo)
    (s : PState) : result unit * PState :=
  match peers with
  | [] => (Err (EMsg "no candidate peers available for %s"), s)
  | _ =>
      let grpcToHTTP := grpc_to_http peers in
      let grpcAddrs := GRPCAddr <$> peers in
      let req := diff_request (ps_meta s) fileID in
      match find_source net grpcToHTTP req grpcAddrs None s with
      | ((None, Some lastErr), s) => (Err (EWrap "no peer had file %s: %w" lastErr), s)
      | ((None, None), s) => (Err (EMsg "no peer had file %s"), s)
      | ((Some (diff, remoteMeta), _), s) =>
          if IsSynced diff then (Ok tt, s) else
          let '(n, s) := call net s in
          let rarityMap :=
            BuildRarityMap (query_peer net n (MissingChunkHashes diff)) (pn_order net grpcAddrs)
              (MissingChunkHashes diff) in
          match fetch_phase net e grpcToHTTP rarityMap s with
          | (Err err, s) => (Err err, s)
          | (Ok _, s) =>
              match assemble e fileID remoteMeta s with
              | (Err err, s) => (Err err, s)
              | (Ok _, s) => commit e remoteMeta s
              end
          end
      end
  end.

(** ** What the phases before the assembly do *)

(** A sequence of [CAS.Put]s. *)
Definition put_step (cas : Cas.CASBlobStore) (w w' : os) : Prop :=
  ∃ h d r, Cas.Put cas h d w = (r, w').

(** Only the object store, the tracker, the clock and the call counter move. *)
Definition fetches (cas : Cas.CASBlobStore) (s s' : PState) : Prop :=
  rtc (put_step cas) (ps_os s) (ps_os s') ∧ ps_meta s' = ps_meta s ∧ ps_cb s' = ps_cb s.

#[global] Instance fetches_preorder cas : PreOrder (fetches cas).
Proof.
  split.
  - intros s. by split_and!.
  - intros s1 s2 s3 (H1 & ? & ?) (H2 & ? & ?). split_and!; [by etrans|congruence..].
Qed.

Lemma fetches_same cas (s s' : PState) :
  ps_os s' = ps_os s → ps_meta s' = ps_meta s → ps_cb s' = ps_cb s → fetches cas s s'.
Proof. intros H1 H2 H3. split_and!; [by rewrite H1|done..]. Qed.

Lemma find_source_same net g2h req addrs lastErr s r s' :
  find_source net g2h req addrs lastErr s = (r, s') →
  ps_os s' = ps_os s ∧ ps_meta s' = ps_meta s ∧ ps_tracker s' = ps_tracker s ∧ ps_cb s' = ps_cb s.
Proof.
  revert lastErr s. induction addrs as [|a addrs IH]; intros lastErr s H; simpl in H.
  { by simplify_eq. }
  repeat case_match; try (by apply IH in H); by simplify_eq.
Qed.

Lemma try_attempts_fetches net e p h atts s b s' :
  try_attempts net e p h atts s = (b, s') → fetches (e_CAS e) s s'.
Proof.
  revert s. induction atts as [|a atts IH]; intros s H; simpl in H; [by simplify_eq|].
  case_match eqn:Ec.
  - destruct (Cas.Put _ _ _ _) as [r w] eqn:EP. simplify_eq. split_and!; [|done..].
    apply rtc_once. by exists h, a0, r.
  - case_match; [by simplify_eq; apply fetches_same|].
    apply IH in H. etrans; [|done]. by apply fetches_same.
Qed.

Lemma try_peers_fetches net e g2h h ps s b s' :
  try_peers net e g2h h ps s = (b, s') → fetches (e_CAS e) s s'.
Proof.
  revert s. induction ps as [|p ps IH]; intros s H; cbn [try_peers] in H; [by simplify_eq|].
  destruct (g2h !! p) as [hp|]; [|by apply IH].
  destruct (IsAvailable _ _ _) as [av t].
  destruct av; cbn [negb] in H.
  - destruct (try_attempts _ _ _ _ _ _) as [d s1] eqn:E1. apply try_attempts_fetches in E1.
    assert (fetches (e_CAS e) s s1) by (etrans; [by apply fetches_same|done]).
    destruct d; [by simplify_eq|]. apply IH in H. by etrans.
  - apply IH in H. etrans; [|done]. by apply fetches_same.
Qed.

Lemma fetch_all_fetches net e g2h cs s errs s' :
  fetch_all net e g2h cs s = (errs, s') → fetches (e_CAS e) s s'.
Proof.
  revert s errs. induction cs as [|c cs IH]; intros s errs H; simpl in H; [by simplify_eq|].
  unfold fetch_chunk in H. destruct (try_peers _ _ _ _ _ _) as [d s1] eqn:E1.
  destruct (fetch_all _ _ _ cs s1) as [errs1 s2] eqn:E2. simplify_eq.
  apply try_peers_fetches in E1. apply IH in E2. by etrans.
Qed.

Lemma fetch_phase_fetches net e g2h cs s r s' :
  fetch_phase net e g2h cs s = (r, s') → fetches (e_CAS e) s s'.
Proof.
  unfold fetch_phase. destruct (launched cs) as [st ok].
  destruct (fetch_all _ _ _ _ _) as [errs s1] eqn:E. apply fetch_all_fetches in E.
  intros H. repeat case_match; by simplify_eq.
Qed.

(** ** How often peers are asked for a chunk *)

Lemma try_attempts_calls net e p h atts s b s' :
  try_attempts net e p h atts s = (b, s') →
  (ps_calls s ≤ ps_calls s' ≤ ps_calls s + length atts)%nat.
Proof.
  revert s. induction atts as [|a atts IH]; intros s H; cbn [try_attempts call] in H; [by simplify_eq/=; lia|].
  destruct (pn_chunk _ _ _ _) as [data|err].
  - destruct (Cas.Put _ _ _ _) as [r w]. simplify_eq. simpl. lia.
  - destruct (a =? 3)%Z; [simplify_eq; simpl; lia|]. apply IH in H. simpl in *. lia.
Qed.

Lemma try_peers_calls net e g2h h ps s b s' :
  try_peers net e g2h h ps s = (b, s') →
  (ps_calls s ≤ ps_calls s' ≤ ps_calls s + 3 * length ps)%nat.
Proof.
  revert s. induction ps as [|p ps IH]; intros s H; cbn [try_peers] in H; [by simplify_eq/=; lia|].
  destruct (g2h !! p) as [hp|]; [|apply IH in H; simpl; lia].
  destruct (IsAvailable _ _ _) as [[] t]; cbn [negb] in H; [|apply IH in H; simpl in *; lia].
  destruct (try_attempts _ _ _ _ _ _) as [d s1] eqn:E1. apply try_attempts_calls in E1. simpl in E1.
  destruct d; [simplify_eq; simpl; lia|]. apply IH in H. simpl. lia.
Qed.

(** Fetching a chunk asks for it at most three times per peer that is listed
    for it, whatever the peers answer. *)
Theorem fetch_chunk_calls net e g2h c s o s' :
  fetch_chunk net e g2h c s = (o, s') →
  (ps_calls s ≤ ps_calls s' ≤ ps_calls s + 3 * length (Peers c))%nat.
Proof.
  unfold fetch_chunk. destruct (try_peers _ _ _ _ _ _) as [d s1] eqn:E. intros H.
  apply try_peers_calls in E. by simplify_eq.
Qed.

(** The store stays sound, keeps its objects, and no other file changes. *)
Lemma puts_inv cas w w' : rtc (put_step cas) w w' → Cas.cas_inv cas w → Cas.cas_inv cas w'.
Proof. induction 1 as [|w w1 w2 (h & d & r & H) _ IH]; eauto with nusync. Qed.

Lemma puts_keep cas w w' h :
  rtc (put_step cas) w w' → Cas.has_object cas w h → Cas.has_object cas w' h.
Proof. induction 1 as [|w w1 w2 (? & d & r & H) _ IH]; eauto with nusync. Qed.

Definition outside_cas (cas : Cas.CASBlobStore) (p : string) : Prop :=
  ∀ h, p ≠ Cas.object_path cas h ∧ p ≠ Cas.tmp_path cas h.

Lemma puts_frame cas w w' p :
  rtc (put_step cas) w w' → outside_cas cas p → os_files w' !! p = os_files w !! p.
Proof.
  intros H Hp. induction H as [|w w1 w2 (h & d & r & H) _ IH]; [done|].
  apply Cas.Put_files in H as [H _]. destruct (Hp h). by rewrite IH, H.
Qed.

(** ** Assembly *)

Section assembly.
Variables (cas : Cas.CASBlobStore) (dest : string).
Hypothesis dest_free : ∀ h, dest ≠ Cas.object_path cas h.

(** The bits from [i] on are still clear. *)
Definition clear_from (i : nat) (sparse : Assembler.SparseFile) : Prop :=
  ∀ j, i ≤ j → j < Assembler.total sparse → Assembler.bitmap sparse !! j = Some false.

(** One turn of the loop that does not fail. *)
Lemma assemble_loop_step i off h hs sparse w sparse' w' :
  Assembler.sparse_inv sparse → clear_from i sparse → i < Assembler.total sparse →
  assemble_loop cas i off (h :: hs) sparse w = (Ok sparse', w') →
  ∃ d sparse1 w1 c,
    os_files w !! Cas.object_path cas h = Some d
    ∧ (0 ≤ off)%Z ∧ os_files w !! Assembler.sf_file sparse = Some c
    ∧ os_files w1 = <[Assembler.sf_file sparse := splice (Z.to_nat off) d c]> (os_files w)
    ∧ Assembler.sparse_inv sparse1 ∧ clear_from (Datatypes.S i) sparse1
    ∧ Assembler.total sparse1 = Assembler.total sparse
    ∧ Assembler.sf_file sparse1 = Assembler.sf_file sparse
    ∧ Assembler.chunksDone sparse1 = Datatypes.S (Assembler.chunksDone sparse)
    ∧ assemble_loop cas (Datatypes.S i) (i64 (off + Z.of_nat (length d))) hs sparse1 w1
      = (Ok sparse', w').
Proof using Type.
  intros Hinv Hclear Hi H. cbn [assemble_loop] in H.
  destruct (Cas.Get cas h w) as [[d|] w1] eqn:E1; [|by destruct (Assembler.Close _ _)].
  apply Cas.Get_spec in E1 as [Hd E1].
  destruct (Assembler.WriteChunk _ _ _ _) as [r [sparse1 w2]] eqn:E2.
  pose proof (Assembler.WriteChunk_inv _ _ _ _ _ _ _ _ Hinv E2) as Hinv1.
  pose proof (Hclear i ltac:(lia) Hi) as Hbit.
  apply Assembler.WriteChunk_cases in E2; [|done]. rewrite Nat2Z.id in E2.
  destruct E2 as [(? & _) | [(? & _) | [(_ & -> & -> & E2) | (er & _ & -> & _)]]];
    [lia|congruence| |by destruct (Assembler.Close _ _)].
  apply file_WriteAt_spec in E2 as [(_ & Hoff & c & Hc & E2) | (? & ? & _)]; [|done].
  rewrite E1 in *. eexists d, _, w2, c. split_and!; try done.
  intros j Hj1 Hj2. simpl in *. rewrite list_lookup_insert_ne by lia. apply Hclear; lia.
Qed.

Lemma assemble_loop_objects hs : ∀ i off sparse w sparse' w',
  Assembler.sparse_inv sparse → clear_from i sparse →
  Assembler.total sparse = i + length hs → Assembler.sf_file sparse = dest →
  assemble_loop cas i off hs sparse w = (Ok sparse', w') →
  ∃ ds, Assembler.objects_are cas w hs ds
    ∧ (∀ p, p ≠ dest → os_files w' !! p = os_files w !! p)
    ∧ Assembler.sf_file sparse' = dest
    ∧ Assembler.chunksDone sparse' = Assembler.chunksDone sparse + length hs
    ∧ Assembler.total sparse' = Assembler.total sparse.
Proof using dest_free.
  induction hs as [|h hs IH]; intros i off sparse w sparse' w' Hinv Hclear Htot Hf H.
  { simpl in H. simplify_eq. exists []. split_and!; [by apply Forall2_nil|done|done|simpl; lia|done]. }
  apply assemble_loop_step in H; [|done..|simpl in Htot; lia].
  destruct H as (d & sparse1 & w1 & c & Hd & _ & Hc & Hw1 & Hinv1 & Hcl1 & Ht1 & Hf1 & Hn1 & H).
  apply IH in H; [|done..|simpl in Htot; lia|congruence].
  destruct H as (ds & Hds & Hoth & Hf' & Hn' & Ht').
  assert (∀ p, p ≠ dest → os_files w1 !! p = os_files w !! p) as Hw.
  { intros p Hp. rewrite Hw1, Hf. by rewrite lookup_insert_ne. }
  exists (d :: ds). split_and!.
  - constructor; [done|]. eapply Assembler.objects_are_other; [| |done].
    + intros h'. symmetry. apply dest_free.
    + intros p Hp. by rewrite Hw.
  - intros p Hp. by rewrite Hoth, Hw.
  - done.
  - simpl. lia.
  - congruence.
Qed.

Lemma assemble_loop_content size hs : ∀ i sparse w sparse' w' pre ds,
  Assembler.sparse_inv sparse → clear_from i sparse →
  Assembler.total sparse = i + length hs → Assembler.sf_file sparse = dest →
  os_files w !! dest = Some (pre ++ drop (length pre) (zeros size)) →
  Assembler.objects_are cas w hs ds →
  (Z.of_nat (length pre + length (mjoin ds)) < 2 ^ 63)%Z →
  assemble_loop cas i (Z.of_nat (length pre)) hs sparse w = (Ok sparse', w') →
  os_files w' !! dest
  = Some (pre ++ mjoin ds ++ drop (length pre + length (mjoin ds)) (zeros size)).
Proof using dest_free.
  induction hs as [|h hs IH];
    intros i sparse w sparse' w' pre ds Hinv Hclear Htot Hf Hpre Hds Hlen H.
  { inversion Hds; subst. simpl in H. simplify_eq. simpl. by rewrite Nat.add_0_r. }
  inversion Hds as [|? d' ? ds' Hd' Hds']; subst.
  apply assemble_loop_step in H; [|done..|simpl in Htot; lia].
  destruct H as (d & sparse1 & w1 & c & Hd & _ & Hc & Hw1 & Hinv1 & Hcl1 & Ht1 & Hf1 & Hn1 & H).
  rewrite Hd' in Hd. rewrite Hpre in Hc. simplify_eq.
  csimpl in Hlen. rewrite length_app in Hlen. csimpl. rewrite length_app.
  rewrite Nat2Z.id, splice_at_end, drop_drop in Hw1.
  assert (i64 (Z.of_nat (length pre) + Z.of_nat (length d)) = Z.of_nat (length (pre ++ d))) as Ho.
  { rewrite length_app. rewrite i64_small; [lia|]. unfold is_i64. lia. }
  rewrite Ho in H.
  eapply (IH _ _ _ _ _ (pre ++ d) ds') in H; [|done|done|simpl in Htot; lia|done| | |].
  - rewrite H. rewrite length_app, <- !app_assoc. by rewrite <- Nat.add_assoc.
  - rewrite Hw1, lookup_insert_eq, length_app, <- app_assoc. done.
  - eapply Assembler.objects_are_other; [| |done].
    + intros h'. symmetry. apply dest_free.
    + intros p Hp. by rewrite Hw1, lookup_insert_ne.
  - rewrite length_app. lia.
Qed.

End assembly.

(** Whatever the outcome, assembling touches no file but the destination. *)
Lemma WriteChunk_frame i off d sparse w r sparse' w' p :
  Assembler.WriteChunk i off d (sparse, w) = (r, (sparse', w')) → p ≠ Assembler.sf_file sparse →
  os_files w' !! p = os_files w !! p ∧ Assembler.sf_file sparse' = Assembler.sf_file sparse.
Proof.
  unfold Assembler.WriteChunk. intros H Hp.
  case_match; [by simplify_eq|]. case_match; [by simplify_eq|].
  destruct (file_WriteAt _ _ _ _) as [[[]|] w1] eqn:E; simplify_eq; (split; [|done]).
  - apply file_WriteAt_spec in E as [(_ & _ & c & _ & E) | (? & ? & _)]; [|done].
    by rewrite E, lookup_insert_ne.
  - apply file_WriteAt_spec in E as [(? & _) | (? & _ & [E | [c E]])]; [done|..];
      by rewrite E, ?lookup_insert_ne.
Qed.

Lemma assemble_loop_frame cas hs : ∀ i off sparse w r w' p,
  assemble_loop cas i off hs sparse w = (r, w') → p ≠ Assembler.sf_file sparse →
  os_files w' !! p = os_files w !! p.
Proof.
  induction hs as [|h hs IH]; intros i off sparse w r w' p H Hp; cbn [assemble_loop] in H.
  { by simplify_eq. }
  destruct (Cas.Get cas h w) as [rg w1] eqn:E1. apply Cas.Get_files in E1.
  destruct rg as [d|]; [|destruct (Assembler.Close _ _) as [? w2] eqn:E2;
    apply file_Close_spec in E2; simplify_eq; by rewrite E2, E1].
  destruct (Assembler.WriteChunk _ _ _ _) as [rw [sparse1 w2]] eqn:E2.
  destruct (WriteChunk_frame _ _ _ _ _ _ _ _ p E2 Hp) as [Hw Hf].
  destruct rw.
  - apply IH with (p := p) in H; [|by rewrite Hf]. by rewrite H, Hw, E1.
  - destruct (Assembler.Close _ _) as [? w3] eqn:E3. apply file_Close_spec in E3.
    simplify_eq. by rewrite E3, Hw, E1.
Qed.

Lemma NewSparseFile_spec path size n w r w' :
  Assembler.NewSparseFile path size n w = (r, w') →
  (∀ p, p ≠ path → os_files w' !! p = os_files w !! p)
  ∧ (is_ok r = true → (0 ≤ size)%Z ∧ os_files w' !! path = Some (zeros (Z.to_nat size))).
Proof.
  unfold Assembler.NewSparseFile. intros H.
  destruct (os_Create path w) as [[[]|] w1] eqn:E1; apply os_Create_spec in E1 as [(? & E1) | (? & ? & E1)];
    simplify_eq; [|by rewrite E1].
  destruct (file_Truncate path size w1) as [[[]|] w2] eqn:E2;
    apply file_Truncate_spec in E2 as [(? & Hs & c & Hc & E2) | (? & ? & E2)]; simplify_eq.
  - rewrite E1, lookup_insert_eq in Hc. simplify_eq. split.
    + intros p Hp. by rewrite E2, E1, !lookup_insert_ne by done.
    + intros _. split; [done|]. by rewrite E2, lookup_insert_eq, resize_nil.
  - split; [|done]. intros p Hp. by rewrite E2, E1, lookup_insert_ne by done.
Qed.

Lemma assemble_frame e fileID rm s r s' :
  assemble e fileID rm s = (r, s') →
  ps_meta s' = ps_meta s ∧
  ∀ p, p ≠ out_path e fileID → os_files (ps_os s') !! p = os_files (ps_os s) !! p.
Proof.
  unfold assemble. set (dest := out_path e fileID). intros H.
  destruct (os_MkdirAll _ _) as [[] w1] eqn:E1; apply os_MkdirAll_spec in E1;
    [|simplify_eq; simpl; by rewrite E1].
  set (s1 := match MarkQuiet e with Some _ => _ | None => _ end) in H.
  assert (ps_os s1 = w1 ∧ ps_meta s1 = ps_meta s) as [Ho Hm] by (subst s1; by destruct (MarkQuiet e)).
  rewrite Ho in H. clearbody s1. rewrite <- Hm, <- E1. clear E1 Hm.
  destruct (Assembler.NewSparseFile _ _ _ _) as [rn w2] eqn:E2.
  pose proof (NewSparseFile_spec _ _ _ _ _ _ E2) as [Hf2 _].
  destruct rn as [sparse|]; [|by simplify_eq].
  apply Assembler.NewSparseFile_inv in E2 as (_ & _ & Hsf).
  destruct (assemble_loop _ _ _ _ _ _) as [rl w3] eqn:E3.
  assert (∀ p, p ≠ dest → os_files w3 !! p = os_files w1 !! p) as Hf3.
  { intros p Hp. rewrite <- Hf2 by done. eapply assemble_loop_frame; [done|]. by rewrite Hsf. }
  destruct rl as [sparse'|]; [|by simplify_eq].
  destruct (Assembler.Close _ _) as [rc w4] eqn:E4. apply file_Close_spec in E4.
  destruct rc; simplify_eq; simpl; by rewrite E4.
Qed.

(** The assembled file: the objects one after the other, and zero bytes up to
    the size the record gives if that is larger. *)
Definition assembled (size : Z) (ds : list (list byte)) : list byte :=
  mjoin ds ++ drop (length (mjoin ds)) (zeros (Z.to_nat size)).

Lemma assembled_exact size ds : (size ≤ Z.of_nat (length (mjoin ds)))%Z → assembled size ds = mjoin ds.
Proof.
  intros H. unfold assembled. rewrite drop_ge; [apply app_nil_r|]. rewrite length_zeros. lia.
Qed.

Lemma assemble_ok e fileID rm s s' :
  (∀ h, out_path e fileID ≠ Cas.object_path (e_CAS e) h) →
  assemble e fileID rm s = (Ok tt, s') →
  ∃ ds, Assembler.objects_are (e_CAS e) (ps_os s) (ChunkHashes rm) ds
    ∧ (0 ≤ i64 (SizeBytes rm))%Z
    ∧ ((Z.of_nat (length (mjoin ds)) < 2 ^ 63)%Z →
       os_files (ps_os s') !! out_path e fileID = Some (assembled (i64 (SizeBytes rm)) ds))
    ∧ ps_cb s' = match MarkQuiet e with
                 | Some f => f (ps_now s) (out_path e fileID) (ps_cb s) | None => ps_cb s end.
Proof.
  intros Hdest. unfold assemble. set (dest := out_path e fileID) in *. intros H.
  destruct (os_MkdirAll _ _) as [[] w1] eqn:E1; apply os_MkdirAll_spec in E1; [|done].
  set (s1 := match MarkQuiet e with Some _ => _ | None => _ end) in H.
  assert (ps_os s1 = w1 ∧ ps_cb s1 = match MarkQuiet e with
    | Some f => f (ps_now s) dest (ps_cb s) | None => ps_cb s end) as [Ho Hcb]
    by (subst s1; by destruct (MarkQuiet e)).
  rewrite Ho in H. clearbody s1. rewrite <- Hcb. clear Hcb.
  destruct (Assembler.NewSparseFile _ _ _ _) as [rn w2] eqn:E2.
  pose proof (NewSparseFile_spec _ _ _ _ _ _ E2) as [Hf2 Hz]. destruct rn as [sparse|]; [|done].
  destruct (Hz eq_refl) as [Hsz Hc]. clear Hz.
  apply Assembler.NewSparseFile_inv in E2 as Hinv. destruct Hinv as (Hinv & Htot & Hsf).
  assert (clear_from 0 sparse) as Hcl.
  { unfold Assembler.NewSparseFile in E2. repeat case_match; simplify_eq. intros j _ Hj.
    simpl in *. by apply lookup_replicate_2. }
  destruct (assemble_loop _ _ _ _ _ _) as [[sparse'|] w3] eqn:E3; [|done].
  destruct (assemble_loop_objects (e_CAS e) dest Hdest _ _ _ _ _ _ _ Hinv Hcl Htot Hsf E3)
    as (ds & Hds & _ & Hsf' & _).
  destruct (Assembler.Close _ _) as [[[]|] w4] eqn:E4; [|done]. apply file_Close_spec in E4.
  injection H as <-. exists ds. split_and!; [|done| |done].
  - eapply (Assembler.objects_are_other _ w2); [| |done].
    + intros h. symmetry. apply Hdest.
    + intros p Hp. rewrite Hf2 by done. by rewrite E1.
  - intros Hlen. simpl. rewrite E4.
    rewrite (assemble_loop_content (e_CAS e) dest Hdest (Z.to_nat (i64 (SizeBytes rm)))
      _ _ _ _ _ _ [] ds Hinv Hcl Htot Hsf Hc Hds Hlen E3). done.
Qed.

(** The sync engine's assembly through a [SparseFile] and [assembler.Assemble]
    agree: from the same store and chunk list, when both succeed, they leave the
    same content at the destination. *)
Theorem assemble_equiv e fileID rm s s' w' :
  (∀ h, out_path e fileID ≠ Cas.object_path (e_CAS e) h) →
  assemble e fileID rm s = (Ok tt, s') →
  Assembler.Assemble (e_CAS e) (ChunkHashes rm) (out_path e fileID) (ps_os s) = (Ok tt, w') →
  (∀ c, os_files w' !! out_path e fileID = Some c →
     (SizeBytes rm ≤ Z.of_nat (length c) < 2 ^ 63)%Z ∧ is_u64 (SizeBytes rm)) →
  os_files (ps_os s') !! out_path e fileID = os_files w' !! out_path e fileID.
Proof.
  intros Hd Ha Hb Hsz. destruct (assemble_ok _ _ _ _ _ Hd Ha) as (ds & Hds & _ & Hc & _).
  apply Assembler.Assemble_content in Hb as (ds' & Hds' & Hw); [|intros h E; by apply (Hd h)].
  assert (ds' = ds) as ->.
  { clear -Hds Hds'. revert ds' Hds'. induction Hds as [|h d hs ds Hh _ IH]; intros ds' H'; inversion H';
      simplify_eq; [done|]. f_equal. by apply IH. }
  destruct (Hsz _ Hw) as [Hlen Hu]. unfold is_u64 in Hu.
  rewrite Hw, Hc, assembled_exact; [done| |lia]. rewrite i64_small by (unfold is_i64; lia). lia.
Qed.

(** ** Without I/O failures the assembly succeeds *)

Lemma WriteChunk_quiet i off d sparse w c :
  os_io w = [] → os_files w !! Assembler.sf_file sparse = Some c →
  (i < Assembler.total sparse)%nat → (0 ≤ off)%Z →
  ∃ sparse' w', Assembler.WriteChunk (Z.of_nat i) off d (sparse, w) = (Ok tt, (sparse', w'))
    ∧ os_io w' = [] ∧ Assembler.sf_file sparse' = Assembler.sf_file sparse
    ∧ Assembler.total sparse' = Assembler.total sparse
    ∧ is_Some (os_files w' !! Assembler.sf_file sparse)
    ∧ ∀ p, p ≠ Assembler.sf_file sparse → os_files w' !! p = os_files w !! p.
Proof.
  intros Hio Hc Hi Hoff. unfold Assembler.WriteChunk.
  replace (_ || _) with false by lia. rewrite Nat2Z.id.
  destruct (default false _). { eexists sparse, w. split_and!; eauto. }
  unfold file_WriteAt. rewrite os_next_quiet, Hc by done.
  replace (off <? 0)%Z with false by lia. eexists _, _. split_and!; [done|done|done|done| |].
  - simpl. rewrite lookup_insert_eq. eauto.
  - intros p Hp. simpl. by rewrite lookup_insert_ne.
Qed.

Lemma assemble_loop_quiet cas hs : ∀ i off sparse w ds,
  (∀ h, Assembler.sf_file sparse ≠ Cas.object_path cas h) →
  os_io w = [] → is_Some (os_files w !! Assembler.sf_file sparse) →
  Assembler.objects_are cas w hs ds → (i + length hs ≤ Assembler.total sparse)%nat →
  (0 ≤ off)%Z → (off + Z.of_nat (length (mjoin ds)) < 2 ^ 63)%Z →
  ∃ sparse' w', assemble_loop cas i off hs sparse w = (Ok sparse', w') ∧ os_io w' = [].
Proof.
  induction hs as [|h hs IH]; intros i off sparse w ds Hd Hio [c Hc] Ho Hi Hoff Hlen;
    cbn [assemble_loop]; [eauto|].
  inversion Ho as [|? d ? ds' Hh Ho']; subst. csimpl in Hlen. rewrite length_app in Hlen.
  rewrite (Cas.Get_quiet _ _ _ _ Hio Hh).
  destruct (WriteChunk_quiet i off d sparse w c Hio Hc) as (sp' & w' & -> & Hio' & Hsf & Htot & Hsome & Hoth);
    [simpl in Hi; lia|lia|].
  rewrite i64_small by (unfold is_i64; lia).
  eapply (IH _ _ _ _ ds'); rewrite ?Hsf, ?Htot; [done|done|done| |simpl in Hi; lia|lia|lia].
  eapply Assembler.objects_are_other; [|exact Hoth|done]. done.
Qed.

Lemma assemble_quiet e fileID rm s ds :
  (∀ h, out_path e fileID ≠ Cas.object_path (e_CAS e) h) →
  os_io (ps_os s) = [] →
  Assembler.objects_are (e_CAS e) (ps_os s) (ChunkHashes rm) ds →
  (0 ≤ i64 (SizeBytes rm))%Z → (Z.of_nat (length (mjoin ds)) < 2 ^ 63)%Z →
  ∃ s', assemble e fileID rm s = (Ok tt, s') ∧ os_io (ps_os s') = [].
Proof.
  intros Hd Hio Ho Hsz Hlen. unfold assemble. set (dest := out_path e fileID) in *.
  unfold os_MkdirAll. rewrite os_next_quiet by done.
  set (s1 := match MarkQuiet e with Some _ => _ | None => _ end).
  assert (ps_os s1 = ps_os s) as -> by (subst s1; by destruct (MarkQuiet e)).
  unfold Assembler.NewSparseFile, os_Create. rewrite os_next_quiet by done.
  unfold file_Truncate. rewrite os_next_quiet by done. simpl. rewrite lookup_insert_eq.
  replace (i64 (SizeBytes rm) <? 0)%Z with false by lia.
  set (w2 := os_set _ _ _). set (sp := Assembler.MkSparse _ _ _ _).
  destruct (assemble_loop_quiet (e_CAS e) (ChunkHashes rm) 0 0 sp w2 ds) as (sp' & w3 & -> & Hio3);
    [done|done| | |simpl; lia|lia|lia|].
  - simpl. rewrite lookup_insert_eq. eauto.
  - eapply Assembler.objects_are_other; [intros h E; by apply (Hd h)| |exact Ho].
    intros p Hp. simpl. by rewrite !lookup_insert_ne.
  - unfold Assembler.Close, file_Close. rewrite os_next_quiet by done. eauto.
Qed.

(** ** [Pull] as a whole *)

(** Where the record comes from: some peer answered the diff with a root, and
    a peer handed out the record. *)
Definition sourced (net : PeerNet) (req : DiffRequest) (addrs : list string)
    (d : DiffResponse) (rm : FileMeta) : Prop :=
  ∃ a n n' p, a ∈ addrs ∧ pn_diff net n a req = Ok d ∧ RemoteMerkleRoot d ≠ []
    ∧ pn_meta net n' p (dq_FileId req) = Ok rm.

Lemma find_source_sourced net g2h req addrs lastErr s d rm le s' :
  find_source net g2h req addrs lastErr s = ((Some (d, rm), le), s') → sourced net req addrs d rm.
Proof.
  revert lastErr s. induction addrs as [|a addrs IH]; intros lastErr s H; [done|].
  assert (∀ le' s0, find_source net g2h req addrs le' s0 = (Some (d, rm), le, s') →
    sourced net req (a :: addrs) d rm) as Hrest.
  { intros le' s0 H0. destruct (IH _ _ H0) as (a' & n & n' & p & Ha & ?).
    exists a', n, n', p. split; [by apply list_elem_of_further|done]. }
  cbn [find_source call] in H.
  case_match eqn:E1; [|by eapply Hrest]. case_match eqn:E2; [|by eapply Hrest].
  case_match eqn:E3; [by eapply Hrest|]. case_match eqn:E4; [|by eapply Hrest].
  simplify_eq. eexists a, _, _, _. split_and!; [apply list_elem_of_here|done| |done]. by rewrite E3.
Qed.

(** The ways through [Pull]: it ends before or in the fetch phase, with an
    error or because the versions agree; or it reaches the assembly. *)
Lemma Pull_cases net e fileID peers s r s' :
  Pull net e fileID peers s = (r, s') →
  let req := diff_request (ps_meta s) fileID in
  let addrs := GRPCAddr <$> peers in
  (fetches (e_CAS e) s s' ∧ (is_ok r = false
     ∨ ps_os s' = ps_os s ∧ ∃ d rm, IsSynced d = true ∧ sourced net req addrs d rm))
  ∨ ∃ d rm s1, fetches (e_CAS e) s s1 ∧ IsSynced d = false ∧ sourced net req addrs d rm
     ∧ match assemble e fileID rm s1 with
       | (Err err, s2) => r = Err err ∧ s' = s2
       | (Ok _, s2) => commit e rm s2 = (r, s')
       end.
Proof.
  intros H req addrs. unfold Pull in H.
  destruct peers as [|p0 ps]; [simplify_eq; left; split; [done|by left]|].
  set (peers := p0 :: ps) in *.
  destruct (find_source _ _ _ _ _ s) as [[[[d rm]|] le] s1] eqn:E1.
  2:{ apply find_source_same in E1 as (? & ? & ? & ?). left. split; [|left; by case_match; simplify_eq].
      case_match; simplify_eq; by apply fetches_same. }
  pose proof (find_source_sourced _ _ _ _ _ _ _ _ _ _ E1) as Hsrc.
  apply find_source_same in E1 as (Ho & Hm & _ & Hcb).
  destruct (IsSynced d) eqn:Es.
  { simplify_eq. left. split; [by apply fetches_same|right]. split; [done|eauto]. }
  cbn [call] in H.
  destruct (fetch_phase _ _ _ _ _) as [rf s2] eqn:E2. apply fetch_phase_fetches in E2.
  assert (fetches (e_CAS e) s s2) as Hf by (etrans; [by apply fetches_same|]; etrans; [|done]; by apply fetches_same).
  destruct rf; [|simplify_eq; left; split; [done|by left]].
  right. exists d, rm, s2. split_and!; [done..|].
  destruct (assemble _ _ _ _) as [[] s3]; [done|by simplify_eq].
Qed.

Lemma commit_os e rm s r s' : commit e rm s = (r, s') → ps_os s' = ps_os s.
Proof. unfold commit. intros H. repeat case_match; by simplify_eq. Qed.

(** C20. A [Pull] that returns an error leaves the index as it was. *)
Theorem Pull_err_meta net e fileID peers s err s' :
  Pull net e fileID peers s = (Err err, s') → ps_meta s' = ps_meta s.
Proof.
  intros [[(_ & Hm & _) _] | (d & rm & s1 & (_ & Hm & _) & _ & _ & H)]%Pull_cases; [done|].
  destruct (assemble _ _ _ _) as [ra s2] eqn:Ea. apply assemble_frame in Ea as [Ha _].
  destruct ra; [|destruct H as [_ ->]; congruence].
  unfold commit in H. destruct (PutFileMeta rm (ps_meta s2)) as [[]  b] eqn:EP; [done|].
  apply Put_err in EP as ->. simplify_eq. simpl. congruence.
Qed.

Section pull.
Variables (net : PeerNet) (e : Engine) (fileID : string) (peers : list PeerInfo).
Hypothesis dest_free : outside_cas (e_CAS e) (out_path e fileID).


(** A [Pull] changes no file but the destination and those of the object
    store. *)
Theorem Pull_frame s r s' p :
  Pull net e fileID peers s = (r, s') → outside_cas (e_CAS e) p → p ≠ out_path e fileID →
  os_files (ps_os s') !! p = os_files (ps_os s) !! p.
Proof using Type.
  intros [[(Hp & _) _] | (d & rm & s1 & (Hp & _) & _ & _ & H)]%Pull_cases Ho Hne.
  { by eapply puts_frame. }
  destruct (assemble _ _ _ _) as [ra s2] eqn:Ea. apply assemble_frame in Ea as [_ Ha].
  assert (ps_os s' = ps_os s2) as -> by (destruct ra; [by eapply commit_os|by destruct H as [_ ->]]).
  rewrite Ha by done. by eapply puts_frame.
Qed.


End pull.

End with_params.
Arguments Engine : clear implicits.
Arguments PState {B} C.
End Orchestrator.
