(* ===== verification/Watcher.v ===== *)
(** * The file-system watcher ([internal/watcher/watcher.go])

    [Start] walks the root directory, adds its directories to fsnotify and
    starts a loop that turns bursts of events into one call per path: each
    relevant event arms or re-arms a timer of 300 ms for its path; a timer that
    expires runs [fire] in a goroutine of its own, which takes the path off the
    map, looks at the file and calls back.  The walk is a function on directory
    trees; loop, timers and goroutines are a step relation, as they interleave.
    fsnotify is outside: its events come in arbitrarily, for entries of the
    directories that were added. *)

From S2P Require Import Prelude GoBytes GoFloat Path.

#[local] Set Warnings "-register-all".

Module Watcher.

Local Open Scope Z_scope.

Definition quietPeriod : Z := 300 * Millisecond.

(** ** The walk *)

(** What [filepath.Walk] meets: files, directories with their entries in
    lexical order, directories that cannot be listed, and entries that cannot
    be looked at. *)
Inductive tree :=
  | TFile
  | TDir (entries : list (string * tree))
  | TUnlistable
  | TGone.

(** [info.Name()[0] == '.'] *)
Definition hidden (name : string) : bool :=
  match name with String c _ => Ascii.eqb c (Ascii.ascii_of_nat 46) | EmptyString => false end.

(** The outcome of walking one entry: the directories handed to [Add] so far,
    and the error that stopped the walk. *)
Definition visited : Type := list string * option error.

(** [walk] with the callback of [Start].  [skippable] is [path != w.rootDir]; an
    entry that is skipped ends only its own subtree. *)
Fixpoint walk (skippable : bool) (path name : string) (t : tree) : visited :=
  match t with
  | TFile => ([], None)
  | TGone => ([], Some (EOS "lstat" path))
  | TUnlistable => ([], Some (EOS "open" path))
  | TDir entries =>
      if skippable && hidden name then ([], None) else
      let fix walk_entries (l : list (string * tree)) : visited :=
        match l with
        | [] => ([], None)
        | (n, t) :: l =>
            match walk true (Join [path; n]) n t with
            | (ds, Some e) => (ds, Some e)
            | (ds, None) => let '(ds', e) := walk_entries l in (ds ++ ds', e)
            end
        end in
      let '(ds, e) := walk_entries entries in (path :: ds, e)
  end.

(** The directories that end up watched, or the error of [Start].  [add] says
    for which directories fsnotify's [Add] succeeds; a failure is only logged. *)
Definition watch_root (add : string → bool) (rootDir : string) (t : tree) : result (list string) :=
  match walk false rootDir (Base rootDir) t with
  | (_, Some e) => Err (EWrap "failed to walk root dir: %w" e)
  | (ds, None) => Ok (filter (λ d, add d = true) ds)
  end.

(** ** The loop *)

Inductive kind := Create | Write | Remove | Rename | Chmod.

(** [event.Op&(fsnotify.Create|fsnotify.Write) != 0] *)
Definition relevant (op : list kind) : bool :=
  existsb (λ k, match k with Create | Write => true | _ => false end) op.

(** A timer of [time.AfterFunc]; [None] once it has expired or was stopped. *)
Record timer := MkTimer { t_path : string; t_deadline : option Z }.

(** A goroutine that runs [fire(path)]: before and after its critical
    section. *)
Inductive goroutine :=
  | Locking (path : string)
  | Looking (path : string).

Record Loop := MkLoop {
  l_now : Z;
  l_done : bool;                          (** [ctx] is cancelled *)
  timers : gmap string nat;               (** the map, to timers by number *)
  l_heap : list timer;                    (** all timers made so far *)
  l_running : list goroutine;
}.

Definition NewLoop (now : Z) : Loop := MkLoop now false ∅ [] [].

(** [t.Reset(d)]: also on a timer that has expired. *)
Definition Reset (id : nat) (deadline : Z) (heap : list timer) : list timer :=
  alter (λ t, MkTimer (t_path t) (Some deadline)) id heap.

(** [t.Stop()] *)
Definition Stop (id : nat) (heap : list timer) : list timer :=
  alter (λ t, MkTimer (t_path t) None) id heap.

(** The case of the [select] for an event. *)
Definition on_event (now : Z) (path : string) (op : list kind) (s : Loop) : Loop :=
  if negb (relevant op) then MkLoop now (l_done s) (timers s) (l_heap s) (l_running s) else
  match timers s !! path with
  | Some id =>
      MkLoop now (l_done s) (timers s) (Reset id (now + quietPeriod) (l_heap s)) (l_running s)
  | None =>
      MkLoop now (l_done s) (<[path := length (l_heap s)]> (timers s))
        (l_heap s ++ [MkTimer path (Some (now + quietPeriod))]) (l_running s)
  end.

(** A timer expires: its goroutine starts. *)
Definition on_expire (now : Z) (id : nat) (path : string) (s : Loop) : Loop :=
  MkLoop now (l_done s) (timers s) (Stop id (l_heap s)) (l_running s ++ [Locking path]).

(** [fire]: the critical section. *)
Definition on_lock (now : Z) (i : nat) (path : string) (s : Loop) : Loop :=
  MkLoop now (l_done s) (delete path (timers s)) (l_heap s) (<[i := Looking path]> (l_running s)).

(** [fire]: [os.Stat] and perhaps the callback, then the goroutine ends. *)
Definition on_look (now : Z) (i : nat) (s : Loop) : Loop :=
  MkLoop now (l_done s) (timers s) (l_heap s) (delete i (l_running s)).

(** The case of the [select] for [ctx.Done()]: the timers on the map are
    stopped, and the loop ends. *)
Definition on_done (now : Z) (s : Loop) : Loop :=
  MkLoop now true (timers s) (map_fold (λ _ id heap, Stop id heap) (l_heap s) (timers s)) (l_running s).

Inductive stat_result := StatErr | StatDir | StatFile.

(** [Look path st]: whether the callback runs is decided by [st]. *)
Inductive label :=
  | Event (path : string) (op : list kind)
  | Expire (id : nat)
  | Lock (path : string)
  | Look (path : string) (st : stat_result)
  | Done.

(** [w.onEvent(path)] is called in this step. *)
Definition calls (l : label) : option string :=
  match l with Look path StatFile => Some path | _ => None end.

Section loop.
(** Whether an entry of a path is watched. *)
Variable watched : string → bool.

Inductive wstep : Loop → Z * label → Loop → Prop :=
  | step_event s now path op :
      l_now s ≤ now → l_done s = false → watched (Dir path) = true →
      wstep s (now, Event path op) (on_event now path op s)
  | step_expire s now id path deadline :
      l_now s ≤ now → l_heap s !! id = Some (MkTimer path (Some deadline)) → deadline ≤ now →
      wstep s (now, Expire id) (on_expire now id path s)
  | step_lock s now i path :
      l_now s ≤ now → l_running s !! i = Some (Locking path) →
      wstep s (now, Lock path) (on_lock now i path s)
  | step_look s now i path st :
      l_now s ≤ now → l_running s !! i = Some (Looking path) →
      wstep s (now, Look path st) (on_look now i s)
  | step_done s now :
      l_now s ≤ now → l_done s = false → wstep s (now, Done) (on_done now s).

(** Runs with what happened, the latest first. *)
Inductive wrun : Loop → list (Z * label) → Loop → Prop :=
  | wrun_nil s : wrun s [] s
  | wrun_snoc s tr s1 l s2 : wrun s tr s1 → wstep s1 l s2 → wrun s (l :: tr) s2.

(** The time of the last relevant event of a path. *)
Fixpoint last_event (path : string) (tr : list (Z * label)) : option Z :=
  match tr with
  | [] => None
  | (t, Event p op) :: tr =>
      if decide (p = path ∧ relevant op = true) then Some t else last_event path tr
  | _ :: tr => last_event path tr
  end.

(** Whether a relevant event of a path has not been looked into since. *)
Fixpoint unserved (path : string) (tr : list (Z * label)) : bool :=
  match tr with
  | [] => false
  | (_, Event p op) :: tr =>
      if decide (p = path ∧ relevant op = true) then true else unserved path tr
  | (_, Look p _) :: tr => if decide (p = path) then false else unserved path tr
  | _ :: tr => unserved path tr
  end.

(** ** Invariants of the loop *)

Lemma lookup_alter_timer f id j (heap : list timer) t :
  alter f id heap !! j = Some t →
  (j ≠ id ∧ heap !! j = Some t) ∨ (j = id ∧ ∃ t0, heap !! id = Some t0 ∧ t = f t0).
Proof.
  destruct (decide (j = id)) as [->|Hne].
  - rewrite list_lookup_alter_eq. intros (t0 & ? & ->)%fmap_Some. eauto.
  - rewrite list_lookup_alter_ne by done. auto.
Qed.

Lemma lookup_snoc_timer (heap : list timer) x j t :
  (heap ++ [x]) !! j = Some t → heap !! j = Some t ∨ (j = length heap ∧ t = x).
Proof.
  rewrite lookup_app. destruct (heap !! j) eqn:E; [auto|]. apply lookup_ge_None in E.
  intros [? ?]%list_lookup_singleton_Some. right. split; [lia|done].
Qed.

(** Time does not run backwards. *)
Lemma step_now s t l s' : wstep s (t, l) s' → l_now s ≤ t ∧ l_now s' = t.
Proof.
  intros H; inversion H; subst; split; try done.
  unfold on_event. destruct (relevant op); [|done]. cbn [negb]. by destruct (timers s !! path).
Qed.

Definition inv_now (tr : list (Z * label)) (s : Loop) : Prop :=
  ∀ path t, last_event path tr = Some t → t ≤ l_now s.

(** The timer on the map for a path is the one its last event armed. *)
Definition inv_map (tr : list (Z * label)) (s : Loop) : Prop :=
  ∀ path id, timers s !! path = Some id →
    ∃ d, l_heap s !! id = Some (MkTimer path d)
      ∧ ∀ dl, d = Some dl → last_event path tr = Some (dl - quietPeriod).

(** No timer waits longer than the period after the last event. *)
Definition inv_deadline (tr : list (Z * label)) (s : Loop) : Prop :=
  ∀ id path dl, l_heap s !! id = Some (MkTimer path (Some dl)) →
    ∃ t, last_event path tr = Some t ∧ dl ≤ t + quietPeriod.

(** What is to be looked into has a timer or a goroutine. *)
Definition inv_served (tr : list (Z * label)) (s : Loop) : Prop :=
  l_done s = false → ∀ path, unserved path tr = true →
    (∃ id dl, l_heap s !! id = Some (MkTimer path (Some dl)))
    ∨ Locking path ∈ l_running s ∨ Looking path ∈ l_running s.

Definition winv (tr : list (Z * label)) (s : Loop) : Prop :=
  inv_now tr s ∧ inv_map tr s ∧ inv_deadline tr s ∧ inv_served tr s.

Lemma winv_new now : winv [] (NewLoop now).
Proof. by split_and!. Qed.

Lemma on_event_inv s now path op tr :
  l_now s ≤ now → winv tr s → winv ((now, Event path op) :: tr) (on_event now path op s).
Proof.
  intros Hle (Hn & Hm & Hd & Hs). unfold on_event.
  destruct (relevant op) eqn:Hop; cbn [negb].
  2:{ assert (∀ p, last_event p ((now, Event path op) :: tr) = last_event p tr) as El.
      { intros p. cbn [last_event]. rewrite decide_False; [done|]. intros [_ ?]. congruence. }
      assert (∀ p, unserved p ((now, Event path op) :: tr) = unserved p tr) as Eu.
      { intros p. cbn [unserved]. rewrite decide_False; [done|]. intros [_ ?]. congruence. }
      split_and!.
      - intros p t. rewrite El. cbn [l_now]. intros H%Hn. lia.
      - intros p id Hp. destruct (Hm p id Hp) as (d & H1 & H2). exists d. split; [done|]. by rewrite El.
      - intros id p dl H. rewrite El. by eapply Hd.
      - intros Hf p. rewrite Eu. by apply Hs. }
  assert (∀ p, last_event p ((now, Event path op) :: tr) = if decide (path = p) then Some now else last_event p tr)
    as El by (intros p; cbn [last_event]; repeat case_decide; naive_solver).
  assert (∀ p, unserved p ((now, Event path op) :: tr) = if decide (path = p) then true else unserved p tr)
    as Eu by (intros p; cbn [unserved]; repeat case_decide; naive_solver).
  assert (∀ p t, last_event p ((now, Event path op) :: tr) = Some t → t ≤ now) as Hn'.
  { intros p t. rewrite El. case_decide as Hx; [intros; simplify_eq; lia|]. intros Hy%Hn. lia. }
  destruct (timers s !! path) as [id|] eqn:Et.
  - destruct (Hm path id Et) as (d & Hid & Hlast). split_and!; [exact Hn'|..]; 
    unfold inv_map, inv_deadline, inv_served, Reset; cbn [l_done timers l_heap l_running].
    + intros p j Hj. rewrite El. destruct (Hm p j Hj) as (d' & H1 & H2). destruct (decide (j = id)) as [->|Hne].
      * rewrite Hid in H1. injection H1 as <- <-. rewrite list_lookup_alter_eq, Hid, decide_True by done.
        eexists. split; [done|]. intros dl ?. simplify_eq. f_equal. lia.
      * rewrite list_lookup_alter_ne by done. rewrite decide_False by (by intros ->; simplify_eq). eauto.
    + intros j p dl H. rewrite El. apply lookup_alter_timer in H as [[Hne H]|[-> (t0 & H & E)]].
      * destruct (Hd _ _ _ H) as (t & Ht & Hle'). case_decide as Ep; [subst p|eauto].
        exists now. split; [done|]. specialize (Hn _ _ Ht). lia.
      * rewrite Hid in H. simplify_eq. rewrite decide_True by done. eexists. split; [done|]. lia.
    + intros Hf p. rewrite Eu. case_decide as Ep.
      * subst p. intros _. left. exists id, (now + quietPeriod). by rewrite list_lookup_alter_eq, Hid.
      * intros Hu. destruct (Hs Hf p Hu) as [(j & dl & Hj)|?]; [left|by right].
        exists j, dl. rewrite list_lookup_alter_ne; [done|]. intros ->. rewrite Hid in Hj. by simplify_eq.
  - split_and!; [exact Hn'|..];
    unfold inv_map, inv_deadline, inv_served; cbn [l_done timers l_heap l_running].
    + intros p j. rewrite El. intros [[-> <-]|[Hne Hj]]%lookup_insert_Some.
      * rewrite decide_True by done. exists (Some (now + quietPeriod)). split.
        -- rewrite lookup_app_r, Nat.sub_diag by lia. done.
        -- intros dl ?. simplify_eq. f_equal. lia.
      * rewrite decide_False by done. destruct (Hm p j Hj) as (d & H1 & H2). exists d. split; [|done].
        by apply lookup_app_l_Some.
    + intros j p dl [H|[_ H]]%lookup_snoc_timer; rewrite El.
      * destruct (Hd _ _ _ H) as (t & Ht & Hle'). case_decide as Ep; [subst p|eauto].
        exists now. split; [done|]. specialize (Hn _ _ Ht). lia.
      * simplify_eq. rewrite decide_True by done. eexists. split; [done|]. lia.
    + intros Hf p. rewrite Eu. case_decide as Ep.
      * subst p. intros _. left. exists (length (l_heap s)), (now + quietPeriod).
        by rewrite lookup_app_r, Nat.sub_diag by lia.
      * intros Hu. destruct (Hs Hf p Hu) as [(j & dl & Hj)|?]; [left|by right].
        exists j, dl. by apply lookup_app_l_Some.
Qed.

Lemma elem_of_delete_ne {A} (l : list A) i x y : l !! i = Some y → x ∈ l → x ≠ y → x ∈ delete i l.
Proof.
  intros Hi Hx Hne. rewrite delete_take_drop. rewrite <- (take_drop_middle l i y Hi) in Hx.
  rewrite elem_of_app, elem_of_cons in Hx. rewrite elem_of_app. naive_solver.
Qed.

Lemma elem_of_insert_ne {A} (l : list A) i x y z : l !! i = Some y → x ∈ l → x ≠ y → x ∈ <[i := z]> l.
Proof.
  intros Hi [j Hj]%list_elem_of_lookup Hne. apply list_elem_of_lookup. exists j.
  rewrite list_lookup_insert_ne; [done|]. intros ->. by simplify_eq.
Qed.

Lemma elem_of_inserted {A} (l : list A) i y z : l !! i = Some y → z ∈ <[i := z]> l.
Proof.
  intros Hi. apply list_elem_of_lookup. exists i. apply list_lookup_insert_eq. by eapply lookup_lt_Some.
Qed.

(** Stopping timers keeps their paths and sets no deadlines. *)
Definition quieter (heap heap' : list timer) : Prop :=
  ∀ j path,
    (∀ d', heap' !! j = Some (MkTimer path d') → ∃ d, heap !! j = Some (MkTimer path d) ∧ (d' = d ∨ d' = None))
    ∧ (∀ d, heap !! j = Some (MkTimer path d) → ∃ d', heap' !! j = Some (MkTimer path d') ∧ (d' = d ∨ d' = None)).

Lemma Stop_quieter id heap : quieter heap (Stop id heap).
Proof.
  intros j path. unfold Stop. destruct (decide (j = id)) as [->|Hne].
  - rewrite list_lookup_alter_eq. split.
    + intros d' ([p0 d0] & H & E)%fmap_Some. simplify_eq/=. eauto.
    + intros d ->. eexists. split; [done|]. by right.
  - rewrite list_lookup_alter_ne by done. split; eauto.
Qed.

Lemma quieter_trans h1 h2 h3 : quieter h1 h2 → quieter h2 h3 → quieter h1 h3.
Proof.
  intros H12 H23 j path. destruct (H12 j path) as [A1 A2], (H23 j path) as [B1 B2]. split.
  - intros d3 (d2 & H & E)%B1. destruct (A1 _ H) as (d1 & H' & E'). exists d1. naive_solver.
  - intros d1 (d2 & H & E)%A2. destruct (B2 _ H) as (d3 & H' & E'). exists d3. naive_solver.
Qed.

Lemma Stop_all_quieter heap (m : gmap string nat) : quieter heap (map_fold (λ _ id h, Stop id h) heap m).
Proof.
  apply (map_fold_weak_ind (λ h _, quieter heap h)).
  - intros j path. split; eauto.
  - intros _ id _ h _ H. eapply quieter_trans; [exact H|apply Stop_quieter].
Qed.

Lemma step_inv s l s' tr : wstep s l s' → winv tr s → winv (l :: tr) s'.
Proof.
  destruct 1 as [s now path op Hle Hf _|s now id path dl Hle Hid Hdl|s now i path Hle Hi
    |s now i path st Hle Hi|s now Hle Hf]; intros Hinv; [by apply on_event_inv|..];
    destruct Hinv as (Hn & Hm & Hd & Hs); split_and!;
    unfold inv_now, inv_map, inv_deadline, inv_served; cbn [last_event unserved l_now l_done timers l_heap
      l_running on_expire on_lock on_look on_done]; try done; try (intros p t H%Hn; lia).
  - intros p j Hj. destruct (Hm p j Hj) as (d & H1 & H2).
    destruct (proj2 (Stop_quieter id (l_heap s) j p) d H1) as (d' & H3 & E). exists d'. split; [done|].
    intros dl' ->. destruct E as [<-|?]; [by apply H2|done].
  - intros j p dl' H. destruct (proj1 (Stop_quieter id (l_heap s) j p) _ H) as (d & H1 & [<-|?]); [|done].
    by eapply Hd.
  - intros Hf p Hu. destruct (Hs Hf p Hu) as [(j & dl' & Hj)|[?|?]].
    + destruct (decide (j = id)) as [->|Hne].
      * rewrite Hid in Hj. simplify_eq. right. left. apply elem_of_app. right. apply list_elem_of_here.
      * left. exists j, dl'. unfold Stop. by rewrite list_lookup_alter_ne.
    + right. left. apply elem_of_app. by left.
    + right. right. apply elem_of_app. by left.
  - intros p j [_ Hj]%lookup_delete_Some. by apply Hm.
  - intros Hf p Hu. destruct (Hs Hf p Hu) as [?|[H|H]]; [by left|right..].
    + destruct (decide (p = path)) as [->|Hne]; [right; by eapply elem_of_inserted|].
      left. eapply elem_of_insert_ne; [done|done|]. intros E. by injection E.
    + right. by eapply elem_of_insert_ne.
  - intros Hf p. case_decide as Ep; [done|]. intros Hu.
    destruct (Hs Hf p Hu) as [?|[H|H]]; [by left|right; left|right; right];
      (eapply elem_of_delete_ne; [done|done|]); [done|]. intros E. by injection E as ->.
  - intros p j Hj. destruct (Hm p j Hj) as (d & H1 & H2).
    destruct (proj2 (Stop_all_quieter (l_heap s) (timers s) j p) d H1) as (d' & H3 & E).
    exists d'. split; [done|]. intros dl' ->. destruct E as [<-|?]; [by apply H2|done].
  - intros j p dl' H.
    destruct (proj1 (Stop_all_quieter (l_heap s) (timers s) j p) _ H) as (d & H1 & [<-|?]); [|done].
    by eapply Hd.
Qed.

Lemma run_inv now tr s : wrun (NewLoop now) tr s → winv tr s.
Proof.
  remember (NewLoop now) as s0 eqn:E. induction 1 as [s|s tr s1 l s2 _ IH Hstep]; subst.
  - apply winv_new.
  - eapply step_inv; [done|]. by apply IH.
Qed.

(** Every event is no later than the last one. *)
Lemma last_event_latest tr s0 s path t op :
  wrun s0 tr s → (t, Event path op) ∈ tr → relevant op = true →
  ∃ t1, last_event path tr = Some t1 ∧ t ≤ t1.
Proof.
  assert (∀ s0 tr s, wrun s0 tr s → ∀ t l, (t, l) ∈ tr → t ≤ l_now s) as Hnow.
  { intros x y z. induction 1 as [|s1 tr' s2 [t1 l1] s3 _ IH Hstep]; intros u l; [by intros ?%elem_of_nil|].
    apply step_now in Hstep as [Hle ->]. intros [?|Hin]%elem_of_cons; [by simplify_eq|].
    specialize (IH _ _ Hin). lia. }
  intros Hrun Hin Hop. induction Hrun as [|s1 tr s2 [t1 l] s3 Hrun IH Hstep]; [by apply elem_of_nil in Hin|].
  apply elem_of_cons in Hin as [E|Hin].
  - simplify_eq. cbn [last_event]. rewrite decide_True by done. eexists. split; [done|]. lia.
  - destruct (IH Hin) as (t2 & Hl & Hle). destruct l as [p op'| | | |]; cbn [last_event]; [|by eauto..].
    case_decide as Hp; [|by eauto]. exists t1. split; [done|].
    apply step_now in Hstep as [Hle' _]. specialize (Hnow _ _ _ Hrun _ _ Hin). lia.
Qed.

(** Where a deadline or a goroutine comes from. *)
Definition caused (path : string) (t : Z) (tr : list (Z * label)) : Prop :=
  ∃ t0 op, (t0, Event path op) ∈ tr ∧ relevant op = true ∧ watched (Dir path) = true ∧ t0 + quietPeriod ≤ t.

Lemma caused_mono path t t' l tr : caused path t tr → t ≤ t' → caused path t' (l :: tr).
Proof.
  intros (t0 & op & H1 & H2 & H3 & H4) Hle. exists t0, op. split_and!; [by apply list_elem_of_further|done..|lia].
Qed.

Definition g_path (g : goroutine) : string := match g with Locking p | Looking p => p end.

Definition inv_cause (tr : list (Z * label)) (s : Loop) : Prop :=
  (∀ id path dl, l_heap s !! id = Some (MkTimer path (Some dl)) → caused path dl tr)
  ∧ (∀ g, g ∈ l_running s → caused (g_path g) (l_now s) tr)
  ∧ (∀ path id, timers s !! path = Some id → ∃ d, l_heap s !! id = Some (MkTimer path d)).

Lemma heap_cause_mono heap heap' l tr :
  quieter heap heap' →
  (∀ id path dl, heap !! id = Some (MkTimer path (Some dl)) → caused path dl tr) →
  ∀ id path dl, heap' !! id = Some (MkTimer path (Some dl)) → caused path dl (l :: tr).
Proof.
  intros Hq H id path dl Hid. destruct (proj1 (Hq id path) _ Hid) as (d & Hd & [<-|?]); [|done].
  eapply caused_mono; [by eapply H|lia].
Qed.

Lemma map_quieter heap heap' (m : gmap string nat) :
  quieter heap heap' →
  (∀ path id, m !! path = Some id → ∃ d, heap !! id = Some (MkTimer path d)) →
  ∀ path id, m !! path = Some id → ∃ d, heap' !! id = Some (MkTimer path d).
Proof.
  intros Hq H path id Hid. destruct (H _ _ Hid) as (d & Hd).
  destruct (proj2 (Hq id path) _ Hd) as (d' & ? & _). eauto.
Qed.

Lemma quieter_refl heap : quieter heap heap.
Proof. intros j path. split; eauto. Qed.

Lemma on_event_cause s now path op tr :
  l_now s ≤ now → watched (Dir path) = true → inv_cause tr s →
  inv_cause ((now, Event path op) :: tr) (on_event now path op s).
Proof.
  intros Hle Hw (H1 & H2 & H3). unfold on_event.
  assert (∀ g, g ∈ l_running s → caused (g_path g) now ((now, Event path op) :: tr)) as H2'
    by (intros g Hg; eapply caused_mono; [by apply H2|done]).
  destruct (relevant op) eqn:Hop; cbn [negb].
  2:{ split_and!; [by apply (heap_cause_mono (l_heap s)); [apply quieter_refl|]|done|done]. }
  assert (caused path (now + quietPeriod) ((now, Event path op) :: tr)) as Hnew.
  { exists now, op. split_and!; [apply list_elem_of_here|done..]. }
  destruct (timers s !! path) as [id|] eqn:Et; (split_and!; [|exact H2'|]); cbn [l_heap timers].
  - intros j p dl [[_ H]|[-> ([p0 d0] & H & E)]]%lookup_alter_timer.
    + eapply caused_mono; [by eapply H1|lia].
    + destruct (H3 _ _ Et) as (d & Hd). rewrite Hd in H. by simplify_eq/=.
  - intros p j Hj. destruct (H3 _ _ Hj) as (d & Hd). unfold Reset. destruct (decide (j = id)) as [->|Hne].
    + rewrite list_lookup_alter_eq, Hd. by eexists.
    + rewrite list_lookup_alter_ne by done. eauto.
  - intros j p dl [H|[_ E]]%lookup_snoc_timer; [|by simplify_eq]. eapply caused_mono; [by eapply H1|lia].
  - intros p j [[-> <-]|[_ Hj]]%lookup_insert_Some.
    + rewrite lookup_app_r, Nat.sub_diag by lia. by eexists.
    + destruct (H3 _ _ Hj) as (d & Hd). exists d. by apply lookup_app_l_Some.
Qed.

Lemma step_cause s l s' tr : wstep s l s' → inv_cause tr s → inv_cause (l :: tr) s'.
Proof.
  intros Hstep Hinv. destruct (step_now s l.1 l.2 s') as [Hle En]; [by destruct l|].
  assert (∀ g, g ∈ l_running s → caused (g_path g) (l_now s') (l :: tr)) as H2'.
  { intros g Hg. eapply caused_mono; [by apply Hinv|lia]. }
  destruct Hstep as [s now path op|s now id path dl _ Hid Hdl|s now i path _ Hi|s now i path st _ Hi|s now _ _];
    [by apply on_event_cause|..]; destruct Hinv as (H1 & H2 & H3); cbn [l_now] in *;
    (split_and!; cbn [l_heap l_running timers on_expire on_lock on_look on_done]).
  - by apply (heap_cause_mono (l_heap s)); [apply Stop_quieter|].
  - intros g [Hg| ->%list_elem_of_singleton]%elem_of_app; [by apply H2'|].
    eapply caused_mono; [by eapply H1|done].
  - apply (map_quieter (l_heap s)); [apply Stop_quieter|done].
  - by apply (heap_cause_mono (l_heap s)); [apply quieter_refl|].
  - intros g [j Hj]%list_elem_of_lookup. apply list_lookup_insert_Some in Hj as [(-> & <- & _)|[_ Hj]].
    + apply (H2' (Locking path)). by eapply list_elem_of_lookup_2.
    + apply H2'. by eapply list_elem_of_lookup_2.
  - intros p j [_ Hj]%lookup_delete_Some. by apply H3.
  - by apply (heap_cause_mono (l_heap s)); [apply quieter_refl|].
  - intros g Hg. apply H2'. rewrite delete_take_drop in Hg.
    rewrite <- (take_drop_middle _ _ _ Hi). rewrite elem_of_app in *. rewrite elem_of_cons. naive_solver.
  - done.
  - by apply (heap_cause_mono (l_heap s)); [apply Stop_all_quieter|].
  - done.
  - apply (map_quieter (l_heap s)); [apply Stop_all_quieter|done].
Qed.

Lemma run_cause now tr s : wrun (NewLoop now) tr s → inv_cause tr s.
Proof.
  remember (NewLoop now) as s0 eqn:E. induction 1 as [s|s tr s1 l s2 _ IH Hstep]; subst.
  - split_and!; [done|by intros g ?%elem_of_nil|done].
  - eapply step_cause; [done|]. by apply IH.
Qed.

(** ** The watcher's contract *)

Lemma run_look now tr s path st t :
  wrun (NewLoop now) tr s → (t, Look path st) ∈ tr → caused path t tr.
Proof.
  remember (NewLoop now) as s0 eqn:E. intros Hrun. revert E.
  induction Hrun as [|s0 tr s1 l s2 Hrun IH Hstep]; intros -> Hin; [by apply elem_of_nil in Hin|].
  apply elem_of_cons in Hin as [<-|Hin].
  - destruct (run_cause _ _ _ Hrun) as (_ & Hr & _). inversion Hstep as [| | |? ? i ? ? Hle Hi|]; subst.
    apply list_elem_of_lookup_2 in Hi. apply Hr in Hi. cbn [g_path] in Hi. by apply (caused_mono _ _ t _ _ Hi).
  - eapply caused_mono; [by apply IH|lia].
Qed.

(** The callback runs only for a cause: whenever it is called for a path,
    there was an event of kind create or write for that path, in a directory
    that is watched, at least 300 ms before. *)
Theorem call_has_cause now tr s path l t :
  wrun (NewLoop now) tr s → (t, l) ∈ tr → calls l = Some path →
  ∃ t0 op, (t0, Event path op) ∈ tr ∧ relevant op = true ∧ watched (Dir path) = true
    ∧ t0 + quietPeriod ≤ t.
Proof.
  intros Hrun Hin Hc. destruct l as [| | |p []|]; try done. injection Hc as ->. by eapply run_look.
Qed.

(** C31. A path is left alone until it has gone quiet: when the timer that is on
    record for a path expires, no event of kind create or write of that path is
    less than 300 ms old. *)
Theorem quiet_before_fire now tr s path id t s' :
  wrun (NewLoop now) tr s → timers s !! path = Some id → wstep s (t, Expire id) s' →
  ∀ t0 op, (t0, Event path op) ∈ tr → relevant op = true → t0 + quietPeriod ≤ t.
Proof.
  intros Hrun Hid Hstep t0 op Hin Hop.
  destruct (run_inv _ _ _ Hrun) as (_ & Hm & _). destruct (Hm _ _ Hid) as (d & Hheap & Hlast).
  inversion Hstep as [|? ? ? p dl Hle Hj Hdl| | |]; subst. rewrite Hheap in Hj. simplify_eq.
  destruct (last_event_latest _ _ _ _ _ _ Hrun Hin Hop) as (t1 & E & Hle'). rewrite (Hlast dl eq_refl) in E.
  simplify_eq. lia.
Qed.

(** C15. No change is lost: as long as the watcher is not stopped, from every
    situation in which a path has an event that was not looked into, at most
    three further steps, none of them a new event, lead to a look at the path,
    no later than 300 ms after its last event or at once if that has passed. *)
Theorem no_change_lost now tr s path st :
  wrun (NewLoop now) tr s → l_done s = false → unserved path tr = true →
  ∃ t tr' s', wrun s tr' s' ∧ head tr' = Some (t, Look path st) ∧ (length tr' ≤ 3)%nat
    ∧ Forall (λ l, match l.2 with Event _ _ | Done => False | _ => True end) tr'
    ∧ (t = l_now s ∨ ∃ t0, last_event path tr = Some t0 ∧ t ≤ t0 + quietPeriod).
Proof.
  intros Hrun Hf Hu. destruct (run_inv _ _ _ Hrun) as (_ & _ & Hd & Hs).
  assert (∀ s1 i, l_running s1 !! i = Some (Looking path) →
    wrun s1 [(l_now s1, Look path st)] (on_look (l_now s1) i s1)) as Hlook.
  { intros s1 i Hi. eapply wrun_snoc; [constructor|]. by econstructor. }
  assert (∀ s1 i, l_running s1 !! i = Some (Locking path) →
    ∃ s2, wrun s1 [(l_now s1, Look path st); (l_now s1, Lock path)] s2) as Hlock.
  { intros s1 i Hi. eexists. eapply wrun_snoc; [eapply wrun_snoc; [constructor|by econstructor]|].
    apply (step_look (on_lock (l_now s1) i path s1) _ i); [done|]. cbn.
    apply list_lookup_insert_eq. by eapply lookup_lt_Some. }
  destruct (Hs Hf path Hu) as [(id & dl & Hid)|[[i Hi]%list_elem_of_lookup|[i Hi]%list_elem_of_lookup]].
  - set (t := Z.max dl (l_now s)).
    assert (wstep s (t, Expire id) (on_expire t id path s)) as Hstep by (econstructor; [lia|done|lia]).
    exists t, [(t, Look path st); (t, Lock path); (t, Expire id)]. eexists. split_and!; [|done|done|by repeat constructor|].
    + eapply wrun_snoc; [eapply wrun_snoc; [eapply wrun_snoc; [constructor|exact Hstep]|]|].
      * apply (step_lock _ _ (length (l_running s)) path); [done|].
        cbn [on_expire l_running]. by rewrite lookup_app_r, Nat.sub_diag by lia.
      * apply (step_look _ _ (length (l_running s)) path st); [done|].
        cbn [on_expire on_lock l_running]. apply list_lookup_insert_eq. rewrite length_app. simpl. lia.
    + destruct (Hd _ _ _ Hid) as (t0 & Ht0 & Hle). destruct (Z.max_spec dl (l_now s)) as [[_ E]|[_ E]];
        [by left|right]. exists t0. split; [done|]. subst t. lia.
  - destruct (Hlock s i Hi) as (s2 & H2). eexists _, _, s2. split_and!; [exact H2|done|simpl; lia|by repeat constructor|by left].
  - eexists _, _, _. split_and!; [by apply (Hlook s i)|done|simpl; lia|by repeat constructor|by left].
Qed.

End loop.
(** ** What is watched *)

(** [p] is a directory of the tree [t] at [path] that is reached without
    entering a hidden one. *)
Inductive dir_at : string → tree → string → Prop :=
  | dir_here path entries : dir_at path (TDir entries) path
  | dir_below path entries n t p :
      (n, t) ∈ entries → hidden n = false → dir_at (Join [path; n]) t p → dir_at path (TDir entries) p.

(** Everything the walk looks at can be looked at. *)
Fixpoint readable (skippable : bool) (name : string) (t : tree) : bool :=
  match t with
  | TFile => true
  | TGone | TUnlistable => false
  | TDir entries => (skippable && hidden name) || forallb (λ nt, readable true nt.1 nt.2) entries
  end.

Lemma tree_rect' (P : tree → Prop) :
  P TFile → (∀ entries, Forall (λ nt, P nt.2) entries → P (TDir entries)) → P TUnlistable → P TGone →
  ∀ t, P t.
Proof.
  intros H1 H2 H3 H4. fix IH 1. intros [|entries| |]; [done| |done|done].
  apply H2. induction entries as [|[n t] l IHl]; constructor; [apply IH|done].
Qed.

Lemma walk_spec t : ∀ sk path name,
  ((walk sk path name t).2 = None ↔ readable sk name t = true)
  ∧ ((walk sk path name t).2 = None →
     ∀ p, p ∈ (walk sk path name t).1 ↔ sk && hidden name = false ∧ dir_at path t p).
Proof.
  induction t as [|entries IH| |] using tree_rect'; intros sk path name; cbn [walk readable].
  - split; [done|]. intros _ p. split; [by intros ?%elem_of_nil|]. intros [_ H]. inversion H.
  - destruct (sk && hidden name) eqn:Hsk; cbn [orb].
    { split; [done|]. intros _ p. split; [by intros ?%elem_of_nil|]. by intros [? _]. }
    set (w := fix walk_entries (l : list (string * tree)) : visited := _).
    assert ((w entries).2 = None ↔ forallb (λ nt, readable true nt.1 nt.2) entries = true) as Hr.
    { induction IH as [|[n t] l Ht _ IHl]; [done|]. cbn [w forallb fst snd].
      cbn [snd] in Ht. destruct (Ht true (Join [path; n]) n) as [H1 _].
      destruct (walk true (Join [path; n]) n t) as [ds [e|]]; cbn [snd] in *.
      - split; [done|]. rewrite andb_true_iff. intros [H _]. discriminate (proj2 H1 H).
      - fold w. destruct (w l) as [ds' e]. cbn [snd] in *. rewrite IHl, andb_true_iff. naive_solver. }
    assert ((w entries).2 = None → ∀ p, p ∈ (w entries).1 ↔
      ∃ n t, (n, t) ∈ entries ∧ hidden n = false ∧ dir_at (Join [path; n]) t p) as Hw.
    { clear Hr. induction IH as [|[n t] l Ht _ IHl]; cbn [w].
      - intros _ p. split; [by intros ?%elem_of_nil|]. by intros (? & ? & ?%elem_of_nil & _).
      - cbn [snd] in Ht. destruct (Ht true (Join [path; n]) n) as [_ H2].
        destruct (walk true (Join [path; n]) n t) as [ds [e|]]; cbn [fst snd] in *; [done|].
        fold w. destruct (w l) as [ds' e]. cbn [fst snd] in *. intros He p.
        rewrite elem_of_app, (H2 eq_refl), (IHl He). split.
        + intros [[Hh Hd]|(n' & t' & Hin & Hh & Hd)]; [exists n, t|exists n', t'];
            split; [by left|done|by right|done].
        + intros (n' & t' & [[= -> ->]|Hin]%elem_of_cons & Hh & Hd); [by left|right; eauto]. }
    destruct (w entries) as [ds e]. cbn [fst snd] in *. split; [done|]. intros He p.
    rewrite elem_of_cons, (Hw He). split.
    + intros [->|(n & t & Hin & Hh & Hd)]; (split; [done|]); by econstructor.
    + intros [_ H]. inversion H; subst; [by left|right; eauto].
  - split; [done|done].
  - split; [done|done].
Qed.

(** [Start] watches exactly the directories below the root, and the root
    itself, that are reached without entering a directory whose name starts with
    a dot and for which fsnotify accepts the watch; it fails exactly when
    something on the way, hidden or not, cannot be read. *)
Theorem watch_root_spec add rootDir t :
  match watch_root add rootDir t with
  | Ok ds => readable false (Base rootDir) t = true ∧ ∀ p, p ∈ ds ↔ add p = true ∧ dir_at rootDir t p
  | Err _ => readable false (Base rootDir) t = false
  end.
Proof.
  unfold watch_root. destruct (walk_spec t false rootDir (Base rootDir)) as [H1 H2].
  destruct (walk false rootDir (Base rootDir) t) as [ds [e|]]; cbn [fst snd] in *.
  - apply not_true_is_false. intros H. by apply H1 in H.
  - split; [by apply H1|]. intros p. rewrite list_elem_of_filter, (H2 eq_refl). naive_solver.
Qed.

(** The names of directory entries. *)
Fixpoint well_named (t : tree) : bool :=
  match t with
  | TDir entries => forallb (λ nt, plain nt.1 && well_named nt.2) entries
  | _ => true
  end.

Lemma dir_at_below path t p : dir_at path t p → well_named t = true → elems path `prefix_of` elems p.
Proof.
  induction 1 as [path entries|path entries n t p Hin Hh _ IH]; intros Hn; [done|].
  cbn [well_named] in Hn. pose proof (proj1 (forallb_forall _ _) Hn (n, t)) as Ht.
  apply list_elem_of_In in Hin. apply Ht in Hin. apply andb_true_iff in Hin as [Hp Hw].
  etrans; [|by apply IH]. rewrite Join_elems_local; [by eexists|].
  unfold local_id. apply plain_spec in Hp as Hs. rewrite split_no_slash by tauto. cbn [forallb fst] in *. by rewrite Hp.
Qed.

(** Every watched directory is the root or below it. *)
Lemma watched_below add rootDir t ds p :
  watch_root add rootDir t = Ok ds → well_named t = true → p ∈ ds → elems rootDir `prefix_of` elems p.
Proof.
  intros Hds Hn Hp. unfold watch_root in Hds.
  destruct (walk_spec t false rootDir (Base rootDir)) as [_ H2].
  destruct (walk false rootDir (Base rootDir) t) as [ds' [e|]]; [done|]. simplify_eq. cbn [fst snd] in H2.
  apply list_elem_of_filter in Hp as [_ Hp]. apply (H2 eq_refl) in Hp as [_ Hp]. by eapply dir_at_below.
Qed.

(** A directory that is created after the start is never watched: whatever
    happens later, the callback is not called for a file in a directory that
    the walk did not meet. *)
Theorem late_directory_unwatched add rootDir t ds now tr s path st u :
  watch_root add rootDir t = Ok ds → ¬ dir_at rootDir t (Dir path) →
  wrun (λ d, bool_decide (d ∈ ds)) (NewLoop now) tr s → (u, Look path st) ∉ tr.
Proof.
  intros Hds Hno Hrun Hin.
  destruct (run_look _ _ _ _ _ _ _ Hrun Hin) as (_ & _ & _ & _ & Hw & _).
  apply bool_decide_eq_true in Hw. destruct Hno. unfold watch_root in Hds.
  destruct (walk_spec t false rootDir (Base rootDir)) as [_ H2].
  destruct (walk false rootDir (Base rootDir) t) as [ds' [e|]]; [done|]. simplify_eq. cbn [fst snd] in H2.
  apply list_elem_of_filter in Hw as [_ Hw]. by apply (H2 eq_refl) in Hw as [_ ?].
Qed.

(** Not so for a timer that lost its place on the map: a goroutine that runs
    between an event's [Reset] and the next event takes the re-armed timer off
    the map, and that timer then fires 100 ms after the last event. *)
Theorem stray_timer_fires_early :
  let ms n := n * Millisecond in
  ∃ tr s s', wrun (λ _, true) (NewLoop 0) tr s ∧ wstep (λ _, true) s (ms 600, Expire 0) s'
    ∧ l_heap s !! 0%nat = Some (MkTimer "/s/x" (Some (ms 600))) ∧ last_event "/s/x" tr = Some (ms 500).
Proof.
  intros ms. set (x := "/s/x").
  set (s1 := on_event (ms 0) x [Create] (NewLoop 0)).
  set (s2 := on_expire (ms 300) 0 x s1).
  set (s3 := on_event (ms 300) x [Write] s2).
  set (s4 := on_lock (ms 300) 0 x s3).
  set (s5 := on_event (ms 500) x [Write] s4).
  exists [(ms 500, Event x [Write]); (ms 300, Lock x); (ms 300, Event x [Write]); (ms 300, Expire 0);
          (ms 0, Event x [Create])], s5, (on_expire (ms 600) 0 x s5).
  split_and!; [|by apply (step_expire _ _ _ 0 x (ms 600))|done|done].
  repeat (eapply wrun_snoc); [constructor|..].
  - by apply step_event.
  - by apply (step_expire _ _ _ 0 x (ms 300)).
  - by apply step_event.
  - by apply (step_lock _ _ _ 0 x).
  - by apply step_event.
Qed.

End Watcher.

Module WatcherExamples.
Import Watcher.

Local Open Scope Z_scope.

Definition ms (n : Z) : Z := n * Millisecond.

(** An event, its timer, and the look that follows. *)
Definition ex_trace : list (Z * label) :=
  [(ms 301, Look "/s/x" StatFile); (ms 300, Lock "/s/x"); (ms 300, Expire 0); (ms 0, Event "/s/x" [Write])].

Definition ex_armed : Loop := on_event (ms 0) "/s/x" [Write] (NewLoop 0).

Lemma ex_armed_run : wrun (λ _, true) (NewLoop 0) [(ms 0, Event "/s/x" [Write])] ex_armed.
Proof. eapply wrun_snoc; [constructor|]. by apply step_event. Qed.

Lemma ex_watch_run : ∃ s, wrun (λ _, true) (NewLoop 0) ex_trace s.
Proof.
  eexists. repeat (eapply wrun_snoc); [constructor|..].
  - by apply step_event.
  - by apply (step_expire _ _ _ 0 "/s/x" (ms 300)).
  - by apply (step_lock _ _ _ 0 "/s/x").
  - by apply (step_look _ _ _ 0 "/s/x").
Qed.

Lemma call_has_cause_witness :
  ∃ t0 op, (t0, Event "/s/x" op) ∈ ex_trace ∧ relevant op = true ∧ true = true ∧ t0 + quietPeriod ≤ ms 301.
Proof.
  destruct ex_watch_run as [s Hs].
  exact (call_has_cause (λ _, true) 0 ex_trace s "/s/x" (Look "/s/x" StatFile) (ms 301) Hs
    (list_elem_of_here _ _) eq_refl).
Defined.

Lemma quiet_before_fire_witness : ms 0 + quietPeriod ≤ ms 300.
Proof.
  apply (quiet_before_fire (λ _, true) 0 [(ms 0, Event "/s/x" [Write])] ex_armed "/s/x" 0 (ms 300)
    (on_expire (ms 300) 0 "/s/x" ex_armed) ex_armed_run) with (op := [Write]).
  - reflexivity.
  - apply (step_expire _ _ _ 0 "/s/x" (ms 300)); [vm_compute; discriminate|reflexivity|lia].
  - apply list_elem_of_here.
  - reflexivity.
Defined.

Lemma no_change_lost_witness :
  ∃ t tr' s', wrun (λ _, true) ex_armed tr' s' ∧ head tr' = Some (t, Look "/s/x" StatFile).
Proof.
  destruct (no_change_lost (λ _, true) 0 [(ms 0, Event "/s/x" [Write])] ex_armed "/s/x" StatFile ex_armed_run)
    as (t & tr' & s' & H1 & H2 & _); [reflexivity|reflexivity|].
  exists t, tr', s'. split; [exact H1|exact H2].
Defined.

(** A root with a file, a hidden directory and a directory. *)
Definition ex_tree : tree :=
  TDir [(".git", TDir [("objects", TDir [])]); ("docs", TDir [("a.txt", TFile)]); ("x", TFile)].

Lemma ex_watched : watch_root (λ _, true) "/s" ex_tree = Ok ["/s"; "/s/docs"].
Proof. vm_compute. reflexivity. Qed.

Lemma ex_not_there : ¬ dir_at "/s" ex_tree (Dir "/s/new/a.txt").
Proof.
  intros H. destruct (walk_spec ex_tree false "/s" (Base "/s")) as [_ Hw].
  assert (Dir "/s/new/a.txt" ∈ ["/s"; "/s/docs"]) as Hin by (apply (Hw eq_refl); by split).
  apply (bool_decide_pack _) in Hin. by vm_compute in Hin.
Qed.

Lemma ex_run_watched : ∃ s, wrun (λ d, bool_decide (d ∈ ["/s"; "/s/docs"])) (NewLoop 0) ex_trace s.
Proof.
  eexists. repeat (eapply wrun_snoc); [constructor|..].
  - by apply step_event.
  - by apply (step_expire _ _ _ 0 "/s/x" (ms 300)).
  - by apply (step_lock _ _ _ 0 "/s/x").
  - by apply (step_look _ _ _ 0 "/s/x").
Qed.

Lemma late_directory_unwatched_witness : (ms 301, Look "/s/new/a.txt" StatFile) ∉ ex_trace.
Proof.
  destruct ex_run_watched as [s Hs].
  exact (late_directory_unwatched (λ _, true) "/s" ex_tree ["/s"; "/s/docs"] 0 ex_trace s "/s/new/a.txt"
    StatFile (ms 301) ex_watched ex_not_there Hs).
Defined.

End WatcherExamples.
