(* ===== verification/Quiet.v ===== *)
(** * Path containment and quiet paths ([internal/daemon/quiet.go])

    [isSubPath] is the guard that keeps the data directory out of the watched
    tree; [quietSet] remembers the paths the sync engine has just written, so
    that the watcher's events about them are not taken for local changes. *)

From Stdlib Require Import Strings.Ascii.
From S2P Require Import Prelude GoBytes GoFloat Path.

Module Quiet.

(** ** [isSubPath] *)

Definition isSubPath (cwd : result string) (base candidate : string) : bool :=
  match Abs cwd base with
  | Err _ => false
  | Ok absBase =>
      match Abs cwd candidate with
      | Err _ => false
      | Ok absCandidate =>
          match Rel absBase absCandidate with
          | Err _ => false
          | Ok rel =>
              if decide (rel = ".") then true
              else negb (bool_decide (rel = "..")) && negb (String.prefix "../" rel)
          end
      end
  end.

(** ** [quietSet] *)

Record quietSet := MkQuiet {
  ttl : Z;
  qm : gmap string Z;
}.

Definition newQuietSet (ttl : Z) : quietSet := MkQuiet ttl ∅.

Definition Mark (now : Z) (path : string) (q : quietSet) : quietSet :=
  MkQuiet (ttl q) (<[path := now]> (qm q)).

Definition IsQuiet (now : Z) (path : string) (q : quietSet) : bool * quietSet :=
  match qm q !! path with
  | None => (false, q)
  | Some t =>
      if (ttl q <? time_Sub now t)%Z then (false, MkQuiet (ttl q) (delete path (qm q)))
      else (true, q)
  end.

(** ** Properties of [isSubPath] *)

Lemma strip_common_spec b t b' t' :
  strip_common b t = (b', t') →
  ∃ p, b = p ++ b' ∧ t = p ++ t' ∧ (b' = [] ↔ b `prefix_of` t).
Proof.
  revert t. induction b as [|x b IH]; intros t H.
  { assert (b' = [] ∧ t' = t) as [-> ->] by (destruct t; by simplify_eq/=).
    exists []. split_and!; [done..|]. split; [|done]. intros _. apply prefix_nil. }
  destruct t as [|y t]; simpl in H.
  { simplify_eq. exists []. split_and!; [done..|]. split; [done|].
    intros Hp. by apply prefix_nil_not in Hp. }
  case_decide as Hxy.
  - subst y. apply IH in H as (p & -> & -> & Hp). exists (x :: p). split_and!; [done..|].
    rewrite Hp. split; [apply prefix_cons|apply prefix_cons_inv_2].
  - simplify_eq. exists []. split_and!; [done..|]. split; [done|].
    intros Hp. by apply prefix_cons_inv_1 in Hp.
Qed.

Lemma prefix_app p s : String.prefix p s = true → ∃ t, s = p +:+ t.
Proof.
  revert s. induction p as [|a p IH]; intros s H; [by exists s|].
  destruct s as [|b s]; [done|]. cbn [String.prefix] in H.
  destruct (ascii_dec a b) as [->|]; [|done]. destruct (IH _ H) as [t ->]. by exists t.
Qed.

Lemma prefix_of_app p s : String.prefix p (p +:+ s) = true.
Proof.
  induction p as [|a p IH]; [by destruct s|].
  change (String a p +:+ s) with (String a (p +:+ s)). cbn [String.prefix].
  by destruct (ascii_dec a a).
Qed.

Lemma prefix_split_dotdot s : String.prefix "../" s = true → ∃ t, split_slash s = ".." :: t.
Proof.
  intros [t ->]%prefix_app. change ("../" +:+ t) with (String "." (String "." (String slash t))).
  exists (split_slash t). done.
Qed.

Lemma Abs_rooted wd p : rooted wd = true →
  ∃ es, Abs (Ok wd) p = Ok (render true es) ∧ Forall (λ e, plain e = true) es.
Proof.
  intros Hwd. unfold Abs. destruct (rooted p) eqn:Hp.
  - unfold Clean. rewrite Hp. exists (elems p). split; [done|].
    apply normal_rooted. rewrite <- Hp. apply elems_normal.
  - assert (rooted (wd +:+ String slash p) = true) as Hr by (by destruct wd).
    simpl. rewrite decide_False by (by intros ->). unfold Clean. rewrite Hr.
    eexists. split; [done|]. apply normal_rooted. rewrite <- Hr. apply elems_normal.
Qed.

(** With a working directory, the guard compares the elements of the two
    absolute paths: true exactly when the first begin the second. *)
Lemma isSubPath_prefix wd base candidate b c :
  rooted wd = true → Abs (Ok wd) base = Ok b → Abs (Ok wd) candidate = Ok c →
  isSubPath (Ok wd) base candidate = bool_decide (elems b `prefix_of` elems c).
Proof.
  intros Hwd Hb Hc. unfold isSubPath. rewrite Hb, Hc.
  destruct (Abs_rooted wd base Hwd) as (eb & Hb' & Heb).
  destruct (Abs_rooted wd candidate Hwd) as (ec & Hc' & Hec).
  rewrite Hb in Hb'. rewrite Hc in Hc'.
  assert (b = render true eb) as -> by congruence. assert (c = render true ec) as -> by congruence.
  rewrite !elems_render, Rel_render by (by try apply normal_plain).
  destruct (decide (ec = eb)) as [->|Hne].
  { by rewrite decide_True, bool_decide_eq_true_2. }
  destruct (strip_common eb ec) as [b' t'] eqn:Es.
  apply strip_common_spec in Es as (p & -> & -> & Hp).
  apply Forall_app in Heb as [_ Hb'']. apply Forall_app in Hec as [_ Ht''].
  destruct b' as [|e b'].
  - rewrite decide_False by done. simpl replicate. simpl app.
    rewrite (bool_decide_eq_true_2 (_ `prefix_of` _)) by (by apply Hp).
    destruct t' as [|t t']; [by destruct Hne|].
    assert (split_slash (join_slash (t :: t')) = t :: t') as Hsp.
    { apply split_join; [done|]. eapply Forall_impl; [done|].
      intros x (_ & _ & _ & ?)%plain_spec. done. }
    inversion_clear Ht'' as [|?? Ht _]. apply plain_spec in Ht as (_ & _ & Ht & _).
    case_decide; [done|]. apply andb_true_iff. split; apply negb_true_iff.
    + apply bool_decide_eq_false. intros E. rewrite E in Hsp. vm_compute in Hsp. by simplify_eq.
    + apply not_true_is_false. intros (l & Hl)%prefix_split_dotdot. rewrite Hsp in Hl. by simplify_eq.
  - inversion_clear Hb'' as [|?? He _]. apply plain_spec in He as (_ & _ & He & _).
    rewrite decide_False by (simpl; congruence).
    rewrite (bool_decide_eq_false_2 (_ `prefix_of` _)) by (rewrite <- Hp; done).
    simpl replicate. simpl app. set (l := replicate (length b') ".." ++ t').
    destruct l as [|x l]; [done|].
    change (join_slash (".." :: x :: l)) with ("../" +:+ join_slash (x :: l)).
    rewrite decide_False by done. rewrite (bool_decide_eq_false_2 (_ = "..")); [|done].
    by rewrite prefix_of_app.
Qed.

(** For absolute paths [isSubPath] holds exactly when the elements of the
    base are a prefix of those of the candidate, so a path whose name merely
    begins like the base is not below it. *)
Theorem isSubPath_absolute wd base candidate :
  rooted wd = true → rooted base = true → rooted candidate = true →
  isSubPath (Ok wd) base candidate = bool_decide (elems base `prefix_of` elems candidate).
Proof.
  intros Hwd Hb Hc.
  rewrite (isSubPath_prefix wd base candidate (Clean base) (Clean candidate)) by
    (done || unfold Abs; by rewrite ?Hb, ?Hc).
  unfold Clean. by rewrite !elems_render by apply elems_normal.
Qed.

Lemma isSubPath_absolute_witness : isSubPath (Ok "/w") "/a/b" "/a/bc/../b/./d" = true.
Proof. rewrite isSubPath_absolute; [vm_compute; reflexivity|reflexivity..]. Defined.

(** ** Properties of [quietSet] *)

(** Whether a path is quiet at [now], without the clean-up. *)
Definition quiet (now : Z) (path : string) (q : quietSet) : bool :=
  match qm q !! path with
  | Some t => (time_Sub now t <=? ttl q)%Z
  | None => false
  end.

Lemma IsQuiet_fst now p q : (IsQuiet now p q).1 = quiet now p q.
Proof.
  unfold IsQuiet, quiet. destruct (qm q !! p); [|done].
  rewrite Z.leb_antisym. by destruct (ttl q <? _)%Z.
Qed.

Lemma Mark_quiet now p q now' p' :
  quiet now' p' (Mark now p q)
  = if decide (p' = p) then (time_Sub now' now <=? ttl q)%Z else quiet now' p' q.
Proof.
  unfold quiet, Mark. simpl. case_decide as E.
  - subst p'. by rewrite lookup_insert_eq.
  - by rewrite lookup_insert_ne by done.
Qed.

(** Forgetting an expired mark changes no later answer. *)
Lemma IsQuiet_keeps now p q now' p' :
  (now ≤ now')%Z → quiet now' p' (IsQuiet now p q).2 = quiet now' p' q.
Proof.
  intros Hle. unfold IsQuiet. destruct (qm q !! p) as [t|] eqn:E; [|done].
  destruct (ttl q <? time_Sub now t)%Z eqn:Ht; [|done]. unfold quiet. simpl.
  destruct (decide (p = p')) as [->|Hne]; [|by rewrite lookup_delete_ne].
  rewrite lookup_delete_eq, E. symmetry. apply Z.leb_gt. apply Z.ltb_lt in Ht.
  unfold time_Sub in *. lia.
Qed.

(** A marked path is quiet for exactly the time to live, however often the
    set is asked about any path in between, and marking affects no other path. *)
Theorem quiet_window now p q queries now' p' :
  Forall (λ '(t, _), t ≤ now')%Z queries →
  let q' := foldl (λ q '(t, r), (IsQuiet t r q).2) (Mark now p q) queries in
  (IsQuiet now' p' q').1
  = if decide (p' = p) then (time_Sub now' now <=? ttl q)%Z else (IsQuiet now' p' q).1.
Proof.
  intros Hq q'. rewrite !IsQuiet_fst, <- Mark_quiet. subst q'. generalize (Mark now p q). clear q.
  induction Hq as [|[t r] queries Ht _ IH]; intros q; [done|].
  cbn [foldl]. rewrite IH. by apply IsQuiet_keeps.
Qed.

Lemma quiet_window_witness :
  (IsQuiet 5 "/s/x" (foldl (λ q '(t, r), (IsQuiet t r q).2) (Mark 0 "/s/x" (newQuietSet 5))
     [(1%Z, "/s/x"); (5%Z, "/s/y")])).1 = true.
Proof.
  rewrite (quiet_window 0 "/s/x" (newQuietSet 5) [(1%Z, "/s/x"); (5%Z, "/s/y")] 5 "/s/x");
    [reflexivity|]. repeat constructor; lia.
Defined.

End Quiet.
