(* ===== verification/Clock.v ===== *)
(** * The Lamport clock ([nextTS], [observeTS] of [internal/daemon/daemon.go])

    The clock is one atomic [uint64] shared by all goroutines.  [nextTS] is a
    single atomic add; [observeTS] is a load / compare-and-swap loop.  The
    sequential functions are what the rest of the development uses; the step
    relation below runs any number of calls with their atomic operations
    interleaved and shows that the sequential reading is justified. *)

From S2P Require Import Prelude GoBytes.

Module Clock.

Local Open Scope Z_scope.

(** ** Sequentially *)

(** The new value, which is also the result. *)
Definition nextTS (clock : Z) : Z := u64 (clock + 1).

Definition observeTS (clock remote : Z) : Z := if remote <=? clock then clock else remote.

Lemma observeTS_max clock remote : observeTS clock remote = Z.max clock remote.
Proof. unfold observeTS. case_match; lia. Qed.

(** ** Interleaved *)

(** Where a call is. *)
Inductive pc :=
  | Next                              (** [nextTS], before the add *)
  | NextDone (ts : Z)                 (** returned [ts] *)
  | Load (remote : Z)                 (** [observeTS], before the load *)
  | Swap (remote cur : Z)             (** loaded [cur], smaller than [remote] *)
  | ObserveDone (remote : Z).         (** returned *)

Record conf := Conf { clock : Z; calls : list pc }.

(** A call that takes effect, with what it returned. *)
Inductive event := ENext (ts : Z) | EObserve (remote : Z).

(** One atomic operation of some goroutine, and the call it completes. *)
Inductive step : conf → option event → conf → Prop :=
  | step_spawn_next c l : step (Conf c l) None (Conf c (l ++ [Next]))
  | step_spawn_observe c l remote :
      is_u64 remote → step (Conf c l) None (Conf c (l ++ [Load remote]))
  | step_add c l i :
      l !! i = Some Next →
      step (Conf c l) (Some (ENext (u64 (c + 1))))
        (Conf (u64 (c + 1)) (<[i := NextDone (u64 (c + 1))]> l))
  | step_load_return c l i remote :
      l !! i = Some (Load remote) → remote <= c →
      step (Conf c l) (Some (EObserve remote)) (Conf c (<[i := ObserveDone remote]> l))
  | step_load c l i remote :
      l !! i = Some (Load remote) → c < remote →
      step (Conf c l) None (Conf c (<[i := Swap remote c]> l))
  | step_swap c l i remote :
      l !! i = Some (Swap remote c) →
      step (Conf c l) (Some (EObserve remote)) (Conf remote (<[i := ObserveDone remote]> l))
  | step_swap_fail c l i remote cur :
      l !! i = Some (Swap remote cur) → cur ≠ c →
      step (Conf c l) None (Conf c (<[i := Load remote]> l)).

Inductive run : conf → list event → conf → Prop :=
  | run_nil c : run c [] c
  | run_step c1 evs c2 ev c3 :
      run c1 evs c2 → step c2 ev c3 → run c1 (evs ++ option_list ev) c3.

Definition init : conf := Conf 0 [].

(** The sequential reading of an event. *)
Definition apply_event (c : Z) (ev : event) : Z :=
  match ev with ENext _ => nextTS c | EObserve remote => observeTS c remote end.

(** The history is one of the sequential clock: each call returns what the
    sequential function returns at its place. *)
Fixpoint sequential (c : Z) (evs : list event) : Prop :=
  match evs with
  | [] => True
  | ev :: evs =>
      match ev with ENext ts => ts = nextTS c | EObserve _ => True end ∧
      sequential (apply_event c ev) evs
  end.

Definition completed (p : pc) : option event :=
  match p with
  | NextDone ts => Some (ENext ts)
  | ObserveDone remote => Some (EObserve remote)
  | _ => None
  end.

(** ** The interleaved clock is the sequential one *)

(** A pending swap is an increase. *)
Definition pc_ok (p : pc) : Prop :=
  match p with Swap remote cur => cur < remote | _ => True end.

Lemma sequential_app c evs ev :
  sequential c (evs ++ ev) ↔ sequential c evs ∧ sequential (foldl apply_event c evs) ev.
Proof. revert c. induction evs as [|e evs IH]; intros c; simpl; [tauto|]. rewrite IH. tauto. Qed.

Lemma completed_insert l i p q :
  l !! i = Some p → completed p = None →
  omap completed (<[i := q]> l) ≡ₚ omap completed l ++ option_list (completed q).
Proof.
  intros Hi Hp. rewrite <- (take_drop_middle l i p Hi) at 2.
  rewrite insert_take_drop by (by eapply lookup_lt_Some).
  rewrite !omap_app, <- app_assoc. apply Permutation_app_head.
  destruct (completed q) eqn:Hq; cbn [omap list_omap]; rewrite Hp, Hq; cbn [option_list].
  - by rewrite Permutation_app_comm.
  - by rewrite app_nil_r.
Qed.

Lemma step_sequential c ev c' :
  step c ev c' → Forall pc_ok (calls c) →
  Forall pc_ok (calls c') ∧ sequential (clock c) (option_list ev) ∧
  clock c' = foldl apply_event (clock c) (option_list ev) ∧
  omap completed (calls c') ≡ₚ omap completed (calls c) ++ option_list ev.
Proof.
  intros Hs Hok. destruct Hs as [c l|c l r Hr|c l i Hi|c l i r Hi Hle|c l i r Hi Hlt|c l i r Hi|c l i r cur Hi Hne];
    simpl in *.
  all: try (pose proof (completed_insert _ _ _ (NextDone (u64 (c + 1))) Hi eq_refl) as Hc1).
  all: try (pose proof (completed_insert _ _ _ (ObserveDone r) Hi eq_refl) as Hc2).
  - split_and!; [apply Forall_app; by repeat constructor|done..|by rewrite omap_app].
  - split_and!; [apply Forall_app; by repeat constructor|done..|by rewrite omap_app].
  - split_and!; [by apply Forall_insert|done..].
  - split_and!; [by apply Forall_insert|done|done| |done]. rewrite observeTS_max. lia.
  - split_and!; [by apply Forall_insert|done..|]. by rewrite (completed_insert _ _ _ _ Hi eq_refl).
  - pose proof (Forall_lookup_1 _ _ _ _ Hok Hi) as Hlt. simpl in Hlt.
    split_and!; [by apply Forall_insert|done|done| |done]. rewrite observeTS_max. lia.
  - split_and!; [by apply Forall_insert|done..|]. by rewrite (completed_insert _ _ _ _ Hi eq_refl).
Qed.

Lemma run_sequential c evs c' :
  run c evs c' → Forall pc_ok (calls c) →
  Forall pc_ok (calls c') ∧ sequential (clock c) evs ∧
  clock c' = foldl apply_event (clock c) evs ∧
  omap completed (calls c') ≡ₚ omap completed (calls c) ++ evs.
Proof.
  induction 1 as [c|c1 evs c2 ev c3 Hrun IH Hs]; intros Hok.
  { split_and!; [done..|by rewrite app_nil_r]. }
  destruct (IH Hok) as (Hok2 & Hseq & Hclk & Hperm).
  destruct (step_sequential _ _ _ Hs Hok2) as (Hok3 & Hseq' & Hclk' & Hperm').
  split_and!; [done| | |].
  - apply sequential_app. by rewrite <- Hclk.
  - by rewrite foldl_app, <- Hclk.
  - by rewrite Hperm', Hperm, app_assoc.
Qed.

(** ** Consequences for histories that do not wrap around *)

(** No add is made at the largest timestamp. *)
Fixpoint no_wrap (c : Z) (evs : list event) : Prop :=
  match evs with
  | [] => True
  | ev :: evs =>
      match ev with ENext _ => c < 2 ^ 64 - 1 | EObserve r => is_u64 r end ∧
      no_wrap (apply_event c ev) evs
  end.

Lemma apply_event_mono c ev :
  is_u64 c → match ev with ENext _ => c < 2 ^ 64 - 1 | EObserve r => is_u64 r end →
  is_u64 (apply_event c ev) ∧ c ≤ apply_event c ev.
Proof.
  unfold is_u64. intros Hc H. destruct ev as [ts|r]; simpl.
  - unfold nextTS, u64. rewrite Z.mod_small by lia. lia.
  - rewrite observeTS_max. lia.
Qed.

(** What a history returns lies above where it started, and each timestamp
    above everything before it. *)
Lemma issued_above c evs :
  is_u64 c → sequential c evs → no_wrap c evs →
  ∀ i ts, evs !! i = Some (ENext ts) →
    c < ts ∧ ∀ j ev, (j < i)%nat → evs !! j = Some ev →
      match ev with ENext ts' => ts' < ts | EObserve r => r < ts end.
Proof.
  revert c. induction evs as [|e evs IH]; intros c Hc Hs Hn i ts Hi; [done|].
  destruct Hs as [He Hs], Hn as [Hw Hn].
  destruct (apply_event_mono c e Hc Hw) as [Hc' Hle].
  destruct i as [|i]; simpl in Hi.
  { simplify_eq. split; [|lia]. simpl in *. unfold nextTS, u64, is_u64 in *.
    rewrite Z.mod_small by lia. lia. }
  destruct (IH _ Hc' Hs Hn i ts Hi) as [Hlt Hbefore]. split; [lia|].
  intros [|j] ev Hj Hev; simpl in Hev; [|apply (Hbefore j); [lia|done]].
  simplify_eq. destruct ev as [ts'|r]; simpl in *; [lia|].
  rewrite observeTS_max in Hlt. lia.
Qed.

(** C13. The shared clock is linearizable: every run of interleaved [nextTS] and
    [observeTS] calls, down to their atomic operations, is one of the sequential
    clock in which each completed call takes effect once and returns what the
    sequential function returns. *)
Theorem clock_linearizable evs c :
  run init evs c →
  sequential 0 evs ∧ clock c = foldl apply_event 0 evs ∧ omap completed (calls c) ≡ₚ evs.
Proof.
  intros H. destruct (run_sequential _ _ _ H) as (_ & Hs & Hc & Hp); [constructor|].
  by split_and!.
Qed.

(** As long as the counter does not wrap around, every timestamp handed out is
    larger than all timestamps handed out and all remote timestamps merged before
    it; in particular no timestamp is handed out twice. *)
Theorem timestamps_increase evs c i j ts ev :
  run init evs c → no_wrap 0 evs → (i < j)%nat →
  evs !! i = Some ev → evs !! j = Some (ENext ts) →
  match ev with ENext ts' => ts' < ts | EObserve r => r < ts end.
Proof.
  intros H Hw Hij Hi Hj. destruct (run_sequential _ _ _ H) as (_ & Hs & _); [constructor|].
  destruct (issued_above 0 evs) with (i := j) (ts := ts) as [_ Hb]; [done..|].
  by apply (Hb i ev).
Qed.

(** At the largest timestamp the next local write is stamped 0: a single
    announcement with that timestamp puts every later write of the receiver
    behind everything written before. *)
Theorem largest_timestamp_wraps c : is_u64 c → nextTS (observeTS c (2 ^ 64 - 1)) = 0.
Proof.
  unfold is_u64. intros Hc. rewrite observeTS_max, Z.max_r by lia. reflexivity.
Qed.

(** ** Witnesses *)

(** One node takes a timestamp while another call merges timestamp 5: the swap
    fails once, because the add came in between. *)
Lemma ex_run :
  run init [ENext 1; EObserve 5; ENext 6]
    (Conf 6 [ObserveDone 5; NextDone 1; NextDone 6]).
Proof.
  apply (run_step _ [ENext 1; EObserve 5] (Conf 5 [ObserveDone 5; NextDone 1; Next]) (Some (ENext 6)));
    [|exact (step_add 5 [ObserveDone 5; NextDone 1; Next] 2 eq_refl)].
  apply (run_step _ [ENext 1; EObserve 5] (Conf 5 [ObserveDone 5; NextDone 1]) None);
    [|apply (step_spawn_next 5 [ObserveDone 5; NextDone 1])].
  apply (run_step _ [ENext 1] (Conf 1 [Swap 5 1; NextDone 1]) (Some (EObserve 5)));
    [|by apply (step_swap 1 [Swap 5 1; NextDone 1] 0)].
  apply (run_step _ [ENext 1] (Conf 1 [Load 5; NextDone 1]) None);
    [|by apply (step_load 1 [Load 5; NextDone 1] 0)].
  apply (run_step _ [ENext 1] (Conf 1 [Swap 5 0; NextDone 1]) None);
    [|by apply (step_swap_fail 1 [Swap 5 0; NextDone 1] 0 5 0)].
  apply (run_step _ [] (Conf 0 [Swap 5 0; Next]) (Some (ENext 1)));
    [|exact (step_add 0 [Swap 5 0; Next] 1 eq_refl)].
  apply (run_step _ [] (Conf 0 [Load 5; Next]) None); [|by apply (step_load 0 [Load 5; Next] 0)].
  apply (run_step _ [] (Conf 0 [Load 5]) None); [|apply (step_spawn_next 0 [Load 5])].
  apply (run_step _ [] (Conf 0 []) None); [constructor|].
  apply (step_spawn_observe 0 [] 5). unfold is_u64. lia.
Qed.

Lemma clock_linearizable_witness : sequential 0 [ENext 1; EObserve 5; ENext 6].
Proof. exact (proj1 (clock_linearizable _ _ ex_run)). Defined.

Lemma timestamps_increase_witness : 5 < 6.
Proof.
  apply (timestamps_increase _ _ 1 2 6 (EObserve 5) ex_run); [|lia|reflexivity|reflexivity].
  vm_compute. repeat split; discriminate.
Defined.

Lemma largest_timestamp_wraps_witness : nextTS (observeTS 41 (2 ^ 64 - 1)) = 0.
Proof. apply largest_timestamp_wraps. unfold is_u64. lia. Defined.

End Clock.
