(* ===== verification/Daemon.v ===== *)
(** * The daemon ([internal/daemon/daemon.go], [internal/daemon/api.go])

    A node ties the components together: a change of a watched file is
    chunked, indexed and announced; an announcement, a round of anti-entropy
    or a request of the local API may start a [Pull]; the Lamport clock orders
    the writes.

    The state of a node is one record: its directories, the operating system,
    the index, the gossip layer, the tracker of the sync engine, the clock, the
    quiet paths and the goroutines started by [triggerSync] that have not run
    yet, with the peers they were given.  The wall clock is an argument of the
    operations that read it.  The [Inductive] [dstep] at the end lists
    everything that can happen to a node; a goroutine is one such step. *)

From Stdlib Require Import Strings.Ascii Strings.Byte.
From S2P Require Import Prelude GoBytes GoFloat Sha256 Json Meta Path Fs Cas Chunker Merkle.
From S2P Require Import Scheduler Discovery Orchestrator Quiet Clock.

Module Daemon.
Import Meta Discovery.

Definition antiEntropyFanout : nat := 3.
Definition quietWriteTTL : Z := 5 * Second.

(** Last-writer-wins: the larger timestamp, then the larger node name. *)
Definition remoteWins (localTS : Z) (localNode : string) (remoteTS : Z) (remoteNode : string) : bool :=
  if decide (remoteTS ≠ localTS) then (localTS <? remoteTS)%Z
  else str_gt remoteNode localNode.

(** The larger pair of a timestamp and a node name, lexicographically. *)
Lemma remoteWins_spec lt ln rt rn :
  remoteWins lt ln rt rn = true ↔ (lt < rt)%Z ∨ lt = rt ∧ str_gt rn ln = true.
Proof.
  unfold remoteWins. case_decide as H; [rewrite Z.ltb_lt; intuition lia|].
  subst. intuition lia.
Qed.

Lemma remoteWins_flip lt ln rt rn :
  (lt, ln) ≠ (rt, rn) → remoteWins lt ln rt rn = negb (remoteWins rt rn lt ln).
Proof.
  intros Hne. destruct (remoteWins rt rn lt ln) eqn:E; simpl.
  - apply not_true_is_false. rewrite remoteWins_spec in *. intros H.
    destruct H as [?|[-> H2]], E as [?|[? H1]]; try lia.
    by rewrite (str_gt_asym _ _ H1) in H2.
  - apply remoteWins_spec. apply not_true_iff_false in E. rewrite remoteWins_spec in E.
    destruct (Ztrichotomy lt rt) as [?|[->|?]]; [by left| |destruct E; left; lia].
    right. split; [done|]. apply str_gt_total; [congruence|].
    apply not_true_is_false. intros H. destruct E. by right.
Qed.

Lemma remoteWins_irrefl t n : remoteWins t n t n = false.
Proof.
  apply not_true_is_false. rewrite remoteWins_spec, str_gt_irrefl. intros [?|[_ ?]]; [lia|done].
Qed.

Lemma remoteWins_trans t1 n1 t2 n2 t3 n3 :
  remoteWins t1 n1 t2 n2 = true → remoteWins t2 n2 t3 n3 = true → remoteWins t1 n1 t3 n3 = true.
Proof.
  rewrite !remoteWins_spec. intros [?|[-> H1]] [?|[-> H2]]; [left; lia|by left|by left|right].
  split; [done|]. by eapply str_gt_trans.
Qed.

(** [remoteWins] is a strict total order on the pairs of a timestamp and a
    node name: no version beats itself, of two different ones exactly one beats
    the other, and beating is transitive. *)
Theorem remoteWins_total_order t1 n1 t2 n2 t3 n3 :
  remoteWins t1 n1 t1 n1 = false
  ∧ ((t1, n1) ≠ (t2, n2) → remoteWins t1 n1 t2 n2 = negb (remoteWins t2 n2 t1 n1))
  ∧ (remoteWins t1 n1 t2 n2 = true → remoteWins t2 n2 t3 n3 = true → remoteWins t1 n1 t3 n3 = true).
Proof. split_and!; [apply remoteWins_irrefl|apply remoteWins_flip|apply remoteWins_trans]. Qed.

(** The version kept after meeting others one by one. *)
Definition keep_winner (v w : Z * string) : Z * string :=
  if remoteWins v.1 v.2 w.1 w.2 then w else v.

Lemma keep_winner_best vs : ∀ v,
  foldl keep_winner v vs ∈ v :: vs
  ∧ ∀ w, w ∈ v :: vs →
      remoteWins (foldl keep_winner v vs).1 (foldl keep_winner v vs).2 w.1 w.2 = false.
Proof.
  induction vs as [|u vs IH]; intros v; cbn [foldl].
  { split; [apply list_elem_of_here|]. intros w ->%list_elem_of_singleton. apply remoteWins_irrefl. }
  destruct (IH (keep_winner v u)) as [Hin Hbest]. set (r := foldl keep_winner (keep_winner v u) vs) in *.
  assert (keep_winner v u = v ∨ keep_winner v u = u) as Hk by (unfold keep_winner; case_match; auto).
  split.
  { apply elem_of_cons in Hin as [->|Hin]; [destruct Hk as [-> | ->]; set_solver|set_solver]. }
  assert (remoteWins r.1 r.2 (keep_winner v u).1 (keep_winner v u).2 = false) as Hkw
    by (apply Hbest, list_elem_of_here).
  (* nothing beats the better of [v] and [u] without beating both *)
  assert (∀ w, (w = v ∨ w = u) → remoteWins r.1 r.2 w.1 w.2 = true →
    remoteWins r.1 r.2 (keep_winner v u).1 (keep_winner v u).2 = true) as Hboth.
  { intros w Hw Hr. unfold keep_winner. destruct (remoteWins v.1 v.2 u.1 u.2) eqn:E.
    - destruct Hw as [->| ->]; [by eapply remoteWins_trans|done].
    - destruct Hw as [->| ->]; [done|]. destruct (decide (v = u)) as [->|Hne]; [done|].
      eapply remoteWins_trans; [exact Hr|]. rewrite remoteWins_flip, E; [done|].
      destruct v, u; simpl; congruence. }
  intros w Hw. apply not_true_is_false. intros Hr. rewrite !elem_of_cons in Hw.
  destruct Hw as [->|[->|Hw]]; [by rewrite (Hboth v) in Hkw; auto|by rewrite (Hboth u) in Hkw; auto|].
  by rewrite (Hbest w) in Hr by (by apply list_elem_of_further).
Qed.



Section with_params.
Context `{B : Bolt} `{F : FastCDC} `{S : SortSlice}.

(** ** State *)

Record Daemon := MkDaemon {
  Name : string;
  BaseDir : string;
  CAS : Cas.CASBlobStore;
  d_os : os;
  MetaStore : bucket;
  Gossip : GossipNode;
  Tracker : Scheduler.HealthTracker;
  clock : Z;
  quiet : Quiet.quietSet;
  syncing : gmap string (list PeerInfo);
}.

Definition set_os (w : os) (d : Daemon) : Daemon :=
  MkDaemon (Name d) (BaseDir d) (CAS d) w (MetaStore d) (Gossip d) (Tracker d) (clock d)
    (quiet d) (syncing d).
Definition set_MetaStore (b : bucket) (d : Daemon) : Daemon :=
  MkDaemon (Name d) (BaseDir d) (CAS d) (d_os d) b (Gossip d) (Tracker d) (clock d)
    (quiet d) (syncing d).
Definition set_Gossip (g : GossipNode) (d : Daemon) : Daemon :=
  MkDaemon (Name d) (BaseDir d) (CAS d) (d_os d) (MetaStore d) g (Tracker d) (clock d)
    (quiet d) (syncing d).
Definition set_clock (c : Z) (d : Daemon) : Daemon :=
  MkDaemon (Name d) (BaseDir d) (CAS d) (d_os d) (MetaStore d) (Gossip d) (Tracker d) c
    (quiet d) (syncing d).
Definition set_quiet (q : Quiet.quietSet) (d : Daemon) : Daemon :=
  MkDaemon (Name d) (BaseDir d) (CAS d) (d_os d) (MetaStore d) (Gossip d) (Tracker d) (clock d)
    q (syncing d).
Definition set_syncing (m : gmap string (list PeerInfo)) (d : Daemon) : Daemon :=
  MkDaemon (Name d) (BaseDir d) (CAS d) (d_os d) (MetaStore d) (Gossip d) (Tracker d) (clock d)
    (quiet d) m.

(** ** Start and stop *)

(** [NewDaemon].  [open_bolt] and [new_watcher] are the outcomes of opening
    the database and of creating the file-system watcher; the errors of the
    two [MkdirAll] calls are dropped. *)
Definition NewDaemon (cwd : result string) (name syncDir dataDir : string)
    (httpPort grpcPort gossipPort : Z) (open_bolt : result bucket) (new_watcher : result unit) :
    stM os Daemon := λ w,
  if Quiet.isSubPath cwd syncDir dataDir
  then (Err (EMsg "data dir %q must not be inside sync dir %q (it would be watched and re-ingested as data)"), w)
  else
    let '(_, w) := os_MkdirAll syncDir w in
    let '(_, w) := os_MkdirAll dataDir w in
    match Cas.NewCASBlobStore dataDir w with
    | (Err e, w) => (Err (EWrap "failed to init CAS: %w" e), w)
    | (Ok cas, w) =>
        match open_bolt with
        | Err e => (Err (EWrap "failed to init bbolt: %w" e), w)
        | Ok meta =>
            let gossip := NewGossipNode name gossipPort httpPort grpcPort in
            match new_watcher with
            | Err e => (Err (EWrap "failed to init watcher: %w" e), w)
            | Ok _ =>
                (Ok (MkDaemon name syncDir cas w meta gossip Scheduler.NewHealthTracker 0
                       (Quiet.newQuietSet quietWriteTTL) ∅), w)
            end
        end
    end.

(** [Start], as far as it changes the state: gossip gets its callback and is
    started; [log.Fatalf] is an error. *)
Definition Start (seedPeers : list string) (create join : result (list Member)) :
    stM Daemon unit := λ d,
  match Discovery.Start seedPeers create join (OnAnnouncement (Gossip d)) with
  | (Err e, g) => (Err e, set_Gossip g d)
  | (Ok _, g) => (Ok tt, set_Gossip g d)
  end.

Definition Stop (d : Daemon) : Daemon := set_Gossip (Discovery.Stop (Gossip d)) d.

(** ** Announcements *)

Definition announcement (name fileID : string) (root : array32) (lamportTS : Z) : FileAnnouncement :=
  MkAnn fileID root lamportTS name.

Definition announce (fileID : string) (root : array32) (lamportTS : Z) (d : Daemon) : Daemon :=
  set_Gossip (Broadcast (announcement (Name d) fileID root lamportTS) (Gossip d)) d.

(** ** Local changes *)

(** The loop that stores the chunks: the errors of [CAS.Put] are dropped. *)
Fixpoint store_chunks (cas : Cas.CASBlobStore) (chunks : list Chunker.Chunk)
    (hashes : list array32) (size : Z) (w : os) : (list array32 * Z) * os :=
  match chunks with
  | [] => ((hashes, size), w)
  | ch :: chunks =>
      let '(_, w) := Cas.Put cas (Chunker.Hash ch) (Chunker.Data ch) w in
      store_chunks cas chunks (hashes ++ [Chunker.Hash ch])
        (u64 (size + Z.of_nat (length (Chunker.Data ch)))) w
  end.

(** Indexing a chunked file: store the chunks, take a timestamp, save the
    record (its error is dropped) and announce. *)
Definition index_file (fileID : string) (chunks : list Chunker.Chunk) (d : Daemon) : Daemon :=
  let root := Merkle.ComputeRoot chunks in
  let '((hashes, size), w) := store_chunks (CAS d) chunks [] 0 (d_os d) in
  let d := set_os w d in
  let ts := Clock.nextTS (clock d) in
  let d := set_clock ts d in
  let '(_, b) := PutFileMeta (MkFileMeta fileID root ts hashes size) (MetaStore d) in
  announce fileID root ts (set_MetaStore b d).

Definition HandleFileChange (now : Z) (path : string) (d : Daemon) : Daemon :=
  if decide (Ext path = ".db") then d else
  let '(isQuiet, q) := Quiet.IsQuiet now path (quiet d) in
  let d := set_quiet q d in
  if isQuiet then d else
  let relPath := match Rel (BaseDir d) path with Ok r => r | Err _ => Base path end in
  let fileID := ToSlash relPath in
  match Chunker.ChunkFile (Chunker.NewFastCDCChunker 8192) path (d_os d) with
  | (Err _, w) => set_os w d
  | (Ok chunks, w) =>
      let d := set_os w d in
      let root := Merkle.ComputeRoot chunks in
      match GetFileMeta (MetaStore d) fileID with
      | Ok existing =>
          if decide (MerkleRoot existing = root) then d else index_file fileID chunks d
      | Err _ => index_file fileID chunks d
      end
  end.

(** ** Syncing *)

Definition triggerSync (fileID : string) : stM Daemon unit := λ d,
  match syncing d !! fileID with
  | Some _ => (Ok tt, d)
  | None =>
      match GetActivePeers (Gossip d) with
      | Err e => (Err e, set_syncing (<[fileID := []]> (syncing d)) d)
      | Ok peers => (Ok tt, set_syncing (<[fileID := peers]> (syncing d)) d)
      end
  end.

(** The sync engine of this node; its two callbacks act on the quiet paths and
    on the gossip layer. *)
Definition Engine (d : Daemon) : Orchestrator.Engine (Quiet.quietSet * GossipNode) :=
  Orchestrator.MkEngine (Name d) (CAS d) (BaseDir d)
    (Some (λ now path '(q, g), (Quiet.Mark now path q, g)))
    (Some (λ fileID root ts '(q, g), (q, Broadcast (announcement (Name d) fileID root ts) g))).

(** The goroutine of [triggerSync]: [Pull], then forget the file. *)
Definition sync_goroutine (net : Orchestrator.PeerNet) (now : Z) (fileID : string)
    (peers : list PeerInfo) (d : Daemon) : result unit * Daemon :=
  let '(r, s) :=
    Orchestrator.Pull net (Engine d) fileID peers
      (Orchestrator.MkPState (d_os d) (MetaStore d) (Tracker d) now 0 (quiet d, Gossip d)) in
  let '(q, g) := Orchestrator.ps_cb s in
  (r, MkDaemon (Name d) (BaseDir d) (CAS d) (Orchestrator.ps_os s) (Orchestrator.ps_meta s) g
        (Orchestrator.ps_tracker s) (clock d) q (delete fileID (syncing d))).

Definition handleAnnouncement (ann : FileAnnouncement) : stM Daemon unit := λ d,
  if decide (an_SourceNode ann = Name d) then (Ok tt, d) else
  let d := set_clock (Clock.observeTS (clock d) (an_LamportTS ann)) d in
  match GetFileMeta (MetaStore d) (an_FileID ann) with
  | Ok local =>
      if decide (MerkleRoot local = an_MerkleRoot ann) then (Ok tt, d)
      else if negb (remoteWins (LamportTS local) (Name d) (an_LamportTS ann) (an_SourceNode ann))
      then (Ok tt, d)
      else triggerSync (an_FileID ann) d
  | Err _ => triggerSync (an_FileID ann) d
  end.

(** ** Anti-entropy *)

(** Whether the entry of a peer's catalog makes this node sync. *)
Definition entry_wanted (peerName : string) (entry : CatalogEntry) (d : Daemon) : bool :=
  if decide (Ext (ce_FileID entry) = ".db") then false else
  match GetFileMeta (MetaStore d) (ce_FileID entry) with
  | Ok local =>
      if decide (MerkleRoot local = ce_MerkleRoot entry) then false
      else remoteWins (LamportTS local) (Name d) (ce_LamportTS entry) peerName
  | Err _ => true
  end.

Fixpoint reconcile_entries (peerName : string) (entries : list CatalogEntry) (d : Daemon) :
    result unit * Daemon :=
  match entries with
  | [] => (Ok tt, d)
  | entry :: entries =>
      if entry_wanted peerName entry d then
        let d := set_clock (Clock.observeTS (clock d) (ce_LamportTS entry)) d in
        match triggerSync (ce_FileID entry) d with
        | (Err e, d) => (Err e, d)
        | (Ok _, d) => reconcile_entries peerName entries d
        end
      else reconcile_entries peerName entries d
  end.

(** [remoteCatalog] is what [Client.FetchCatalog] returns. *)
Definition reconcileWithPeer (peer : PeerInfo) (remoteCatalog : result (list CatalogEntry)) :
    stM Daemon unit := λ d,
  match remoteCatalog with
  | Err _ => (Ok tt, d)
  | Ok entries => reconcile_entries (pi_Name peer) entries d
  end.

(** One tick of [antiEntropyLoop]: the peers whose goroutine is started.
    [shuffle] is what [rand.Shuffle] makes of a list. *)
Definition antiEntropyPeers (shuffle : list PeerInfo → list PeerInfo) (d : Daemon) :
    result (list PeerInfo) :=
  match GetActivePeers (Gossip d) with
  | Err e => Err e
  | Ok [] => Ok []
  | Ok peers =>
      let peers := shuffle peers in
      Ok (if decide (antiEntropyFanout < length peers) then take antiEntropyFanout peers else peers)
  end.

(** ** The local API *)

Definition nl : string := String (Ascii.ascii_of_nat 10) EmptyString.

Inductive Response :=
  | HttpError (code : Z) (err : error)
  | HttpBody (code : Z) (body : string).

(** [/ingest?path=...]; the record is saved under the path as given. *)
Definition ingest (path : string) (d : Daemon) : Response * Daemon :=
  match Chunker.ChunkFile (Chunker.NewFastCDCChunker 8192) path (d_os d) with
  | (Err e, w) => (HttpError 500 e, set_os w d)
  | (Ok chunks, w) =>
      (HttpBody 200 ("Ingested " +:+ path +:+ " (root: "
         +:+ hex_EncodeToString (take 4 (a32_bytes (Merkle.ComputeRoot chunks))) +:+ ")" +:+ nl),
       index_file path chunks (set_os w d))
  end.

(** [json.NewDecoder(r.Body).Decode(&req)] with its one field [file_id]. *)
Definition decode_SyncRequest (body : list byte) : option string :=
  '(v, _) ← Json.decode_text body;
  Json.dec_struct [("file_id", λ v s, Json.dec_string v s)] v "".

(** [/sync]; a panic of [triggerSync] is an error without a response. *)
Definition sync (method : string) (body : list byte) (d : Daemon) : result Response * Daemon :=
  if decide (method ≠ "POST") then (Ok (HttpError 405 (EMsg "Method not allowed")), d) else
  match decode_SyncRequest body with
  | None => (Ok (HttpError 400 (EMsg "json")), d)
  | Some fileID =>
      if decide (fileID = "") then (Ok (HttpError 400 (EMsg "file_id is required")), d) else
      match triggerSync fileID d with
      | (Err e, d) => (Err e, d)
      | (Ok _, d) => (Ok (HttpBody 202 ("Sync initiated for " +:+ fileID +:+ nl)), d)
      end
  end.

(** ** Properties of single operations *)

Lemma store_chunks_spec cas chs : ∀ hs z w,
  ∃ w', store_chunks cas chs hs (u64 z) w
      = ((hs ++ (Chunker.Hash <$> chs),
          u64 (z + Z.of_nat (length (mjoin (Chunker.Data <$> chs))))), w')
    ∧ rtc (Orchestrator.put_step cas) w w'.
Proof.
  induction chs as [|ch chs IH]; intros hs z w; cbn [store_chunks].
  { exists w. rewrite app_nil_r, Z.add_0_r. by split. }
  destruct (Cas.Put _ _ _ w) as [r w1] eqn:EP.
  assert (u64 (u64 z + Z.of_nat (length (Chunker.Data ch)))
    = u64 (z + Z.of_nat (length (Chunker.Data ch)))) as -> by (unfold u64; apply Zplus_mod_idemp_l).
  destruct (IH (hs ++ [Chunker.Hash ch]) (z + Z.of_nat (length (Chunker.Data ch)))%Z w1)
    as (w' & -> & Hput).
  exists w'. split.
  - csimpl. rewrite length_app, Nat2Z.inj_add, <- app_assoc, Z.add_assoc. done.
  - eapply rtc_l; [|done]. by exists (Chunker.Hash ch), (Chunker.Data ch), r.
Qed.

(** Without failures every chunk ends up in the store. *)
Lemma store_chunks_quiet cas chs : ∀ hs z w r w',
  store_chunks cas chs hs z w = (r, w') → os_io w = [] →
  Forall (λ ch, Chunker.Hash ch = Sum256 (Chunker.Data ch)) chs →
  os_io w' = [] ∧ Forall (Cas.has_object cas w') (Chunker.Hash <$> chs)
  ∧ ∀ h, Cas.has_object cas w h → Cas.has_object cas w' h.
Proof.
  induction chs as [|ch chs IH]; intros hs z w r w' H Hio Hh; cbn [store_chunks] in H.
  { simplify_eq. split_and!; [done|constructor|done]. }
  inversion_clear Hh as [|?? Hch Hchs]. rewrite Hch in H.
  destruct (Cas.Put_quiet cas (Chunker.Data ch) w Hio) as (w1 & EP & Hio1). rewrite EP in H.
  destruct (IH _ _ _ _ _ H Hio1 Hchs) as (Hio' & Hall & Hkeep).
  split_and!; [done| |].
  - csimpl. constructor; [|done]. apply Hkeep. rewrite Hch. by eapply Cas.Put_ok.
  - intros h Hobj. apply Hkeep. by eapply Cas.Put_keeps.
Qed.

(** The objects afterwards are those from before and chunks. *)
Lemma store_chunks_objects P cas chs : ∀ hs z w r w',
  store_chunks cas chs hs z w = (r, w') →
  Forall (λ ch, P (Chunker.Hash ch) (Chunker.Data ch)) chs →
  Cas.all_objects P cas w → Cas.all_objects P cas w'.
Proof.
  induction chs as [|ch chs IH]; intros hs z w r w' H Hch Hall; cbn [store_chunks] in H;
    [by simplify_eq|].
  inversion_clear Hch as [|?? H1 H2]. destruct (Cas.Put _ _ _ w) as [rp w1] eqn:EP.
  eapply IH; [done..|]. by eapply Cas.Put_all_objects.
Qed.

(** What indexing does, on every outcome of the calls it makes. *)
Lemma index_file_spec fileID chs d :
  let root := Merkle.ComputeRoot chs in
  let ts := Clock.nextTS (clock d) in
  let m := MkFileMeta fileID root ts (Chunker.Hash <$> chs)
             (u64 (Z.of_nat (length (mjoin (Chunker.Data <$> chs))))) in
  ∃ w', rtc (Orchestrator.put_step (CAS d)) (d_os d) w'
    ∧ index_file fileID chs d
      = MkDaemon (Name d) (BaseDir d) (CAS d) w' (PutFileMeta m (MetaStore d)).2
          (Broadcast (announcement (Name d) fileID root ts) (Gossip d)) (Tracker d) ts
          (quiet d) (syncing d)
    ∧ (os_io (d_os d) = [] → Forall (λ ch, Chunker.Hash ch = Sum256 (Chunker.Data ch)) chs →
       os_io w' = [] ∧ Forall (Cas.has_object (CAS d) w') (Chunker.Hash <$> chs))
    ∧ (∀ P, Forall (λ ch, P (Chunker.Hash ch) (Chunker.Data ch)) chs →
       Cas.all_objects P (CAS d) (d_os d) → Cas.all_objects P (CAS d) w').
Proof.
  intros root ts m. destruct (store_chunks_spec (CAS d) chs [] 0 (d_os d)) as (w' & E & Hput).
  change (u64 0) with 0%Z in E. exists w'. split_and!; [done| | |].
  - unfold index_file. rewrite E. cbn [app]. rewrite Z.add_0_l.
    fold root. cbn [clock MetaStore set_os set_clock]. fold ts m.
    by destruct (PutFileMeta m (MetaStore d)).
  - intros Hio Hh. by destruct (store_chunks_quiet _ _ _ _ _ _ _ E Hio Hh) as (? & ? & _).
  - intros P. by apply (store_chunks_objects P _ _ _ _ _ _ _ E).
Qed.

(** The ways through [HandleFileChange]: it returns early, having at most
    read the file and forgotten an expired quiet mark, or it indexes. *)
Lemma HandleFileChange_cases now path d :
  let id := ToSlash (match Rel (BaseDir d) path with Ok r => r | Err _ => Base path end) in
  ∃ q w, os_files w = os_files (d_os d) ∧
    (HandleFileChange now path d = set_os w (set_quiet q d)
     ∨ ∃ chs, Chunker.ChunkFile (Chunker.NewFastCDCChunker 8192) path (d_os d) = (Ok chs, w)
         ∧ Ext path ≠ ".db" ∧ Quiet.quiet now path (quiet d) = false
         ∧ (∀ m, GetFileMeta (MetaStore d) id = Ok m → MerkleRoot m ≠ Merkle.ComputeRoot chs)
         ∧ HandleFileChange now path d = index_file id chs (set_os w (set_quiet q d))).
Proof.
  intros id. unfold HandleFileChange. rewrite <- (Quiet.IsQuiet_fst now path (quiet d)).
  case_decide as Hdb. { exists (quiet d), (d_os d). split; [done|left]. by destruct d. }
  destruct (Quiet.IsQuiet now path (quiet d)) as [[] q] eqn:Eq.
  { exists q, (d_os d). split; [done|left]. by destruct d. }
  exists q. cbn [BaseDir set_quiet d_os].
  destruct (Chunker.ChunkFile _ path (d_os d)) as [[chs|err] w] eqn:Ec.
  2:{ exists w. apply Chunker.ChunkFile_files in Ec. split; [done|by left]. }
  exists w. split; [by apply Chunker.ChunkFile_files in Ec|]. fold id.
  cbn [MetaStore set_os set_quiet].
  destruct (GetFileMeta (MetaStore d) id) as [m|err] eqn:Em.
  - case_decide as Hr; [by left|right]. exists chs. split_and!; [done..| |done].
    intros m' Hm'. by simplify_eq.
  - right. exists chs. by split_and!.
Qed.

(** A changed file without I/O failures: chunked, stored, indexed under its
    path relative to the sync directory, stamped with the next timestamp and
    announced. *)
Lemma HandleFileChange_indexed `{!FastCDCLaws F} now id content cdc d :
  let path := Join [BaseDir d; id] in
  local_id id = true → Ext path ≠ ".db" → Quiet.quiet now path (quiet d) = false →
  os_io (d_os d) = [] → os_files (d_os d) !! path = Some content →
  cdc_NewChunker (CdcReader content None) (Chunker.NewFastCDCChunker 8192) = Ok cdc →
  let d' := HandleFileChange now path d in
  ∃ chs, Chunker.chunks_of (Chunker.NewFastCDCChunker 8192) 0 0 content chs ∧
    let root := Merkle.ComputeRoot chs in
    let ts := Clock.nextTS (clock d) in
    let m := MkFileMeta id root ts (Chunker.Hash <$> chs) (u64 (Z.of_nat (length content))) in
    ((∀ old, GetFileMeta (MetaStore d) id = Ok old → MerkleRoot old ≠ root) →
       MetaStore d' = (PutFileMeta m (MetaStore d)).2 ∧ clock d' = ts
       ∧ Gossip d' = Broadcast (announcement (Name d) id root ts) (Gossip d)
       ∧ Forall (Cas.has_object (CAS d) (d_os d')) (Chunker.Hash <$> chs)
       ∧ os_io (d_os d') = []
       ∧ ∀ P, Forall (λ ch, P (Chunker.Hash ch) (Chunker.Data ch)) chs →
           Cas.all_objects P (CAS d) (d_os d) → Cas.all_objects P (CAS d) (d_os d'))
    ∧ (∀ old, GetFileMeta (MetaStore d) id = Ok old → MerkleRoot old = root →
       d' = set_quiet (Quiet.IsQuiet now path (quiet d)).2 d).
Proof.
  intros path Hid Hdb Hq Hio Hf Hnew d'.
  destruct (Chunker.ChunkFile_spec _ path (d_os d) content cdc Hf Hio Hnew) as (chs & Ec & Hchs).
  exists chs. split; [done|]. intros root ts m.
  pose proof (Rel_Join (BaseDir d) id Hid) as Hrel. fold path in Hrel.
  subst d'. unfold HandleFileChange. rewrite decide_False by done.
  rewrite <- Quiet.IsQuiet_fst in Hq. destruct (Quiet.IsQuiet now path (quiet d)) as [b q].
  simpl in Hq. subst b. cbn [BaseDir set_quiet d_os]. rewrite Hrel, Ec.
  unfold ToSlash. cbn [MetaStore set_os set_quiet]. fold root.
  set (d1 := set_os (d_os d) (set_quiet q d)).
  destruct (index_file_spec id chs d1) as (w' & _ & Ei & Hall & Hprov).
  rewrite (Chunker.chunks_of_data _ _ _ _ _ Hchs) in Ei.
  split.
  - intros Hne. assert (match GetFileMeta (MetaStore d) id with
      | Ok existing => if decide (MerkleRoot existing = root) then d1 else index_file id chs d1
      | Err _ => index_file id chs d1 end = index_file id chs d1) as ->.
    { destruct (GetFileMeta (MetaStore d) id) as [old|] eqn:Eo; [|done].
      rewrite decide_False; [done|]. by apply Hne. }
    destruct Hall as [??]; [done|by eapply Chunker.chunks_of_hash|].
    rewrite Ei. split_and!; [done..|]. exact Hprov.
  - intros old -> Hr. rewrite decide_True by done. by destruct d.
Qed.


(** An event about a database file, a quiet path, a file that cannot be
    chunked or one whose root is recorded already changes neither the index nor
    the clock, announces nothing, starts nothing and writes no file. *)
Theorem change_ignored now path d :
  let id := ToSlash (match Rel (BaseDir d) path with Ok r => r | Err _ => Base path end) in
  let d' := HandleFileChange now path d in
  (Ext path = ".db" ∨ Quiet.quiet now path (quiet d) = true
   ∨ match (Chunker.ChunkFile (Chunker.NewFastCDCChunker 8192) path (d_os d)).1 with
     | Err _ => True
     | Ok chs => ∃ m, GetFileMeta (MetaStore d) id = Ok m ∧ MerkleRoot m = Merkle.ComputeRoot chs
     end) →
  MetaStore d' = MetaStore d ∧ clock d' = clock d ∧ Gossip d' = Gossip d
  ∧ syncing d' = syncing d ∧ os_files (d_os d') = os_files (d_os d).
Proof.
  intros id d' H. destruct (HandleFileChange_cases now path d) as (q & w & Hf & [E|(chs & Hc & H1 & H2 & H3 & _)]).
  - subst d'. rewrite E. by split_and!.
  - destruct H as [?|[?|H]]; [done|congruence|]. rewrite Hc in H. destruct H as (m & Hm & Hr).
    by apply H3 in Hm.
Qed.

(** ** Announcements and syncs *)

Lemma triggerSync_spec id d ps :
  GetActivePeers (Gossip d) = Ok ps →
  triggerSync id d
  = (Ok tt, match syncing d !! id with
            | Some _ => d
            | None => set_syncing (<[id := ps]> (syncing d)) d
            end).
Proof. intros H. unfold triggerSync. rewrite H. by destruct (syncing d !! id). Qed.

(** Whether an announcement makes this node sync. *)
Definition ann_wanted (ann : FileAnnouncement) (d : Daemon) : bool :=
  negb (bool_decide (an_SourceNode ann = Name d)) &&
  match GetFileMeta (MetaStore d) (an_FileID ann) with
  | Ok local =>
      negb (bool_decide (MerkleRoot local = an_MerkleRoot ann))
      && remoteWins (LamportTS local) (Name d) (an_LamportTS ann) (an_SourceNode ann)
  | Err _ => true
  end.

(** C18. [handleAnnouncement] of another node's announcement merges its timestamp
    into the clock and starts a sync exactly when the file is unknown here or
    the announced version differs and wins, and no sync of the file is running;
    it changes nothing else. *)
Theorem handleAnnouncement_spec ann d ps :
  GetActivePeers (Gossip d) = Ok ps →
  handleAnnouncement ann d
  = (Ok tt,
     let d1 := if decide (an_SourceNode ann = Name d) then d
               else set_clock (Z.max (clock d) (an_LamportTS ann)) d in
     if ann_wanted ann d && negb (bool_decide (is_Some (syncing d !! an_FileID ann)))
     then set_syncing (<[an_FileID ann := ps]> (syncing d)) d1 else d1).
Proof.
  intros Hps. unfold handleAnnouncement, ann_wanted.
  destruct (decide (an_SourceNode ann = Name d)) as [E|E].
  { by rewrite bool_decide_eq_true_2. }
  rewrite bool_decide_eq_false_2 by done. rewrite Clock.observeTS_max. cbn [negb andb].
  set (d1 := set_clock _ d).
  assert (triggerSync (an_FileID ann) d1 = (Ok tt,
    if negb (bool_decide (is_Some (syncing d !! an_FileID ann)))
    then set_syncing (<[an_FileID ann := ps]> (syncing d)) d1 else d1)) as Ht.
  { rewrite (triggerSync_spec _ _ ps) by done. cbn [syncing set_clock].
    subst d1. cbn [syncing set_clock]. destruct (syncing d !! an_FileID ann).
    - by rewrite bool_decide_eq_true_2 by eauto.
    - by rewrite bool_decide_eq_false_2 by (by intros []). }
  cbn [MetaStore set_clock Name]. destruct (GetFileMeta _ _) as [local|]; [|done].
  case_decide as Hr; [by rewrite bool_decide_eq_true_2|].
  rewrite bool_decide_eq_false_2 by done. by destruct (remoteWins _ _ _ _).
Qed.

(** Equal timestamps are decided by the name of the node that announces the
    version, which need not be the one that wrote it: the same version is
    refused from a node of a smaller name and accepted from one of a larger. *)
Theorem tie_decided_by_holder id root local a z d :
  GetFileMeta (MetaStore d) id = Ok local → MerkleRoot local ≠ root →
  str_gt (Name d) a = true → str_gt z (Name d) = true →
  ann_wanted (MkAnn id root (LamportTS local) a) d = false
  ∧ ann_wanted (MkAnn id root (LamportTS local) z) d = true.
Proof.
  intros Hl Hr Ha Hz. unfold ann_wanted. simpl. rewrite Hl.
  rewrite (bool_decide_eq_false_2 (MerkleRoot local = root)) by done. split.
  - apply andb_false_iff. right. apply not_true_is_false.
    rewrite andb_true_l, remoteWins_spec. intros [?|[_ H]]; [lia|]. by rewrite (str_gt_asym _ _ Ha) in H.
  - rewrite bool_decide_eq_false_2; [|intros ->; by rewrite str_gt_irrefl in Hz].
    apply remoteWins_spec. by right.
Qed.

(** ** Anti-entropy *)

(** Reconciling with a peer's catalog starts exactly the syncs of the wanted
    entries that are not running yet, merges exactly their timestamps into the
    clock, and changes nothing else. *)
Lemma reconcile_entries_spec pn ps es : ∀ d,
  GetActivePeers (Gossip d) = Ok ps →
  let wanted := filter (λ e, entry_wanted pn e d = true) es in
  ∃ m, reconcile_entries pn es d
      = (Ok tt, set_syncing m (set_clock
           (foldl (λ c e, Z.max c (ce_LamportTS e)) (clock d) wanted) d))
    ∧ ∀ id, m !! id = match syncing d !! id with
                      | Some old => Some old
                      | None => if decide (id ∈ ce_FileID <$> wanted) then Some ps else None
                      end.
Proof.
  induction es as [|e es IH]; intros d Hps; cbn [reconcile_entries].
  { exists (syncing d). split; [by destruct d|]. intros id. by destruct (syncing d !! id). }
  rewrite filter_cons.
  destruct (entry_wanted pn e d) eqn:Ew.
  2:{ rewrite decide_False by done. by apply IH. }
  rewrite decide_True by done. rewrite Clock.observeTS_max.
  set (d1 := set_clock _ d). rewrite (triggerSync_spec _ _ ps) by done.
  set (m1 := match syncing d !! ce_FileID e with
             | Some _ => syncing d | None => <[ce_FileID e := ps]> (syncing d) end).
  assert (match syncing d1 !! ce_FileID e with
          | Some _ => d1 | None => set_syncing (<[ce_FileID e := ps]> (syncing d1)) d1 end
          = set_syncing m1 d1) as ->.
  { subst m1 d1. cbn [syncing set_clock]. destruct d. simpl. by case_match. }
  destruct (IH (set_syncing m1 d1) Hps) as (m & Em & Hm). exists m. split; [exact Em|].
  intros id. rewrite Hm. cbn [syncing set_syncing]. csimpl.
  change (filter (λ e0, entry_wanted pn e0 (set_syncing m1 d1) = true) es)
    with (filter (λ e0, entry_wanted pn e0 d = true) es).
  destruct (decide (id = ce_FileID e)) as [->|Hne].
  - rewrite (decide_True (P := ce_FileID e ∈ _ :: _)) by apply list_elem_of_here. subst m1.
    destruct (syncing d !! ce_FileID e) eqn:Es; [by rewrite Es|by rewrite lookup_insert_eq].
  - assert (m1 !! id = syncing d !! id) as ->
      by (subst m1; case_match; [done|by rewrite lookup_insert_ne]).
    case_match; [done|]. apply decide_ext. rewrite elem_of_cons. naive_solver.
Qed.

(** A round of anti-entropy picks [antiEntropyFanout] of the active peers,
    each at most once, or all of them when there are no more. *)
Theorem antiEntropyPeers_spec shuffle d ps :
  (∀ l, shuffle l ≡ₚ l) → GetActivePeers (Gossip d) = Ok ps →
  ∃ chosen rest, antiEntropyPeers shuffle d = Ok chosen ∧ chosen ++ rest ≡ₚ ps
    ∧ length chosen = antiEntropyFanout `min` length ps.
Proof.
  intros Hsh Hps. unfold antiEntropyPeers. rewrite Hps.
  destruct ps as [|p0 ps0]; [by exists [], []|]. set (ps := p0 :: ps0).
  exists (take antiEntropyFanout (shuffle ps)), (drop antiEntropyFanout (shuffle ps)).
  split_and!.
  - case_decide; [done|]. f_equal. rewrite take_ge; [done|lia].
  - rewrite take_drop. apply Hsh.
  - by rewrite length_take, (Hsh ps).
Qed.

(** Neither finds anything to fetch in the other's catalog. *)
Definition reconciled (a b : Daemon) : Prop :=
  ∀ entry, entry ∈ ListCatalog (MetaStore b) → entry_wanted (Name b) entry a = false.

Definition agree (a b : Daemon) (id : string) : Prop :=
  match GetFileMeta (MetaStore a) id, GetFileMeta (MetaStore b) id with
  | Ok ma, Ok mb => MerkleRoot ma = MerkleRoot mb
  | Err _, Err _ => True
  | _, _ => False
  end.

Lemma reconciled_get `{!BoltLaws B} a b id mb :
  reconciled a b → meta_inv (MetaStore b) → Ext id ≠ ".db" →
  GetFileMeta (MetaStore b) id = Ok mb →
  ∃ ma, GetFileMeta (MetaStore a) id = Ok ma ∧
    (MerkleRoot ma = MerkleRoot mb
     ∨ remoteWins (LamportTS ma) (Name a) (LamportTS mb) (Name b) = false).
Proof.
  intros Hrec Hinv Hdb Hb. destruct (Hinv _ _ Hb) as [Hid _].
  assert (entry_wanted (Name b) (catalog_entry mb) a = false) as Hw.
  { apply Hrec, ListCatalog_spec. eauto. }
  unfold entry_wanted in Hw. simpl in Hw. rewrite Hid, decide_False in Hw by done.
  destruct (GetFileMeta (MetaStore a) id) as [ma|]; [|done]. exists ma. split; [done|].
  case_decide; [by left|by right].
Qed.


(** ** Restarts and destinations *)


(** The destination of a sync is not confined to the sync directory: with the
    data directory next to it, an identifier that climbs out of it names an
    object of the store, and the sync engine writes there. *)
Theorem traversal_destination (d : Daemon) h :
  BaseDir d = "/home/sync" → CAS d = Cas.MkCAS "/home/data" →
  Orchestrator.out_path (Engine d) ("../data/objects" +:+ String slash (Cas.object_name h))
  = Cas.object_path (CAS d) h.
Proof.
  intros Hb Hc. rewrite Hc. unfold Orchestrator.out_path, Cas.object_path. simpl. rewrite Hb.
  pose proof (Cas.plain_object_name h) as Hp. pose proof (proj1 (plain_spec _) Hp) as (_ & _ & _ & Hns).
  generalize dependent (Cas.object_name h). intros n Hp Hns.
  change (Clean (("/home/sync/../data/objects") +:+ String slash n)
    = Clean ("/home/data/objects" +:+ String slash n)).
  unfold Clean, elems. rewrite !split_app_slash, (split_no_slash n Hns).
  rewrite !clean_elems_app by (by constructor). reflexivity.
Qed.

(** ** The local API *)

(** [/sync] rejects other methods with 405 and bodies without a file
    identifier with 400, changing nothing; a [POST] of a JSON object with a
    [file_id] of valid UTF-8 is answered with 202 and starts the sync of that
    very file unless one is running. *)
Theorem sync_api method body d ps id rest :
  GetActivePeers (Gossip d) = Ok ps →
  (method ≠ "POST" → sync method body d = (Ok (HttpError 405 (EMsg "Method not allowed")), d))
  ∧ (decode_SyncRequest body = None → sync "POST" body d = (Ok (HttpError 400 (EMsg "json")), d))
  ∧ (Json.valid_utf8 (bytes_of id) = true → Json.num_stop rest → id ≠ "" →
     sync "POST" (Json.print (Json.JObj [(bytes_of "file_id", Json.enc_string id)]) ++ rest) d
     = (Ok (HttpBody 202 ("Sync initiated for " +:+ id +:+ nl)),
        match syncing d !! id with
        | Some _ => d
        | None => set_syncing (<[id := ps]> (syncing d)) d
        end)).
Proof.
  intros Hps. unfold sync. split_and!.
  - intros Hm. by rewrite decide_True.
  - intros ->. by rewrite decide_False by tauto.
  - intros Hv Hr Hne. rewrite decide_False by tauto. unfold decode_SyncRequest.
    rewrite Json.decode_text_print by (try done; cbn; tauto).
    cbn [mbind option_bind Json.clean_value]. rewrite !fmap_cons. cbn [fst snd].
    replace (Json.sanitize (bytes_of "file_id")) with (bytes_of "file_id") by (vm_compute; reflexivity).
    cbn [Json.dec_struct].
    erewrite Json.dec_members_field;
      [|reflexivity|cbn [snd]; rewrite Json.dec_enc_string by done; reflexivity].
    cbn [fmap list_fmap Json.dec_members]. rewrite decide_False by done.
    by rewrite (triggerSync_spec id d ps Hps).
Qed.

End with_params.
Arguments Daemon : clear implicits.
Arguments Daemon B : rename.
End Daemon.

(** ** Witnesses *)

Module DaemonExamples.
Import Meta Discovery Daemon.

#[local] Existing Instances map_bolt fixed_cdc insertion_sort.
#[local] Existing Instances map_bolt_laws fixed_cdc_laws insertion_sort_laws.

(** A running node with one directory for the user, one for itself and nothing
    in its index. *)
Definition ex_node (name base data : string) (ts : Z) (files : gmap string (list byte)) : Daemon map_bolt :=
  MkDaemon name base (Cas.MkCAS data) (Os files []) bkt_empty
    (MkGossip (Some []) 7946 name 9100 9000 (Some []) true) ∅ ts
    (Quiet.newQuietSet quietWriteTTL) ∅.

Definition ex_hi : list byte := bytes_of "hi".

(** A node with a record of the given timestamp. *)
Definition ex_with (name : string) (ts : Z) : Daemon map_bolt :=
  set_MetaStore (PutFileMeta (MkFileMeta "x" zero32 ts [] 0) (bkt_empty : @bucket map_bolt)).2
    (ex_node name "/s" "/d" ts ∅).

Lemma ex_with_get name ts :
  is_u64 ts → GetFileMeta (MetaStore (ex_with name ts)) "x" = Ok (MkFileMeta "x" zero32 ts [] 0).
Proof.
  intros Hts. pose proof (Get_after_Put (MkFileMeta "x" zero32 ts [] 0) bkt_empty
    (PutFileMeta (MkFileMeta "x" zero32 ts [] 0) (bkt_empty : @bucket map_bolt)).2) as H.
  apply H; [by split|]. reflexivity.
Qed.

Lemma ex_with_inv name ts : is_u64 ts → meta_inv (MetaStore (ex_with name ts)).
Proof.
  intros Hts. eapply (Put_meta_inv (MkFileMeta "x" zero32 ts [] 0) bkt_empty);
    [apply surjective_pairing|by split|reflexivity|apply meta_inv_empty].
Qed.

Lemma handleAnnouncement_spec_witness :
  (handleAnnouncement (MkAnn "y" zero32 9 "b") (ex_node "a" "/s" "/d" 4 ∅)).1 = Ok tt.
Proof. rewrite (handleAnnouncement_spec _ _ []); reflexivity. Defined.

Lemma reconcile_entries_spec_witness :
  ∃ m, reconcile_entries "b" [MkCatalogEntry "y" zero32 9] (ex_node "a" "/s" "/d" 4 ∅)
    = (Ok tt, set_syncing m (set_clock 9 (ex_node "a" "/s" "/d" 4 ∅))).
Proof.
  destruct (reconcile_entries_spec "b" [] [MkCatalogEntry "y" zero32 9] (ex_node "a" "/s" "/d" 4 ∅))
    as (m & H & _); [reflexivity|]. exists m. exact H.
Defined.

Lemma antiEntropyPeers_spec_witness :
  ∃ chosen rest, antiEntropyPeers (λ l, l) (ex_node "a" "/s" "/d" 4 ∅) = Ok chosen
    ∧ chosen ++ rest ≡ₚ [] ∧ length chosen = 0.
Proof. apply (antiEntropyPeers_spec (λ l, l)); [reflexivity|reflexivity]. Defined.


Lemma tie_decided_by_holder_witness :
  ann_wanted (MkAnn "x" (Sum256 []) 5 "b") (ex_with "c" 5) = false
  ∧ ann_wanted (MkAnn "x" (Sum256 []) 5 "d") (ex_with "c" 5) = true.
Proof.
  apply (tie_decided_by_holder "x" (Sum256 []) (MkFileMeta "x" zero32 5 [] 0)).
  - apply ex_with_get. unfold is_u64. lia.
  - intros E. apply (f_equal a32_bytes) in E. vm_compute in E. discriminate E.
  - reflexivity.
  - reflexivity.
Defined.


Lemma change_ignored_witness :
  clock (HandleFileChange 0 "/s/index.db" (ex_node "a" "/s" "/d" 6 ∅)) = 6%Z.
Proof.
  refine (proj1 (proj2 (change_ignored 0 "/s/index.db" (ex_node "a" "/s" "/d" 6 ∅) _))).
  left. reflexivity.
Defined.

Lemma sync_api_witness :
  sync "GET" [] (ex_node "a" "/s" "/d" 6 ∅)
  = (Ok (HttpError 405 (EMsg "Method not allowed")), ex_node "a" "/s" "/d" 6 ∅).
Proof.
  refine (proj1 (sync_api "GET" [] (ex_node "a" "/s" "/d" 6 ∅) [] "x" [] _) _);
    [reflexivity|discriminate].
Defined.

End DaemonExamples.
