(* ===== verification/Node.v ===== *)
(** * A node over time

    [dstep] is everything the daemon itself does, one operation of
    [Daemon] at a time, with arbitrary inputs: messages, answers of peers,
    catalogs, requests and file events are universally quantified.  [estep] is
    what happens to it from outside: the user edits files, I/O calls start to
    fail, the member list changes.  The theorems about runs are by induction
    on these relations. *)

From Stdlib Require Import Strings.Byte.
From S2P Require Import Prelude GoBytes GoFloat Sha256 Json Meta Path Fs Cas Chunker Merkle.
From S2P Require Import Scheduler Discovery Orchestrator Quiet Clock Daemon.

Module Node.
Import Meta Discovery Daemon.

Section with_params.
Context `{B : Bolt} `{F : FastCDC} `{S : SortSlice}.

Inductive dstep : Daemon B → Daemon B → Prop :=
  | dstep_file now path d : dstep d (HandleFileChange now path d)
  | dstep_msg msg ann d r d' :
      NotifyMsg (Gossip d) msg = Some ann → handleAnnouncement ann d = (r, d') → dstep d d'
  | dstep_sync net now id peers d r d' :
      syncing d !! id = Some peers → sync_goroutine net now id peers d = (r, d') → dstep d d'
  | dstep_reconcile peer catalog d r d' :
      (∀ es, catalog = Ok es → Forall (λ e, is_u64 (ce_LamportTS e)) es) →
      reconcileWithPeer peer catalog d = (r, d') → dstep d d'
  | dstep_ingest path d r d' : ingest path d = (r, d') → dstep d d'
  | dstep_api method body d r d' : sync method body d = (r, d') → dstep d d'
  | dstep_start seeds create join d r d' : Start seeds create join d = (r, d') → dstep d d'
  | dstep_stop d : dstep d (Stop d).

Inductive estep : Daemon B → Daemon B → Prop :=
  | estep_write p c d :
      Orchestrator.outside_cas (CAS d) p →
      estep d (set_os (Os (<[p := c]> (os_files (d_os d))) (os_io (d_os d))) d)
  | estep_delete p d :
      Orchestrator.outside_cas (CAS d) p →
      estep d (set_os (Os (delete p (os_files (d_os d))) (os_io (d_os d))) d)
  | estep_io outcomes d : estep d (set_os (Os (os_files (d_os d)) outcomes) d)
  | estep_members l d :
      estep d (set_Gossip (MkGossip (Some l) (g_port (Gossip d)) (g_name (Gossip d))
        (g_httpPort (Gossip d)) (g_grpcPort (Gossip d)) (g_queue (Gossip d))
        (g_onAnnounce (Gossip d))) d).

(** The identifiers being synced name files below the sync directory. *)
Definition confined (d : Daemon B) : Prop :=
  ∀ id peers, syncing d !! id = Some peers → local_id id = true.

Definition sstep (d d' : Daemon B) : Prop := confined d ∧ dstep d d'.
Definition nstep (d d' : Daemon B) : Prop := sstep d d' ∨ estep d d'.

(** ** The two directories *)

(** Neither directory is the other or below it. *)
Definition dirs_apart (d : Daemon B) : Prop :=
  ¬ elems (BaseDir d) `prefix_of` elems (Cas.baseDir (CAS d))
  ∧ ¬ elems (Cas.baseDir (CAS d)) `prefix_of` elems (BaseDir d).

Definition same_dirs (d d' : Daemon B) : Prop :=
  Name d' = Name d ∧ BaseDir d' = BaseDir d ∧ CAS d' = CAS d.

#[global] Instance same_dirs_preorder : PreOrder same_dirs.
Proof.
  split; [by intros d|]. intros d1 d2 d3 (?&?&?) (?&?&?). split_and!; congruence.
Qed.

(** A file below the sync directory is then none of the store's. *)
Lemma dirs_apart_outside d id :
  dirs_apart d → local_id id = true →
  Orchestrator.outside_cas (CAS d) (Join [BaseDir d; id]).
Proof.
  intros [H1 H2] Hid h. split; intros E; apply (f_equal elems) in E;
    rewrite Join_elems_local in E by done;
    rewrite ?Cas.object_path_elems, ?Cas.tmp_path_elems in E;
    by apply app_eq_prefix in E as [?|?].
Qed.

(** The guard of [NewDaemon] establishes the first half, for absolute
    directories. *)
Lemma NewDaemon_apart wd name syncDir dataDir hp gp gop ob nw w d w' :
  rooted wd = true → rooted syncDir = true → rooted dataDir = true →
  NewDaemon (Ok wd) name syncDir dataDir hp gp gop ob nw w = (Ok d, w') →
  ¬ elems syncDir `prefix_of` elems dataDir
  ∧ BaseDir d = syncDir ∧ Cas.baseDir (CAS d) = dataDir ∧ clock d = 0%Z ∧ syncing d = ∅
  ∧ ob = Ok (MetaStore d) ∧ os_files (d_os d) = os_files w.
Proof.
  intros Hwd Hs Hd H. unfold NewDaemon in H.
  destruct (Quiet.isSubPath _ _ _) eqn:Eg; [done|].
  assert (∀ p, rooted p = true → Abs (Ok wd) p = Ok (Clean p)) as Habs
    by (intros p Hp; unfold Abs; by rewrite Hp).
  rewrite (Quiet.isSubPath_prefix wd syncDir dataDir (Clean syncDir) (Clean dataDir)) in Eg
    by auto.
  apply bool_decide_eq_false in Eg. unfold Clean in Eg. rewrite !elems_render in Eg by apply elems_normal.
  destruct (os_MkdirAll syncDir w) as [r1 w1] eqn:E1. apply os_MkdirAll_spec in E1.
  destruct (os_MkdirAll dataDir w1) as [r2 w2] eqn:E2. apply os_MkdirAll_spec in E2.
  destruct (Cas.NewCASBlobStore dataDir w2) as [[cas|] w3] eqn:E3; [|done].
  destruct ob as [meta|]; [|done]. destruct nw; [|done]. injection H as <- <-. simpl.
  unfold Cas.NewCASBlobStore, mbind, stM_bind in E3.
  destruct (os_MkdirAll _ w2) as [[] w4] eqn:E4; apply os_MkdirAll_spec in E4; [|done].
  destruct (os_MkdirAll _ w4) as [[] w5] eqn:E5; apply os_MkdirAll_spec in E5; [|done].
  unfold mret, stM_ret in E3. simplify_eq. split_and!; [done..|congruence].
Qed.

(** ** What one operation can change *)

(** Operations that only touch the gossip layer, the clock (which they do not
    turn back) and the set of running syncs. *)
Definition control_only (d d' : Daemon B) : Prop :=
  ∃ g c m, (clock d ≤ c)%Z ∧
    d' = MkDaemon (Name d) (BaseDir d) (CAS d) (d_os d) (MetaStore d) g (Tracker d) c (quiet d) m.

#[global] Instance control_only_preorder : PreOrder control_only.
Proof.
  split.
  - intros d. exists (Gossip d), (clock d), (syncing d). split; [lia|by destruct d].
  - intros d1 d2 d3 (g & c & m & H & ->) (g' & c' & m' & H' & ->). simpl in *.
    exists g', c', m'. split; [lia|done].
Qed.

Lemma triggerSync_control id d r d' : triggerSync id d = (r, d') → control_only d d'.
Proof.
  unfold triggerSync. intros H. repeat case_match; simplify_eq; [done|..];
    (eexists _, _, _; split; [|done]; lia).
Qed.

Lemma observe_control ts d : control_only d (set_clock (Clock.observeTS (clock d) ts) d).
Proof.
  eexists _, _, _. split; [|done]. rewrite Clock.observeTS_max. lia.
Qed.

Lemma handleAnnouncement_control ann d r d' :
  handleAnnouncement ann d = (r, d') → control_only d d'.
Proof.
  unfold handleAnnouncement. intros H. case_decide; [by simplify_eq|].
  etrans; [apply (observe_control (an_LamportTS ann))|].
  repeat case_match; simplify_eq; try done; by eapply triggerSync_control.
Qed.

Lemma reconcile_control pn es d r d' : reconcile_entries pn es d = (r, d') → control_only d d'.
Proof.
  revert d. induction es as [|e es IH]; intros d H; cbn [reconcile_entries] in H; [by simplify_eq|].
  destruct (entry_wanted pn e d); [|by apply IH].
  destruct (triggerSync _ _) as [r1 d1] eqn:E1.
  assert (control_only d d1).
  { etrans; [apply (observe_control (ce_LamportTS e))|]. by eapply triggerSync_control. }
  destruct r1; [apply IH in H; by etrans|by simplify_eq].
Qed.

Lemma api_control method body d r d' : sync method body d = (r, d') → control_only d d'.
Proof.
  unfold sync. intros H. case_decide; [by simplify_eq|].
  destruct (decode_SyncRequest body); [|by simplify_eq]. case_decide; [by simplify_eq|].
  destruct (triggerSync _ _) as [r1 d1] eqn:E1. apply triggerSync_control in E1.
  destruct r1; by simplify_eq.
Qed.

(** Indexing a file only adds objects to the store. *)
Definition adds_objects (d d' : Daemon B) : Prop :=
  same_dirs d d' ∧ ∃ w, os_files w = os_files (d_os d)
    ∧ rtc (Orchestrator.put_step (CAS d)) w (d_os d').

Lemma index_adds id chs d d0 :
  same_dirs d0 d → os_files (d_os d) = os_files (d_os d0) → adds_objects d0 (index_file id chs d).
Proof.
  intros (H1 & H2 & H3) Hf. destruct (index_file_spec id chs d) as (w' & Hput & -> & _).
  split; [by split_and!|]. exists (d_os d). simpl. rewrite <- H3. by split.
Qed.

Lemma HandleFileChange_adds now path d : adds_objects d (HandleFileChange now path d).
Proof.
  destruct (HandleFileChange_cases now path d) as (q & w & Hf & [-> | (chs & _ & _ & _ & _ & ->)]).
  - split; [done|]. exists w. by split.
  - by apply index_adds.
Qed.

Lemma ingest_adds path d r d' : ingest path d = (r, d') → adds_objects d d'.
Proof.
  unfold ingest. intros H. destruct (Chunker.ChunkFile _ _ _) as [[chs|] w] eqn:Ec;
    apply Chunker.ChunkFile_files in Ec; simplify_eq.
  - by apply index_adds.
  - split; [done|]. exists w. by split.
Qed.

Lemma control_adds d d' : control_only d d' → adds_objects d d'.
Proof. intros (g & c & m & _ & ->). split; [done|]. exists (d_os d). by split. Qed.

(** Every operation of the daemon adds objects and, if it is a sync, writes
    the one file it syncs. *)
Lemma dstep_effect d d' :
  dstep d d' → same_dirs d d' ∧ ∃ w w1, os_files w = os_files (d_os d)
    ∧ rtc (Orchestrator.put_step (CAS d)) w w1
    ∧ ∀ p, (∀ id peers, syncing d !! id = Some peers → p ≠ Join [BaseDir d; id]) →
        os_files (d_os d') !! p = os_files w1 !! p.
Proof.
  assert (∀ d d', adds_objects d d' → same_dirs d d' ∧ ∃ w w1, os_files w = os_files (d_os d)
    ∧ rtc (Orchestrator.put_step (CAS d)) w w1
    ∧ ∀ p, (∀ id peers, syncing d !! id = Some peers → p ≠ Join [BaseDir d; id]) →
        os_files (d_os d') !! p = os_files w1 !! p) as Hadds.
  { intros d0 d0' (Hd & w & Hw & Hput). split; [done|]. by exists w, (d_os d0'). }
  destruct 1 as [now path d|msg ann d r d' _ H|net now id peers d r d' Hs H|peer [cat|] d r d' Hcat H
    |path d r d' H|method body d r d' H|seeds cr jn d r d' H|d].
  - apply Hadds, HandleFileChange_adds.
  - by eapply Hadds, control_adds, handleAnnouncement_control.
  - unfold sync_goroutine in H. destruct (Orchestrator.Pull _ _ _ _ _) as [rp s] eqn:EP.
    destruct (Orchestrator.ps_cb s) as [q g]. simplify_eq. split; [done|]. simpl.
    exists (d_os d).
    apply Orchestrator.Pull_cases in EP as
      [[(Hp & _) _] | (df & rm & s1 & (Hp & _) & _ & _ & H)].
    { exists (Orchestrator.ps_os s). by split_and!. }
    exists (Orchestrator.ps_os s1). split_and!; [done..|]. intros p Hp'.
    destruct (Orchestrator.assemble _ _ _ _) as [ra s2] eqn:Ea.
    apply Orchestrator.assemble_frame in Ea as [_ Ha].
    assert (Orchestrator.ps_os s = Orchestrator.ps_os s2) as ->
      by (destruct ra; [by eapply Orchestrator.commit_os|by destruct H as [_ ->]]).
    apply Ha. by eapply Hp'.
  - by eapply Hadds, control_adds, reconcile_control.
  - simpl in H. simplify_eq. by apply Hadds, control_adds.
  - by eapply Hadds, ingest_adds.
  - by eapply Hadds, control_adds, api_control.
  - apply Hadds, control_adds. unfold Start in H. destruct (Discovery.Start _ _ _ _) as [[] g];
      simplify_eq; (eexists _, _, _; split; [|done]; simpl; lia).
  - apply Hadds, control_adds. eexists _, _, _. split; [|done]. lia.
Qed.

(** ** Runs *)

Lemma outside_object cas p h : Orchestrator.outside_cas cas p → p ≠ Cas.object_path cas h.
Proof. intros H. apply H. Qed.

(** One step, of the daemon or of its surroundings, keeps the store sound and
    loses no object. *)
Lemma nstep_objects d d' :
  nstep d d' → dirs_apart d →
  same_dirs d d' ∧ (Cas.cas_inv (CAS d) (d_os d) → Cas.cas_inv (CAS d) (d_os d'))
  ∧ ∀ h, Cas.has_object (CAS d) (d_os d) h → Cas.has_object (CAS d) (d_os d') h.
Proof.
  intros [[Hconf Hd]|He] Hap.
  - destruct (dstep_effect _ _ Hd) as (Hsame & w & w1 & Hw & Hput & Hfile).
    assert (∀ h, os_files (d_os d') !! Cas.object_path (CAS d) h
               = os_files w1 !! Cas.object_path (CAS d) h) as Hobj.
    { intros h. apply Hfile. intros id peers Hid E.
      by destruct (dirs_apart_outside d id Hap (Hconf _ _ Hid) h). }
    split_and!; [done| |].
    + intros Hinv h c Hc. rewrite Hobj in Hc.
      eapply Orchestrator.puts_inv; [done| |done]. by eapply Cas.cas_inv_files.
    + intros h Hh. unfold Cas.has_object. rewrite Hobj.
      eapply Orchestrator.puts_keep; [done|]. unfold Cas.has_object. by rewrite Hw.
  - destruct He as [p c d Hp|p d Hp|io d|l d]; (split; [done|]); unfold Cas.cas_inv, Cas.has_object; simpl; try done.
    + split; [intros Hinv h c' Hc; apply Hinv; by rewrite lookup_insert_ne in Hc by (by apply outside_object)|].
      intros h. by rewrite lookup_insert_ne by (by apply outside_object).
    + split; [intros Hinv h c' Hc; apply Hinv; by rewrite lookup_delete_ne in Hc by (by apply outside_object)|].
      intros h. by rewrite lookup_delete_ne by (by apply outside_object).
Qed.

Lemma same_dirs_apart d d' : same_dirs d d' → dirs_apart d → dirs_apart d'.
Proof. intros (_ & H2 & H3). unfold dirs_apart. by rewrite H2, H3. Qed.

Lemma run_objects d d' :
  rtc nstep d d' → dirs_apart d →
  same_dirs d d' ∧ (Cas.cas_inv (CAS d) (d_os d) → Cas.cas_inv (CAS d) (d_os d'))
  ∧ ∀ h, Cas.has_object (CAS d) (d_os d) h → Cas.has_object (CAS d) (d_os d') h.
Proof.
  induction 1 as [d|d d1 d2 Hs _ IH]; intros Hap; [by split_and!|].
  destruct (nstep_objects _ _ Hs Hap) as (Hsame & Hinv & Hobj).
  destruct (IH (same_dirs_apart _ _ Hsame Hap)) as (Hsame' & Hinv' & Hobj').
  pose proof Hsame as (_ & _ & Hcas). rewrite Hcas in *.
  split_and!; [by etrans|auto|auto].
Qed.



(** No operation of the daemon turns the clock back, short of wrapping
    around. *)
Theorem dstep_clock d d' :
  dstep d d' → (0 ≤ clock d < 2 ^ 64 - 1)%Z → (clock d ≤ clock d')%Z.
Proof.
  intros H Hc.
  assert (∀ id chs d0, clock d0 = clock d → (clock d ≤ clock (index_file id chs d0))%Z) as Hidx.
  { intros id chs d0 E. destruct (index_file_spec id chs d0) as (w' & _ & -> & _). simpl.
    rewrite E. unfold Clock.nextTS, u64. rewrite Z.mod_small by lia. lia. }
  assert (∀ d0, control_only d d0 → (clock d ≤ clock d0)%Z) as Hctl
    by (by intros d0 (g & c & m & Hle & ->)).
  destruct H as [now path d|msg ann d r d' _ H|net now id peers d r d' Hs H|peer [cat|] d r d' Hcat H
    |path d r d' H|method body d r d' H|seeds cr jn d r d' H|d].
  - destruct (HandleFileChange_cases now path d) as (q & w & _ & [-> | (chs & _ & _ & _ & _ & ->)]);
      [simpl; lia|by apply Hidx].
  - by eapply Hctl, handleAnnouncement_control.
  - unfold sync_goroutine in H. repeat case_match. simplify_eq. simpl. lia.
  - by eapply Hctl, reconcile_control.
  - simpl in H. simplify_eq. lia.
  - unfold ingest in H. repeat case_match; simplify_eq; [by apply Hidx|simpl; lia].
  - by eapply Hctl, api_control.
  - unfold Start in H. repeat case_match; simplify_eq; simpl; lia.
  - simpl. lia.
Qed.

(** ** Widths *)

Lemma triggerSync_clock id d r d' : triggerSync id d = (r, d') → clock d' = clock d.
Proof. unfold triggerSync. intros H. repeat case_match; by simplify_eq. Qed.

Lemma observeTS_u64 c ts : is_u64 c → is_u64 ts → is_u64 (Clock.observeTS c ts).
Proof. rewrite Clock.observeTS_max. unfold is_u64. lia. Qed.

Lemma handleAnnouncement_u64 ann d r d' :
  handleAnnouncement ann d = (r, d') → is_u64 (clock d) → is_u64 (an_LamportTS ann) → is_u64 (clock d').
Proof.
  unfold handleAnnouncement. intros H Hc Ha. pose proof (observeTS_u64 _ _ Hc Ha).
  repeat case_match; simplify_eq; try done; by rewrite (triggerSync_clock _ _ _ _ H).
Qed.

Lemma reconcile_u64 pn es d r d' :
  reconcile_entries pn es d = (r, d') → Forall (λ e, is_u64 (ce_LamportTS e)) es →
  is_u64 (clock d) → is_u64 (clock d').
Proof.
  intros H Hes. revert d H. induction Hes as [|e es He _ IH]; intros d H Hc; cbn [reconcile_entries] in H;
    [by simplify_eq|].
  destruct (entry_wanted pn e d); [|by eapply IH].
  destruct (triggerSync _ _) as [r1 d1] eqn:E1. apply triggerSync_clock in E1. cbn [clock set_clock] in E1.
  assert (is_u64 (clock d1)) by (rewrite E1; by apply observeTS_u64).
  destruct r1; [by eapply IH|by simplify_eq].
Qed.

Lemma index_u64 id chs d : is_u64 (clock (index_file id chs d)).
Proof. destruct (index_file_spec id chs d) as (w' & _ & -> & _). apply u64_range. Qed.

Lemma dstep_u64 d d' : dstep d d' → is_u64 (clock d) → is_u64 (clock d').
Proof.
  intros H Hc.
  destruct H as [now path d|msg ann d r d' Hm H|net now id peers d r d' Hs H|peer [cat|] d r d' Hcat H
    |path d r d' H|method body d r d' H|seeds cr jn d r d' H|d].
  - destruct (HandleFileChange_cases now path d) as (q & w & _ & [-> | (chs & _ & _ & _ & _ & ->)]);
      [done|apply index_u64].
  - eapply handleAnnouncement_u64; [done..|]. by eapply NotifyMsg_range.
  - unfold sync_goroutine in H. repeat case_match. by simplify_eq.
  - eapply reconcile_u64; [done|by apply Hcat|done].
  - simpl in H. by simplify_eq.
  - unfold ingest in H. repeat case_match; simplify_eq; [apply index_u64|done].
  - unfold sync in H. case_decide; [by simplify_eq|].
    destruct (decode_SyncRequest body); [|by simplify_eq]. case_decide; [by simplify_eq|].
    destruct (triggerSync _ _) as [r1 d1] eqn:E1. apply triggerSync_clock in E1.
    destruct r1; simplify_eq; by rewrite E1.
  - unfold Start in H. by repeat case_match; simplify_eq.
  - done.
Qed.


(** ** Versions *)

(** A local change of a file whose record is not ahead of the clock gets a
    version that wins against the old one, whichever nodes hold the two. *)
Theorem local_write_wins id chs d old n n' :
  (LamportTS old ≤ clock d)%Z → (0 ≤ clock d < 2 ^ 64 - 1)%Z →
  remoteWins (LamportTS old) n (clock (index_file id chs d)) n' = true.
Proof.
  intros Hle Hc. destruct (index_file_spec id chs d) as (w' & _ & -> & _). simpl.
  apply remoteWins_spec. left. unfold Clock.nextTS, u64. rewrite Z.mod_small by lia. lia.
Qed.

(** ** Syncs *)


End with_params.
End Node.

(** ** Witnesses *)

Module NodeExamples.
Import Meta Discovery Daemon Node DaemonExamples.

#[local] Existing Instances map_bolt fixed_cdc insertion_sort.
#[local] Existing Instances map_bolt_laws fixed_cdc_laws insertion_sort_laws.

(** What [NewDaemon] returns on an empty machine. *)
Definition ex_started : Daemon map_bolt :=
  MkDaemon "a" "/s" (Cas.MkCAS "/d") (Os ∅ []) bkt_empty (NewGossipNode "a" 7946 9100 9000) ∅ 0
    (Quiet.newQuietSet quietWriteTTL) ∅.

Lemma ex_start :
  NewDaemon (Ok "/") "a" "/s" "/d" 9100 9000 7946 (Ok bkt_empty) (Ok tt) (Os ∅ [])
  = (Ok ex_started, Os ∅ []).
Proof.
  unfold NewDaemon. assert (Quiet.isSubPath (Ok "/") "/s" "/d" = false) as -> by (vm_compute; reflexivity).
  reflexivity.
Qed.

Definition ex_after : Daemon map_bolt := HandleFileChange 0 "/s/x" ex_started.




Lemma dstep_clock_witness :
  (41 ≤ clock (HandleFileChange 0 "/s/x" (ex_node "a" "/s" "/d" 41 {[ "/s/x" := ex_hi ]})))%Z.
Proof.
  apply (dstep_clock (ex_node "a" "/s" "/d" 41 {[ "/s/x" := ex_hi ]})); [constructor|simpl; lia].
Defined.

Lemma local_write_wins_witness :
  remoteWins 7 "z" (clock (index_file "x" [] (ex_node "a" "/s" "/d" 7 ∅))) "a" = true.
Proof.
  apply (local_write_wins "x" [] _ (MkFileMeta "x" zero32 7 [] 0)); simpl; lia.
Defined.

(** A node that has just been restarted and a peer with version 5 of the file. *)
Definition ex_old : FileMeta := MkFileMeta "x" zero32 5 [zero32] 3.
Definition ex_restarted : Daemon map_bolt :=
  set_MetaStore (PutFileMeta ex_old (bkt_empty : @bucket map_bolt)).2 (ex_node "a" "/s" "/d" 0 ∅).
Definition ex_peer_node : Daemon map_bolt :=
  set_MetaStore (PutFileMeta ex_old (bkt_empty : @bucket map_bolt)).2 (ex_node "b" "/t" "/e" 5 ∅).
Definition ex_edit : list Chunker.Chunk := [Chunker.MkChunk (Sum256 ex_hi) 0 2 0 ex_hi].

Definition ex_new : FileMeta := MkFileMeta "x" (Sum256 ex_hi) 1 [Sum256 ex_hi] 2.


Lemma traversal_destination_witness :
  Orchestrator.out_path (Engine (ex_node "a" "/home/sync" "/home/data" 0 ∅))
    ("../data/objects" +:+ String slash (Cas.object_name zero32))
  = Cas.object_path (Cas.MkCAS "/home/data") zero32.
Proof.
  exact (traversal_destination (ex_node "a" "/home/sync" "/home/data" 0 ∅) zero32 eq_refl eq_refl).
Defined.

End NodeExamples.
