(* ===== verification/Cluster.v ===== *)
(** * Nodes talking to each other

    The class [HonestNet] is what a [Pull] relies on when its peers are nodes of
    this development: the diff is answered by [DiffMerkleTree] on the peer's
    index, availability by [GetChunkAvailability] on its store, the record by
    [GetFileMeta], a chunk by the object.  The theorems say that a [Pull] over
    such a network succeeds and gives the same file, or else exhibits two
    different byte strings with the same SHA-256.  [honest_net] is the network
    of direct calls; the one of signed requests is in [Wired]. *)

From Stdlib Require Import Strings.Byte.
From S2P Require Import Prelude GoBytes GoFloat Sha256 Json Meta Path Fs Cas Assembler Chunker.
From S2P Require Import Merkle Control Scheduler Discovery Orchestrator Quiet Clock Daemon.
From S2P Require Import Node.

Module Cluster.
Import Meta Control Scheduler Discovery.
Import Orchestrator (PeerNet, PState, MkPeerNet, query_peer, grpc_to_http, find_source, fetch_chunk,
  fetch_all, fetch_phase, launched, Pull, diff_request, e_CAS, e_BaseDir, out_path, outside_cas,
  ps_os, ps_meta, ps_tracker, ps_cb).
Import Daemon (Daemon, Name, BaseDir, CAS, d_os, MetaStore).

Section with_params.
Context `{B : Bolt} `{S : SortSlice} {C : Type}.

(** ** The network of a list of nodes *)

Definition nodes := list (PeerInfo * Daemon B).

Fixpoint find_peer (addr : PeerInfo → string) (a : string) (ns : nodes) : option (Daemon B) :=
  match ns with
  | [] => None
  | (p, d) :: ns => if decide (addr p = a) then Some d else find_peer addr a ns
  end.

Definition reach {A} (o : option (Daemon B)) (f : Daemon B → result A) : result A :=
  match o with Some d => f d | None => Err (EMsg "unreachable") end.

(** Lists of hashes that the control plane carries in one message. *)
Definition max_chunks : Z := 120000.

Definition few (hs : list (list byte)) : Prop :=
  Forall (λ h, length h = 32) hs ∧ (Z.of_nat (length hs) ≤ max_chunks)%Z.

Lemma few_hashes hs : (Z.of_nat (length hs) ≤ max_chunks)%Z → few (a32_bytes <$> hs).
Proof.
  intros H. split; [|by rewrite length_fmap]. apply Forall_fmap, Forall_true. intros h. apply length_a32.
Qed.

(** The interface between [Pull] and the nodes it talks to about file [id]. *)
Class HonestNet (net : PeerNet) (ns : nodes) (id : string) : Prop := {
  hn_dial n p d : (p, d) ∈ ns → Orchestrator.pn_dial net n (GRPCAddr p) = Ok tt;
  hn_diff n p d req :
    (p, d) ∈ ns → dq_FileId req = id → length (LocalMerkleRoot req) ≤ 32 → few (KnownChunkHashes req) →
    few (MissingChunkHashes (DiffMerkleTree (MetaStore d) req)) →
    Orchestrator.pn_diff net n (GRPCAddr p) req = Ok (DiffMerkleTree (MetaStore d) req);
  hn_avail n p d hs :
    (p, d) ∈ ns → few hs →
    Orchestrator.pn_avail net n (GRPCAddr p) hs
    = Ok (GetChunkAvailability (NewControlServer (Name d) (CAS d) 0) hs (d_os d)).1;
  hn_meta n p d rm :
    (p, d) ∈ ns → GetFileMeta (MetaStore d) id = Ok rm → FileID rm = id →
    Orchestrator.pn_meta net n (HTTPAddr p) id = Ok rm;
  hn_chunk n p d h data :
    (p, d) ∈ ns → os_files (d_os d) !! Cas.object_path (CAS d) h = Some data →
    Orchestrator.pn_chunk net n (HTTPAddr p) h = Ok data;
}.

(** Direct calls. *)
Definition honest_net (ns : nodes) (elapsed : nat → Z) : PeerNet := {|
  Orchestrator.pn_dial _ a := reach (find_peer GRPCAddr a ns) (λ _, Ok tt);
  Orchestrator.pn_diff _ a req :=
    reach (find_peer GRPCAddr a ns) (λ d, Ok (DiffMerkleTree (MetaStore d) req));
  Orchestrator.pn_avail _ a hs :=
    reach (find_peer GRPCAddr a ns) (λ d,
      Ok (GetChunkAvailability (NewControlServer (Name d) (CAS d) 0) hs (d_os d)).1);
  Orchestrator.pn_meta _ a id :=
    reach (find_peer HTTPAddr a ns) (λ d, GetFileMeta (MetaStore d) id);
  Orchestrator.pn_chunk _ a h :=
    reach (find_peer HTTPAddr a ns) (λ d, (Cas.Get (CAS d) h (d_os d)).1);
  Orchestrator.pn_elapsed := elapsed;
  Orchestrator.pn_rand _ := f_quarter;
  Orchestrator.pn_order A l := l;
  Orchestrator.pn_order_perm A l := reflexivity l;
|}.

Lemma find_peer_elem addr p d ns :
  (p, d) ∈ ns → NoDup (addr ∘ fst <$> ns) → find_peer addr (addr p) ns = Some d.
Proof.
  induction ns as [|[p' d'] ns IH]; csimpl; [by intros ?%elem_of_nil|].
  intros Hin [Hnew Hnd]%NoDup_cons. apply elem_of_cons in Hin as [?|Hin].
  - simplify_eq. by rewrite decide_True.
  - rewrite decide_False; [by apply IH|]. intros E. destruct Hnew. rewrite E.
    apply list_elem_of_fmap. by exists (p, d).
Qed.

Lemma honest_net_ok ns elapsed id :
  NoDup (GRPCAddr ∘ fst <$> ns) → NoDup (HTTPAddr ∘ fst <$> ns) →
  (∀ p d, (p, d) ∈ ns → os_io (d_os d) = []) → HonestNet (honest_net ns elapsed) ns id.
Proof.
  intros Hg Hh Hio. constructor; simpl.
  - intros n p d Hin. by rewrite (find_peer_elem GRPCAddr p d ns).
  - intros n p d req Hin _ _ _ _. by rewrite (find_peer_elem GRPCAddr p d ns).
  - intros n p d hs Hin _. by rewrite (find_peer_elem GRPCAddr p d ns).
  - intros n p d rm Hin Hrm _. by rewrite (find_peer_elem HTTPAddr p d ns).
  - intros n p d h data Hin Hd. rewrite (find_peer_elem HTTPAddr p d ns) by done. simpl.
    by rewrite (Cas.Get_quiet _ _ _ _ (Hio p d Hin) Hd).
Qed.

Lemma grpc_to_http_elem p ps :
  p ∈ ps → NoDup (GRPCAddr <$> ps) → grpc_to_http ps !! GRPCAddr p = Some (HTTPAddr p).
Proof.
  unfold grpc_to_http. generalize (∅ : gmap string string).
  assert (∀ (m : gmap string string) l k, k ∉ GRPCAddr <$> l →
    foldl (λ m p, <[GRPCAddr p := HTTPAddr p]> m) m l !! k = m !! k) as Hout.
  { intros m l k. revert m. induction l as [|q l IH]; intros m; csimpl; [done|].
    intros [? ?]%not_elem_of_cons. by rewrite IH, lookup_insert_ne. }
  induction ps as [|q ps IH]; intros m; csimpl; [by intros ?%elem_of_nil|].
  intros [->|Hin]%elem_of_cons [Hnew Hnd]%NoDup_cons; [|by apply IH].
  by rewrite Hout, lookup_insert_eq.
Qed.

Lemma Forall2_exists_objects cas w hs :
  Forall (Cas.has_object cas w) hs → ∃ ds, Assembler.objects_are cas w hs ds.
Proof.
  induction 1 as [|h hs [d Hd] _ [ds IH]]; [by exists []; constructor|].
  exists (d :: ds). by constructor.
Qed.

Lemma single_node (p : PeerInfo) (n : Daemon B) q d : (q, d) ∈ [(p, n)] → d = n.
Proof. intros H%list_elem_of_singleton. by simplify_eq. Qed.

(** A record and the content it stands for. *)
Definition record_ok (src : Daemon B) (id : string) (rm : FileMeta) (ds : list (list byte)) : Prop :=
  GetFileMeta (MetaStore src) id = Ok rm ∧ FileID rm = id ∧ is_u64 (LamportTS rm)
  ∧ Assembler.objects_are (CAS src) (d_os src) (ChunkHashes rm) ds
  ∧ SizeBytes rm = Z.of_nat (length (mjoin ds)) ∧ (SizeBytes rm < 2 ^ 63)%Z
  ∧ (Z.of_nat (length (ChunkHashes rm)) ≤ max_chunks)%Z.

Lemma record_ok_objects src id rm ds :
  record_ok src id rm ds → Forall (Cas.has_object (CAS src) (d_os src)) (ChunkHashes rm).
Proof.
  intros (_ & _ & _ & Ho & _). apply Forall_forall. intros h Hh.
  apply list_elem_of_lookup in Hh as [i Hi].
  destruct (Forall2_lookup_l _ _ _ _ _ Ho Hi) as (d & _ & Hd). by exists d.
Qed.

(** ** Pulling from honest nodes *)

Section pull.
Variables (ns : nodes) (net : PeerNet) (id : string) (e : Orchestrator.Engine C).
Context `{!HonestNet net ns id}.

Hypothesis grpc_distinct : NoDup (GRPCAddr ∘ fst <$> ns).
Hypothesis healthy : ∀ p d, (p, d) ∈ ns → os_io (d_os d) = [] ∧ Cas.cas_inv (CAS d) (d_os d).

(** A property of the objects of all stores, the puller's included. *)
Variable P : array32 → list byte → Prop.
Hypothesis nodes_P : ∀ p d, (p, d) ∈ ns → Cas.all_objects P (CAS d) (d_os d).

Let g2h := grpc_to_http (fst <$> ns).

Lemma g2h_elem p d : (p, d) ∈ ns → g2h !! GRPCAddr p = Some (HTTPAddr p).
Proof using grpc_distinct.
  intros Hin. apply grpc_to_http_elem; [|by rewrite <- list_fmap_compose].
  apply list_elem_of_fmap. by exists (p, d).
Qed.

(** What peers say about chunks is what is in their stores. *)
Lemma query_honest n missing p d :
  (p, d) ∈ ns → few missing →
  query_peer net n missing (GRPCAddr p)
  = Ok (filter (λ r, length r = 32 ∧ Cas.has_object (CAS d) (d_os d) (copy32 r)) missing).
Proof using HonestNet0 healthy.
  intros Hin Hfew. unfold query_peer. rewrite (hn_dial n p d Hin), (hn_avail n p d missing Hin Hfew).
  by rewrite GetChunkAvailability_quiet by (by eapply healthy).
Qed.

Lemma find_source_honest req pre p src post rm : ∀ le (s : PState C),
  dq_FileId req = id → FileID rm = id → length (LocalMerkleRoot req) ≤ 32 →
  few (KnownChunkHashes req) → few (MissingChunkHashes (DiffMerkleTree (MetaStore src) req)) →
  (∀ x, x ∈ pre ++ (p, src) :: post → x ∈ ns) →
  (∀ q d, (q, d) ∈ pre → is_ok (GetFileMeta (MetaStore d) id) = false) →
  GetFileMeta (MetaStore src) id = Ok rm →
  ∃ s', find_source net g2h req (GRPCAddr ∘ fst <$> pre ++ (p, src) :: post) le s
      = ((Some (DiffMerkleTree (MetaStore src) req, rm), le), s').
Proof using HonestNet0 grpc_distinct.
  induction pre as [|[q d] pre IH]; intros le s Hq Hid Hroot Hkn Hms Hns Hpre Hrm; csimpl.
  - assert ((p, src) ∈ ns) as Hin by (apply Hns; apply list_elem_of_here).
    rewrite (hn_dial _ p src Hin). simpl. rewrite (hn_diff _ p src req Hin Hq Hroot Hkn Hms).
    pose proof (Diff_unknown (MetaStore src) req) as Hd. rewrite Hq, Hrm in Hd. simpl in Hd.
    destruct (RemoteMerkleRoot _) as [|b l] eqn:Er; [by destruct Hd as [Hd _]; discriminate Hd|].
    rewrite (g2h_elem p src) by done. simpl. rewrite Hq, (hn_meta _ p src rm Hin Hrm Hid). eauto.
  - assert ((q, d) ∈ ns) as Hin by (apply Hns; apply list_elem_of_here).
    assert (few (MissingChunkHashes (DiffMerkleTree (MetaStore d) req))) as Hmq.
    { unfold DiffMerkleTree. rewrite Hq. specialize (Hpre q d (list_elem_of_here _ _)).
      destruct (GetFileMeta (MetaStore d) id); [done|]. by apply (few_hashes []). }
    rewrite (hn_dial _ q d Hin). simpl. rewrite (hn_diff _ q d req Hin Hq Hroot Hkn Hmq).
    rewrite (proj2 (Diff_unknown (MetaStore d) req)) by (rewrite Hq; by eapply Hpre, list_elem_of_here).
    apply IH; [done..| |intros q' d' ?; by eapply Hpre, list_elem_of_further|done].
    intros x Hx. apply Hns. csimpl. by apply list_elem_of_further.
Qed.

(** A chunk that will be fetched at the first attempt: its first peer is a
    node that has it. *)
Definition fetchable (c : ChunkRarity) : Prop :=
  ∃ p d rest, Peers c = GRPCAddr p :: rest ∧ (p, d) ∈ ns
    ∧ Cas.has_object (CAS d) (d_os d) (copy32 (cr_Hash c)).

(** What a state needs for the fetches to go through, and what they keep. *)
Definition ready (s : PState C) : Prop :=
  ps_tracker s = ∅ ∧ os_io (ps_os s) = [] ∧ Cas.all_objects P (e_CAS e) (ps_os s).

Lemma fetch_chunk_honest c (s : PState C) :
  fetchable c → ready s →
  ∃ s', fetch_chunk net e g2h c s = (None, s') ∧ ready s'
    ∧ Cas.has_object (e_CAS e) (ps_os s') (copy32 (cr_Hash c)).
Proof using HonestNet0 grpc_distinct healthy nodes_P.
  intros (p & d & rest & Hp & Hin & [data Hdata]) (Ht & Hio & HPs).
  destruct (healthy p d Hin) as [Hio' Hinv].
  unfold fetch_chunk. rewrite Hp. cbn [Orchestrator.try_peers].
  rewrite (g2h_elem p d Hin). unfold IsAvailable. rewrite Ht, lookup_empty. cbn [negb].
  cbn [Orchestrator.try_attempts Orchestrator.call]. rewrite (hn_chunk _ p d _ data Hin Hdata).
  rewrite <- (Hinv _ _ Hdata).
  destruct (Cas.Put_quiet (e_CAS e) data (ps_os s) Hio) as (w' & EP & Hiow).
  cbn [Orchestrator.ps_os Orchestrator.set_tracker]. rewrite EP.
  pose proof (nodes_P p d Hin _ _ Hdata) as HPd. rewrite <- (Hinv _ _ Hdata) in HPd.
  eexists. split; [done|]. split; [|by eapply Cas.Put_ok].
  split_and!; [done|done|]. by eapply Cas.Put_all_objects.
Qed.

Lemma fetch_all_honest cs : ∀ s : PState C,
  Forall fetchable cs → ready s →
  ∃ s', fetch_all net e g2h cs s = ([], s') ∧ ready s'
    ∧ Forall (λ c, Cas.has_object (e_CAS e) (ps_os s') (copy32 (cr_Hash c))) cs.
Proof using HonestNet0 grpc_distinct healthy nodes_P.
  induction cs as [|c cs IH]; intros s Hcs Hs; cbn [fetch_all]; [eauto|].
  inversion_clear Hcs as [|?? Hc Hcs'].
  destruct (fetch_chunk_honest c s Hc Hs) as (s1 & -> & Hs1 & Hobj).
  destruct (IH s1 Hcs' Hs1) as (s2 & E2 & Hs2 & Hall). rewrite E2.
  eexists. split; [done|]. split; [done|]. constructor; [|done].
  apply Orchestrator.fetch_all_fetches in E2 as (Hp & _). by eapply Orchestrator.puts_keep.
Qed.

Lemma launched_all cs : Forall fetchable cs → launched cs = (cs, true).
Proof.
  induction 1 as [|c cs (p & d & rest & Hp & _) _ IH]; [done|].
  cbn [launched]. by rewrite Hp, IH.
Qed.

Lemma fetch_phase_honest cs (s : PState C) :
  Forall fetchable cs → ready s →
  ∃ s', fetch_phase net e g2h cs s = (Ok tt, s') ∧ ready s'
    ∧ Forall (λ c, Cas.has_object (e_CAS e) (ps_os s') (copy32 (cr_Hash c))) cs.
Proof using HonestNet0 grpc_distinct healthy nodes_P.
  intros Hcs Hs. unfold fetch_phase. rewrite launched_all by done.
  pose proof (Orchestrator.pn_order_perm net cs) as Hperm.
  destruct (fetch_all_honest (Orchestrator.pn_order net cs) s) as (s' & E & Hs' & Hall);
    [by rewrite Hperm|done|]. rewrite E. exists s'. by rewrite Hperm in Hall.
Qed.

(** Every chunk that some node has is fetchable. *)
Lemma rarity_fetchable `{!SortSliceLaws S} n (missing : list array32) p src addrs :
  addrs ≡ₚ (GRPCAddr <$> (fst <$> ns)) → (p, src) ∈ ns → Forall (Cas.has_object (CAS src) (d_os src)) missing →
  (Z.of_nat (length missing) ≤ max_chunks)%Z →
  Forall fetchable (BuildRarityMap (query_peer net n (a32_bytes <$> missing))
    addrs (a32_bytes <$> missing)).
Proof using HonestNet0 healthy.
  intros Haddrs Hsrc Hobj Hfew.
  set (query := query_peer net n (a32_bytes <$> missing)).
  destruct (BuildRarityMap_spec query addrs (a32_bytes <$> missing))
    as (Hperm & Hpeers & _).
  rewrite Forall_forall in Hpeers. apply Forall_forall. intros c Hc. specialize (Hpeers c Hc).
  assert (cr_Hash c ∈ a32_bytes <$> missing) as Hh.
  { rewrite <- Hperm. by apply list_elem_of_fmap_2. }
  apply list_elem_of_fmap in Hh as (h & Eh & Hh). rewrite Eh in *.
  assert (∀ q d, (q, d) ∈ ns → answers query (a32_bytes h) (GRPCAddr q) ≠ 0 ↔
    Cas.has_object (CAS d) (d_os d) h) as Hans.
  { intros q d Hin. unfold answers. subst query. rewrite (query_honest n _ q d Hin (few_hashes _ Hfew)).
    rewrite length_ne_0. split.
    - intros (x & [-> [[_ Hx] _]%list_elem_of_filter]%list_elem_of_filter). by rewrite copy32_id in Hx.
    - intros Hx. exists (a32_bytes h). rewrite !list_elem_of_filter, copy32_id, length_a32.
      split_and!; [done..|]. by apply list_elem_of_fmap_2. }
  assert (GRPCAddr p ∈ Peers c) as Hne.
  { rewrite Hpeers. apply list_elem_of_join. eexists. split; [|apply list_elem_of_fmap_2; rewrite Haddrs;
      apply list_elem_of_fmap_2, (list_elem_of_fmap_2 fst _ (p, src)), Hsrc].
    apply elem_of_replicate. split; [done|]. apply Hans with src; [done|].
    rewrite Forall_forall in Hobj. by apply Hobj. }
  destruct (Peers c) as [|a rest] eqn:Ep; [by apply elem_of_nil in Hne|].
  assert (a ∈ mjoin ((λ q, replicate (answers query (a32_bytes h) q) q) <$> addrs))
    as Ha by (rewrite <- Hpeers; apply list_elem_of_here).
  apply list_elem_of_join in Ha as (l & Hal & (q & -> & Hq)%list_elem_of_fmap).
  apply elem_of_replicate in Hal as [-> Hcount].
  rewrite Haddrs in Hq. apply list_elem_of_fmap in Hq as (pi & -> & ([pi' d] & -> & Hin)%list_elem_of_fmap).
  exists pi', d, rest. rewrite Eh, copy32_id. split_and!; [done..|]. by apply (Hans pi' d Hin).
Qed.

(** The record the puller already has for the file, if any, is of another
    version and complete: its chunks are in the store. *)
Definition local_ok (rm : FileMeta) (s : PState C) : Prop :=
  ∀ lm, GetFileMeta (ps_meta s) id = Ok lm →
    MerkleRoot lm ≠ MerkleRoot rm ∧ Forall (Cas.has_object (e_CAS e) (ps_os s)) (ChunkHashes lm)
    ∧ (Z.of_nat (length (ChunkHashes lm)) ≤ max_chunks)%Z.

(** The request and the answer to it. *)
Lemma diff_honest rm (s : PState C) src :
  local_ok rm s → GetFileMeta (MetaStore src) id = Ok rm →
  ∃ known, Forall (Cas.has_object (e_CAS e) (ps_os s)) known
    ∧ DiffMerkleTree (MetaStore src) (diff_request (ps_meta s) id)
      = MkDiffResponse id (a32_bytes (MerkleRoot rm)) false
          (a32_bytes <$> filter (λ h, h ∉ known) (ChunkHashes rm))
    ∧ dq_FileId (diff_request (ps_meta s) id) = id
    ∧ length (LocalMerkleRoot (diff_request (ps_meta s) id)) ≤ 32
    ∧ few (KnownChunkHashes (diff_request (ps_meta s) id)).
Proof.
  intros Hloc Hrm. unfold diff_request, local_ok in *.
  destruct (GetFileMeta (ps_meta s) id) as [lm|].
  - destruct (Hloc lm eq_refl) as (Hr & Hobj & Hlen). exists (ChunkHashes lm).
    split_and!; [done| |done|by simpl; rewrite length_a32|by apply few_hashes].
    apply Diff_missing; [done|]. by intros ?%(inj a32_bytes).
  - exists []. split_and!; [constructor| |done|simpl; lia|by apply (few_hashes [])].
    apply (Diff_missing (MetaStore src) id [] []); [done|].
    intros E. pose proof (length_a32 (MerkleRoot rm)) as Hl. by rewrite <- E in Hl.
Qed.

(** Everything up to the assembly: all chunks of the record are in the store. *)
Lemma Pull_fetches_all `{!SortSliceLaws S} pre p src post rm (s : PState C) :
  ns = pre ++ (p, src) :: post →
  (∀ q d, (q, d) ∈ pre → is_ok (GetFileMeta (MetaStore d) id) = false) →
  GetFileMeta (MetaStore src) id = Ok rm → FileID rm = id →
  Forall (Cas.has_object (CAS src) (d_os src)) (ChunkHashes rm) →
  (Z.of_nat (length (ChunkHashes rm)) ≤ max_chunks)%Z →
  local_ok rm s → ready s →
  ∃ s1, ready s1 ∧ Orchestrator.fetches (e_CAS e) s s1
    ∧ Forall (Cas.has_object (e_CAS e) (ps_os s1)) (ChunkHashes rm)
    ∧ Pull net e id (fst <$> ns) s
      = match Orchestrator.assemble e id rm s1 with
        | (Err err, s2) => (Err err, s2)
        | (Ok _, s2) => Orchestrator.commit e rm s2
        end.
Proof using HonestNet0 grpc_distinct healthy nodes_P.
  intros Hns Hpre Hrm Hid Hobj Hlen Hloc Hs.
  destruct (diff_honest rm s src Hloc Hrm) as (known & Hknown & Hdiff & Hq & Hroot & Hkn).
  set (req := diff_request (ps_meta s) id) in *.
  set (missing := filter (λ h, h ∉ known) (ChunkHashes rm)) in *.
  assert (Z.of_nat (length missing) ≤ max_chunks)%Z as Hlen'.
  { pose proof (length_filter (λ h, h ∉ known) (ChunkHashes rm)). fold missing in H. lia. }
  destruct (find_source_honest req pre p src post rm None s) as (s1 & E1);
    [done|done|done|done|rewrite Hdiff; by apply few_hashes|by rewrite Hns|done|done|].
  pose proof (Orchestrator.find_source_same _ _ _ _ _ _ _ _ E1) as (Ho & Hm & Ht & Hcb).
  destruct (Orchestrator.call net s1) as [n s2] eqn:E2.
  assert (Orchestrator.fetches (e_CAS e) s s2 ∧ ready s2) as [Hf2 Hs2].
  { unfold Orchestrator.call in E2. simplify_eq. destruct Hs as (Hs1 & Hs2 & Hs3). split.
    - by apply Orchestrator.fetches_same.
    - split_and!; simpl; rewrite ?Ht, ?Ho; done. }
  assert ((p, src) ∈ ns) as Hin.
  { rewrite Hns. apply elem_of_app. right. apply list_elem_of_here. }
  set (addrs := Orchestrator.pn_order net (GRPCAddr <$> (fst <$> ns))).
  pose proof (rarity_fetchable n missing p src addrs (Orchestrator.pn_order_perm net _) Hin) as Hfetch.
  destruct (fetch_phase_honest (BuildRarityMap (query_peer net n (a32_bytes <$> missing))
    addrs (a32_bytes <$> missing)) s2) as (s3 & E3 & Hs3 & Hgot).
  { apply Hfetch; [|done]. apply Forall_forall. intros h [_ Hh]%list_elem_of_filter.
    rewrite Forall_forall in Hobj. by apply Hobj. } { done. }
  pose proof (Orchestrator.fetch_phase_fetches _ _ _ _ _ _ _ E3) as Hf3.
  assert (Orchestrator.fetches (e_CAS e) s s3) as Hf by (by etrans).
  exists s3. split_and!; [done..| |].
  - destruct Hf as (Hputs & _). apply Forall_forall. intros h Hh.
    destruct (decide (h ∈ known)) as [Hk|Hk].
    + eapply Orchestrator.puts_keep; [done|]. rewrite Forall_forall in Hknown. by apply Hknown.
    + rewrite Forall_forall in Hgot.
      destruct (BuildRarityMap_spec (query_peer net n (a32_bytes <$> missing))
        addrs (a32_bytes <$> missing)) as (Hperm & _).
      assert (a32_bytes h ∈ a32_bytes <$> missing) as Hin'
        by (apply list_elem_of_fmap_2; by apply list_elem_of_filter).
      rewrite <- Hperm in Hin'. apply list_elem_of_fmap in Hin' as (c & Ec & Hc).
      specialize (Hgot c Hc). by rewrite <- Ec, copy32_id in Hgot.
  - unfold Pull. fold req g2h.
    destruct (fst <$> ns) as [|p0 ps0] eqn:Eps; [by rewrite Hns, fmap_app in Eps; destruct pre|].
    rewrite <- Eps. rewrite <- list_fmap_compose. rewrite <- Hns in E1. fold g2h. rewrite E1, Hdiff.
    cbn [IsSynced]. rewrite E2. cbn [MissingChunkHashes].
    rewrite list_fmap_compose. rewrite Eps. fold addrs. rewrite E3. by destruct (Orchestrator.assemble e id rm s3) as [[] s4].
Qed.

Lemma Pull_honest `{!SortSliceLaws S, !BoltLaws B} pre p src post rm ds (s : PState C) b' :
  ns = pre ++ (p, src) :: post →
  (∀ q d, (q, d) ∈ pre → is_ok (GetFileMeta (MetaStore d) id) = false) →
  record_ok src id rm ds → Json.valid_utf8 (bytes_of id) = true →
  local_ok rm s → ready s →
  outside_cas (e_CAS e) (out_path e id) →
  PutFileMeta rm (ps_meta s) = (Ok tt, b') →
  (∀ h x y, os_files (d_os src) !! Cas.object_path (CAS src) h = Some x → P h y → x = y) →
  ∃ s', Pull net e id (fst <$> ns) s = (Ok tt, s')
    ∧ os_files (ps_os s') !! out_path e id = Some (mjoin ds)
    ∧ ps_meta s' = b' ∧ GetFileMeta (ps_meta s') id = Ok rm.
Proof using HonestNet0 grpc_distinct healthy nodes_P.
  intros Hns Hpre Hrec Hutf Hloc Hs Hout Hput HP.
  pose proof (record_ok_objects _ _ _ _ Hrec) as Hobj.
  destruct Hrec as (Hrm & Hid & Hts & Hds & Hsz & Hlt & Hcount).
  destruct (Pull_fetches_all pre p src post rm s Hns Hpre Hrm Hid Hobj Hcount Hloc Hs)
    as (s1 & (_ & Hio1 & HP1) & (_ & Hm1 & _) & Hobj1 & ->).
  destruct (Forall2_exists_objects (e_CAS e) (ps_os s1) (ChunkHashes rm) Hobj1) as [ds' Hds'].
  assert (ds' = ds) as ->.
  { symmetry. eapply Forall2_same; [exact Hds|exact Hds'|]. simpl. intros h x y Hx Hy.
    eapply HP; [done|]. by apply HP1. }
  assert (∀ h, out_path e id ≠ Cas.object_path (e_CAS e) h) as Hd by (intros h; apply Hout).
  assert (i64 (SizeBytes rm) = SizeBytes rm) as Hi by (apply i64_small; unfold is_i64; lia).
  destruct (Orchestrator.assemble_quiet e id rm s1 ds Hd Hio1 Hds') as (s2 & Ea & _); [lia..|].
  pose proof (Orchestrator.assemble_frame _ _ _ _ _ _ Ea) as [Hm2 _].
  pose proof (Orchestrator.assemble_ok _ _ _ _ _ Hd Ea) as (ds2 & Hds2 & _ & Hc & _).
  assert (ds2 = ds) as -> by (eapply Forall2_same; [exact Hds2|exact Hds'|]; simpl; congruence).
  specialize (Hc ltac:(lia)). rewrite Orchestrator.assembled_exact in Hc by lia.
  rewrite Ea. unfold Orchestrator.commit. rewrite Hm2, Hm1, Hput.
  eexists. split; [done|].
  assert (GetFileMeta b' id = Ok rm) as Hget.
  { assert (meta_range rm) as Hr by (split; [done|unfold is_u64; lia]).
    rewrite <- Hid, (Get_after_Put _ _ _ Hr Hput).
    rewrite json_image_valid; [done|by rewrite Hid]. }
  destruct (Orchestrator.Announce e); simpl; by split_and!.
Qed.

End pull.
(** What a store, the puller's or a node's, holds under a hash. *)
Definition held (ns : nodes) (e : Orchestrator.Engine C) (s : PState C) (h : array32) (y : list byte) : Prop :=
  os_files (ps_os s) !! Cas.object_path (e_CAS e) h = Some y
  ∨ ∃ q d, (q, d) ∈ ns ∧ os_files (d_os d) !! Cas.object_path (CAS d) h = Some y.


End with_params.

(** ** From an edit on one node to the file on another *)

Section publish.
Context `{B : Bolt} `{F : FastCDC} `{S : SortSlice}.
Context `{!BoltLaws B, !FastCDCLaws F, !SortSliceLaws S}.

(** The byte strings that meet in an edit of [content] on [d0] and a sync of it
    on [d]: the parts of the content and what the two nodes store.  SHA-256
    tells them apart. *)
Definition candidate (content : list byte) (d0 d : Daemon B) (y : list byte) : Prop :=
  (∃ i n, y = take n (drop i content))
  ∨ (∃ h, os_files (d_os d0) !! Cas.object_path (CAS d0) h = Some y)
  ∨ (∃ h, os_files (d_os d) !! Cas.object_path (CAS d) h = Some y).

Definition told_apart (content : list byte) (d0 d : Daemon B) : Prop :=
  ∀ x y, candidate content d0 d x → candidate content d0 d y → Sum256 x = Sum256 y → x = y.

(** A change of a file that is new to a node which can read, store and save
    it. *)
Record new_file (now : Z) (id : string) (content : list byte) (d : Daemon B) : Prop := {
  nf_id : local_id id = true;
  nf_utf8 : Json.valid_utf8 (bytes_of id) = true;
  nf_ext : Ext (Join [BaseDir d; id]) ≠ ".db";
  nf_quiet : Quiet.quiet now (Join [BaseDir d; id]) (Daemon.quiet d) = false;
  nf_file : os_files (d_os d) !! Join [BaseDir d; id] = Some content;
  nf_size : (Z.of_nat (length content) ≤ 2048 * (max_chunks - 1))%Z;
  nf_cdc : is_ok (cdc_NewChunker (CdcReader content None) (Chunker.NewFastCDCChunker 8192)) = true;
}.

(** A node without I/O failures that has no record of the file. *)
Record fresh_node (id : string) (d : Daemon B) : Prop := {
  fn_io : os_io (d_os d) = [];
  fn_cas : Cas.cas_inv (CAS d) (d_os d);
  fn_none : is_ok (GetFileMeta (MetaStore d) id) = false;
  fn_put m : FileID m = id → is_ok (PutFileMeta m (MetaStore d)).1 = true;
}.

Lemma chunks_of_sub o off seq c chs ch :
  Chunker.chunks_of o off seq c chs → ch ∈ chs → ∃ i n, Chunker.Data ch = take n (drop i c).
Proof.
  revert off seq c. induction chs as [|ch' chs IH]; intros off seq c H Hin; [by apply elem_of_nil in Hin|].
  destruct H as (_ & _ & _ & _ & _ & _ & rest & -> & _ & H). apply elem_of_cons in Hin as [->|Hin].
  - exists 0, (length (Chunker.Data ch')). by rewrite drop_0, take_app_length.
  - destruct (IH _ _ _ H Hin) as (i & n & ->).
    exists (length (Chunker.Data ch') + i), n. by rewrite <- drop_drop, drop_app_length.
Qed.

(** The state after the change: the record describes the content. *)
Lemma publish_record now id content (d0 d : Daemon B) :
  let src := Daemon.HandleFileChange now (Join [BaseDir d0; id]) d0 in
  new_file now id content d0 → fresh_node id d0 → told_apart content d0 d →
  os_io (d_os src) = [] ∧ Cas.cas_inv (CAS src) (d_os src)
  ∧ Cas.all_objects (λ _, candidate content d0 d) (CAS src) (d_os src)
  ∧ ∃ rm ds, record_ok src id rm ds ∧ mjoin ds = content.
Proof using BoltLaws0 FastCDCLaws0.
  intros src [Hid Hutf Hdb Hq Hf Hlen Hnew] [Hio Hinv Hno Hputs] Hsha.
  destruct (cdc_NewChunker _ _) as [cdc|] eqn:Hcdc; [|done].
  destruct (Daemon.HandleFileChange_indexed now id content cdc d0 Hid Hdb Hq Hio Hf Hcdc)
    as (chs & Hchs & Hidx & _). fold src in Hidx.
  destruct Hidx as (Hmeta & _ & _ & Hobj & Hio' & Hprov); [by intros old Ho; rewrite Ho in Hno|].
  destruct (Node.HandleFileChange_adds now (Join [BaseDir d0; id]) d0) as ((_ & _ & Hcas) & w & Hw & Hrtc).
  fold src in Hcas, Hrtc. rewrite Hcas.
  pose proof (Chunker.chunks_of_hash _ _ _ _ _ Hchs) as Hhash.
  assert (Cas.cas_inv (CAS d0) (d_os src)) as Hinv'.
  { eapply Orchestrator.puts_inv; [done|]. by eapply Cas.cas_inv_files. }
  assert (Forall (λ ch, candidate content d0 d (Chunker.Data ch)) chs) as Hcand.
  { apply Forall_forall. intros ch Hch. left. by eapply chunks_of_sub. }
  assert (Cas.all_objects (λ _, candidate content d0 d) (CAS d0) (d_os src)) as Hall.
  { apply Hprov; [done|]. intros h y Hy. right. left. eauto. }
  split_and!; [done..|]. set (m := MkFileMeta id _ _ _ _) in Hmeta.
  specialize (Hputs m eq_refl). destruct (PutFileMeta m (MetaStore d0)) as [[[]|] b'] eqn:EP; [|done].
  simpl in Hmeta. destruct (Forall2_exists_objects _ _ _ Hobj) as [ds Hds].
  assert (ds = Chunker.Data <$> chs) as ->.
  { eapply (Forall2_same _ (λ h x, Sum256 x = h ∧ candidate content d0 d x)); [exact Hds| |].
    - apply Forall2_fmap, Forall_Forall2_diag.
      eapply Forall_impl; [apply Forall_and; split; [exact Hhash|exact Hcand]|].
      simpl. by intros ch [-> ?].
    - simpl. intros h x y Hx [Hy Hcy]. apply Hsha; [by eapply Hall|done|].
      by rewrite (Hinv' _ _ Hx). }
  exists m, (Chunker.Data <$> chs). pose proof (Chunker.chunks_of_data _ _ _ _ _ Hchs) as Hc.
  split; [|done]. unfold max_chunks in Hlen. assert (is_u64 (LamportTS m)) as Hts by apply u64_range.
  assert (SizeBytes m = Z.of_nat (length content)) as Hsz
    by (simpl; unfold u64; rewrite Z.mod_small; lia).
  assert (meta_range m) as Hr by (split; [done|rewrite Hsz; unfold is_u64; lia]).
  unfold record_ok. rewrite Hc, Hcas. split_and!; [|done|done|done|done|lia|].
  { pose proof (Get_after_Put m _ _ Hr EP) as Hg. change (FileID m) with id in Hg.
    by rewrite Hmeta, Hg, json_image_valid. }
  pose proof (Chunker.chunks_of_count _ _ _ _ _ Hchs) as Hcount.
  cbn [m ChunkHashes]. rewrite length_fmap. unfold max_chunks.
  change (MinSize (Chunker.NewFastCDCChunker 8192)) with 2048%Z in Hcount. lia.
Qed.

(** An edit of a file on one node, followed by the sync goroutine for that file
    on another node whose only peer is the first, over a network that
    delivers. *)
Lemma publish_sync_honest now now' net id content (d0 d : Daemon B) p :
  let src := Daemon.HandleFileChange now (Join [BaseDir d0; id]) d0 in
  HonestNet net [(p, src)] id → new_file now id content d0 → fresh_node id d0 → fresh_node id d →
  Node.dirs_apart d → Daemon.Tracker d = ∅ → told_apart content d0 d →
  ∃ d', Daemon.sync_goroutine net now' id [p] d = (Ok tt, d')
    ∧ os_files (d_os d') !! Join [BaseDir d; id] = Some content
    ∧ is_ok (GetFileMeta (MetaStore d') id) = true
    ∧ GetFileMeta (MetaStore d') id = GetFileMeta (MetaStore src) id
    ∧ Daemon.syncing d' !! id = None.
Proof using All.
  intros src Hnet Hnf Hfn [Hiod Hinvd Hno' Hputs'] Hap Htr Hsha.
  destruct (publish_record now id content d0 d Hnf Hfn Hsha)
    as (Hio' & Hinv' & Hall & rm & ds & Hrec & <-). fold src in Hio', Hinv', Hall, Hrec.
  destruct Hnf as [Hid Hutf _ _ _ _ _]. pose proof Hrec as (Hget & Hrid & _).
  specialize (Hputs' rm Hrid). destruct (PutFileMeta rm (MetaStore d)) as [[[]|] b'] eqn:EP; [|done].
  unfold Daemon.sync_goroutine. set (s := Orchestrator.MkPState _ _ _ _ _ _).
  set (P := λ h y, candidate (mjoin ds) d0 d y ∧ Sum256 y = h).
  pose proof (single_node p src) as Hone.
  assert (ready (Daemon.Engine d) P s) as Hready.
  { split_and!; [done..|]. intros h y Hy. split; [right; right; eauto|by apply Hinvd]. }
  assert (local_ok id (Daemon.Engine d) rm s) as Hloc
    by (intros lm Hlm; simpl in Hlm; by rewrite Hlm in Hno').
  destruct (Pull_honest [(p, src)] net id (Daemon.Engine d)) with (P := P)
    (pre := @nil (PeerInfo * Daemon B)) (p := p) (src := src) (post := @nil (PeerInfo * Daemon B))
    (rm := rm) (ds := ds) (s := s) (b' := b') as (s' & E & Hfile & _ & Hm); try done.
  - apply NoDup_singleton.
  - intros q d1 ->%Hone. done.
  - intros q d1 ->%Hone h y Hy. split; [by eapply Hall|by apply Hinv'].
  - by intros q d1 ?%elem_of_nil.
  - by apply Node.dirs_apart_outside.
  - intros h x y Hx [Hy <-]. apply Hsha; [by eapply Hall|done|by apply Hinv'].
  - change (fst <$> [(p, src)]) with [p] in E. rewrite E.
    destruct (Orchestrator.ps_cb s') as [q g]. eexists. split; [done|]. simpl.
    split_and!; [done|by rewrite Hm|congruence|apply lookup_delete_eq].
Qed.

End publish.
End Cluster.

(** ** A concrete pair of nodes *)

Module ClusterExamples.
Import Meta Discovery Cluster DaemonExamples.
Import Daemon (Daemon, BaseDir, CAS, d_os).

#[local] Existing Instances map_bolt fixed_cdc insertion_sort.
#[local] Existing Instances map_bolt_laws fixed_cdc_laws insertion_sort_laws.

Definition ex_writer : Daemon map_bolt := ex_node "a" "/s" "/d" 0 {[ "/s/x" := ex_hi ]}.
Definition ex_reader : Daemon map_bolt := ex_node "b" "/t" "/e" 0 ∅.
Definition ex_peer : PeerInfo := MkPeer "a" "10.0.0.1" 9100 9000.

Lemma ex_writer_objects h : os_files (d_os ex_writer) !! Cas.object_path (CAS ex_writer) h = None.
Proof.
  apply lookup_singleton_None. intros E. apply (f_equal elems) in E.
  rewrite Cas.object_path_elems in E. vm_compute in E. done.
Qed.

Lemma ex_fresh id d :
  (∀ h, os_files (d_os d) !! Cas.object_path (CAS d) h = None) →
  os_io (d_os d) = [] → Daemon.MetaStore d = (bkt_empty : gmap string (list byte)) →
  id = "x" → fresh_node id d.
Proof.
  intros Ho Hio Hm ->. constructor; [done| | |].
  - intros h c Hc. by rewrite Ho in Hc.
  - unfold GetFileMeta. by rewrite Hm.
  - intros m Hid. unfold PutFileMeta. rewrite Hm, Hid. done.
Qed.

Lemma ex_parts y : (∃ i n, y = take n (drop i ex_hi)) → y ∈ [[]; bytes_of "h"; bytes_of "i"; ex_hi].
Proof.
  intros (i & n & ->). destruct i as [|[|i]], n as [|[|n]]; simpl; rewrite ?drop_nil, ?take_nil;
    set_solver.
Qed.

Lemma ex_told_apart : told_apart ex_hi ex_writer ex_reader.
Proof.
  assert (∀ y, candidate ex_hi ex_writer ex_reader y →
    y ∈ [[]; bytes_of "h"; bytes_of "i"; ex_hi]) as Hc.
  { intros y [H|[[h H]|[h H]]]; [by apply ex_parts|by rewrite ex_writer_objects in H|done]. }
  intros x y Hx%Hc Hy%Hc E%(f_equal a32_bytes).
  rewrite !elem_of_cons in Hx, Hy.
  destruct Hx as [->|[->|[->|[->|[]%elem_of_nil]]]], Hy as [->|[->|[->|[->|[]%elem_of_nil]]]];
    first [reflexivity|vm_compute in E; discriminate E].
Qed.

Definition ex_published : Daemon map_bolt := Daemon.HandleFileChange 0 "/s/x" ex_writer.
Definition ex_pull_state : Orchestrator.PState (Quiet.quietSet * GossipNode) :=
  Orchestrator.MkPState (d_os ex_reader) (Daemon.MetaStore ex_reader) ∅ 0 0
    (Daemon.quiet ex_reader, Daemon.Gossip ex_reader).

Lemma ex_new_file : new_file 0 "x" ex_hi ex_writer.
Proof. constructor; [reflexivity..|discriminate|reflexivity|reflexivity|vm_compute; discriminate|reflexivity]. Qed.

Lemma ex_honest : HonestNet (honest_net [(ex_peer, ex_published)] (λ _, 0%Z)) [(ex_peer, ex_published)] "x".
Proof.
  apply honest_net_ok; [apply NoDup_singleton..|]. intros p d ->%single_node. reflexivity.
Qed.


Lemma ex_sync_ok :
  (Daemon.sync_goroutine (honest_net [(ex_peer, ex_published)] (λ _, 0%Z)) 0 "x" [ex_peer] ex_reader).1
  = Ok tt.
Proof. vm_compute. reflexivity. Qed.


Definition ex_pulled :=
  Orchestrator.Pull (honest_net [(ex_peer, ex_published)] (λ _, 0%Z)) (Daemon.Engine ex_reader)
    "x" [ex_peer] ex_pull_state.

Lemma ex_pulled_ok : ex_pulled = (Ok tt, ex_pulled.2).
Proof. apply ran_ok. vm_compute. reflexivity. Qed.

Lemma ex_reader_apart : Node.dirs_apart ex_reader.
Proof. split; not_prefix. Qed.

Lemma ex_reader_outside :
  Orchestrator.outside_cas (CAS ex_reader) (Orchestrator.out_path (Daemon.Engine ex_reader) "x").
Proof. apply (Node.dirs_apart_outside ex_reader "x"); [apply ex_reader_apart|reflexivity]. Qed.

Lemma ex_reader_inv : Cas.cas_inv (CAS ex_reader) (Orchestrator.ps_os ex_pull_state).
Proof. intros h c Hc. discriminate Hc. Qed.


Lemma Pull_frame_witness : os_files (Orchestrator.ps_os ex_pulled.2) !! "/t/y" = None.
Proof.
  rewrite (Orchestrator.Pull_frame _ (Daemon.Engine ex_reader) "x" [ex_peer] ex_pull_state (Ok tt)
    ex_pulled.2 "/t/y" ex_pulled_ok); [reflexivity| |discriminate].
  intros h. split; intros E; apply (f_equal elems) in E;
    rewrite ?Cas.object_path_elems, ?Cas.tmp_path_elems in E; clash E.
Defined.


Definition ex_failed :=
  Orchestrator.Pull (honest_net [] (λ _, 0%Z)) (Daemon.Engine ex_reader) "x" [ex_peer] ex_pull_state.

Lemma ex_failed_err : ∃ err, ex_failed = (Err err, ex_failed.2).
Proof. apply ran_err. vm_compute. reflexivity. Qed.

Lemma Pull_err_meta_witness :
  Orchestrator.ps_meta ex_failed.2 = Orchestrator.ps_meta ex_pull_state.
Proof.
  destruct ex_failed_err as [err E].
  exact (Orchestrator.Pull_err_meta _ _ _ _ _ err _ E).
Defined.

(** A chunk listed for a peer that cannot be reached. *)
Definition ex_fetch :=
  Orchestrator.fetch_chunk (honest_net [] (λ _, 0%Z)) (Daemon.Engine ex_reader)
    {[ "10.0.0.1:9000" := "10.0.0.1:9100" ]}
    (Scheduler.MkChunkRarity (a32_bytes zero32) ["10.0.0.1:9000"]) ex_pull_state.

Lemma fetch_chunk_calls_witness : (0 ≤ Orchestrator.ps_calls ex_fetch.2 ≤ 3)%nat.
Proof.
  exact (Orchestrator.fetch_chunk_calls _ _ _ _ _ _ _ (surjective_pairing ex_fetch)).
Defined.

(** A record of one chunk that is in the store. *)
Definition ex_store : os := (Cas.Put (CAS ex_reader) (Sum256 ex_hi) ex_hi (Os ∅ [])).2.
Definition ex_record : FileMeta := MkFileMeta "x" (Sum256 ex_hi) 1 [Sum256 ex_hi] 2.
Definition ex_assembled :=
  Orchestrator.assemble (Daemon.Engine ex_reader) "x" ex_record (Orchestrator.set_os ex_store ex_pull_state).
Definition ex_dest : string := Orchestrator.out_path (Daemon.Engine ex_reader) "x".
Definition ex_appended := Assembler.Assemble (CAS ex_reader) (ChunkHashes ex_record) ex_dest ex_store.

Lemma ex_appended_content : os_files ex_appended.2 !! ex_dest = Some ex_hi.
Proof. vm_compute. reflexivity. Qed.

Lemma assemble_equiv_witness :
  os_files (Orchestrator.ps_os ex_assembled.2) !! ex_dest = os_files ex_appended.2 !! ex_dest.
Proof.
  assert (ex_assembled = (Ok tt, ex_assembled.2)) as Ha by (apply ran_ok; vm_compute; reflexivity).
  assert (ex_appended = (Ok tt, ex_appended.2)) as Hb by (apply ran_ok; vm_compute; reflexivity).
  refine (Orchestrator.assemble_equiv (Daemon.Engine ex_reader) "x" ex_record
    (Orchestrator.set_os ex_store ex_pull_state) _ _ (λ h, proj1 (ex_reader_outside h)) Ha Hb _).
  intros c Hc. fold ex_dest in Hc. rewrite ex_appended_content in Hc. injection Hc as <-.
  unfold is_u64. simpl. lia.
Defined.

(** ** Timestamps and [Pull] *)

(** Three nodes with a version of the same file each: timestamp 3, 9 and, at the
    node that pulls, 7. *)
Definition ex_version (name base data text : string) (ts : Z) : Daemon map_bolt :=
  Daemon.HandleFileChange 0 (Join [base; "x"])
    (ex_node name base data (ts - 1) {[ Join [base; "x"] := bytes_of text ]}).

Definition ex_v3 : Daemon map_bolt := ex_version "a" "/s" "/d" "old" 3.
Definition ex_v9 : Daemon map_bolt := ex_version "c" "/u" "/f" "new" 9.
Definition ex_v7 : Daemon map_bolt := ex_version "b" "/t" "/e" "mine" 7.
Definition ex_peer9 : PeerInfo := MkPeer "c" "10.0.0.3" 9100 9000.

Definition ex_timestamp (d : Daemon map_bolt) : option Z :=
  match GetFileMeta (Daemon.MetaStore d) "x" with Ok m => Some (LamportTS m) | Err _ => None end.


End ClusterExamples.
