(* ===== verification/Wired.v ===== *)
(** * Nodes talking through the two planes

    The network of a [Pull] as [NewDaemon] and the engine set it up: the calls
    of the control plane go through the interceptors and gRPC, records and
    chunks through signed HTTP requests to the peers' servers.  It is an
    instance of the interface [HonestNet], so that what [Cluster] proves holds
    of it. *)

From Stdlib Require Import Strings.Byte.
From S2P Require Import Prelude GoBytes GoFloat Sha256 Strconv Json Meta Path Fs Cas Auth Http Dataplane Wire.
From S2P Require Import Assembler Chunker Merkle Control ControlClient Scheduler Discovery Orchestrator Quiet Clock.
From S2P Require Import Daemon Node Cluster.

Module Wired.
Import Meta Control Discovery Auth Http Dataplane Wire ControlClient Cluster.
Import Orchestrator (PeerNet).
Import Daemon (Daemon, Name, BaseDir, CAS, d_os, MetaStore).

Section with_params.
Context `{B : Bolt} `{W : Semaphore}.

(** ** What [NewDaemon] builds around a node *)

Definition maxConcurrentStreams : Z := 50.

Definition credentials (secret : list byte) (d : Daemon B) : hmacAuth := NewAuth secret (bytes_of (Name d)).

Definition node_host (secret : list byte) (p : PeerInfo) (d : Daemon B) : Host :=
  MkHost (NewServer (HTTPAddr p) (VerifyHTTP (credentials secret d)) (CAS d) maxConcurrentStreams)
    (MetaStore d) (d_os d).

Definition node_grpc (secret : list byte) (d : Daemon B) (now : Z) :
    list byte → Metadata → call → result reply :=
  grpc_serve secret (NewControlServer (Name d) (CAS d) 0) (MetaStore d) (d_os d) now.

(** The peer at an HTTP address. *)
Fixpoint hosts (secret : list byte) (ns : nodes) (addr : string) : option Host :=
  match ns with
  | [] => None
  | (p, d) :: ns =>
      if decide (HTTPAddr p = addr) then Some (node_host secret p d) else hosts secret ns addr
  end.

Lemma hosts_elem secret ns p d :
  (p, d) ∈ ns → NoDup (HTTPAddr ∘ fst <$> ns) → hosts secret ns (HTTPAddr p) = Some (node_host secret p d).
Proof.
  induction ns as [|[p' d'] ns IH]; csimpl; [by intros ?%elem_of_nil|].
  intros Hin [Hnew Hnd]%NoDup_cons. apply elem_of_cons in Hin as [?|Hin].
  - simplify_eq. by rewrite decide_True.
  - rewrite decide_False; [by apply IH|]. intros E. destruct Hnew. rewrite E.
    apply list_elem_of_fmap. by exists (p, d).
Qed.

(** ** The network *)

(** The surroundings of a [Pull]: gRPC and HTTP as they behave at its [n]-th
    call, and the clock of the puller then. *)
Record Surroundings := MkSurroundings {
  sr_grpc : nat → GrpcNet;
  sr_http : nat → Transport;
  sr_clock : nat → Z;
}.

(** The calls of the engine, by the clients it uses; the remaining fields of
    [base], time, chance and scheduling, stay as they are. *)
Definition wired_net (base : PeerNet) (secret : list byte) (d : Daemon B) (sr : Surroundings) : PeerNet :=
  let nodeID := bytes_of (Name d) in
  let client := NewClient (SignHTTP (credentials secret d)) (CAS d) in {|
  Orchestrator.pn_dial n a :=
    match NewControlClient (sr_grpc sr n) a secret nodeID with Ok _ => Ok tt | Err e => Err e end;
  Orchestrator.pn_diff n a req :=
    Diff (sr_grpc sr n) (MkControlClient a secret nodeID) (sr_clock sr n)
      (dq_FileId req) (LocalMerkleRoot req) (KnownChunkHashes req);
  Orchestrator.pn_avail n a hs :=
    CheckAvailability (sr_grpc sr n) (MkControlClient a secret nodeID) (sr_clock sr n) hs;
  Orchestrator.pn_meta n a id := FetchMeta (sr_http sr n) client (sr_clock sr n) a id;
  Orchestrator.pn_chunk n a h := FetchChunk (sr_http sr n) client (sr_clock sr n) a h;
  Orchestrator.pn_elapsed := Orchestrator.pn_elapsed base;
  Orchestrator.pn_rand := Orchestrator.pn_rand base;
  Orchestrator.pn_order A l := Orchestrator.pn_order base l;
  Orchestrator.pn_order_perm A l := Orchestrator.pn_order_perm base l;
|}.

(** The surroundings work for the puller [d] and its peers [ns]: every peer can
    be reached on both planes, with a clock within the allowed skew. *)
Record working (secret : list byte) (d : Daemon B) (ns : nodes) (sr : Surroundings) : Prop := {
  wk_http_distinct : NoDup (HTTPAddr ∘ fst <$> ns);
  wk_name : printable (bytes_of (Name d)) = true;
  wk_clock n : is_i64 (sr_clock sr n);
  wk_http n : ∃ authority now',
    sr_http sr n = wire authority (hosts secret ns) now'
    ∧ expired now' (unix (sr_clock sr n)) = false
    ∧ ∀ p q, (p, q) ∈ ns → authority (HTTPAddr p) = true;
  wk_grpc n p q : (p, q) ∈ ns → ∃ now',
    GrpcDelivers (sr_grpc sr n) (GRPCAddr p) (node_grpc secret q now')
    ∧ expired now' (unix (sr_clock sr n)) = false;
}.

(** A name that every part of the way can carry. *)
Definition sendable (id : string) : bool :=
  forallb url_safe (bytes_of id) && Json.valid_utf8 (bytes_of id) && (String.length id <=? 4096).

Lemma printable_header l : printable l = true → valid_header_value l = true.
Proof.
  unfold printable, valid_header_value. rewrite !forallb_forall. intros H x Hx.
  specialize (H x Hx). unfold is_ctl. apply orb_true_iff. left. lia.
Qed.

Context `{!SemaphoreLaws W}.

Lemma working_connected secret d ns sr n p q :
  working secret d ns sr → (p, q) ∈ ns →
  ∃ authority now', sr_http sr n = wire authority (hosts secret ns) now'
    ∧ connected authority (hosts secret ns) (credentials secret d) (credentials secret q)
        (sr_clock sr n) now' (HTTPAddr p) (node_host secret p q).
Proof using.
  intros [Hnd Hname Hclk Hhttp _] Hin. destruct (Hhttp n) as (auth & now' & E & Hf & Ha).
  exists auth, now'. split; [done|]. constructor; try done.
  - by eapply Ha.
  - by apply hosts_elem.
  - by apply printable_header.
Qed.

(** ** The interface is met *)

Lemma few_size hs : few hs → (repeated_field hs ≤ 34 * max_chunks)%Z.
Proof. intros [H1 H2]. rewrite repeated_field_32 by done. lia. Qed.

Lemma wired_diff secret d ns sr n p q req :
  working secret d ns sr → (p, q) ∈ ns → sendable (dq_FileId req) = true →
  length (LocalMerkleRoot req) ≤ 32 → few (KnownChunkHashes req) →
  few (MissingChunkHashes (DiffMerkleTree (MetaStore q) req)) →
  Diff (sr_grpc sr n) (MkControlClient (GRPCAddr p) secret (bytes_of (Name d))) (sr_clock sr n)
    (dq_FileId req) (LocalMerkleRoot req) (KnownChunkHashes req)
  = Ok (DiffMerkleTree (MetaStore q) req).
Proof using.
  intros [_ Hname Hclk _ Hgrpc] Hin Hid Hroot Hkn%few_size Hms%few_size.
  apply andb_true_iff in Hid as [[_ Hutf]%andb_true_iff Hlen%Nat.leb_le].
  destruct (Hgrpc n p q Hin) as (now' & Hgd & Hf). destruct req as [id root known].
  cbn [dq_FileId LocalMerkleRoot KnownChunkHashes] in *.
  pose proof (bytes_field_bound (bytes_of id)) as H1. rewrite length_bytes_of in H1.
  pose proof (bytes_field_bound root) as H2.
  eapply Diff_ok; [exact Hgd|apply Hclk|done|done|done|..].
  - cbn [call_size dq_FileId LocalMerkleRoot KnownChunkHashes].
    unfold maxReceiveMessageSize, max_chunks in *. lia.
  - cbn [reply_size]. set (r := DiffMerkleTree _ _) in *.
    assert (dr_FileId r = id) as -> by (unfold r, DiffMerkleTree; by repeat case_match).
    assert (length (RemoteMerkleRoot r) ≤ 32) as Hr.
    { unfold r, DiffMerkleTree. repeat case_match; cbn [RemoteMerkleRoot length]; rewrite ?length_a32; lia. }
    pose proof (bytes_field_bound (RemoteMerkleRoot r)).
    unfold maxReceiveMessageSize, max_chunks in *. destruct (IsSynced r); lia.
Qed.

Lemma wired_avail secret d ns sr n p q hs :
  working secret d ns sr → (p, q) ∈ ns → os_io (d_os q) = [] → few hs →
  CheckAvailability (sr_grpc sr n) (MkControlClient (GRPCAddr p) secret (bytes_of (Name d))) (sr_clock sr n) hs
  = Ok (GetChunkAvailability (NewControlServer (Name q) (CAS q) 0) hs (d_os q)).1.
Proof using.
  intros [_ Hname Hclk _ Hgrpc] Hin Hio Hfew. pose proof (few_size hs Hfew) as Hsize.
  destruct (Hgrpc n p q Hin) as (now' & Hgd & Hf).
  eapply CheckAvailability_ok; [exact Hgd|apply Hclk|done|done|..]; cbn [call_size reply_size].
  - unfold maxReceiveMessageSize, max_chunks in *. lia.
  - rewrite GetChunkAvailability_quiet by done. destruct Hfew as [H1 H2]. cbn [fst].
    rewrite repeated_field_32 
      by (apply Forall_forall; by intros h [[? _] _]%list_elem_of_filter).
    match goal with |- context [length (filter ?P hs)] => pose proof (length_filter P hs) end.
    unfold maxReceiveMessageSize, max_chunks in *. lia.
Qed.

Lemma wired_meta secret d ns sr n p q id rm :
  working secret d ns sr → (p, q) ∈ ns → sendable id = true →
  GetFileMeta (MetaStore q) id = Ok rm → FileID rm = id →
  FetchMeta (sr_http sr n) (NewClient (SignHTTP (credentials secret d)) (CAS d)) (sr_clock sr n)
    (HTTPAddr p) id = Ok rm.
Proof using.
  intros Hw Hin Hid Hrm Hfid. apply andb_true_iff in Hid as [[Hsafe Hutf]%andb_true_iff _].
  destruct (working_connected secret d ns sr n p q Hw Hin) as (auth & now' & -> & Hcn).
  rewrite (FetchMeta_asks _ _ _ _ _ _ _ _ Hcn) by (by apply url_safe_value).
  unfold asked_name. rewrite plus_to_space_safe, string_of_bytes_of by done.
  cbn [h_index node_host]. rewrite Hrm. f_equal. apply json_image_valid. by rewrite Hfid.
Qed.

Lemma wired_chunk secret d ns sr n p q h data :
  working secret d ns sr → (p, q) ∈ ns → os_io (d_os q) = [] →
  os_files (d_os q) !! Cas.object_path (CAS q) h = Some data →
  FetchChunk (sr_http sr n) (NewClient (SignHTTP (credentials secret d)) (CAS d)) (sr_clock sr n)
    (HTTPAddr p) h = Ok data.
Proof using SemaphoreLaws0.
  intros Hw Hin Hio Hd. destruct (working_connected secret d ns sr n p q Hw Hin) as (auth & now' & -> & Hcn).
  rewrite (FetchChunk_asks _ _ _ _ _ _ _ _ Hcn). cbn [h_server node_host NewServer s_sem s_cas h_os].
  destruct (try_acquire 1 (NewWeighted maxConcurrentStreams)) as [-> _].
  rewrite new_held, new_size, bool_decide_eq_true_2 by done.
  unfold Cas.GetFile, os_Open, file_Stat. rewrite os_next_quiet, Hd by done.
  rewrite os_next_quiet by done. cbv iota beta. by rewrite os_next_quiet by done.
Qed.

(** The wired network keeps the promises [Pull] relies on. *)
Lemma wired_honest base secret d ns sr id :
  working secret d ns sr → sendable id = true → (∀ p q, (p, q) ∈ ns → os_io (d_os q) = []) →
  HonestNet (wired_net base secret d sr) ns id.
Proof using SemaphoreLaws0.
  intros Hw Hid Hio. constructor; cbn [Orchestrator.pn_dial Orchestrator.pn_diff Orchestrator.pn_avail
    Orchestrator.pn_meta Orchestrator.pn_chunk wired_net].
  - intros n p q Hin. unfold NewControlClient.
    destruct (wk_grpc _ _ _ _ Hw n p q Hin) as (now' & Hgd & _). by rewrite (gd_dial (GrpcDelivers := Hgd)).
  - intros n p q req Hin Hq. by apply (wired_diff secret d ns); rewrite ?Hq.
  - intros n p q hs Hin. apply (wired_avail secret d ns); eauto.
  - intros n p q rm Hin. by apply (wired_meta secret d ns sr n p q).
  - intros n p q h data Hin. eapply wired_chunk; eauto.
Qed.

End with_params.

(** ** End to end *)

Section end_to_end.
Context `{B : Bolt} `{W : Semaphore} `{F : FastCDC} `{S : Scheduler.SortSlice}.
Context `{!BoltLaws B, !SemaphoreLaws W, !FastCDCLaws F, !Scheduler.SortSliceLaws S}.

Variables (base : PeerNet) (secret : list byte) (sr : Surroundings).
Variables (now now' : Z) (id : string) (content : list byte) (d0 d : Daemon B) (p : PeerInfo).

(** The writer after its change of the file. *)
Let src := Daemon.HandleFileChange now (Join [BaseDir d0; id]) d0.

Hypothesis Hnew : new_file now id content d0.
Hypothesis Hwriter : fresh_node id d0.
Hypothesis Hreader : fresh_node id d.
Hypothesis Hdirs : Node.dirs_apart d.
Hypothesis Htracker : Daemon.Tracker d = ∅.
Hypothesis Hsha : told_apart content d0 d.
Hypothesis Hsend : sendable id = true.
Hypothesis Hworks : working secret d [(p, src)] sr.

Lemma src_honest : HonestNet (wired_net base secret d sr) [(p, src)] id.
Proof using All.
  apply wired_honest; [done|done|]. intros q d1 ->%single_node.
  by destruct (publish_record now id content d0 d Hnew Hwriter Hsha) as (Hio & _).
Qed.


(** The catalog of the writer as the reader fetches it. *)
Definition fetched_catalog : result (list CatalogEntry) :=
  FetchCatalog (sr_http sr 0) (NewClient (SignHTTP (credentials secret d)) (CAS d)) (sr_clock sr 0) (HTTPAddr p).

Lemma catalog_has_file :
  ∃ es e, fetched_catalog = Ok es ∧ e ∈ es ∧ ce_FileID e = id.
Proof using All.
  destruct (publish_record now id content d0 d Hnew Hwriter Hsha) as (_ & _ & _ & rm & ds & Hrec & _).
  fold src in Hrec. destruct Hrec as (Hget & Hid & _).
  destruct (working_connected secret d [(p, src)] sr 0 p src Hworks) as (auth & now1 & E & Hcn);
    [apply list_elem_of_here|].
  unfold fetched_catalog. rewrite E, (FetchCatalog_served _ _ _ _ _ _ _ _ Hcn).
  eexists _, (entry_image (catalog_entry rm)). split; [done|]. split.
  - apply list_elem_of_fmap_2, ListCatalog_spec. by exists id, rm.
  - cbn [entry_image ce_FileID catalog_entry]. rewrite Hid.
    rewrite Json.sanitize_valid, string_of_bytes_of; [done|by apply Hnew].
Qed.


End end_to_end.
End Wired.

(** ** The pair of nodes of [ClusterExamples], connected *)

Module WiredExamples.
Import Meta Discovery Auth Http Dataplane Wire ControlClient Cluster DaemonExamples ClusterExamples Wired.
Import Daemon (Daemon, BaseDir, CAS, d_os).

#[local] Existing Instances map_bolt fixed_cdc Scheduler.insertion_sort counting_sem.
#[local] Existing Instances map_bolt_laws fixed_cdc_laws Scheduler.insertion_sort_laws counting_sem_laws.

Definition ex_secret : list byte := bytes_of "s3cret".
Definition ex_time : Z := 1700000000 * Second.
Definition ex_later : Z := ex_time + 10 * Second.

Section pair.
Variables (p : PeerInfo) (q : Daemon map_bolt).

(** Both planes lead to the one peer, whose clock is ten seconds ahead. *)
Definition pair_surroundings : Surroundings := {|
  sr_grpc _ := direct_grpc (λ a,
    if decide (a = GRPCAddr p) then Some (node_grpc ex_secret q ex_later) else None);
  sr_http _ := wire (λ _, true) (hosts ex_secret [(p, q)]) ex_later;
  sr_clock _ := ex_time;
|}.

Lemma pair_working d :
  printable (bytes_of (Daemon.Name d)) = true → working ex_secret d [(p, q)] pair_surroundings.
Proof.
  intros Hn. constructor; cbn [sr_clock sr_http sr_grpc pair_surroundings].
  - apply NoDup_singleton.
  - exact Hn.
  - intros _. unfold is_i64, ex_time, Second. lia.
  - intros _. exists (λ _, true), ex_later. split; [reflexivity|]. split; [vm_compute; reflexivity|done].
  - intros _ p' q' Hin%list_elem_of_singleton. injection Hin as -> ->. exists ex_later.
    split; [|vm_compute; reflexivity]. apply direct_grpc_delivers. by rewrite decide_True.
Qed.

End pair.

Definition ex_surroundings : Surroundings := pair_surroundings ex_peer ex_published.

Lemma ex_working d :
  printable (bytes_of (Daemon.Name d)) = true → working ex_secret d [(ex_peer, ex_published)] ex_surroundings.
Proof. apply pair_working. Qed.

Definition ex_base : Orchestrator.PeerNet := honest_net (B := map_bolt) [] (λ _, 0%Z).


(** The reader with the writer among its members. *)
Definition ex_joined : Daemon map_bolt :=
  Daemon.set_Gossip
    (MkGossip (Some [MkMember "a" "10.0.0.1" (NodeMeta (NewGossipNode "a" 7946 9100 9000))])
       7946 "b" 9100 9000 (Some []) true) ex_reader.


End WiredExamples.
