(* ===== verification/Main.v ===== *)
(** * The command ([cmd/nusyncd/main.go])

    What the program does with its flags before it serves: the check of the
    required ones, the default data directory, the list of seeds, and the start
    of the daemon and its watcher.  Parsing the flags, signals and log output
    are outside. *)

From Stdlib Require Import Strings.Byte.
From S2P Require Import Prelude GoBytes GoFloat Sha256 Json Meta Path Fs Cas Http Chunker Scheduler Discovery.
From S2P Require Import Orchestrator Watcher Quiet Clock Daemon Node.

Module Main.
Import Meta Discovery Node.
Import Daemon (Daemon, Name, BaseDir, CAS, d_os, NewDaemon).

(** ** Flags *)

Record options := MkOptions {
  o_name : string;
  o_dir : string;
  o_data : string;
  o_http : Z;
  o_grpc : Z;
  o_gossip : Z;
  o_api : Z;
  o_seeds : string;
  o_secret : string;
}.

(** The values of the flags that are not given. *)
Definition default_options : options := MkOptions "" "" "" 9100 9000 7946 8080 "" "".

Definition missing_flags (o : options) : bool :=
  bool_decide (o_name o = "") || bool_decide (o_dir o = "") || bool_decide (o_secret o = "").

Definition data_suffix : string := "-nusync-data".

Definition data_dir (o : options) : string :=
  if decide (o_data o = "") then Clean (o_dir o) +:+ data_suffix else o_data o.

(** ** Seeds *)

(** The white space of Unicode, in UTF-8. *)
Definition spaces : list (list byte) :=
  [[x09]; [x0a]; [x0b]; [x0c]; [x0d]; [x20]; [xc2; x85]; [xc2; xa0]; [xe1; x9a; x80];
   [xe2; x80; x80]; [xe2; x80; x81]; [xe2; x80; x82]; [xe2; x80; x83]; [xe2; x80; x84]; [xe2; x80; x85];
   [xe2; x80; x86]; [xe2; x80; x87]; [xe2; x80; x88]; [xe2; x80; x89]; [xe2; x80; x8a];
   [xe2; x80; xa8]; [xe2; x80; xa9]; [xe2; x80; xaf]; [xe2; x81; x9f]; [xe3; x80; x80]].

(** What is left after [p] at the beginning. *)
Fixpoint after_prefix (p l : list byte) : option (list byte) :=
  match p, l with
  | [], _ => Some l
  | x :: p, y :: l => if decide (x = y) then after_prefix p l else None
  | _ :: _, [] => None
  end.

(** One step of trimming: what is left after the first of [ws] that fits. *)
Fixpoint trim_one (ws : list (list byte)) (l : list byte) : option (list byte) :=
  match ws with
  | [] => None
  | w :: ws => match after_prefix w l with Some l' => Some l' | None => trim_one ws l end
  end.

(** [strings.TrimLeftFunc]; each round takes at least one byte, so the length
    bounds the number of rounds. *)
Fixpoint trim_start (ws : list (list byte)) (fuel : nat) (l : list byte) : list byte :=
  match fuel with
  | 0 => l
  | S fuel => match trim_one ws l with Some l' => trim_start ws fuel l' | None => l end
  end.

Definition TrimSpace (l : list byte) : list byte :=
  let l := trim_start spaces (length l) l in
  reverse (trim_start (reverse <$> spaces) (length l) (reverse l)).

(** The loop over [strings.Split(seeds, ",")]. *)
Definition seed_peers (seeds : string) : list string :=
  string_of <$> filter (λ s, s ≠ []) (TrimSpace <$> Http.split_on x2c (bytes_of seeds)).

(** ** [main] *)

Section main.
Context `{B : Bolt}.

(** How the program goes on: it has stopped with an error, or it serves. *)
Inductive outcome :=
  | Fatal (err : error)
  | Serving (d : Daemon B) (watched : result (list string)).

(** The surroundings of the start: the working directory, what opening the
    database and making its bucket, creating the watcher, creating and joining
    the member list give, and what [Watcher.Start] finds in the directory. *)
Record startup := MkStartup {
  su_cwd : result string;
  su_open : result (option bucket);
  su_update : result unit;
  su_watcher : result unit;
  su_create : result (list Member);
  su_join : result (list Member);
  su_add : string → bool;
  su_tree : Watcher.tree;
}.

Definition su_bolt (su : startup) : result bucket := NewBoltMetaStore (su_open su) (su_update su).

(** The error of [Watcher.Start] is only logged. *)
Definition main (o : options) (su : startup) (w : os) : outcome * os :=
  if missing_flags o
  then (Fatal (EMsg "missing required flags: -name, -dir, and -secret are all required"), w)
  else
    match NewDaemon (su_cwd su) (o_name o) (o_dir o) (data_dir o) (o_http o) (o_grpc o) (o_gossip o)
            (su_bolt su) (su_watcher su) w with
    | (Err e, w) => (Fatal (EWrap "failed to initialize daemon: %v" e), w)
    | (Ok d, w) =>
        match Daemon.Start (seed_peers (o_seeds o)) (su_create su) (su_join su) d with
        | (Err e, _) => (Fatal (EWrap "[%s] Control plane failed to start: %v" e), w)
        | (Ok _, d) => (Serving d (Watcher.watch_root (su_add su) (o_dir o) (su_tree su)), w)
        end
    end.

End main.
Arguments outcome : clear implicits.

(** ** Seeds are read as they are meant *)

Lemma spaces_ok e l : e ∈ spaces → trim_one spaces (e ++ l) = Some l.
Proof. intros H. repeat (apply elem_of_cons in H as [->|H]; [reflexivity|]). by apply elem_of_nil in H. Qed.

Lemma spaces_rev_ok e l : e ∈ reverse <$> spaces → trim_one (reverse <$> spaces) (e ++ l) = Some l.
Proof.
  intros H. vm_compute in H. repeat (apply elem_of_cons in H as [->|H]; [reflexivity|]). by apply elem_of_nil in H.
Qed.

(** A visible character of ASCII other than the comma. *)
Definition seed_byte (b : byte) : bool := (33 <=? byte_Z b)%Z && (byte_Z b <=? 126)%Z && negb (byte_Z b =? 44)%Z.

Lemma trim_one_visible b l :
  seed_byte b = true → trim_one spaces (b :: l) = None ∧ trim_one (reverse <$> spaces) (b :: l) = None.
Proof. intros H. destruct b; try (clash H); split; reflexivity. Qed.

Lemma join_cons {A} (e : list A) es : mjoin (e :: es) = e ++ mjoin es.
Proof. done. Qed.

Section trim.
Variable ws : list (list byte).
Hypothesis ws_fit : ∀ e l, e ∈ ws → trim_one ws (e ++ l) = Some l.

(** Leading white space goes, and nothing after it. *)
Lemma trim_start_spaces es l fuel :
  Forall (λ e, e ∈ ws) es → trim_one ws l = None → length es ≤ fuel → trim_start ws fuel (mjoin es ++ l) = l.
Proof using ws_fit.
  intros Hes Hl. revert fuel. induction Hes as [|e es He _ IH]; intros fuel Hle.
  - destruct fuel; [done|]. cbn [trim_start]. change (mjoin [] ++ l) with l. by rewrite Hl.
  - destruct fuel as [|fuel]; [by apply Nat.nle_succ_0 in Hle|]. rewrite join_cons, <- app_assoc.
    cbn [trim_start]. rewrite ws_fit by done. apply IH. by apply le_S_n.
Qed.
End trim.

Lemma length_spaces es : Forall (λ e, e ∈ spaces) es → length es ≤ length (mjoin es).
Proof.
  induction 1 as [|e es He _ IH]; [done|]. rewrite join_cons, length_app. cbn [length].
  assert (1 ≤ length e); [|lia].
  repeat (apply elem_of_cons in He as [->|He]; [simpl; lia|]). by apply elem_of_nil in He.
Qed.

Lemma reverse_mjoin {A} (es : list (list A)) : reverse (mjoin es) = mjoin (reverse <$> reverse es).
Proof.
  induction es as [|e es IH]; [done|]. rewrite join_cons, reverse_app, IH.
  rewrite reverse_cons, fmap_app, join_app. f_equal. cbn. by rewrite app_nil_r.
Qed.

Definition is_seed (s : list byte) : Prop := s ≠ [] ∧ forallb seed_byte s = true.

Lemma TrimSpace_seed before s after :
  is_seed s → Forall (λ e, e ∈ spaces) before → Forall (λ e, e ∈ spaces) after →
  TrimSpace (mjoin before ++ s ++ mjoin after) = s.
Proof.
  intros [Hne Hs] Hb Ha. pose proof (proj1 (forallb_forall _ _) Hs) as Hs'. clear Hs. unfold TrimSpace.
  assert (trim_start spaces (length (mjoin before ++ s ++ mjoin after)) (mjoin before ++ s ++ mjoin after)
    = s ++ mjoin after) as ->.
  { apply trim_start_spaces; [exact spaces_ok|done| |].
    - destruct s as [|b s]; [done|]. exact (proj1 (trim_one_visible b (s ++ mjoin after) (Hs' b (or_introl eq_refl)))).
    - rewrite !length_app. pose proof (length_spaces _ Hb). lia. }
  rewrite reverse_app, reverse_mjoin.
  rewrite trim_start_spaces; [apply reverse_involutive|exact spaces_rev_ok| | |].
  - apply Forall_fmap, Forall_reverse. eapply Forall_impl; [done|]. intros e He. by apply list_elem_of_fmap_2.
  - destruct s as [|b s _] using rev_ind; [done|]. rewrite reverse_snoc.
    refine (proj2 (trim_one_visible b (reverse s) (Hs' b _))). apply in_or_app. right. by left.
  - rewrite length_fmap, length_reverse, length_app. pose proof (length_spaces _ Ha). lia.
Qed.

(** A seed as it is typed: with white space around it. *)
Definition typed : Type := list (list byte) * list byte * list (list byte).
Definition typed_ok (t : typed) : Prop :=
  is_seed t.1.2 ∧ Forall (λ e, e ∈ spaces) t.1.1 ∧ Forall (λ e, e ∈ spaces) t.2.
Definition type_seed (t : typed) : list byte := mjoin t.1.1 ++ t.1.2 ++ mjoin t.2.

Fixpoint with_commas (ts : list typed) : list byte :=
  match ts with
  | [] => []
  | [t] => type_seed t
  | t :: ts => type_seed t ++ x2c :: with_commas ts
  end.

Lemma no_comma t : typed_ok t → x2c ∉ type_seed t.
Proof.
  intros ([_ Hs] & Hb & Ha). unfold type_seed. rewrite !not_elem_of_app.
  assert (∀ es, Forall (λ e, e ∈ spaces) es → x2c ∉ mjoin es) as Hj.
  { intros es Hes Hin. apply list_elem_of_join in Hin as (e & Hin & He).
    rewrite Forall_forall in Hes. apply Hes in He.
    repeat (apply elem_of_cons in He as [->|He]; [by apply (bool_decide_pack _) in Hin; vm_compute in Hin|]).
    by apply elem_of_nil in He. }
  split_and!; auto. intros Hin%list_elem_of_In%(proj1 (forallb_forall _ _) Hs). by vm_compute in Hin.
Qed.

(** Seed addresses of visible ASCII characters, separated by commas and with
    any Unicode white space around them, are passed to the cluster join as they
    are and in order. *)
Theorem seeds_read ts :
  Forall typed_ok ts → seed_peers (string_of (with_commas ts)) = (λ t, string_of t.1.2) <$> ts.
Proof.
  intros Hts. unfold seed_peers. rewrite bytes_of_string_of.
  transitivity (string_of <$> ((λ t : typed, t.1.2) <$> ts)); [|by rewrite <- list_fmap_compose]. f_equal.
  destruct ts as [|t ts]; [reflexivity|].
  assert (Http.split_on x2c (with_commas (t :: ts)) = type_seed <$> t :: ts) as ->.
  { revert t Hts. induction ts as [|t' ts IH]; intros t Hts; inversion_clear Hts as [|? ? Ht Hts'].
    - cbn [with_commas]. by rewrite Http.split_none by (by apply no_comma).
    - change (with_commas (t :: t' :: ts)) with (type_seed t ++ x2c :: with_commas (t' :: ts)).
      rewrite Http.split_app by (by apply no_comma). by rewrite IH. }
  induction Hts as [|t0 l (Hs & Hb & Ha) _ IH]; [done|]. rewrite !fmap_cons. unfold type_seed at 1.
  rewrite TrimSpace_seed by done. rewrite filter_cons_True by apply Hs. by rewrite IH.
Qed.

(** ** The default data directory *)

(** A name with the suffix is an ordinary one. *)
Lemma plain_suffixed e : no_slash e = true → plain (e +:+ data_suffix) = true ∧ e +:+ data_suffix ≠ e.
Proof.
  intros He. assert (String.length (e +:+ data_suffix) = String.length e + 12) as Hl by apply Cas.length_string_app.
  split; [|intros E; rewrite E in Hl; lia].
  apply Cas.plain_long; [by rewrite Cas.no_slash_app, He|rewrite Hl; lia].
Qed.

(** The elements of the default data directory: the last element of the sync
    directory is extended, or a new one is made when there is none. *)
Lemma default_elems dir :
  ∃ es0 x, rooted (Clean dir +:+ data_suffix) = rooted dir
    ∧ elems (Clean dir +:+ data_suffix) = es0 ++ [x] ∧ plain x = true
    ∧ ((elems dir = [] ∧ es0 = []) ∨ ∃ e, elems dir = es0 ++ [e] ∧ x ≠ e ∧ (e = ".." ∨ plain e = true)).
Proof.
  pose proof (elems_normal dir) as Hn. unfold Clean. set (r := rooted dir) in *.
  assert (∀ es0 x, plain x = true → normal r es0 →
    rooted (render r (es0 ++ [x])) = r ∧ elems (render r (es0 ++ [x])) = es0 ++ [x]) as Hr.
  { intros es0 x Hx H0. assert (normal r (es0 ++ [x])) by (by apply normal_app, Forall_singleton).
    by rewrite rooted_render, elems_render. }
  destruct (elems dir) as [|e es0 _] using rev_ind.
  - set (x := (if r then "" else ".") +:+ data_suffix).
    assert (render r [] +:+ data_suffix = render r [x]) as -> by (by destruct r).
    assert (plain x = true) as Hx by (by destruct r).
    destruct (Hr [] x Hx Hn) as [H1 H2]. exists [], x. split_and!; [done..|by left].
  - assert (no_slash e = true) as He.
    { apply normal_no_slash, Forall_app in Hn as [_ Hn]. by inversion Hn. }
    destruct (plain_suffixed e He) as [Hx Hne].
    assert (render r (es0 ++ [e]) +:+ data_suffix = render r (es0 ++ [e +:+ data_suffix])) as ->.
    { unfold render. destruct r; [by rewrite <- join_extend|].
      destruct es0; [done|]. exact (join_extend (_ :: _) e data_suffix). }
    assert (normal r es0 ∧ (e = ".." ∨ plain e = true)) as [H0 Hcase].
    { destruct Hn as (k & ps & E & Hps & Hk). destruct ps as [|p ps _] using rev_ind.
      - rewrite app_nil_r in E. destruct k as [|k]; [by destruct es0|].
        rewrite replicate_S_end in E. apply app_inj_tail in E as [-> ->].
        split; [|by left]. exists k, []. rewrite app_nil_r. split_and!; [done..|]. intros ?%Hk. lia.
      - rewrite app_assoc in E. apply app_inj_tail in E as [-> ->]. apply Forall_app in Hps as [Hps Hp].
        split; [by exists k, ps|right; by inversion Hp]. }
    destruct (Hr es0 _ Hx H0) as [H1 H2]. exists es0, (e +:+ data_suffix). split_and!; [done..|].
    right. by exists e.
Qed.

(** No [..] is left on the way from an absolute directory. *)
Lemma rooted_stack st es :
  Forall (λ e, plain e = true) st → Forall (λ e, no_slash e = true) es →
  Forall (λ e, plain e = true) (foldl (clean_step true) st es).
Proof.
  intros Hst Hes. revert st Hst. induction Hes as [|e es He _ IH]; intros st Hst; [done|]. cbn [foldl].
  apply IH. rewrite <- (rev_involutive (clean_step true st e)).
  apply List.Forall_rev, normal_rooted, clean_step_normal; [done|]. by apply normal_plain, List.Forall_rev.
Qed.

(** The guard of [NewDaemon] lets the default data directory pass unless the
    sync directory has no last name to extend. *)
Definition nameless (dir : string) : Prop := elems dir = [] ∨ last (elems dir) = Some "..".

Lemma default_guard wd dir :
  rooted wd = true →
  Quiet.isSubPath (Ok wd) dir (Clean dir +:+ data_suffix) = bool_decide (nameless dir).
Proof.
  intros Hwd. destruct (default_elems dir) as (es0 & x & Hroot & Hel & Hx & Hcase).
  destruct (Abs_elems wd dir Hwd) as (b & Hb & _ & Eb).
  destruct (Abs_elems wd (Clean dir +:+ data_suffix) Hwd) as (c & Hc & _ & Ec).
  rewrite (Quiet.isSubPath_prefix wd _ _ b c) by done. rewrite Eb, Ec, Hroot, Hel.
  set (st := if rooted dir then [] else rev (elems wd)).
  assert (Forall (λ e, plain e = true) st) as Hst.
  { unfold st. destruct (rooted dir); [done|]. apply List.Forall_rev, normal_rooted.
    rewrite <- Hwd. apply elems_normal. }
  rewrite foldl_app. cbn [foldl]. rewrite clean_step_plain by done. cbn [rev].
  apply bool_decide_ext. unfold nameless. destruct Hcase as [[-> ->]|(e & -> & Hne & He)].
  - cbn [foldl]. split; [by left|intros _; by exists [x]].
  - rewrite foldl_app, last_snoc. cbn [foldl].
    assert (Forall (λ e, plain e = true) (foldl (clean_step true) st es0)) as HX.
    { apply rooted_stack; [done|]. pose proof (elems_normal (Clean dir +:+ data_suffix)) as Hn.
      rewrite Hel in Hn. by apply normal_no_slash, Forall_app in Hn as [Hn _]. }
    set (X := foldl (clean_step true) st es0) in *. destruct He as [->|He].
    + split; [by right|intros _]. destruct X as [|t X]; [by eexists|]. inversion_clear HX as [|? ? Ht _].
      apply plain_spec in Ht as (_ & _ & Ht & _). unfold clean_step.
      rewrite decide_False by (by intros [?|?]). rewrite decide_True, decide_False by done.
      cbn [rev]. rewrite <- app_assoc. by eexists.
    + rewrite clean_step_plain by done. cbn [rev]. apply plain_spec in He as (_ & _ & He & _). split.
      * intros [k Hk]. rewrite <- app_assoc in Hk. apply app_inv_head in Hk. by injection Hk.
      * intros [E|E]; [by destruct es0|by simplify_eq].
Qed.

Lemma default_apart dir :
  ¬ nameless dir →
  ¬ elems dir `prefix_of` elems (Clean dir +:+ data_suffix)
  ∧ ¬ elems (Clean dir +:+ data_suffix) `prefix_of` elems dir.
Proof.
  intros Hn. destruct (default_elems dir) as (es0 & x & _ & -> & _ & [[E _]|(e & -> & Hne & _)]).
  - by destruct Hn; left.
  - split; intros [k Hk]; rewrite <- app_assoc in Hk; apply app_inv_head in Hk; by injection Hk.
Qed.

(** ** The start *)

Section start.
Context `{B : Bolt} `{F : FastCDC} `{S : SortSlice}.

(** What is known of a daemon that serves. *)
Lemma main_serving o su w d ds w' :
  main o su w = (Serving d ds, w') →
  missing_flags o = false ∧ ds = Watcher.watch_root (su_add su) (o_dir o) (su_tree su)
  ∧ ∃ d0, NewDaemon (su_cwd su) (o_name o) (o_dir o) (data_dir o) (o_http o) (o_grpc o) (o_gossip o)
        (su_bolt su) (su_watcher su) w = (Ok d0, w')
      ∧ dstep d0 d.
Proof.
  unfold main. destruct (missing_flags o); [done|].
  destruct (NewDaemon _ _ _ _ _ _ _ _ _ w) as [[d0|e] w1] eqn:EN; [|done].
  destruct (Daemon.Start _ _ _ d0) as [[[]|e] d1] eqn:ES; [|done]. intros H. simplify_eq.
  split_and!; [done..|]. exists d0. split; [done|]. by eapply dstep_start.
Qed.

(** When its flags and directories pass and nothing fails, the program
    serves. *)
Lemma main_serves o su wd w b ms :
  missing_flags o = false → su_cwd su = Ok wd → Quiet.isSubPath (Ok wd) (o_dir o) (data_dir o) = false →
  os_io w = [] → su_bolt su = Ok b → su_watcher su = Ok tt → su_create su = Ok ms → su_join su = Ok ms →
  ∃ d, main o su w = (Serving d (Watcher.watch_root (su_add su) (o_dir o) (su_tree su)), w)
    ∧ Name d = o_name o ∧ BaseDir d = o_dir o ∧ CAS d = Cas.MkCAS (data_dir o).
Proof.
  intros Hm Hcwd Hg Hio Hb Hw Hc Hj. unfold main, NewDaemon. rewrite Hm, Hcwd, Hg.
  unfold Cas.NewCASBlobStore, mbind, stM_bind, os_MkdirAll, mret, stM_ret.
  rewrite !os_next_quiet by done. rewrite Hb, Hw, Hc, Hj. unfold Daemon.Start, Discovery.Start.
  destruct (seed_peers (o_seeds o)); eexists; by split_and!.
Qed.

(** A node that serves with the default data directory. *)
Lemma default_serving o su wd w d ds w' :
  o_data o = "" → su_cwd su = Ok wd → rooted wd = true → main o su w = (Serving d ds, w') →
  ¬ nameless (o_dir o) ∧ data_dir o = Clean (o_dir o) +:+ data_suffix.
Proof.
  intros Hdata Hcwd Hwd (_ & _ & d0 & HN & _)%main_serving.
  assert (data_dir o = Clean (o_dir o) +:+ data_suffix) as Hdd by (unfold data_dir; by rewrite decide_True).
  split; [|done]. intros Hn. unfold NewDaemon in HN.
  by rewrite Hcwd, Hdd, default_guard, bool_decide_eq_true_2 in HN by done.
Qed.

(** C33. Without [-data] the program starts on every named directory: when the
    required flags are given and the calls it makes succeed, it serves, with the
    store next to the sync directory and neither inside the other; a sync
    directory that has no last name, such as the root, the working directory
    given as a dot, or a parent given by dots, is refused. *)
Theorem default_start o su wd w b ms :
  missing_flags o = false → o_data o = "" → su_cwd su = Ok wd → rooted wd = true → os_io w = [] →
  su_bolt su = Ok b → su_watcher su = Ok tt → su_create su = Ok ms → su_join su = Ok ms →
  if decide (nameless (o_dir o))
  then ∃ e, main o su w = (Fatal (EWrap "failed to initialize daemon: %v" e), w)
  else ∃ d ds w', main o su w = (Serving d ds, w') ∧ os_files w' = os_files w
    ∧ Name d = o_name o ∧ BaseDir d = o_dir o ∧ dirs_apart d
    ∧ Cas.baseDir (CAS d) = Clean (o_dir o) +:+ data_suffix.
Proof.
  intros Hm Hdata Hcwd Hwd Hio Hb Hw Hc Hj.
  assert (data_dir o = Clean (o_dir o) +:+ data_suffix) as Hdd by (unfold data_dir; by rewrite decide_True).
  case_decide as Hn.
  - unfold main, NewDaemon. rewrite Hm, Hdd, Hcwd, default_guard, bool_decide_eq_true_2 by done. by eexists.
  - destruct (main_serves o su wd w b ms) as (d & E & H1 & H2 & H3);
      rewrite ?Hdd, ?default_guard, ?bool_decide_eq_false_2 by done; [done..|].
    eexists _, _, _. split; [exact E|]. unfold dirs_apart. rewrite H2, H3, Hdd.
    split_and!; try done; by apply default_apart.
Qed.

(** Started without [-data] on an absolute directory, a node that serves
    keeps its object store sound forever and loses no object, whatever it meets
    from outside, while the identifiers it syncs stay below its directory. *)
Theorem default_safe o su wd w d ds w' d' :
  o_data o = "" → su_cwd su = Ok wd → rooted wd = true → rooted (o_dir o) = true →
  main o su w = (Serving d ds, w') → Cas.cas_inv (Cas.MkCAS (data_dir o)) w → rtc nstep d d' →
  Cas.cas_inv (CAS d') (d_os d') ∧ BaseDir d' = o_dir o
  ∧ ∀ h, Cas.has_object (CAS d) (d_os d) h → Cas.has_object (CAS d') (d_os d') h.
Proof.
  intros Hdata Hcwd Hwd Hdir Hmain Hinv Hrun.
  destruct (default_serving _ _ _ _ _ _ _ Hdata Hcwd Hwd Hmain) as [Hn Hdd].
  destruct (main_serving _ _ _ _ _ _ Hmain) as (_ & _ & d0 & HN & Hstart). rewrite Hcwd in HN.
  destruct (default_elems (o_dir o)) as (_ & _ & Hr & _).
  assert (rooted (data_dir o) = true) as Hrd by (by rewrite Hdd, Hr).
  destruct (NewDaemon_apart _ _ _ _ _ _ _ _ _ _ _ _ Hwd Hdir Hrd HN) as (_ & Hb & Hc & _ & Hs & _ & Hf).
  assert (dirs_apart d0) as Hap by (unfold dirs_apart; rewrite Hb, Hc, Hdd; by apply default_apart).
  assert (nstep d0 d) as Hd by (left; split; [intros id ps; by rewrite Hs, lookup_empty|done]).
  destruct (nstep_objects _ _ Hd Hap) as (Hsame & Hinv1 & _).
  destruct (run_objects d d' Hrun (same_dirs_apart _ _ Hsame Hap)) as ((_ & Hb' & Hc') & Hinv' & Hobj).
  destruct Hsame as (_ & Hb1 & Hc1). rewrite Hc', Hb', Hb1, Hb. split_and!; [|done|done]. apply Hinv'.
  rewrite Hc1. apply Hinv1. destruct (CAS d0) as [base]. simpl in Hc. subst base. by eapply Cas.cas_inv_files.
Qed.

(** C32. The daemon does not take its own store for user files: without [-data],
    whatever the file system reports, the watcher never calls back for a file in
    or below the data directory. *)
Theorem store_unwatched o su wd w d ds w' now tr s u path st :
  o_data o = "" → su_cwd su = Ok wd → rooted wd = true → Watcher.well_named (su_tree su) = true →
  main o su w = (Serving d (Ok ds), w') →
  Watcher.wrun (λ p, bool_decide (p ∈ ds)) (Watcher.NewLoop now) tr s →
  elems (data_dir o) `prefix_of` elems (Dir path) → (u, Watcher.Look path st) ∉ tr.
Proof.
  intros Hdata Hcwd Hwd Hnames Hmain Hrun Hpre Hin.
  destruct (default_serving _ _ _ _ _ _ _ Hdata Hcwd Hwd Hmain) as [Hn Hdd].
  destruct (main_serving _ _ _ _ _ _ Hmain) as (_ & Hds & _).
  destruct (Watcher.run_look _ _ _ _ _ _ _ Hrun Hin) as (_ & _ & _ & _ & Hw & _).
  apply bool_decide_eq_true in Hw. symmetry in Hds.
  apply (Watcher.watched_below _ _ _ _ _ Hds Hnames) in Hw.
  destruct (default_apart _ Hn) as [H1 H2]. rewrite Hdd in Hpre.
  by destruct (prefix_weak_total _ _ _ Hw Hpre).
Qed.

(** The guard looks in one direction only: a sync directory inside the data
    directory is accepted, even the one of the objects, so that every stored
    object is a file of the synced tree. *)
Theorem objects_synced o su wd w b ms :
  missing_flags o = false → o_data o ≠ "" → o_dir o = Join [o_data o; "objects"] → rooted (o_data o) = true →
  su_cwd su = Ok wd → rooted wd = true → os_io w = [] →
  su_bolt su = Ok b → su_watcher su = Ok tt → su_create su = Ok ms → su_join su = Ok ms →
  ∃ d ds w', main o su w = (Serving d ds, w')
    ∧ ∀ h, elems (Cas.object_path (CAS d) h) = elems (BaseDir d) ++ [Cas.object_name h].
Proof.
  intros Hm Hdata Hdir Hr Hcwd Hwd Hio Hb Hw Hc Hj.
  assert (elems (o_dir o) = elems (o_data o) ++ ["objects"]) as Hel by (rewrite Hdir; by apply Join_elems_local).
  assert (data_dir o = o_data o) as Hdd by (unfold data_dir; by rewrite decide_False).
  assert (rooted (o_dir o) = true) as Hrd.
  { rewrite Hdir, Join_elems, rooted_render by
      (first [done|apply normal_app; [apply elems_normal|by apply local_id_plain]]).
    done. }
  destruct (main_serves o su wd w b ms) as (d & E & _ & H2 & H3); [done..| |done|done|done|done|done|].
  - rewrite Hdd, (Quiet.isSubPath_prefix wd _ _ (Clean (o_dir o)) (Clean (o_data o)))
      by (done || unfold Abs; by rewrite ?Hrd, ?Hr).
    unfold Clean. rewrite !elems_render, Hel by apply elems_normal. apply bool_decide_eq_false_2.
    intros [k Hk]. apply (f_equal length) in Hk. rewrite !length_app in Hk. cbn [length] in Hk. lia.
  - eexists _, _, _. split; [exact E|]. intros h. rewrite Cas.object_path_elems, H2, H3, Hdd, Hel.
    by rewrite <- app_assoc.
Qed.

End start.

End Main.

(** ** A command line *)

Module MainExamples.
Import Meta Discovery Node DaemonExamples Main.
Import Daemon (Daemon, BaseDir, CAS, d_os, HandleFileChange).

#[local] Existing Instances map_bolt fixed_cdc insertion_sort.

Definition ex_options (dir data : string) : options :=
  MkOptions "a" dir data 9100 9000 7946 8080 "10.0.0.2:7946" "k".

Definition ex_tree : Watcher.tree :=
  Watcher.TDir [("docs", Watcher.TDir [("x", Watcher.TFile)]); ("y", Watcher.TFile)].

Definition ex_startup : startup (B := map_bolt) :=
  MkStartup (Ok "/w") (Ok None) (Ok tt) (Ok tt) (Ok []) (Ok []) (λ _, true) ex_tree.

Definition ex_disk : os := Os {[ "/s/x" := ex_hi ]} [].

Definition ex_seeds : list typed :=
  [([[x20]; [xe2; x80; x83]], bytes_of "10.0.0.2:7946", []); ([], bytes_of "h:1", [[x0a]; [xc2; xa0]])].

Lemma seeds_read_witness : seed_peers (string_of (with_commas ex_seeds)) = ["10.0.0.2:7946"; "h:1"].
Proof.
  rewrite seeds_read; [reflexivity|].
  repeat constructor; try discriminate; apply (bool_decide_unpack _); vm_compute; exact I.
Defined.

(** The node of the command line [-name a -dir /s -secret k]. *)
Definition ex_served : Daemon map_bolt :=
  match (main (ex_options "/s" "") ex_startup ex_disk).1 with
  | Serving d _ => d
  | Fatal _ => ex_node "" "" "" 0 ∅
  end.

Lemma ex_main : main (ex_options "/s" "") ex_startup ex_disk = (Serving ex_served (Ok ["/s"; "/s/docs"]), ex_disk).
Proof.
  destruct (main_serves (ex_options "/s" "") ex_startup "/w" ex_disk bkt_empty []
    eq_refl eq_refl eq_refl eq_refl eq_refl eq_refl eq_refl eq_refl) as (d & E & _).
  unfold ex_served. rewrite E. reflexivity.
Qed.

Lemma default_start_witness :
  ∃ d ds w', main (ex_options "/s" "") ex_startup ex_disk = (Serving d ds, w') ∧ dirs_apart d
    ∧ Cas.baseDir (CAS d) = "/s-nusync-data".
Proof.
  destruct (default_start (ex_options "/s" "") ex_startup "/w" ex_disk bkt_empty []
    eq_refl eq_refl eq_refl eq_refl eq_refl eq_refl eq_refl eq_refl eq_refl)
    as (d & ds & w' & H1 & _ & _ & _ & H2 & H3).
  exists d, ds, w'. split; [exact H1|]. split; [exact H2|exact H3].
Defined.

Lemma default_safe_witness :
  Cas.cas_inv (CAS (HandleFileChange 0 "/s/x" ex_served)) (d_os (HandleFileChange 0 "/s/x" ex_served)).
Proof.
  refine (proj1 (default_safe (ex_options "/s" "") ex_startup "/w" ex_disk _ _ _ _
    eq_refl eq_refl eq_refl eq_refl ex_main _ _)).
  - intros h c Hc. cbn [os_files ex_disk] in Hc. apply lookup_singleton_Some in Hc as [Hc _].
    apply (f_equal elems) in Hc. rewrite Cas.object_path_elems in Hc. clash Hc.
  - apply rtc_once. left. split; [|constructor]. intros id peers Hid. discriminate Hid.
Defined.

Definition ms (n : Z) : Z := (n * Millisecond)%Z.

Definition ex_trace : list (Z * Watcher.label) :=
  [(ms 301, Watcher.Look "/s/x" Watcher.StatFile); (ms 301, Watcher.Lock "/s/x"); (ms 300, Watcher.Expire 0);
   (ms 0, Watcher.Event "/s/x" [Watcher.Write])].

Lemma store_unwatched_witness :
  (ms 301, Watcher.Look "/s-nusync-data/objects/ab" Watcher.StatFile) ∉ ex_trace.
Proof.
  assert (∃ s, Watcher.wrun (λ p, bool_decide (p ∈ ["/s"; "/s/docs"])) (Watcher.NewLoop 0) ex_trace s) as [s Hs].
  { eexists. repeat (eapply Watcher.wrun_snoc); [constructor|..].
    - by apply Watcher.step_event.
    - by apply (Watcher.step_expire _ _ _ 0 "/s/x" (ms 300)).
    - by apply (Watcher.step_lock _ _ _ 0 "/s/x").
    - by apply (Watcher.step_look _ _ _ 0 "/s/x"). }
  apply (store_unwatched (ex_options "/s" "") ex_startup "/w" ex_disk ex_served ["/s"; "/s/docs"] ex_disk 0 ex_trace s);
    [reflexivity|reflexivity|reflexivity|reflexivity|exact ex_main|exact Hs|].
  exists ["objects"]. reflexivity.
Defined.

Lemma objects_synced_witness :
  ∃ d ds w', main (ex_options "/d/objects" "/d") ex_startup ex_disk = (Serving d ds, w')
    ∧ ∀ h, elems (Cas.object_path (CAS d) h) = elems (BaseDir d) ++ [Cas.object_name h].
Proof.
  apply (objects_synced (ex_options "/d/objects" "/d") ex_startup "/w" ex_disk bkt_empty []);
    first [discriminate|reflexivity].
Defined.

End MainExamples.
